(* ===== verification/_CoqProject ===== *)
-Q . S2P
Prelude.v
JsNumber.v
JsString.v
JsStringFacts.v
JsCollection.v
Json.v
JsonFacts.v
JsonPretty.v
SharedTypes.v
Nostr.v
CryptoModel.v
Platform.v
IdentityStore.v
LocalLists.v
NostrIdentity.v
CircleKeys.v
HomeLocation.v
Backup.v
BunkerStore.v
Signer.v
CircleLocation.v
NostrAuth.v
EventsSlice.v
CirclesSlice.v
ChatSlices.v
Acoustic.v
SmallSlices.v
ChatRules.v
GiftWrap.v
ChatStore.v
Web.v
Relay.v
ChatSync.v
InboxSync.v
Api.v
Sockets.v
CircleSocket.v
Invite.v
CircleSync.v
CircleDashboard.v
Sharing.v
Geo.v
Settings.v
HomeRoute.v
DeviceHooks.v
ChatPages.v
Reports.v
MapPage.v
MapSearch.v
Listening.v
Push.v
Panels.v
Boot.v
MapMarks.v
Shell.v
Photos.v
Subscriptions.v
