(* ===== verification/Prelude.v ===== *)
(** * Verification of the SentinelMesh PWA

    SentinelMesh is a safety map.  Its web application, [src/apps/pwa/src], reads incidents
    from a gateway over HTTP and WebSockets, signs what it sends with a Nostr key that it
    keeps in the browser (or with a remote or extension signer), shares the user's position
    with small circles under keys that the gateway never sees, and carries public channels
    and private messages over Nostr relays.  This development models that application: its
    stores, its services, its hooks, and the handlers of its pages that change state.

    ** How the model is built

    A pure function of the source is a function here.  An [async] function, or one that
    reads or writes anything shared, is a [prog W A] (below): a state-and-exception program
    whose state before an error is kept, as in the source.  [W] is [Platform.World], the
    device (IndexedDB databases, [localStorage], the clock, the draws of randomness, the
    module-level variables of the services); [Web.App], the device and the Redux store; or
    the screen of one page, which adds that page's React state.  Code that React or the
    browser runs at its own time (sockets, timers, the geolocation watch, a publisher in
    flight, a search that is answered late) is a step relation with its reachable states.

    - Values.  A number is a [JsNumber.num]: a double as an exact rational, an infinity or
      NaN, every operation rounded to nearest even.  Strings are strings of code units below
      256; a literal of the user interface with a longer character stands as its UTF-8
      bytes.  JSON is parsed and printed by [Json] and [JsonPretty], whose round trips are
      proved for values whose numbers print and parse back ([num_ok]; safe integers do).
      Objects used as maps are [gmap]s, or association lists where order is observable.
    - A value that arrives as JSON is read at its declared type: a mistyped optional field
      reads as absent, and a response that is not of the declared shape is rejected before
      it is used.
    - Storage fails by a schedule: each IndexedDB request, and each [localStorage] write,
      takes the next entry of [Platform.faults] and is rejected when it says so.  Theorems
      about errors quantify over every schedule; where storage answers the schedule is
      empty.
    - The clock does not advance inside a call.  Calls that the source runs concurrently
      inside one function run in order, except where their interleaving is the subject, and
      then it is a step relation.  Code that the source guards with a flag that may change
      during an [await] (an aborted signal, a page that was left) takes that flag as an
      argument.
    - Code outside [src] is a class whose fields are its operations and whose laws are its
      documented behaviour: WebCrypto ([Aes], [Sha256], [Random], [Pbkdf2]), [nostr-tools]
      ([NostrTools], [Nip19], [Bunkers], [Pool]), URL parsing ([UrlParser], [Page]), [fetch]
      ([Fetch]), the trigonometry of [Math] ([MathLib], [Trig]).  [CryptoModel] gives toy
      instances that satisfy the laws; every witness runs on them.
    - Recursion that is not structural takes fuel: the digits of a number ([digits_fuel],
      the logarithm of the number), the shortest decimal of a double (17 digits suffice, and
      exponents stay within the 700 steps of [find_exp]), and the JSON parser (the length of
      its input, which every recursive call shortens).

    ** The files

    - Language: [JsNumber], [JsString], [JsStringFacts], [JsCollection] (arrays, sets, maps,
      stable sort), [Json], [JsonFacts], [JsonPretty].
    - Foundations: [SharedTypes] ([src/shared/types]), [Nostr] (events, templates, the
      classes), [CryptoModel] (their instances), [Platform] (the device), [Web] (fetch,
      addresses, [config/features.ts], [config/chat.ts], dates, the page).
    - Identity: [IdentityStore] ([services/identityStore.ts]: the encrypted vault, scoped
      records, fingerprints), [NostrIdentity] and [NostrAuth] ([services/nostrService.ts]),
      [BunkerStore] and [Signer] ([services/signerService.ts]), [Backup]
      ([services/backupService.ts]), [HomeLocation], [LocalLists].
    - Circles: [CircleKeys] and [CircleLocation] ([services/e2eeService.ts]), [CircleSocket]
      ([services/locationPublisher.ts], [services/circleWebSocket.ts]), [CircleSync]
      ([hooks/useCircles.ts]), [Invite], [CircleDashboard] and [Sharing]
      ([components/FamilyCircleDashboard.tsx]).
    - Stores: [EventsSlice], [CirclesSlice], [ChatSlices], [Acoustic] and [SmallSlices]
      ([store/*.ts]; the root store is [SmallSlices.Root]).
    - Chat: [ChatRules] (validation, identities of conversations, NIP-29), [GiftWrap]
      (NIP-17 and NIP-59), [ChatStore] (the database, moderation, the outbox), [Relay],
      [ChatSync] (public channels), [InboxSync] (private messages), [Subscriptions]
      ([services/relay/relayPool.ts], [relayClient.ts]: what an open page receives).
    - Gateway: [Api] (every HTTP client), [Sockets] (the live feed and the viewport socket).
    - The map: [Geo] (distances, the nearest threat, proximity alerts, routes),
      [DeviceHooks] (position, viewport), [HomeRoute] ([components/HomeRoutePanel.tsx]),
      [MapPage] (clusters, filters, camera commands, [pages/LiveMapPage.tsx],
      [pages/AlertsPage.tsx], [pages/InsightsPage.tsx]), [MapSearch]
      ([components/map/MapSearch.tsx]), [MapMarks] (what is drawn on the map).
    - The device: [Listening] ([public/audio-processor.js], [services/audioCapture.ts],
      [hooks/useAcousticDetection.ts]), [Push] ([hooks/usePushSubscription.ts],
      [components/AlertPerimeter.tsx]), [Boot] ([main.tsx],
      [components/shell/AppShell.tsx], the service worker and its caches).
    - Pages: [ChatPages] ([pages/ChatPage.tsx], the three conversation pages, the
      composer), [Reports] ([components/ReportSubmit.tsx], [components/ReportList.tsx]),
      [Photos] ([services/photoService.ts]), [Settings] ([pages/SettingsPage.tsx]), [Panels] (NIP-05,
      the empty dashboard, the sidebar, the circle layer, the moderation menu), [Shell]
      ([router.tsx], [components/shell], the ledger, the acoustic alert, overlays).

    ** What the theorems show

    - The vault: a save is all or nothing under every schedule of rejections; an identity is
      created once; adding a circle key touches no other entry.  A rejected read at startup,
      and an import that is refused, replace the identity all the same: both are proved.
    - The settings page, whatever storage does: an export that is announced can be restored
      with its passphrase (but its vault id may be missing, and the badge may deny it), and
      what the page says after a restore is what happened, circle by circle.
    - Circle keys stay sealed and come from the owner only; a location is accepted only
      if an active member signed it lately, for this circle and epoch; what a member shares
      is what the others see, and a location that is shown does not go back while the page
      is mounted.  The request of a rekey reaches exactly the active members, an invited
      member reads the circle, an activation that fails has replaced the key.  While the
      page says that sharing is on, one publisher runs; once it says off nothing more starts
      to publish, but a publish under way still sends the position: proved too.
    - Signing never falls back to another identity, a failing bunker is closed, the identity
      of a session is what the bunker answered in it, and a reconnected bunker must still be
      the identity it was.
    - Private messages are authentic, reach every member of a room, and are shown once
      (unless storing one is rejected, when it is lost: proved too); channel logs hold
      validated events only and converge in any order of arrival; the outbox never drops a
      message that no relay took.  What arrives after the stored events is not received
      until the page is opened again, as the subscriptions are closed by then.
    - The stores keep their invariants under every action, and no event is replaced by a
      version that is known to be older (one without a date does replace it).
    - The viewport socket's subscription matches what the map shows; both feeds read an event
      alike; a signed request authorises exactly what it sends.
    - Invitations survive being pasted; alerts are justified and raised once; suggestions
      are for the text in the box; the notices about the home are true; the device is
      located exactly while the page shows it.
    - A subscription to pushed alerts sends a coarse position and a well-formed perimeter
      only; in a photo that is uploaded every face that was found is pixelated, if its canvas
      could be had (otherwise not: proved too); a microphone that was opened is released when the overlay is closed; the alert
      of a detection goes away in time.
    - The start: an effect that runs before the stored identity is loaded uses another key,
      which that load then replaces while the inbox keeps reading for the old one; behind
      the service worker a failed request for the statistics looks like an answer.  Both are
      proved of the code as it is.
    - Every cluster is drawn with the counts of its events, every route once, every member
      who shares and no other; every link of the shell leads to a page of the router.

    ** What is not modelled

    The gateway and [sentinel-core] (Rust) and the signal service (Python): the client is
    verified against any answers they may give.  Layout, styling, and the inside of the
    libraries: the map, the charts, the canvas, the TensorFlow models (a window of sound is
    the scores it gets, a photo the faces that are found in it).  The opening of IndexedDB
    databases (a database is open, and its requests fail by the schedule); build options
    other than the worker's caches; tests.  [hooks/useAcousticEngine.ts] repeats
    [hooks/useAcousticDetection.ts] without being used; the components that only list what
    a modelled store holds, or that no page renders, have no state of their own. *)

From stdpp Require Export base gmap sets strings sorting numbers list.
Export list_basics.list list_relations.list list_monad.list list_misc.list.

#[export] Set Warnings "-clear-no-such-hyp".

Declare Scope sm_scope.
Delimit Scope sm_scope with sm.
Open Scope sm_scope.

Create HintDb sentinel.
Create HintDb preserves.
Create Rewrite HintDb wp.

(** ** Outcomes: the value of a call, or the message of the [Error] it throws *)

Inductive outcome (A : Type) : Type :=
| Ok (a : A)
| Throw (msg : string).
Arguments Ok {A} _.
Arguments Throw {A} _.

#[export] Instance outcome_eq_dec A `{EqDecision A} : EqDecision (outcome A).
Proof. solve_decision. Defined.

#[export] Instance outcome_ret : MRet outcome := λ A a, Ok a.
#[export] Instance outcome_bind : MBind outcome := λ A B f m,
  match m with Ok a => f a | Throw e => Throw e end.
#[export] Instance outcome_fmap : FMap outcome := λ A B f m,
  match m with Ok a => Ok (f a) | Throw e => Throw e end.

(** ** Effectful code: a state [W] threaded through calls that may throw

    An [async] function of the source is a [prog]: it reads and writes the state
    [W], and either resolves with a value or rejects with an error.  The state
    reached before the error is kept, as in the source. *)

Definition prog (W A : Type) : Type := W → outcome A * W.

#[export] Instance prog_ret W : MRet (prog W) := λ A a w, (Ok a, w).
#[export] Instance prog_bind W : MBind (prog W) := λ A B f m w,
  match m w with (Ok a, w') => f a w' | (Throw e, w') => (Throw e, w') end.
#[export] Instance prog_fmap W : FMap (prog W) := λ A B f m w,
  match m w with (Ok a, w') => (Ok (f a), w') | (Throw e, w') => (Throw e, w') end.

Definition throw {W A} (msg : string) : prog W A := λ w, (Throw msg, w).
Definition gets {W A} (f : W → A) : prog W A := λ w, (Ok (f w), w).
Definition modify {W} (f : W → W) : prog W unit := λ w, (Ok tt, f w).
Definition lift_outcome {W A} (o : outcome A) : prog W A := λ w, (o, w).

(** [try { m } catch (e) { h(e) }] *)
Definition try_catch {W A} (m : prog W A) (h : string → prog W A) : prog W A :=
  λ w, match m w with (Ok a, w') => (Ok a, w') | (Throw e, w') => h e w' end.

(** [try { m } finally { f }]: an error of [f] replaces the outcome of [m]. *)
Definition try_finally {W A} (m : prog W A) (f : prog W unit) : prog W A :=
  λ w, let '(o, w') := m w in
       match f w' with (Ok _, w'') => (o, w'') | (Throw e, w'') => (Throw e, w'') end.

(** [for (const x of xs) { body(x) }] *)
Fixpoint for_each {W A} (xs : list A) (body : A → prog W unit) : prog W unit :=
  match xs with
  | [] => mret tt
  | x :: xs => _ ← body x; for_each xs body
  end.

(** [for (const x of xs) s = step(s, x)]: a loop that carries a local value *)
Fixpoint for_fold {W A S} (xs : list A) (s : S) (step : S → A → prog W S) : prog W S :=
  match xs with
  | [] => mret s
  | x :: xs => s' ← step s x; for_fold xs s' step
  end.

(** ** Weakest preconditions of effectful code *)

Definition wp {W A} (m : prog W A) (Q : A → W → Prop) (E : string → W → Prop)
    (w : W) : Prop :=
  match m w with (Ok a, w') => Q a w' | (Throw e, w') => E e w' end.

Section wp.
Context {W : Type}.

Lemma wp_ret {A} (a : A) Q E (w : W) : wp (mret a) Q E w ↔ Q a w.
Proof. done. Qed.

Lemma wp_bind {A B} (m : prog W A) (f : A → prog W B) Q E w :
  wp (m ≫= f) Q E w ↔ wp m (λ a, wp (f a) Q E) E w.
Proof. unfold wp, mbind, prog_bind. by destruct (m w) as [[a|e] w']. Qed.

Lemma wp_fmap {A B} (m : prog W A) (f : A → B) Q E w :
  wp (f <$> m) Q E w ↔ wp m (λ a, Q (f a)) E w.
Proof. unfold wp, fmap, prog_fmap. by destruct (m w) as [[a|e] w']. Qed.

Lemma wp_throw {A} msg Q E (w : W) : wp (throw (A:=A) msg) Q E w ↔ E msg w.
Proof. done. Qed.

Lemma wp_gets {A} (f : W → A) Q E w : wp (gets f) Q E w ↔ Q (f w) w.
Proof. done. Qed.

Lemma wp_modify (f : W → W) Q E w : wp (modify f) Q E w ↔ Q tt (f w).
Proof. done. Qed.

Lemma wp_lift_outcome {A} (o : outcome A) Q E (w : W) :
  wp (lift_outcome o) Q E w ↔
  match o with Ok a => Q a w | Throw e => E e w end.
Proof. unfold wp, lift_outcome. by destruct o. Qed.

Lemma wp_try_catch {A} (m : prog W A) h Q E w :
  wp (try_catch m h) Q E w ↔ wp m Q (λ e, wp (h e) Q E) w.
Proof. unfold wp, try_catch. by destruct (m w) as [[a|e] w']. Qed.

Lemma wp_try_finally {A} (m : prog W A) f Q E w :
  wp (try_finally m f) Q E w ↔
  wp m (λ a, wp f (λ _, Q a) E) (λ e, wp f (λ _, E e) E) w.
Proof.
  unfold wp, try_finally. destruct (m w) as [[a|e] w']; by destruct (f w') as [[]].
Qed.

Lemma wp_mono {A} (m : prog W A) (Q Q' : A → W → Prop) (E E' : string → W → Prop) w :
  wp m Q E w → (∀ a w', Q a w' → Q' a w') → (∀ e w', E e w' → E' e w') →
  wp m Q' E' w.
Proof. unfold wp. destruct (m w) as [[a|e] w']; eauto. Qed.

(** Run a call whose outcome is known. *)
Lemma bind_ok {A B} (m : prog W A) (f : A → prog W B) w a w' :
  m w = (Ok a, w') → (m ≫= f) w = f a w'.
Proof. unfold mbind, prog_bind. by intros ->. Qed.

Lemma bind_err {A B} (m : prog W A) (f : A → prog W B) w e w' :
  m w = (Throw e, w') → (m ≫= f) w = (Throw e, w').
Proof. unfold mbind, prog_bind. by intros ->. Qed.

(** The result of a call whose outcome is known. *)
Lemma wp_ok {A} (m : prog W A) Q E w a w' : m w = (Ok a, w') → wp m Q E w → Q a w'.
Proof. unfold wp. by intros ->. Qed.

Lemma wp_err {A} (m : prog W A) Q E w e w' : m w = (Throw e, w') → wp m Q E w → E e w'.
Proof. unfold wp. by intros ->. Qed.

End wp.

#[export] Hint Rewrite @wp_ret @wp_bind @wp_fmap @wp_throw @wp_gets @wp_modify
  @wp_lift_outcome @wp_try_catch @wp_try_finally : wp.

(** ** Invariants of programs *)

Definition preserves {W A} (I : W → Prop) (m : prog W A) : Prop := ∀ w, I w → I (m w).2.

Section preserves.
Context {W : Type} (I : W → Prop).

Lemma preserves_ret {A} (a : A) : preserves I (mret a).
Proof. by intros w. Qed.

Lemma preserves_throw {A} msg : preserves I (throw (A:=A) msg).
Proof. by intros w. Qed.

Lemma preserves_gets {A} (f : W → A) : preserves I (gets f).
Proof. by intros w. Qed.

Lemma preserves_lift_outcome {A} (o : outcome A) : preserves I (lift_outcome o).
Proof. by intros w. Qed.

Lemma preserves_modify f : (∀ w, I w → I (f w)) → preserves I (modify f).
Proof. intros Hf w. apply Hf. Qed.

Lemma preserves_bind {A B} (m : prog W A) (f : A → prog W B) :
  preserves I m → (∀ a, preserves I (f a)) → preserves I (m ≫= f).
Proof.
  intros Hm Hf w Hw. specialize (Hm w Hw). unfold mbind, prog_bind.
  destruct (m w) as [[a|e] w']; [by apply Hf|done].
Qed.

Lemma preserves_try_catch {A} (m : prog W A) h :
  preserves I m → (∀ e, preserves I (h e)) → preserves I (try_catch m h).
Proof.
  intros Hm Hh w Hw. specialize (Hm w Hw). unfold try_catch.
  destruct (m w) as [[a|e] w']; [done|by apply Hh].
Qed.

Lemma preserves_for_each {A} (xs : list A) f :
  (∀ x, preserves I (f x)) → preserves I (for_each xs f).
Proof.
  intros Hf. induction xs as [|x xs IH]; simpl; [apply preserves_ret|]. by apply preserves_bind.
Qed.

Lemma preserves_for_each_in {A} (xs : list A) f :
  (∀ x, x ∈ xs → preserves I (f x)) → preserves I (for_each xs f).
Proof.
  intros Hf. induction xs as [|x xs IH]; simpl; [apply preserves_ret|].
  apply preserves_bind; [apply Hf; set_solver|]. intros _. apply IH. set_solver.
Qed.

Lemma preserves_run {A} (m : prog W A) w o w' : preserves I m → m w = (o, w') → I w → I w'.
Proof. intros Hm Hrun Hw. specialize (Hm w Hw). by rewrite Hrun in Hm. Qed.
End preserves.

#[export] Hint Resolve preserves_ret preserves_throw preserves_gets preserves_lift_outcome
  : preserves.

(** What a call gives, as an equation *)
Lemma wp_cases {W A} (m : prog W A) (Q : A → W → Prop) (E : string → W → Prop) w :
  (∀ x w', m w = (Ok x, w') → Q x w') → (∀ e w', m w = (Throw e, w') → E e w') → wp m Q E w.
Proof. intros HQ HE. unfold wp. destruct (m w) as [[x|e] w'] eqn:Hm; [by apply HQ|by apply HE]. Qed.

Lemma wp_preserves {W A} (I : W → Prop) (m : prog W A) (Q : A → W → Prop) (E : string → W → Prop) w :
  preserves I m → I w → wp m (λ x w', I w' → Q x w') (λ e w', I w' → E e w') w → wp m Q E w.
Proof. intros Hp Hw. specialize (Hp w Hw). unfold wp. destruct (m w) as [[x|e] w']; auto. Qed.

(** A call that resolved ran each of its parts. *)
Lemma bind_inv {W A B} (m : prog W A) (f : A → prog W B) w b w' :
  (m ≫= f) w = (Ok b, w') → ∃ a w1, m w = (Ok a, w1) ∧ f a w1 = (Ok b, w').
Proof. unfold mbind, prog_bind. destruct (m w) as [[a|e] w1]; [by eauto|done]. Qed.

(** Symbolic execution: push [wp] through the code. *)
Ltac wp_run := autorewrite with wp; simpl.

(** Case analysis on the test of the goal, with the booleans reflected. *)
Ltac case_test :=
  match goal with
  | |- context [if ?b then _ else _] => destruct b eqn:?
  | |- context [match ?x with Some _ => _ | None => _ end] => destruct x eqn:?
  | H : context [if ?b then _ else _] |- _ => destruct b eqn:?
  | H : context [match ?x with Some _ => _ | None => _ end] |- _ => destruct x eqn:?
  end.

Ltac reflect_bools :=
  repeat match goal with
  | H : _ && _ = true |- _ => apply andb_true_iff in H; destruct H
  | H : _ || _ = false |- _ => apply orb_false_iff in H; destruct H
  | H : negb _ = true |- _ => apply negb_true_iff in H
  | H : negb _ = false |- _ => apply negb_false_iff in H
  | H : bool_decide _ = true |- _ => apply bool_decide_eq_true in H
  | H : bool_decide _ = false |- _ => apply bool_decide_eq_false in H
  | H : String.eqb _ _ = true |- _ => apply String.eqb_eq in H
  | H : String.eqb _ _ = false |- _ => apply String.eqb_neq in H
  end.

(** A test that throws, as [if (!b) throw new Error(msg)]. *)
Definition check {W} (b : bool) (msg : string) : prog W unit :=
  if b then mret tt else throw msg.

Lemma wp_check {W} b msg Q E (w : W) :
  wp (check b msg) Q E w ↔ if b then Q tt w else E msg w.
Proof. by destruct b. Qed.
#[export] Hint Rewrite @wp_check : wp.

Lemma preserves_check {W} (I : W → Prop) b msg : preserves I (check b msg).
Proof. unfold check. destruct b; [apply preserves_ret|apply preserves_throw]. Qed.
#[export] Hint Resolve preserves_check : preserves.

Lemma check_inv {W} b msg (w : W) u w' : check b msg w = (Ok u, w') → b = true ∧ w' = w.
Proof. unfold check. destruct b; [|done]. by intros [= _ ->]. Qed.

(** Invert the run of a sequence of calls, one call at a time. *)
Ltac run_inv H :=
  let a := fresh "a" in let w := fresh "w" in let H1 := fresh "Hrun" in
  apply bind_inv in H as (a & w & H1 & H).

(** Prove that a program keeps an invariant, call by call. *)
Ltac preserves_tac :=
  repeat first
    [ apply preserves_ret | apply preserves_throw | apply preserves_gets
    | apply preserves_lift_outcome | apply preserves_check
    | solve [eauto 3 with preserves nocore]
    | apply preserves_bind; [|intros ?]
    | apply preserves_try_catch; [|intros ?]
    | apply preserves_for_each; intros ?
    | match goal with
      | |- preserves _ (match ?x with _ => _ end) => destruct x
      end ].

(** Decide the equalities between literals in the goal. *)
Ltac decide_literals :=
  repeat match goal with
  | |- context [decide (?a = ?b)] =>
      let E := fresh in destruct (decide (a = b)) as [E|E];
        [try discriminate E|try (exfalso; apply E; reflexivity)]; clear E
  end.
