(* ===== verification/JsNumber.v ===== *)
(** * JavaScript numbers

    The [number] type of the language: a NaN, two infinities and the finite
    binary64 values, kept as exact rationals.  [rnd] is the rounding of IEEE 754
    (53-bit significand, ties to even, gradual underflow, overflow to infinity);
    every arithmetic operation is the exact result rounded once.  The sign of a
    zero is dropped: no code modelled here observes it.

    [Number.isSafeInteger], [Math.floor], [Math.round], [%] and the comparison
    operators follow the language definition.  The lemmas at the end show that on
    safe integers the operations are exact, which is what the epoch, timestamp
    and expiry computations of the services rely on. *)

From Stdlib Require Import QArith Qround Qabs Lqa Lia Lqa.
From S2P Require Import Prelude.
Close Scope Q_scope.
Local Open Scope Z_scope.

Inductive num : Type :=
| NaN
| Inf (negative : bool)
| Fin (q : Q).

#[export] Instance Q_eq_dec : EqDecision Q.
Proof. solve_decision. Defined.
#[export] Instance num_eq_dec : EqDecision num.
Proof. solve_decision. Defined.

(** ** Rounding *)

(** [n / d] rounded to the nearest integer, ties to even ([n >= 0], [d > 0]). *)
Definition round_half_even (n d : Z) : Z :=
  let q := n / d in
  let r := n mod d in
  match (2 * r ?= d) with
  | Lt => q
  | Gt => q + 1
  | Eq => if Z.even q then q else q + 1
  end.

(** The binary exponent [e] with [2^e <= n/d < 2^(e+1)] ([n], [d] positive). *)
Definition exponent (n d : Z) : Z :=
  let k := Z.log2 n - Z.log2 d in
  if (if 0 <=? k then d * 2 ^ k <=? n else d <=? n * 2 ^ (- k)) then k else k - 1.

(** The exponent of the last significand bit: 53 bits, and never below 2^-1074. *)
Definition ulp_exponent (n d : Z) : Z := Z.max (exponent n d - 52) (-1074).

(** The value of [m * 2^x]. *)
Definition dyadic (m x : Z) : Q :=
  if 0 <=? x then inject_Z (m * 2 ^ x) else Qred (m # Z.to_pos (2 ^ (- x))).

Definition round_pos (n d : Z) : Q :=
  let x := ulp_exponent n d in
  let m := if 0 <=? x then round_half_even n (d * 2 ^ x)
           else round_half_even (n * 2 ^ (- x)) d in
  dyadic m x.

Definition max_finite : Z := 2 ^ 1024.

Definition rnd (q : Q) : num :=
  match Qnum q with
  | 0 => Fin (inject_Z 0)
  | Zpos p =>
      let r := round_pos (Zpos p) (Zpos (Qden q)) in
      if Qle_bool (inject_Z max_finite) r then Inf false else Fin r
  | Zneg p =>
      let r := round_pos (Zpos p) (Zpos (Qden q)) in
      if Qle_bool (inject_Z max_finite) r then Inf true else Fin (Qopp r)
  end.

(** An integer literal (exact below 2^53), and a decimal literal [n / d]. *)
Definition int (n : Z) : num := Fin (inject_Z n).
Definition lit (n : Z) (d : positive) : num := rnd (n # d).

(** ** Classification *)

Definition is_finite (x : num) : bool := match x with Fin _ => true | _ => false end.

Definition is_integer (x : num) : bool :=
  match x with Fin q => Qeq_bool q (inject_Z (Qfloor q)) | _ => false end.

Definition max_safe : Z := 2 ^ 53 - 1.

Definition is_safe_integer (x : num) : bool :=
  match x with
  | Fin q => is_integer x && (Z.abs (Qfloor q) <=? max_safe)
  | _ => false
  end.

(** The integer value of a number that is one ([0] otherwise). *)
Definition to_Z (x : num) : Z := match x with Fin q => Qfloor q | _ => 0 end.

Definition safe_Z (n : Z) : bool := Z.abs n <=? max_safe.

(** ** Comparison: every comparison with a NaN is false *)

Definition num_lt (x y : num) : bool :=
  match x, y with
  | NaN, _ | _, NaN => false
  | Inf true, Inf true => false
  | Inf true, _ => true
  | _, Inf true => false
  | Inf false, _ => false
  | Fin _, Inf false => true
  | Fin p, Fin q => negb (Qle_bool q p)
  end.

(** [===] *)
Definition num_eqb (x y : num) : bool :=
  match x, y with
  | Inf a, Inf b => eqb a b
  | Fin p, Fin q => Qeq_bool p q
  | _, _ => false
  end.

Definition num_le (x y : num) : bool := num_lt x y || num_eqb x y.

(** ** Arithmetic *)

Definition num_opp (x : num) : num :=
  match x with NaN => NaN | Inf s => Inf (negb s) | Fin q => Fin (Qopp q) end.

Definition num_add (x y : num) : num :=
  match x, y with
  | NaN, _ | _, NaN => NaN
  | Inf a, Inf b => if eqb a b then Inf a else NaN
  | Inf a, Fin _ | Fin _, Inf a => Inf a
  | Fin p, Fin q => rnd (p + q)
  end.

Definition num_sub (x y : num) : num := num_add x (num_opp y).

Definition num_neg (x : num) : bool :=
  match x with Inf s => s | Fin q => negb (Qle_bool 0 q) | NaN => false end.

Definition num_zero (x : num) : bool :=
  match x with Fin q => Qeq_bool q 0 | _ => false end.

Definition num_mul (x y : num) : num :=
  match x, y with
  | NaN, _ | _, NaN => NaN
  | Fin p, Fin q => rnd (p * q)
  | _, _ => if num_zero x || num_zero y then NaN
            else Inf (xorb (num_neg x) (num_neg y))
  end.

Definition num_div (x y : num) : num :=
  match x, y with
  | NaN, _ | _, NaN | Inf _, Inf _ => NaN
  | Inf _, Fin _ => Inf (xorb (num_neg x) (num_neg y))
  | Fin _, Inf _ => int 0
  | Fin p, Fin q =>
      if Qeq_bool q 0 then (if Qeq_bool p 0 then NaN else Inf (num_neg x))
      else rnd (p / q)
  end.

(** [%]: the remainder of the truncated division, which is exact. *)
Definition num_rem (x y : num) : num :=
  match x, y with
  | Fin p, Fin q =>
      if Qeq_bool q 0 then NaN
      else
        let t := (p / q)%Q in
        let k := (if Qle_bool 0 t then Qfloor t else Qceiling t)%Z in
        Fin (Qred (p - inject_Z k * q))
  | Fin _, Inf _ => x
  | _, _ => NaN
  end.

Definition num_abs (x : num) : num :=
  match x with NaN => NaN | Inf _ => Inf false | Fin q => Fin (Qabs q) end.

Definition num_floor (x : num) : num :=
  match x with Fin q => int (Qfloor q) | _ => x end.

(** [Math.round]: the nearest integer, ties upwards. *)
Definition num_round (x : num) : num :=
  match x with Fin q => int (Qfloor (q + (1 # 2))) | _ => x end.

Definition num_min (x y : num) : num :=
  match x, y with
  | NaN, _ | _, NaN => NaN
  | _, _ => if num_lt y x then y else x
  end.

Definition num_max (x y : num) : num :=
  match x, y with
  | NaN, _ | _, NaN => NaN
  | _, _ => if num_lt x y then y else x
  end.

Declare Scope num_scope.
Delimit Scope num_scope with num.
Bind Scope num_scope with num.
Infix "+" := num_add : num_scope.
Infix "-" := num_sub : num_scope.
Infix "*" := num_mul : num_scope.
Infix "/" := num_div : num_scope.
Infix "<?" := num_lt : num_scope.
Infix "<=?" := num_le : num_scope.
Infix "=?" := num_eqb : num_scope.

(** ** Lemmas: exactness on safe integers *)

Lemma round_half_even_exact n d : 0 < d → round_half_even (n * d) d = n.
Proof.
  intros Hd. unfold round_half_even. rewrite Z.div_mul by lia. rewrite Z.mod_mul by lia.
  destruct (Z.compare_spec (2 * 0) d); lia.
Qed.

Lemma Qred_inject_Z n : Qred (inject_Z n) = inject_Z n.
Proof.
  unfold inject_Z, Qred.
  pose proof (Z.ggcd_correct_divisors n 1) as Hc.
  pose proof (Z.ggcd_gcd n 1) as Hg. rewrite Z.gcd_1_r in Hg.
  destruct (Z.ggcd n 1) as [g [a b]]. simpl in *. subst g.
  destruct Hc as [Ha Hb]. rewrite !Z.mul_1_l in *. by subst.
Qed.

Lemma dyadic_int n k : 0 <= k → dyadic (n * 2 ^ k) (- k) = inject_Z n.
Proof.
  intros Hk. unfold dyadic. case_match eqn:E.
  - apply Z.leb_le in E. assert (k = 0) as -> by lia. simpl. by rewrite !Z.mul_1_r.
  - rewrite <-(Qred_inject_Z n). apply Qred_complete.
    unfold Qeq, inject_Z; simpl.
    rewrite Z.opp_involutive, Z2Pos.id by (apply Z.pow_pos_nonneg; lia). lia.
Qed.

Lemma exponent_int n : 0 < n → exponent n 1 = Z.log2 n.
Proof.
  intros Hn. unfold exponent. rewrite Z.sub_0_r.
  pose proof (Z.log2_nonneg n). pose proof (Z.log2_spec n Hn).
  destruct (Z.leb_spec 0 (Z.log2 n)); [|lia].
  by destruct (Z.leb_spec (1 * 2 ^ Z.log2 n) n); [|lia].
Qed.

Lemma round_pos_int n : 0 < n → n < 2 ^ 53 → round_pos n 1 = inject_Z n.
Proof.
  intros Hn Hlt. unfold round_pos, ulp_exponent. rewrite exponent_int by done.
  assert (0 <= Z.log2 n <= 52) as [? ?].
  { split; [apply Z.log2_nonneg|]. apply Z.lt_succ_r. by apply Z.log2_lt_pow2. }
  rewrite Z.max_l by lia.
  replace (Z.log2 n - 52) with (- (52 - Z.log2 n)) by lia.
  set (k := 52 - Z.log2 n). assert (0 <= k) by (subst k; lia).
  rewrite Z.opp_involutive.
  assert ((if 0 <=? (- k) then round_half_even n (1 * 2 ^ (- k))
           else round_half_even (n * 2 ^ k) 1) = n * 2 ^ k) as ->.
  { destruct (Z.leb_spec 0 (- k)) as [Hk|Hk].
    - assert (k = 0) as -> by lia. change (1 * 2 ^ (- 0)) with 1.
      rewrite <-(Z.mul_1_r n) at 1. rewrite round_half_even_exact; lia.
    - rewrite <-(Z.mul_1_r (n * 2 ^ k)) at 1. by apply round_half_even_exact. }
  by apply dyadic_int.
Qed.

Lemma Qle_bool_inject a b : Qle_bool (inject_Z a) (inject_Z b) = (a <=? b).
Proof. unfold Qle_bool, inject_Z; simpl. by rewrite !Z.mul_1_r. Qed.

(** Rounding leaves a safe integer alone. *)
Lemma rnd_int n : safe_Z n = true → rnd (inject_Z n) = int n.
Proof.
  unfold safe_Z, max_safe. rewrite Z.leb_le. intros Hn. unfold rnd. simpl.
  assert (∀ p, Zpos p < 2 ^ 53 →
    Qle_bool (inject_Z max_finite) (round_pos (Zpos p) 1) = false) as Hov.
  { intros p Hp. rewrite round_pos_int by lia. rewrite Qle_bool_inject.
    apply Z.leb_gt. unfold max_finite.
    eapply Z.lt_trans; [exact Hp|]. by apply Z.pow_lt_mono_r. }
  destruct n as [|p|p]; [done| |]; rewrite Hov by lia; by rewrite round_pos_int by lia.
Qed.

Lemma rnd_Qeq_int q n : Qred q = inject_Z n → Qnum q = n → Qden q = 1%positive →
  safe_Z n = true → rnd q = int n.
Proof.
  intros _ Hn Hd Hs. destruct q as [a b]. simpl in *. subst. by apply rnd_int.
Qed.

Lemma int_add a b : safe_Z (a + b) = true → num_add (int a) (int b) = int (a + b).
Proof.
  intros Hs. unfold num_add, int at 1 2.
  unfold Qplus, inject_Z; simpl. rewrite !Z.mul_1_r. by apply rnd_int.
Qed.

Lemma int_sub a b : safe_Z (a - b) = true → num_sub (int a) (int b) = int (a - b).
Proof.
  intros Hs. unfold num_sub. simpl. unfold Qplus, Qopp, inject_Z; simpl.
  rewrite !Z.mul_1_r. by apply rnd_int.
Qed.

Lemma int_mul a b : safe_Z (a * b) = true → num_mul (int a) (int b) = int (a * b).
Proof.
  intros Hs. unfold num_mul, int at 1 2. unfold Qmult, inject_Z; simpl. by apply rnd_int.
Qed.

Lemma Qfloor_inject n : Qfloor (inject_Z n) = n.
Proof. unfold Qfloor, inject_Z. apply Z.div_1_r. Qed.

Lemma int_lt a b : num_lt (int a) (int b) = (a <? b).
Proof. simpl. rewrite Qle_bool_inject. rewrite Z.leb_antisym. apply negb_involutive. Qed.

Lemma int_eqb a b : num_eqb (int a) (int b) = (a =? b).
Proof. simpl. unfold Qeq_bool, inject_Z. simpl. by rewrite !Z.mul_1_r. Qed.

Lemma int_le a b : num_le (int a) (int b) = (a <=? b).
Proof.
  unfold num_le. rewrite int_lt, int_eqb.
  destruct (Z.ltb_spec a b), (Z.eqb_spec a b), (Z.leb_spec a b); simpl; done || lia.
Qed.

Lemma int_safe n : is_safe_integer (int n) = safe_Z n.
Proof.
  unfold is_safe_integer, int, is_integer. rewrite Qfloor_inject.
  unfold Qeq_bool. by rewrite Z.eqb_refl.
Qed.

Lemma int_floor n : num_floor (int n) = int n.
Proof. unfold num_floor, int. by rewrite Qfloor_inject. Qed.

Lemma int_to_Z n : to_Z (int n) = n.
Proof. apply Qfloor_inject. Qed.

Create Rewrite HintDb num.
#[export] Hint Rewrite int_lt int_le int_eqb int_safe int_floor int_to_Z : num.

(** A safe integer equals the literal of its integer value. *)
Lemma safe_integer_eqb x :
  is_safe_integer x = true → num_eqb x (int (to_Z x)) = true ∧ safe_Z (to_Z x) = true.
Proof.
  destruct x as [| |q]; try done. unfold is_safe_integer. intros H.
  apply andb_true_iff in H as [Hi Hs]. split; [exact Hi|exact Hs].
Qed.

Lemma num_eqb_sym x y : num_eqb x y = num_eqb y x.
Proof.
  destruct x as [|a|p], y as [|b|q]; try done.
  - simpl. by destruct a, b.
  - simpl. unfold Qeq_bool. apply Z.eqb_sym.
Qed.

Lemma num_eqb_trans x y z : num_eqb x y = true → num_eqb y z = true → num_eqb x z = true.
Proof.
  destruct x as [|a|p], y as [|b|q], z as [|c|r]; try done.
  - simpl. by destruct a, b, c.
  - simpl. rewrite !Qeq_bool_iff. apply Qeq_trans.
Qed.

Lemma num_le_finite_l x y : num_le (int y) x = true → x ≠ NaN.
Proof. by intros H ->. Qed.

Lemma num_eqb_refl x : is_finite x = true → num_eqb x x = true.
Proof. destruct x; try done. intros _. apply Qeq_bool_iff. reflexivity. Qed.

(** Finite numbers are totally ordered. *)
Lemma num_le_fin p q : num_le (Fin p) (Fin q) = true ↔ (p <= q)%Q.
Proof.
  unfold num_le. rewrite orb_true_iff. simpl. rewrite negb_true_iff. split.
  - intros [Hlt|Heq].
    + apply Qlt_le_weak, Qnot_le_lt. intros Hle%Qle_bool_iff. congruence.
    + apply Qeq_bool_iff in Heq. rewrite Heq. apply Qle_refl.
  - intros Hle. destruct (Qle_bool q p) eqn:E; [right|by left]. apply Qle_bool_iff in E.
    apply Qeq_bool_iff. by apply Qle_antisym.
Qed.

Lemma num_not_lt x y : is_finite x = true → is_finite y = true → num_lt x y = false → num_le y x = true.
Proof.
  destruct x as [| |p], y as [| |q]; try done. intros _ _ Hlt. apply num_le_fin. simpl in Hlt.
  apply negb_false_iff in Hlt. by apply Qle_bool_iff.
Qed.

Lemma num_le_trans x y z : is_finite x = true → is_finite y = true → is_finite z = true →
  num_le x y = true → num_le y z = true → num_le x z = true.
Proof.
  destruct x as [| |p], y as [| |q], z as [| |r]; try done. intros _ _ _.
  rewrite !num_le_fin. apply Qle_trans.
Qed.

Lemma num_le_refl x : is_finite x = true → num_le x x = true.
Proof. destruct x; try done. intros _. apply num_le_fin, Qle_refl. Qed.

Lemma num_lt_fin p q : num_lt (Fin p) (Fin q) = true ↔ (p < q)%Q.
Proof.
  cbn. rewrite negb_true_iff, <-not_true_iff_false, Qle_bool_iff. split; [apply Qnot_le_lt|apply Qlt_not_le].
Qed.

Lemma num_eqb_fin p q : num_eqb (Fin p) (Fin q) = true ↔ (p == q)%Q.
Proof. apply Qeq_bool_iff. Qed.

Lemma num_le_lt_trans x y z : num_le x y = true → num_lt y z = true → num_lt x z = true.
Proof.
  unfold num_le. destruct x as [|[]|p], y as [|[]|q], z as [|[]|r]; try done.
  rewrite orb_true_iff, !num_lt_fin, num_eqb_fin. intros [Hpq|Hpq] Hqr; [by eapply Qlt_trans|by rewrite Hpq].
Qed.

Lemma num_lt_trans x y z : num_lt x y = true → num_lt y z = true → num_lt x z = true.
Proof. intros Hxy. apply num_le_lt_trans. unfold num_le. by rewrite Hxy. Qed.

Lemma num_lt_irrefl x : num_lt x x = false.
Proof. destruct x as [|[]|p]; try done. apply not_true_iff_false. rewrite num_lt_fin. apply Qlt_irrefl. Qed.

Lemma num_lt_not_le x y : num_lt x y = true → num_le y x = false.
Proof.
  intros Hxy. apply not_true_iff_false. intros Hyx. pose proof (num_le_lt_trans _ _ _ Hyx Hxy) as Hyy.
  by rewrite num_lt_irrefl in Hyy.
Qed.

Lemma safe_integer_finite x : is_safe_integer x = true → is_finite x = true.
Proof. by destruct x. Qed.

(** ** Lemmas: the size of a rounded value *)

Lemma round_half_even_bound n d : 0 < d → 0 <= n → 0 <= d * round_half_even n d <= n + d.
Proof.
  intros Hd Hn. unfold round_half_even.
  pose proof (Z.div_mod n d ltac:(lia)). pose proof (Z.mod_pos_bound n d Hd).
  pose proof (Z.div_pos n d Hn Hd).
  destruct (2 * (n mod d) ?= d); [destruct (Z.even (n / d))|..]; nia.
Qed.

Lemma exponent_le n d : 0 < n → 0 < d → 0 <= exponent n d → d * 2 ^ exponent n d <= n.
Proof.
  intros Hn Hd. unfold exponent. set (k := Z.log2 n - Z.log2 d). intros He.
  destruct (Z.leb_spec 0 k) as [Hk|Hk].
  - destruct (Z.leb_spec (d * 2 ^ k) n) as [|_]; [done|].
    pose proof (Z.log2_spec n Hn) as [Hn1 _]. pose proof (Z.log2_spec d Hd) as [_ Hd1].
    pose proof (Z.log2_nonneg d).
    assert (2 ^ Z.log2 n = 2 ^ Z.succ (Z.log2 d) * 2 ^ (k - 1)) as E.
    { rewrite <-Z.pow_add_r by lia. f_equal. lia. }
    pose proof (Z.pow_pos_nonneg 2 (k - 1)). nia.
  - destruct (d <=? n * 2 ^ (- k)); lia.
Qed.

(** Rounding to an integer does not cross an integer. *)
Lemma round_half_even_le n d k : 0 < d → n <= k * d → round_half_even n d <= k.
Proof.
  intros Hd Hn. unfold round_half_even.
  pose proof (Z.div_mod n d ltac:(lia)). pose proof (Z.mod_pos_bound n d Hd).
  assert (n / d < k ∨ n / d = k ∧ n mod d = 0) as [Hq|[Hq Hr]] by nia.
  - destruct (_ ?= _); [destruct (Z.even _)| |]; lia.
  - rewrite Hr. replace (2 * 0 ?= d) with Lt by (symmetry; apply Z.compare_lt_iff; lia). lia.
Qed.

Lemma round_half_even_ge n d k : 0 < d → k * d <= n → k <= round_half_even n d.
Proof.
  intros Hd Hn. unfold round_half_even.
  assert (k <= n / d) by (apply Z.div_le_lower_bound; lia).
  destruct (_ ?= _); [destruct (Z.even _)| |]; lia.
Qed.

(** The value of [round_pos], as a fraction. *)
Lemma dyadic_mul m x s : 0 <= s → x <= - s →
  (dyadic m x * inject_Z (2 ^ (- x)) == inject_Z m)%Q.
Proof.
  intros Hs Hx. pose proof (Z.pow_pos_nonneg 2 (- x)). unfold dyadic.
  destruct (Z.leb_spec 0 x) as [Hx0|Hx0].
  - assert (x = 0) as -> by lia. unfold Qeq, inject_Z. simpl. lia.
  - rewrite Qred_correct. unfold Qeq, inject_Z, Qmult. simpl. rewrite Pos.mul_1_r, Z2Pos.id by lia. lia.
Qed.

Lemma ulp_small n d b s : 0 < n → 0 < d → 0 <= s <= 52 → b < 2 ^ 53 → n * 2 ^ s <= b * d →
  ulp_exponent n d <= - s.
Proof.
  intros Hn Hd Hs Hb Hle. unfold ulp_exponent. destruct (Z_lt_le_dec (- s) (exponent n d - 52)) as [He|]; [|lia].
  exfalso. pose proof (exponent_le n d Hn Hd ltac:(lia)) as Hx.
  assert (2 ^ (53 - s) <= 2 ^ exponent n d) as Hp by (apply Z.pow_le_mono_r; lia).
  assert (2 ^ (53 - s) * 2 ^ s = 2 ^ 53) as Hps by (rewrite <-Z.pow_add_r by lia; f_equal; lia).
  pose proof (Z.pow_pos_nonneg 2 s ltac:(lia) ltac:(lia)). nia.
Qed.

Lemma round_pos_upper n d b s : 0 < n → 0 < d → 0 <= s <= 52 → b < 2 ^ 53 → n * 2 ^ s <= b * d →
  (round_pos n d * inject_Z (2 ^ s) <= inject_Z b)%Q.
Proof.
  intros Hn Hd Hs Hb Hle. pose proof (ulp_small n d b s Hn Hd Hs Hb Hle) as Hx.
  unfold round_pos. set (x := ulp_exponent n d) in *.
  set (m := if 0 <=? x then round_half_even n (d * 2 ^ x) else round_half_even (n * 2 ^ (- x)) d).
  pose proof (Z.pow_pos_nonneg 2 s ltac:(lia) ltac:(lia)) as Hp.
  assert (2 ^ (- x) = 2 ^ s * 2 ^ (- x - s)) as Hxs by (rewrite <-Z.pow_add_r by lia; f_equal; lia).
  pose proof (Z.pow_pos_nonneg 2 (- x - s) ltac:(lia) ltac:(lia)) as Hp'.
  assert (m <= b * 2 ^ (- x - s)) as Hm.
  { subst m. destruct (Z.leb_spec 0 x).
    - assert (x = 0) as Hx0 by lia. rewrite Hx0. apply round_half_even_le; [lia|].
      assert (s = 0) as -> by lia. simpl. lia.
    - apply round_half_even_le; [done|]. rewrite Hxs. nia. }
  apply (Qmult_le_r _ _ (inject_Z (2 ^ (- x - s)))); [unfold Qlt, inject_Z; simpl; lia|].
  rewrite <-Qmult_assoc, <-!inject_Z_mult, <-Hxs, (dyadic_mul m x s) by lia. by rewrite <-Zle_Qle.
Qed.

Lemma dyadic_pos m x s : - s <= x → 0 <= s →
  (dyadic m x * inject_Z (2 ^ s) == inject_Z (m * 2 ^ (x + s)))%Q.
Proof.
  intros Hx Hs. destruct (Z.leb_spec 0 x) as [Hx0|Hx0].
  - unfold dyadic. destruct (Z.leb_spec 0 x); [|lia].
    rewrite <-inject_Z_mult. rewrite Z.pow_add_r by lia. by rewrite Z.mul_assoc.
  - replace s with (- x + (x + s)) at 1 by lia. rewrite Z.pow_add_r by lia.
    rewrite inject_Z_mult, Qmult_assoc, (dyadic_mul m x 0) by lia. by rewrite <-inject_Z_mult.
Qed.

Lemma round_pos_lower n d a s : 0 < n → 0 < d → 0 <= s <= 52 → a < 2 ^ 53 → a * d <= n * 2 ^ s →
  (inject_Z a <= round_pos n d * inject_Z (2 ^ s))%Q.
Proof.
  intros Hn Hd Hs Ha Hle. unfold round_pos. set (x := ulp_exponent n d).
  set (m := if 0 <=? x then round_half_even n (d * 2 ^ x) else round_half_even (n * 2 ^ (- x)) d).
  pose proof (Z.pow_pos_nonneg 2 s ltac:(lia) ltac:(lia)) as Hp.
  destruct (Z_le_gt_dec x (- s)) as [Hx|Hx].
  - assert (2 ^ (- x) = 2 ^ s * 2 ^ (- x - s)) as Hxs by (rewrite <-Z.pow_add_r by lia; f_equal; lia).
    pose proof (Z.pow_pos_nonneg 2 (- x - s) ltac:(lia) ltac:(lia)) as Hp'.
    assert (a * 2 ^ (- x - s) <= m) as Hm.
    { subst m. destruct (Z.leb_spec 0 x).
      - assert (x = 0) as Hx0 by lia. rewrite Hx0. apply round_half_even_ge; [lia|].
        assert (s = 0) as -> by lia. simpl. simpl in Hle. lia.
      - apply round_half_even_ge; [done|]. rewrite Hxs. nia. }
    apply (Qmult_le_r _ _ (inject_Z (2 ^ (- x - s)))); [unfold Qlt, inject_Z; simpl; lia|].
    rewrite <-Qmult_assoc, <-!inject_Z_mult, <-Hxs, (dyadic_mul m x s) by lia. by rewrite <-Zle_Qle.
  - rewrite dyadic_pos by lia. rewrite <-Zle_Qle.
    assert (exponent n d = x + 52) as He by (unfold x, ulp_exponent in *; lia).
    pose proof (exponent_le n d Hn Hd ltac:(lia)) as Hex. rewrite He in Hex.
    assert (2 ^ 52 <= m) as Hm.
    { subst m. destruct (Z.leb_spec 0 x).
      - apply round_half_even_ge; [pose proof (Z.pow_pos_nonneg 2 x); nia|].
        rewrite Z.pow_add_r in Hex by lia. nia.
      - apply round_half_even_ge; [done|].
        replace 52 with (x + 52 + - x) by lia. rewrite (Z.pow_add_r 2 (x + 52)) by lia.
        pose proof (Z.pow_pos_nonneg 2 (- x)). nia. }
    assert (2 ^ 1 <= 2 ^ (x + s)) by (apply Z.pow_le_mono_r; lia). nia.
Qed.

(** Rounding is monotone with respect to the fractions [k / 2^s] of moderate size, which
    are exact numbers. *)
Lemma rnd_within q a b s : 0 <= s <= 52 → - 2 ^ 53 < a → a < 2 ^ 53 → - 2 ^ 53 < b → b < 2 ^ 53 →
  (inject_Z a <= q * inject_Z (2 ^ s))%Q → (q * inject_Z (2 ^ s) <= inject_Z b)%Q →
  ∃ r, rnd q = Fin r ∧ (inject_Z a <= r * inject_Z (2 ^ s))%Q ∧ (r * inject_Z (2 ^ s) <= inject_Z b)%Q.
Proof.
  intros Hs Ha0 Ha Hb0 Hb Hqa Hqb. pose proof (Z.pow_pos_nonneg 2 s ltac:(lia) ltac:(lia)) as Hp.
  assert (∀ r, (r * inject_Z (2 ^ s) < inject_Z (2 ^ 53))%Q → Qle_bool (inject_Z max_finite) r = false) as Hfin.
  { intros r Hr. destruct (Qle_bool _ r) eqn:E; [|done]. apply Qle_bool_iff in E.
    assert (inject_Z max_finite * inject_Z (2 ^ s) <= r * inject_Z (2 ^ s))%Q as Hle.
    { apply Qmult_le_compat_r; [done|]. unfold Qle, inject_Z. simpl. lia. }
    pose proof (Qle_lt_trans _ _ _ Hle Hr) as Hlt. rewrite <-inject_Z_mult, <-Zlt_Qlt in Hlt.
    assert (2 ^ 54 <= max_finite) by (apply Z.pow_le_mono_r; lia). nia. }
  unfold rnd. destruct q as [[|p|p] d]; cbn [Qnum Qden].
  - exists (inject_Z 0). split; [done|]. unfold Qle, Qmult, inject_Z in *. simpl in *. lia.
  - assert (Zpos p * 2 ^ s <= b * Zpos d) as Hub by (unfold Qle, Qmult, inject_Z in Hqb; simpl in Hqb; lia).
    assert (a * Zpos d <= Zpos p * 2 ^ s) as Hlb by (unfold Qle, Qmult, inject_Z in Hqa; simpl in Hqa; lia).
    pose proof (round_pos_upper (Zpos p) (Zpos d) b s ltac:(lia) ltac:(lia) Hs Hb Hub) as Hu.
    pose proof (round_pos_lower (Zpos p) (Zpos d) a s ltac:(lia) ltac:(lia) Hs Ha Hlb) as Hl.
    rewrite Hfin by (eapply Qle_lt_trans; [exact Hu|by rewrite <-Zlt_Qlt]). by eexists.
  - assert (- b * Zpos d <= Zpos p * 2 ^ s) as Hub by (unfold Qle, Qmult, inject_Z in Hqb; simpl in Hqb; lia).
    assert (Zpos p * 2 ^ s <= - a * Zpos d) as Hlb by (unfold Qle, Qmult, inject_Z in Hqa; simpl in Hqa; lia).
    pose proof (round_pos_upper (Zpos p) (Zpos d) (- a) s ltac:(lia) ltac:(lia) Hs ltac:(lia) Hlb) as Hu.
    pose proof (round_pos_lower (Zpos p) (Zpos d) (- b) s ltac:(lia) ltac:(lia) Hs ltac:(lia) Hub) as Hl.
    rewrite Hfin by (eapply Qle_lt_trans; [exact Hu|rewrite <-Zlt_Qlt; lia]). eexists. split; [done|].
    set (r := round_pos _ _) in *. rewrite !inject_Z_opp in *.
    assert (- r * inject_Z (2 ^ s) == - (r * inject_Z (2 ^ s)))%Q as -> by ring.
    apply Qopp_le_compat in Hu, Hl. rewrite !Qopp_involutive in *. by split.
Qed.

(** Rounding moves a number of moderate size by less than [2^-40]. *)
Lemma rnd_near q : (Qabs q <= inject_Z (2 ^ 10))%Q →
  ∃ r, rnd q = Fin r ∧ (q - (1 # 2 ^ 40) <= r)%Q ∧ (r <= q + (1 # 2 ^ 40))%Q.
Proof.
  intros [Hlo Hhi]%Qabs_Qle_condition. set (m := (q * inject_Z (2 ^ 40))%Q).
  assert (m == q * (1099511627776 # 1))%Q as Hmq by done.
  change (inject_Z (2 ^ 10)) with (1024 # 1)%Q in *. change (1 # 2 ^ 40)%Q with (1 # 1099511627776)%Q.
  assert (- 2 ^ 50 <= Qfloor m /\ Qfloor m <= 2 ^ 50) as [Hf1 Hf2].
  { pose proof (Qfloor_resp_le (-1125899906842624 # 1) m ltac:(lra)) as H1.
    pose proof (Qfloor_resp_le m (1125899906842624 # 1) ltac:(lra)) as H2. by split. }
  pose proof (Qlt_floor m) as Hm. pose proof (Qfloor_le m) as Hfl.
  destruct (rnd_within q (Qfloor m) (Qfloor m + 1) 40) as (r & Hr & Hra & Hrb);
    [lia..|exact Hfl|by apply Qlt_le_weak|].
  exists r. split; [done|]. change (inject_Z (2 ^ 40)) with (1099511627776 # 1)%Q in *.
  rewrite inject_Z_plus in *. change (inject_Z 1) with 1%Q in *. split; lra.
Qed.

(** A lower bound survives rounding, whatever the size. *)
Lemma rnd_lower q a : 0 < a → a < 2 ^ 53 → (inject_Z a <= q)%Q →
  rnd q = Inf false ∨ ∃ r, rnd q = Fin r ∧ (inject_Z a <= r)%Q.
Proof.
  intros Ha0 Ha Hq. destruct q as [n d]. unfold Qle in Hq. cbn [Qnum Qden inject_Z] in Hq.
  unfold rnd. cbn [Qnum Qden]. destruct n as [|p|p]; [lia| |lia].
  pose proof (round_pos_lower (Zpos p) (Zpos d) a 0 ltac:(lia) ltac:(lia) ltac:(lia) Ha ltac:(lia)) as Hl.
  change (inject_Z (2 ^ 0)) with 1%Q in Hl. rewrite Qmult_1_r in Hl.
  destruct (Qle_bool _ _); [by left|]. right. by eexists.
Qed.

(** In particular a number of moderate size stays within integer bounds. *)
Lemma rnd_bound q B : 1 <= B <= 2 ^ 52 → (Qabs q <= inject_Z B)%Q →
  ∃ r, rnd q = Fin r ∧ (Qabs r <= inject_Z B)%Q.
Proof.
  intros HB [Hlo Hhi]%Qabs_Qle_condition.
  destruct (rnd_within q (- B) B 0) as (r & Hr & Hrlo & Hrhi); [lia..| | |].
  - change (inject_Z (2 ^ 0)) with 1%Q. rewrite Qmult_1_r. exact Hlo.
  - change (inject_Z (2 ^ 0)) with 1%Q. by rewrite Qmult_1_r.
  - exists r. split; [done|]. change (inject_Z (2 ^ 0)) with 1%Q in *. rewrite Qmult_1_r in *.
    by apply Qabs_Qle_condition.
Qed.

(** The whole part of a number of moderate size is an integer of moderate size. *)
Lemma floor_bound r B : (Qabs r <= inject_Z B)%Q → Z.abs (Qfloor r) <= B + 1.
Proof.
  intros [Hlo Hhi]%Qabs_Qle_condition.
  pose proof (Qfloor_resp_le _ _ Hhi) as H1. rewrite Qfloor_inject in H1.
  pose proof (Qfloor_resp_le _ _ Hlo) as H2.
  change (- inject_Z B)%Q with (inject_Z (- B)) in H2. rewrite Qfloor_inject in H2. lia.
Qed.

(** A number between integer bounds, and the operations on such numbers. *)
Definition num_between (a b : Z) (x : num) : Prop :=
  ∃ q, x = Fin q ∧ (inject_Z a <= q)%Q ∧ (q <= inject_Z b)%Q.

Definition moderate (a b : Z) : Prop := (- 2 ^ 53 < a ∧ a < 2 ^ 53 ∧ - 2 ^ 53 < b ∧ b < 2 ^ 53)%Z.

Lemma rnd_between a b q : moderate a b → (inject_Z a <= q)%Q → (q <= inject_Z b)%Q →
  num_between a b (rnd q).
Proof.
  intros (H1 & H2 & H3 & H4) Ha Hb. destruct (rnd_within q a b 0) as (r & Hr & Hra & Hrb); try done.
  - change (inject_Z (2 ^ 0)) with 1%Q. by rewrite Qmult_1_r.
  - change (inject_Z (2 ^ 0)) with 1%Q. by rewrite Qmult_1_r.
  - change (inject_Z (2 ^ 0)) with 1%Q in *. rewrite Qmult_1_r in *. by exists r.
Qed.

Lemma between_int a : num_between a a (int a).
Proof. exists (inject_Z a). split; [done|]. split; apply Qle_refl. Qed.

Lemma between_add a b c d x y : moderate (a + c) (b + d) →
  num_between a b x → num_between c d y → num_between (a + c) (b + d) (num_add x y).
Proof.
  intros Hm (p & -> & Ha & Hb) (q & -> & Hc & Hd). apply rnd_between; [done|..];
    rewrite inject_Z_plus; by apply Qplus_le_compat.
Qed.

Lemma between_opp a b x : num_between a b x → num_between (- b) (- a) (num_opp x).
Proof.
  intros (p & -> & Ha & Hb). exists (- p)%Q. split; [done|]. rewrite !inject_Z_opp.
  split; by apply Qopp_le_compat.
Qed.

Lemma between_scale k b x : (0 <= k)%Z → moderate (- (k * b)) (k * b) →
  num_between (- b) b x → num_between (- (k * b)) (k * b) (num_mul (int k) x).
Proof.
  intros Hk Hm (p & -> & Ha & Hb). apply rnd_between; [done|..].
  - rewrite <-Z.mul_opp_r, inject_Z_mult. rewrite (Qmult_comm (inject_Z k)), (Qmult_comm (inject_Z k)).
    apply Qmult_le_compat_r; [done|]. by rewrite <-(Zle_Qle 0).
  - rewrite inject_Z_mult. rewrite (Qmult_comm (inject_Z k)), (Qmult_comm (inject_Z k)).
    apply Qmult_le_compat_r; [done|]. by rewrite <-(Zle_Qle 0).
Qed.

Lemma between_round a b x : num_between a b x → ∃ z, num_round x = int z ∧ (a <= z <= b)%Z.
Proof.
  intros (p & -> & Ha & Hb). exists (Qfloor (p + (1 # 2))). split; [done|]. split.
  - rewrite <-(Qfloor_Z a). apply Qfloor_resp_le.
    rewrite <-(Qplus_0_r (inject_Z a)). by apply Qplus_le_compat.
  - assert (Qfloor (p + (1 # 2)) <= Qfloor (inject_Z b + (1 # 2)))%Z as Hf.
    { apply Qfloor_resp_le. by apply Qplus_le_compat; [|apply Qle_refl]. }
    etrans; [exact Hf|]. clear. unfold Qfloor, Qplus, inject_Z. simpl.
    apply Z.lt_succ_r, Z.div_lt_upper_bound; lia.
Qed.
