(* ===== verification/JsString.v ===== *)
(** * JavaScript strings and byte arrays

    A string is a [string]: its characters are UTF-16 code units, of which the
    model represents those below 256 (a decoder that meets a code point above
    U+00FF yields ["?"], see [utf8_decode]).  A [Uint8Array] is a [list ascii], one
    character per byte, so that [String.fromCharCode(...bytes)] and
    [Uint8Array.from(s, c => c.charCodeAt(0))] are the two conversions between
    the types.

    The file defines what the services use of the string library: case folding,
    [trim], the regular expressions, hex, base64 ([btoa]/[atob]), UTF-8
    ([TextEncoder]/[TextDecoder]), and the decimal forms of numbers. *)

From Stdlib Require Import QArith Qround Lia Ascii.
From S2P Require Import Prelude JsNumber.
Close Scope Q_scope.
Local Open Scope Z_scope.

Abbreviation bytes := (list ascii).

Definition str_of_bytes (b : bytes) : string := String.string_of_list_ascii b.
Definition bytes_of_str (s : string) : bytes := String.list_ascii_of_string s.

(** ** Characters *)

Definition code (c : ascii) : Z := Z.of_N (N_of_ascii c).
Definition chr (n : Z) : ascii := ascii_of_N (Z.to_N n).

Definition between (lo hi : Z) (c : ascii) : bool := (lo <=? code c) && (code c <=? hi).

Definition is_digit (c : ascii) : bool := between 48 57 c.
Definition is_hex_lower (c : ascii) : bool := is_digit c || between 97 102 c.
Definition is_hex (c : ascii) : bool := is_hex_lower c || between 65 70 c.

(** White space of [String.prototype.trim], below 256. *)
Definition is_space (c : ascii) : bool := between 9 13 c || (code c =? 32) || (code c =? 160).

(** [toLowerCase] on one code unit below 256. *)
Definition lower_char (c : ascii) : ascii :=
  if between 65 90 c || (between 192 222 c && negb (code c =? 215))
  then chr (code c + 32) else c.

(** ** Strings *)

Fixpoint str_map (f : ascii → ascii) (s : string) : string :=
  match s with EmptyString => EmptyString | String c s => String (f c) (str_map f s) end.

Fixpoint str_forallb (p : ascii → bool) (s : string) : bool :=
  match s with EmptyString => true | String c s => p c && str_forallb p s end.

Definition str_length (s : string) : Z := Z.of_nat (String.length s).

Definition toLowerCase (s : string) : string := str_map lower_char s.

Fixpoint trim_start (s : string) : string :=
  match s with String c s' => if is_space c then trim_start s' else s | _ => s end.
Definition trim (s : string) : string := String.rev (trim_start (String.rev (trim_start s))).

Fixpoint starts_with (p s : string) : bool :=
  match p, s with
  | EmptyString, _ => true
  | String a p, String b s => Ascii.eqb a b && starts_with p s
  | _, _ => false
  end.

(** [s.slice(0, n)] *)
Fixpoint str_take (n : nat) (s : string) : string :=
  match n, s with S n, String c s => String c (str_take n s) | _, _ => EmptyString end.
Fixpoint str_drop (n : nat) (s : string) : string :=
  match n, s with S n, String _ s => str_drop n s | _, _ => s end.
(** [s.slice(i, j)] for [0 <= i <= j] *)
Definition str_slice (i j : nat) (s : string) : string := str_take (j - i) (str_drop i s).

(** [xs.join(sep)] *)
Fixpoint str_join (sep : string) (xs : list string) : string :=
  match xs with
  | [] => ""
  | [x] => x
  | x :: xs => x +:+ sep +:+ str_join sep xs
  end.

(** Truthiness of a string. *)
Definition truthy (s : string) : bool := negb (String.eqb s "").

(** [a < b] on strings compares code units from the left. *)
Definition str_lt (a b : string) : bool := String.ltb a b.
Definition str_le (a b : string) : bool := String.leb a b.

(** ** Regular expressions of the services *)

(** [/^[0-9a-f]{64}$/] *)
Definition is_lower_hex64 (s : string) : bool :=
  (String.length s =? 64)%nat && str_forallb is_hex_lower s.
(** [/^[0-9a-f]{64}$/i] *)
Definition is_hex64 (s : string) : bool :=
  (String.length s =? 64)%nat && str_forallb is_hex s.
(** [/^\d+$/] *)
Definition is_digits (s : string) : bool := truthy s && str_forallb is_digit s.
(** [/^[0-9a-f-]{36}$/i] *)
Definition is_uuid_like (s : string) : bool :=
  (String.length s =? 36)%nat && str_forallb (λ c, is_hex c || (code c =? 45)) s.

(** ** Hex: [b.toString(16).padStart(2, '0')] of every byte, joined *)

Definition hex_digit (n : Z) : ascii := if n <? 10 then chr (48 + n) else chr (87 + n).

Fixpoint to_hex (b : bytes) : string :=
  match b with
  | [] => ""
  | c :: b => String (hex_digit (code c / 16)) (String (hex_digit (code c mod 16)) (to_hex b))
  end.

(** ** Decimal numbers *)

Definition digit_char (d : Z) : ascii := chr (48 + d).

(** The decimal digits of [n >= 0], followed by [s]. *)
Fixpoint print_digits (fuel : nat) (n : Z) (s : string) : string :=
  match fuel with
  | O => s
  | S fuel =>
      let s' := String (digit_char (n mod 10)) s in
      if n / 10 =? 0 then s' else print_digits fuel (n / 10) s'
  end.

Definition digits_fuel (n : Z) : nat := S (Z.to_nat (Z.log2 n)).
Definition print_nonneg (n : Z) (s : string) : string := print_digits (digits_fuel n) n s.
Definition print_Z (n : Z) (s : string) : string :=
  if n <? 0 then String "-" (print_nonneg (- n) s) else print_nonneg n s.

(** [String(n)] of a safe integer *)
Definition string_of_Z (n : Z) : string := print_Z n "".

(** The longest prefix of digits of [s], with value [acc * 10^k + digits]. *)
Fixpoint parse_digits (acc : Z) (s : string) : Z * string :=
  match s with
  | String c s' => if is_digit c then parse_digits (10 * acc + (code c - 48)) s' else (acc, s)
  | EmptyString => (acc, s)
  end.

(** [Number(s)] of a string of digits: the exact integer, rounded. *)
Definition number_of_digits (s : string) : num := rnd (inject_Z (fst (parse_digits 0 s))).

Definition pow10 (k : Z) : Q := if 0 <=? k then inject_Z (10 ^ k) else 1 # Z.to_pos (10 ^ (- k)).

(** [Number::toString]: the [k] significant digits [s] and the exponent [n] of
    the shortest decimal that rounds to [q] ([q > 0]); 17 digits always do. *)
Fixpoint find_exp (fuel : nat) (q : Q) (n : Z) : Z :=
  match fuel with
  | O => n
  | S fuel =>
      if Qle_bool (pow10 n) q then find_exp fuel q (n + 1)
      else if Qle_bool (pow10 (n - 1)) q then n else find_exp fuel q (n - 1)
  end.

Fixpoint shortest (fuel : nat) (q : Q) (n k : Z) : Z * Z :=
  let s := Qfloor (q * pow10 (k - n) + (1 # 2))%Q in
  match fuel with
  | O => (s, k)
  | S fuel =>
      if num_eqb (rnd (inject_Z s * pow10 (n - k))%Q) (Fin q) then (s, k)
      else shortest fuel q n (k + 1)
  end.

Fixpoint zeros (n : nat) (s : string) : string :=
  match n with O => s | S n => String "0" (zeros n s) end.

(** Insert [.] after the first [i] characters. *)
Definition with_point (i : nat) (s : string) : string :=
  str_take i s +:+ "." +:+ str_drop i s.

Definition print_pos (q : Q) : string :=
  let n := find_exp 700 q 1 in
  let '(s, k) := shortest 16 q n 1 in
  let ds := string_of_Z s in
  if (k <=? n) && (n <=? 21) then ds +:+ zeros (Z.to_nat (n - k)) ""
  else if (0 <? n) && (n <=? 21) then with_point (Z.to_nat n) ds
  else if (-6 <? n) && (n <=? 0) then "0." +:+ zeros (Z.to_nat (- n)) ds
  else
    (if k =? 1 then ds else with_point 1 ds) +:+ "e" +:+
    (if 0 <? n - 1 then "+" else "-") +:+ string_of_Z (Z.abs (n - 1)).

Definition num_to_string (x : num) : string :=
  match x with
  | NaN => "NaN"
  | Inf s => if s then "-Infinity" else "Infinity"
  | Fin q =>
      if is_safe_integer x then string_of_Z (to_Z x)
      else if Qle_bool 0 q then print_pos q else "-" +:+ print_pos (Qopp q)
  end.

(** [x.toFixed(f)] of a number below 10^21 *)
Definition to_fixed (f : nat) (x : num) : string :=
  match x with
  | Fin q =>
      let a := if Qle_bool 0 q then q else Qopp q in
      let n := Qfloor (a * inject_Z (10 ^ Z.of_nat f) + (1 # 2))%Q in
      let ds := string_of_Z n in
      let ds := zeros (S f - String.length ds) ds in
      (if Qle_bool 0 q then "" else "-") +:+
      (match f with O => ds | _ => with_point (String.length ds - f) ds end)
  | _ => num_to_string x
  end.

(** [Number(x.toFixed(f))]: the digits of [to_fixed], read back *)
Definition fixed_number (f : nat) (x : num) : num :=
  match x with
  | Fin q =>
      let a := if Qle_bool 0 q then q else Qopp q in
      let n := Qfloor (a * inject_Z (10 ^ Z.of_nat f) + (1 # 2))%Q in
      lit (if Qle_bool 0 q then n else (- n)%Z) (Z.to_pos (10 ^ Z.of_nat f))
  | _ => x
  end.

(** ** Base64 *)

Definition b64_alphabet : string :=
  "ABCDEFGHIJKLMNOPQRSTUVWXYZabcdefghijklmnopqrstuvwxyz0123456789+/".

Definition b64_char (v : Z) : ascii :=
  default "="%char (String.get (Z.to_nat v) b64_alphabet).

Definition b64_val (c : ascii) : option Z :=
  if between 65 90 c then Some (code c - 65)
  else if between 97 122 c then Some (code c - 71)
  else if is_digit c then Some (code c + 4)
  else if code c =? 43 then Some 62
  else if code c =? 47 then Some 63
  else None.

(** The 6-bit groups of a byte array, the last one padded with zero bits. *)
Fixpoint b64_groups (b : bytes) : list Z :=
  match b with
  | x :: y :: z :: b =>
      let n := code x * 65536 + code y * 256 + code z in
      n / 262144 :: (n / 4096) mod 64 :: (n / 64) mod 64 :: n mod 64 :: b64_groups b
  | [x; y] =>
      let n := code x * 256 + code y in [n / 1024; (n / 16) mod 64; (n mod 16) * 4]
  | [x] => [code x / 4; (code x mod 4) * 16]
  | [] => []
  end.

Definition b64_padding (b : bytes) : nat :=
  match (length b mod 3)%nat with 1%nat => 2 | 2%nat => 1 | _ => 0 end.

Definition btoa_bytes (b : bytes) : bytes :=
  map b64_char (b64_groups b) ++ replicate (b64_padding b) "="%char.

(** [btoa(s)] *)
Definition btoa (s : string) : string := str_of_bytes (btoa_bytes (bytes_of_str s)).

Fixpoint b64_bytes (vs : list Z) : bytes :=
  match vs with
  | a :: b :: c :: d :: vs =>
      let n := a * 262144 + b * 4096 + c * 64 + d in
      chr (n / 65536) :: chr ((n / 256) mod 256) :: chr (n mod 256) :: b64_bytes vs
  | [a; b; c] =>
      let n := a * 4096 + b * 64 + c in [chr (n / 1024); chr ((n / 4) mod 256)]
  | [a; b] => [chr ((a * 64 + b) / 16)]
  | _ => []
  end.

Definition strip_padding (cs : bytes) : bytes :=
  if (length cs mod 4 =? 0)%nat then
    match rev cs with
    | c :: d :: r =>
        if Ascii.eqb c "=" then (if Ascii.eqb d "=" then rev r else rev (d :: r)) else cs
    | _ => cs
    end
  else cs.

Definition is_b64_space (c : ascii) : bool :=
  (code c =? 9) || (code c =? 10) || (code c =? 12) || (code c =? 13) || (code c =? 32).

Definition atob_bytes (cs : bytes) : option bytes :=
  let cs := strip_padding (List.filter (λ c, negb (is_b64_space c)) cs) in
  if (length cs mod 4 =? 1)%nat then None
  else vs ← mapM b64_val cs; Some (b64_bytes vs).

(** [atob(s)]: [None] when it throws an [InvalidCharacterError] *)
Definition atob (s : string) : option string := str_of_bytes <$> atob_bytes (bytes_of_str s).

(** ** UTF-8 *)

Fixpoint utf8_encode (s : string) : bytes :=
  match s with
  | EmptyString => []
  | String c s =>
      if code c <? 128 then c :: utf8_encode s
      else chr (192 + code c / 64) :: chr (128 + code c mod 64) :: utf8_encode s
  end.

(** [new TextDecoder().decode(b)].  A byte sequence that does not encode a code
    point below 256 decodes to ["?"], where the browser yields the code point or
    U+FFFD, neither of which the model represents. *)
Fixpoint utf8_decode (b : bytes) : string :=
  match b with
  | [] => ""
  | c :: b' =>
      if code c <? 128 then String c (utf8_decode b')
      else if between 194 195 c then
        match b' with
        | d :: b'' =>
            if between 128 191 d
            then String (chr ((code c - 192) * 64 + (code d - 128))) (utf8_decode b'')
            else String "?" (utf8_decode b')
        | [] => "?"
        end
      else String "?" (utf8_decode b')
  end.

(** [toUpperCase] on the code units whose upper case is one code unit below 256 *)
Definition upper_char (c : ascii) : ascii :=
  if between 97 122 c || (between 224 254 c && negb (code c =? 247))
  then chr (code c - 32) else c.
Definition toUpperCase (s : string) : string := str_map upper_char s.
