(* ===== verification/JsStringFacts.v ===== *)
(** * Facts on strings and byte arrays

    The round trips of the codecs of [JsString] (base64, UTF-8, decimal digits),
    and the lemmas on case folding and the hex regular expressions. *)

From Stdlib Require Import QArith Qabs Qround Lqa Lia Ascii.
From S2P Require Import Prelude JsNumber JsString.
Close Scope Q_scope.
Local Open Scope Z_scope.

(** ** Characters *)

Lemma code_range c : 0 <= code c < 256.
Proof. unfold code. pose proof (N_ascii_bounded c). lia. Qed.

Lemma chr_code c : chr (code c) = c.
Proof. unfold chr, code. rewrite N2Z.id. apply ascii_N_embedding. Qed.

Lemma code_chr n : 0 <= n < 256 → code (chr n) = n.
Proof. intros H. unfold chr, code. rewrite N_ascii_embedding by lia. lia. Qed.

Lemma code_inj a b : code a = code b → a = b.
Proof. intros H. rewrite <-(chr_code a), <-(chr_code b). by rewrite H. Qed.

Lemma str_of_bytes_of_str s : str_of_bytes (bytes_of_str s) = s.
Proof. apply String.string_of_list_ascii_of_string. Qed.

Lemma bytes_of_str_of_bytes b : bytes_of_str (str_of_bytes b) = b.
Proof. apply String.list_ascii_of_string_of_list_ascii. Qed.

#[export] Hint Resolve code_range : sentinel.

Ltac char_lia := repeat match goal with c : ascii |- _ =>
  lazymatch goal with
  | _ : 0 <= code c < 256 |- _ => fail
  | _ => pose proof (code_range c)
  end end; Z.div_mod_to_equations; lia.

Ltac btests :=
  unfold is_hex, is_hex_lower, is_digit, is_space, between in *;
  repeat match goal with
  | H : context [?a <=? ?b] |- _ => destruct (Z.leb_spec a b)
  | |- context [?a <=? ?b] => destruct (Z.leb_spec a b)
  | H : context [?a =? ?b] |- _ => destruct (Z.eqb_spec a b)
  | |- context [?a =? ?b] => destruct (Z.eqb_spec a b)
  end; simpl in *.

(** ** Strings *)

Lemma str_forallb_map p f s :
  str_forallb p (str_map f s) = str_forallb (λ c, p (f c)) s.
Proof. induction s as [|c s IH]; simpl; [done|]. by rewrite IH. Qed.

Lemma str_forallb_impl (p q : ascii → bool) s :
  (∀ c, p c = true → q c = true) → str_forallb p s = true → str_forallb q s = true.
Proof.
  intros H. induction s as [|c s IH]; simpl; [done|].
  rewrite !andb_true_iff. intros [??]; auto.
Qed.

Lemma str_map_length f s : String.length (str_map f s) = String.length s.
Proof. induction s; simpl; congruence. Qed.

Lemma str_map_ext_forallb p f s :
  (∀ c, p c = true → f c = c) → str_forallb p s = true → str_map f s = s.
Proof.
  intros H. induction s as [|c s IH]; simpl; [done|].
  rewrite andb_true_iff. intros [??]. rewrite H by done. by rewrite IH.
Qed.

Lemma lower_char_idemp c : lower_char (lower_char c) = lower_char c.
Proof.
  unfold lower_char at 2 3. destruct (_ || _) eqn:E; [|unfold lower_char; by rewrite E].
  unfold lower_char. pose proof (code_range c).
  assert (code (chr (code c + 32)) = code c + 32) as Hc.
  { apply code_chr. btests; try done; lia. }
  destruct (between 65 90 (chr (code c + 32)) || _) eqn:E2; [|done].
  exfalso. unfold between in *. rewrite Hc in E2. btests; try done; lia.
Qed.

Lemma toLowerCase_idemp s : toLowerCase (toLowerCase s) = toLowerCase s.
Proof.
  unfold toLowerCase. induction s as [|c s IH]; simpl; [done|].
  by rewrite lower_char_idemp, IH.
Qed.

Lemma lower_char_hex_lower c : is_hex_lower c = true → lower_char c = c.
Proof.
  intros H. unfold lower_char.
  destruct (_ || _) eqn:E; [|done]. exfalso. btests; try done; lia.
Qed.

Lemma lower_char_hex c : is_hex c = true → is_hex_lower (lower_char c) = true.
Proof.
  unfold is_hex. rewrite orb_true_iff. intros [H|H].
  { by rewrite lower_char_hex_lower. }
  pose proof (code_range c). unfold lower_char.
  assert (between 65 90 c = true) as -> by (btests; try done; lia). simpl.
  unfold is_hex_lower, between, is_digit, between in *.
  rewrite !code_chr by (btests; try done; lia). btests; try done; lia.
Qed.

Lemma is_hex64_lower s : is_hex64 s = true → is_lower_hex64 (toLowerCase s) = true.
Proof.
  unfold is_hex64, is_lower_hex64, toLowerCase. rewrite str_map_length.
  rewrite !andb_true_iff, str_forallb_map. intros [??]; split; [done|].
  eapply str_forallb_impl; [|done]. intros c. apply lower_char_hex.
Qed.

Lemma lower_hex64_fixed s : is_lower_hex64 s = true → toLowerCase s = s.
Proof.
  unfold is_lower_hex64. rewrite andb_true_iff. intros [_ H].
  eapply str_map_ext_forallb; [|done]. apply lower_char_hex_lower.
Qed.

Lemma lower_hex64_hex64 s : is_lower_hex64 s = true → is_hex64 s = true.
Proof.
  unfold is_lower_hex64, is_hex64. rewrite !andb_true_iff. intros [??]; split; [done|].
  eapply str_forallb_impl; [|done]. intros c Hc. unfold is_hex. by rewrite Hc.
Qed.

Lemma lower_hex64_length s : is_lower_hex64 s = true → String.length s = 64%nat.
Proof. unfold is_lower_hex64. intros [H _]%andb_true_iff. by apply Nat.eqb_eq. Qed.

Lemma lower_hex64_truthy s : is_lower_hex64 s = true → truthy s = true.
Proof. by destruct s. Qed.

#[export] Hint Resolve is_hex64_lower lower_hex64_fixed lower_hex64_hex64
  lower_hex64_truthy : sentinel.

(** ** Hex *)

Lemma hex_digit_lower n : 0 <= n < 16 → is_hex_lower (hex_digit n) = true.
Proof.
  intros H. unfold hex_digit, is_hex_lower, is_digit, between.
  destruct (Z.ltb_spec n 10); rewrite code_chr by lia; btests; try done; lia.
Qed.

Lemma to_hex_length b : String.length (to_hex b) = (2 * length b)%nat.
Proof. induction b as [|c b IH]; simpl; [done|]. rewrite IH. lia. Qed.

Lemma to_hex_lower b : str_forallb is_hex_lower (to_hex b) = true.
Proof.
  induction b as [|c b IH]; simpl; [done|].
  rewrite !hex_digit_lower, IH by char_lia. done.
Qed.

(** A 32-byte digest prints as 64 lowercase hex characters. *)
Lemma to_hex_32 b : length b = 32%nat → is_lower_hex64 (to_hex b) = true.
Proof.
  intros H. unfold is_lower_hex64. rewrite to_hex_length, H, to_hex_lower. done.
Qed.

(** ** Decimal digits *)

Lemma is_digit_char d : 0 <= d < 10 → is_digit (digit_char d) = true ∧ code (digit_char d) = 48 + d.
Proof.
  intros H. unfold digit_char, is_digit, between. rewrite code_chr by lia.
  split; [|done]. btests; try done; lia.
Qed.

Lemma parse_print_digits fuel n acc s :
  0 <= n < 2 ^ Z.of_nat fuel → (0 < fuel)%nat →
  ∃ k, 0 <= k ∧ parse_digits acc (print_digits fuel n s) = parse_digits (acc * 10 ^ k + n) s.
Proof.
  revert n acc s. induction fuel as [|fuel IH]; intros n acc s Hn Hf; [lia|].
  cbn [print_digits].
  pose proof (Z.mod_pos_bound n 10 ltac:(lia)) as Hd.
  pose proof (Z.div_mod n 10 ltac:(lia)) as Hdm.
  assert (∀ a, parse_digits a (String (digit_char (n mod 10)) s) =
               parse_digits (10 * a + n mod 10) s) as Hone.
  { intros a. simpl. destruct (is_digit_char (n mod 10) Hd) as [-> ->].
    f_equal. lia. }
  destruct (Z.eqb_spec (n / 10) 0) as [Hz|Hz].
  - exists 1. split; [lia|]. rewrite Hone. f_equal. lia.
  - assert (0 < n / 10) by (pose proof (Z.div_pos n 10); lia).
    destruct (IH (n / 10) acc (String (digit_char (n mod 10)) s)) as (k & Hk & Hp).
    { rewrite Nat2Z.inj_succ, Z.pow_succ_r in Hn by lia. lia. }
    { destruct fuel; [|lia]. simpl in Hn. lia. }
    exists (k + 1). split; [lia|]. rewrite Hp, Hone. f_equal.
    rewrite Z.pow_add_r by lia. lia.
Qed.

Definition no_digit (s : string) : bool :=
  match s with String c _ => negb (is_digit c) | EmptyString => true end.

Lemma parse_digits_stop acc s : no_digit s = true → parse_digits acc s = (acc, s).
Proof. destruct s as [|c s]; simpl; [done|]. by destruct (is_digit c). Qed.

Lemma digits_fuel_ok n : 0 <= n → 0 <= n < 2 ^ Z.of_nat (digits_fuel n).
Proof.
  intros Hn. split; [done|]. unfold digits_fuel.
  rewrite Nat2Z.inj_succ, Z2Nat.id by apply Z.log2_nonneg.
  destruct (decide (n = 0)) as [->|]; [done|]. apply Z.log2_spec. lia.
Qed.

(** Decimal digits parse back to the number they print. *)
Lemma parse_print_nonneg n s :
  0 <= n → no_digit s = true → parse_digits 0 (print_nonneg n s) = (n, s).
Proof.
  intros Hn Hs. unfold print_nonneg.
  destruct (parse_print_digits (digits_fuel n) n 0 s) as (k & _ & ->).
  - by apply digits_fuel_ok.
  - unfold digits_fuel. lia.
  - rewrite Z.mul_0_l, Z.add_0_l. by apply parse_digits_stop.
Qed.

Lemma print_digits_forallb fuel n s :
  str_forallb is_digit s = true → 0 <= n → str_forallb is_digit (print_digits fuel n s) = true.
Proof.
  revert n s. induction fuel as [|fuel IH]; intros n s Hs Hn; [done|]. cbn [print_digits].
  destruct (is_digit_char (n mod 10)) as [Hd _]; [apply Z.mod_pos_bound; lia|].
  case_match; [simpl; by rewrite Hd|]. apply IH; [simpl; by rewrite Hd|].
  by apply Z.div_pos.
Qed.

Lemma print_digits_head fuel n s :
  0 <= n → (0 < fuel)%nat →
  ∃ c s', print_digits fuel n s = String c s' ∧ is_digit c = true.
Proof.
  revert n s. induction fuel as [|fuel IH]; intros n s Hn Hf; [lia|]. cbn [print_digits].
  destruct (is_digit_char (n mod 10)) as [Hd _]; [apply Z.mod_pos_bound; lia|].
  destruct (n / 10 =? 0); [eauto|]. destruct fuel as [|fuel]; [simpl; eauto|].
  apply IH; [by apply Z.div_pos|lia].
Qed.

Lemma string_of_Z_digits n : 0 <= n → is_digits (string_of_Z n) = true.
Proof.
  intros Hn. unfold is_digits, string_of_Z, print_Z.
  destruct (Z.ltb_spec n 0); [lia|]. unfold print_nonneg.
  rewrite print_digits_forallb by done.
  destruct (print_digits_head (digits_fuel n) n "") as (c & s' & -> & _); [done|unfold digits_fuel; lia|].
  done.
Qed.

(** [Number(String(n)) === n] for a safe nonnegative integer. *)
Lemma number_of_string_of_Z n :
  0 <= n → safe_Z n = true → number_of_digits (string_of_Z n) = int n.
Proof.
  intros Hn Hs. unfold number_of_digits, string_of_Z, print_Z.
  destruct (Z.ltb_spec n 0); [lia|].
  rewrite parse_print_nonneg by done. by apply rnd_int.
Qed.

Lemma string_of_Z_inj m n : 0 <= m → 0 <= n → string_of_Z m = string_of_Z n → m = n.
Proof.
  intros Hm Hn. unfold string_of_Z, print_Z.
  destruct (Z.ltb_spec m 0), (Z.ltb_spec n 0); try lia. intros H'.
  apply (f_equal (parse_digits 0)) in H'.
  rewrite !parse_print_nonneg in H' by done. congruence.
Qed.

(** ** UTF-8 *)

Lemma utf8_decode_encode s : utf8_decode (utf8_encode s) = s.
Proof.
  induction s as [|c s IH]; simpl; [done|].
  pose proof (code_range c).
  destruct (Z.ltb_spec (code c) 128) as [Hlt|Hge].
  - simpl. destruct (Z.ltb_spec (code c) 128); [|lia]. by rewrite IH.
  - assert (2 <= code c / 64 <= 3) by char_lia.
    assert (0 <= code c mod 64 < 64) by char_lia.
    simpl. unfold between. rewrite !code_chr by lia.
    repeat match goal with
    | |- context [?a <? ?b] => destruct (Z.ltb_spec a b); [lia|]
    | |- context [?a <=? ?b] => destruct (Z.leb_spec a b); [|lia]
    end. simpl. rewrite IH. f_equal.
    rewrite <-(chr_code c) at 3. f_equal. char_lia.
Qed.

Lemma utf8_encode_inj s t : utf8_encode s = utf8_encode t → s = t.
Proof. intros H. by rewrite <-(utf8_decode_encode s), H, utf8_decode_encode. Qed.

(** ** Base64 *)

Lemma b64_char_range v :
  0 <= v < 64 → b64_val (b64_char v) = Some v ∧ is_b64_space (b64_char v) = false
                ∧ b64_char v ≠ "="%char.
Proof.
  intros H. assert (∀ n : nat, (n < 64)%nat →
    b64_val (b64_char (Z.of_nat n)) = Some (Z.of_nat n) ∧
    is_b64_space (b64_char (Z.of_nat n)) = false ∧ b64_char (Z.of_nat n) ≠ "="%char) as Hn.
  { intros n Hn. do 64 (destruct n as [|n]; [by vm_compute|]). lia. }
  rewrite <-(Z2Nat.id v) by lia. apply Hn. lia.
Qed.

Lemma b64_ind (P : bytes → Prop) :
  P [] → (∀ x, P [x]) → (∀ x y, P [x; y]) →
  (∀ x y z b, P b → P (x :: y :: z :: b)) → ∀ b, P b.
Proof.
  intros H0 H1 H2 H3. fix IH 1. intros [|x [|y [|z b]]]; [apply H0|apply H1|apply H2|apply H3, IH].
Qed.

Lemma b64_groups_range b : Forall (λ v, 0 <= v < 64) (b64_groups b).
Proof.
  induction b as [|x|x y|x y z b IH] using b64_ind; cbn [b64_groups];
    repeat constructor; try done; char_lia.
Qed.

Lemma b64_bytes_groups b : b64_bytes (b64_groups b) = b.
Proof.
  induction b as [|x|x y|x y z b IH] using b64_ind; cbn [b64_groups b64_bytes];
    rewrite ?IH; repeat f_equal; try done; apply code_inj; rewrite code_chr; char_lia.
Qed.

Lemma b64_groups_length b : ((length (b64_groups b) + b64_padding b) mod 4 = 0)%nat.
Proof.
  induction b as [|x|x y|x y z b IH] using b64_ind; try done.
  cbn [b64_groups length]. unfold b64_padding in *. cbn [length].
  replace (S (S (S (length b)))) with (length b + 1 * 3)%nat by lia.
  rewrite Nat.Div0.mod_add.
  replace (S (S (S (S (length (b64_groups b))))) + _)%nat with
    ((length (b64_groups b) + match (length b mod 3)%nat with 1%nat => 2 | 2%nat => 1 | _ => 0 end)
     + 1 * 4)%nat by lia.
  by rewrite Nat.Div0.mod_add.
Qed.

Lemma mapM_b64 vs :
  Forall (λ v, 0 <= v < 64) vs → mapM b64_val (map b64_char vs) = Some vs.
Proof.
  induction 1 as [|v vs Hv _ IH]; [done|]. simpl.
  destruct (b64_char_range v Hv) as (-> & _). simpl. by rewrite IH.
Qed.

Lemma filter_b64 vs p :
  Forall (λ v, 0 <= v < 64) vs →
  List.filter (λ c, negb (is_b64_space c)) (map b64_char vs ++ replicate p "="%char) =
  map b64_char vs ++ replicate p "="%char.
Proof.
  intros Hvs. induction Hvs as [|v vs Hv _ IH]; simpl.
  - by induction p as [|p IHp]; simpl; [done|f_equal].
  - destruct (b64_char_range v Hv) as (_ & -> & _). simpl. by f_equal.
Qed.

Lemma rev_b64_head vs c r :
  Forall (λ v, 0 <= v < 64) vs → rev (map b64_char vs) = c :: r → c ≠ "="%char.
Proof.
  intros Hvs Hr. rewrite <-map_rev in Hr.
  destruct (rev vs) as [|v l] eqn:E; [done|]. simplify_eq/=.
  assert (0 <= v < 64) as Hv.
  { rewrite Forall_forall in Hvs. apply Hvs. rewrite list_elem_of_In, in_rev, E. by left. }
  by apply b64_char_range.
Qed.

Lemma strip_padding_btoa vs p :
  Forall (λ v, 0 <= v < 64) vs → ((length vs + p) mod 4 = 0)%nat → (p <= 2)%nat →
  strip_padding (map b64_char vs ++ replicate p "="%char) = map b64_char vs.
Proof.
  intros Hvs Hlen Hp. unfold strip_padding.
  rewrite length_app, length_map, length_replicate, Hlen. simpl.
  rewrite rev_app_distr.
  destruct (rev (map b64_char vs)) as [|c r] eqn:E.
  - assert (vs = []) as -> by (apply (f_equal (@length _)) in E;
      rewrite length_rev, length_map in E; by destruct vs).
    by destruct p as [|[|[|p]]]; [..|lia].
  - pose proof (rev_b64_head _ _ _ Hvs E) as Hc.
    assert (map b64_char vs = rev (c :: r)) as Hm by by rewrite <-E, rev_involutive.
    apply Ascii.eqb_neq in Hc.
    destruct p as [|[|[|p]]]; [..|lia]; simpl; rewrite ?Hc, ?app_nil_r; try done.
    destruct r; by rewrite ?app_nil_r.
Qed.

Lemma b64_padding_le b : (b64_padding b <= 2)%nat.
Proof. unfold b64_padding. repeat case_match; lia. Qed.

Lemma b64_groups_mod4 b : (length (b64_groups b) mod 4 ≠ 1)%nat.
Proof.
  induction b as [|x|x y|x y z b IH] using b64_ind; try done.
  cbn [b64_groups length].
  replace (S (S (S (S (length (b64_groups b)))))) with (length (b64_groups b) + 1 * 4)%nat by lia.
  by rewrite Nat.Div0.mod_add.
Qed.

(** [atob] inverts [btoa] on every byte array. *)
Lemma atob_btoa_bytes b : atob_bytes (btoa_bytes b) = Some b.
Proof.
  unfold atob_bytes, btoa_bytes. pose proof (b64_groups_range b) as Hr.
  rewrite filter_b64 by done.
  rewrite strip_padding_btoa by (apply Hr || apply b64_groups_length || apply b64_padding_le).
  rewrite length_map. pose proof (b64_groups_mod4 b) as Hm.
  apply Nat.eqb_neq in Hm. rewrite Hm. rewrite mapM_b64 by done. simpl.
  by rewrite b64_bytes_groups.
Qed.

Lemma atob_btoa s : atob (btoa s) = Some s.
Proof.
  unfold atob, btoa. rewrite bytes_of_str_of_bytes, atob_btoa_bytes. simpl.
  by rewrite str_of_bytes_of_str.
Qed.

(** ** The order of strings *)

Lemma ascii_compare_code a b : Ascii.compare a b = (code a ?= code b).
Proof. unfold Ascii.compare, code. by rewrite N2Z.inj_compare. Qed.

Lemma str_compare_refl s : String.compare s s = Eq.
Proof.
  induction s as [|c s IH]; simpl; [done|]. by rewrite ascii_compare_code, Z.compare_refl.
Qed.

Lemma str_compare_lt_trans a b c :
  String.compare a b = Lt → String.compare b c = Lt → String.compare a c = Lt.
Proof.
  revert b c. induction a as [|x a IH]; intros [|y b] [|z c]; simpl; try done.
  rewrite !ascii_compare_code.
  destruct (Z.compare_spec (code x) (code y)) as [H|H|H], (Z.compare_spec (code y) (code z)) as [H'|H'|H'];
    try done; intros; destruct (Z.compare_spec (code x) (code z)) as [H''|H''|H'']; try done; try lia.
  eauto.
Qed.

Lemma str_lt_compare a b : str_lt a b = true ↔ String.compare a b = Lt.
Proof. unfold str_lt, String.ltb. by destruct (String.compare a b). Qed.

Lemma str_lt_irrefl s : str_lt s s = false.
Proof. unfold str_lt, String.ltb. by rewrite str_compare_refl. Qed.

Lemma str_lt_trans a b c : str_lt a b = true → str_lt b c = true → str_lt a c = true.
Proof. rewrite !str_lt_compare. apply str_compare_lt_trans. Qed.

Lemma str_le_lt_eq a b : str_le a b = true ↔ str_lt a b = true ∨ a = b.
Proof.
  unfold str_le, str_lt, String.leb, String.ltb.
  destruct (String.compare a b) eqn:E; split; try done; try naive_solver.
  - intros _. right. by apply String.compare_eq_iff.
  - intros [?| ->]; [done|]. by rewrite str_compare_refl in E.
Qed.

Lemma str_le_refl s : str_le s s = true.
Proof. apply str_le_lt_eq. by right. Qed.

Lemma str_le_trans a b c : str_le a b = true → str_le b c = true → str_le a c = true.
Proof.
  rewrite !str_le_lt_eq. intros [H| ->] [H'| ->]; eauto using str_lt_trans.
Qed.

Lemma str_lt_false_le a b : str_lt a b = false → str_le b a = true.
Proof.
  unfold str_lt, str_le, String.ltb, String.leb. rewrite (String.compare_antisym b a).
  by destruct (String.compare a b).
Qed.

Lemma str_lt_total a b : str_lt a b = true ∨ a = b ∨ str_lt b a = true.
Proof.
  destruct (str_lt a b) eqn:E; [by left|]. apply str_lt_false_le, str_le_lt_eq in E. naive_solver.
Qed.

Lemma str_lt_asym a b : str_lt a b = true → str_lt b a = false.
Proof.
  intros H. destruct (str_lt b a) eqn:E; [|done].
  pose proof (str_lt_trans _ _ _ H E) as H'. by rewrite str_lt_irrefl in H'.
Qed.

Lemma str_le_total a b : str_le a b = true ∨ str_le b a = true.
Proof.
  destruct (str_lt a b) eqn:E; [left; apply str_le_lt_eq; by left|].
  right. by apply str_lt_false_le.
Qed.

(** ** Prefixes *)

Lemma starts_with_app p s : starts_with p (p +:+ s) = true.
Proof.
  induction p as [|c p IH]; [done|]. change (String c p +:+ s) with (String c (p +:+ s)).
  cbn [starts_with]. by rewrite Ascii.eqb_refl.
Qed.

Lemma str_drop_app p s : str_drop (String.length p) (p +:+ s) = s.
Proof. induction p as [|c p IH]; [done|]. apply IH. Qed.

(** ** Numbers rounded to hundredths *)

Lemma fixed_hundredths q : ∃ k, fixed_number 2 (Fin q) = rnd (k # 100) ∧
  (q * 100 - (1 # 2) <= inject_Z k)%Q ∧ (inject_Z k <= q * 100 + (1 # 2))%Q.
Proof.
  unfold fixed_number, lit. change (Z.to_pos (10 ^ Z.of_nat 2)) with 100%positive.
  change (inject_Z (10 ^ Z.of_nat 2)) with (100 # 1)%Q. destruct (Qle_bool 0 q) eqn:Hq.
  - set (n := Qfloor _). exists n. split; [done|].
    pose proof (Qfloor_le (q * (100 # 1) + (1 # 2))) as Hfl. pose proof (Qlt_floor (q * (100 # 1) + (1 # 2))) as Hup.
    fold n in Hfl, Hup. rewrite inject_Z_plus in Hup. change (inject_Z 1) with 1%Q in Hup. split; lra.
  - set (n := Qfloor _). exists (- n)%Z. split; [done|].
    pose proof (Qfloor_le (- q * (100 # 1) + (1 # 2))) as Hfl. pose proof (Qlt_floor (- q * (100 # 1) + (1 # 2))) as Hup.
    fold n in Hfl, Hup. rewrite inject_Z_plus in Hup. change (inject_Z 1) with 1%Q in Hup.
    rewrite inject_Z_opp. split; lra.
Qed.

(** Rounding to hundredths stays within integer bounds. *)
Lemma fixed_between B x : (0 <= B <= 2 ^ 20)%Z → num_between (- B) B x → num_between (- B) B (fixed_number 2 x).
Proof.
  intros HB (q & -> & Hlo & Hhi). destruct (fixed_hundredths q) as (k & -> & Hk1 & Hk2).
  assert (- (100 * B) <= k <= 100 * B)%Z as Hk.
  { rewrite inject_Z_opp in Hlo. split.
    - apply Z.nlt_ge. intros Hlt. assert (k <= - (100 * B) - 1)%Z as Hz by lia. rewrite Zle_Qle in Hz.
      unfold Z.sub in Hz. rewrite inject_Z_plus, inject_Z_opp, inject_Z_mult in Hz.
      change (inject_Z 100) with 100%Q in Hz. change (inject_Z (- (1))) with (-1)%Q in Hz. lra.
    - apply Z.nlt_ge. intros Hlt. assert (100 * B + 1 <= k)%Z as Hz by lia. rewrite Zle_Qle in Hz.
      rewrite inject_Z_plus, inject_Z_mult in Hz. change (inject_Z 100) with 100%Q in Hz.
      change (inject_Z 1) with 1%Q in Hz. lra. }
  apply rnd_between; [unfold moderate; lia| |]; unfold Qle; cbn; lia.
Qed.

(** ... and moves a coordinate by half a hundredth, and the rounding of the last bit. *)
Lemma fixed_near q : (Qabs q <= inject_Z 180)%Q →
  ∃ r, fixed_number 2 (Fin q) = Fin r ∧ (Qabs (r - q) <= (1 # 200) + (1 # 2 ^ 40))%Q.
Proof.
  intros [Hlo Hhi]%Qabs_Qle_condition. destruct (fixed_hundredths q) as (k & -> & Hk1 & Hk2).
  change (inject_Z 180) with 180%Q in *.
  assert (inject_Z k == (k # 100) * 100)%Q as Hk by (unfold Qeq; cbn; lia).
  destruct (rnd_near (k # 100)) as (r & -> & Hr1 & Hr2).
  { change (inject_Z (2 ^ 10)) with 1024%Q. apply Qabs_Qle_condition. split; lra. }
  exists r. split; [done|]. apply Qabs_Qle_condition. split; lra.
Qed.
