(* ===== verification/JsCollection.v ===== *)
(** * JavaScript sets, maps and sorting

    [Set] and [Map] iterate in insertion order, so they are lists: a set is a list
    without duplicates, a map an association list without duplicate keys.
    [Array.prototype.sort] is a stable sort; it is modelled by stable insertion,
    and [js_sort_unique] shows that on the comparators used here any correct sort
    gives the same array. *)

From Stdlib Require Import Lia.
From S2P Require Import Prelude JsNumber JsString JsStringFacts.

(** ** Set *)

Section js_set.
Context {A : Type} `{EqDecision A}.

(** [s.has(x)], and [xs.includes(x)] *)
Definition includes (xs : list A) (x : A) : bool := bool_decide (x ∈ xs).

(** [s.add(x)] *)
Definition set_add (s : list A) (x : A) : list A := if includes s x then s else s ++ [x].

(** [s.delete(x)] *)
Definition set_delete (s : list A) (x : A) : list A :=
  List.filter (λ y, negb (bool_decide (y = x))) s.

(** [[...new Set(xs)]] *)
Definition set_of (xs : list A) : list A := fold_left set_add xs [].

Lemma includes_spec xs x : includes xs x = true ↔ x ∈ xs.
Proof. apply bool_decide_eq_true. Qed.

Lemma elem_of_set_add s x y : y ∈ set_add s x ↔ y ∈ s ∨ y = x.
Proof.
  unfold set_add. destruct (includes s x) eqn:E.
  - apply includes_spec in E. naive_solver.
  - rewrite elem_of_app, list_elem_of_singleton. done.
Qed.

Lemma NoDup_set_add s x : NoDup s → NoDup (set_add s x).
Proof.
  intros Hs. unfold set_add. case_match eqn:E; [done|].
  apply bool_decide_eq_false in E. apply NoDup_app. split_and!; [done| |apply NoDup_singleton].
  intros y Hy ->%list_elem_of_singleton. done.
Qed.

Lemma elem_of_fold_add xs s y : y ∈ fold_left set_add xs s ↔ y ∈ s ∨ y ∈ xs.
Proof.
  revert s. induction xs as [|x xs IH]; intros s; simpl.
  - set_solver.
  - rewrite IH, elem_of_set_add, elem_of_cons. tauto.
Qed.

Lemma NoDup_fold_add xs s : NoDup s → NoDup (fold_left set_add xs s).
Proof.
  revert s. induction xs as [|x xs IH]; intros s Hs; simpl; [done|].
  apply IH. by apply NoDup_set_add.
Qed.

Lemma elem_of_set_of xs y : y ∈ set_of xs ↔ y ∈ xs.
Proof. unfold set_of. rewrite elem_of_fold_add. set_solver. Qed.

Lemma NoDup_set_of xs : NoDup (set_of xs).
Proof. apply NoDup_fold_add. constructor. Qed.

Lemma fold_add_NoDup xs s :
  NoDup (s ++ xs) → fold_left set_add xs s = s ++ xs.
Proof.
  revert s. induction xs as [|x xs IH]; intros s Hs; simpl; [by rewrite app_nil_r|].
  assert (set_add s x = s ++ [x]) as ->.
  { unfold set_add. case_match eqn:E; [|done]. apply includes_spec in E.
    apply NoDup_app in Hs as (_ & Hd & _). exfalso. apply (Hd x E). set_solver. }
  rewrite IH by by rewrite <-app_assoc. by rewrite <-app_assoc.
Qed.

Lemma set_of_NoDup xs : NoDup xs → set_of xs = xs.
Proof. apply (fold_add_NoDup xs []). Qed.

Lemma elem_of_filter_b (p : A → bool) xs y : y ∈ List.filter p xs ↔ y ∈ xs ∧ p y = true.
Proof. rewrite !list_elem_of_In. apply filter_In. Qed.

Lemma filter_none (p : A → bool) xs : (∀ x, x ∈ xs → p x = false) → List.filter p xs = [].
Proof.
  intros Hp. induction xs as [|x xs IH]; simpl; [done|]. rewrite (Hp x) by (by left).
  apply IH. intros y Hy. apply Hp. by right.
Qed.

Lemma filter_split (p : A → bool) xs :
  List.filter p xs ++ List.filter (λ x, negb (p x)) xs ≡ₚ xs.
Proof.
  induction xs as [|x xs IH]; simpl; [done|]. destruct (p x); simpl; [by rewrite IH|].
  by rewrite <-Permutation_middle, IH.
Qed.

Lemma filter_filter (p q : A → bool) xs :
  List.filter p (List.filter q xs) = List.filter (λ x, p x && q x) xs.
Proof.
  induction xs as [|x xs IH]; simpl; [done|]. destruct (q x); simpl; rewrite ?andb_true_r, ?andb_false_r, IH; done.
Qed.

Lemma NoDup_filter_b (p : A → bool) xs : NoDup xs → NoDup (List.filter p xs).
Proof.
  induction 1 as [|x xs Hx Hxs IH]; simpl; [constructor|].
  destruct (p x); [|done]. constructor; [|done].
  rewrite elem_of_filter_b. naive_solver.
Qed.

Lemma elem_of_set_delete s x y : y ∈ set_delete s x ↔ y ∈ s ∧ y ≠ x.
Proof.
  unfold set_delete. rewrite elem_of_filter_b, negb_true_iff, bool_decide_eq_false. done.
Qed.

Lemma NoDup_set_delete s x : NoDup s → NoDup (set_delete s x).
Proof. apply NoDup_filter_b. Qed.

Lemma set_add_delete s x : x ∉ s → set_delete (set_add s x) x = s.
Proof.
  intros Hx. unfold set_add, includes. rewrite bool_decide_eq_false_2 by done.
  unfold set_delete. rewrite List.filter_app. simpl. rewrite bool_decide_eq_true_2 by done.
  simpl. rewrite app_nil_r. clear -Hx. induction s as [|y s IH]; simpl; [done|].
  rewrite bool_decide_eq_false_2 by set_solver. simpl. f_equal. apply IH. set_solver.
Qed.

End js_set.

#[export] Hint Resolve NoDup_set_add NoDup_set_of NoDup_set_delete NoDup_filter_b : sentinel.

(** ** Map *)

Section js_map.
Context {K V : Type} `{EqDecision K}.

(** [m.get(k)] *)
Fixpoint map_get (m : list (K * V)) (k : K) : option V :=
  match m with
  | [] => None
  | (k', v) :: m => if decide (k' = k) then Some v else map_get m k
  end.

(** [m.set(k, v)]: an existing key keeps its place. *)
Fixpoint map_set (m : list (K * V)) (k : K) (v : V) : list (K * V) :=
  match m with
  | [] => [(k, v)]
  | (k', v') :: m => if decide (k' = k) then (k', v) :: m else (k', v') :: map_set m k v
  end.

Definition map_of (kvs : list (K * V)) : list (K * V) :=
  fold_left (λ m kv, map_set m kv.1 kv.2) kvs [].

Lemma map_get_set m k v k' :
  map_get (map_set m k v) k' = if decide (k = k') then Some v else map_get m k'.
Proof.
  induction m as [|[k1 v1] m IH]; simpl; [done|].
  destruct (decide (k1 = k)); simpl; subst.
  - destruct (decide (k = k')); by subst.
  - destruct (decide (k1 = k')); [|done].
    destruct (decide (k = k')); congruence.
Qed.

Lemma map_get_elem m k v : map_get m k = Some v → (k, v) ∈ m.
Proof.
  induction m as [|[k' v'] m IH]; simpl; [done|]. case_decide; [intros [= <-]; subst; by left|].
  intros Hm. right. auto.
Qed.

Lemma map_set_set m k v v' : map_set (map_set m k v) k v' = map_set m k v'.
Proof.
  induction m as [|[k' x] m IH]; simpl; [by rewrite decide_True|].
  case_decide; simpl; [by rewrite decide_True|by rewrite decide_False, IH].
Qed.

Lemma map_set_fresh m k v : k ∉ m.*1 → map_set m k v = m ++ [(k, v)].
Proof.
  induction m as [|[k1 v1] m IH]; simpl; intros Hk; [done|].
  destruct (decide (k1 = k)); [set_solver|]. f_equal. set_solver.
Qed.

Lemma map_set_keys m k v k' : k' ∈ (map_set m k v).*1 ↔ k' ∈ m.*1 ∨ k' = k.
Proof.
  induction m as [|[k1 v1] m IH]; simpl; [set_solver|].
  destruct (decide (k1 = k)); simpl; set_solver.
Qed.

Lemma map_set_NoDup m k v : NoDup m.*1 → NoDup (map_set m k v).*1.
Proof.
  induction m as [|[k1 v1] m IH]; simpl; intros H; [apply NoDup_singleton|].
  apply NoDup_cons in H as [H1 H2]. destruct (decide (k1 = k)); simpl.
  - by constructor.
  - constructor; [|by apply IH]. rewrite map_set_keys. naive_solver.
Qed.

Lemma fold_map_set_NoDup kvs m :
  NoDup m.*1 → NoDup (fold_left (λ m kv, map_set m kv.1 kv.2) kvs m).*1.
Proof.
  revert m. induction kvs as [|[k v] kvs IH]; intros m H; simpl; [done|].
  apply IH. by apply map_set_NoDup.
Qed.

Lemma map_of_NoDup_keys kvs : NoDup (map_of kvs).*1.
Proof. apply fold_map_set_NoDup. constructor. Qed.

Lemma fold_map_set_keys kvs m k :
  k ∈ (fold_left (λ m kv, map_set m kv.1 kv.2) kvs m).*1 ↔ k ∈ m.*1 ∨ k ∈ kvs.*1.
Proof.
  revert m. induction kvs as [|[k1 v1] kvs IH]; intros m; simpl; [set_solver|].
  rewrite IH, map_set_keys. set_solver.
Qed.

Lemma map_of_keys kvs k : k ∈ (map_of kvs).*1 ↔ k ∈ kvs.*1.
Proof. unfold map_of. rewrite fold_map_set_keys. set_solver. Qed.

Lemma fold_map_set_fresh kvs m :
  NoDup (m ++ kvs).*1 → fold_left (λ m kv, map_set m kv.1 kv.2) kvs m = m ++ kvs.
Proof.
  revert m. induction kvs as [|[k v] kvs IH]; intros m H; simpl; [by rewrite app_nil_r|].
  rewrite map_set_fresh.
  - rewrite IH by by rewrite <-app_assoc. by rewrite <-app_assoc.
  - rewrite fmap_app in H. apply NoDup_app in H as (_ & Hd & _). intros Hk.
    apply (Hd k Hk). simpl. by left.
Qed.

Lemma map_of_NoDup kvs : NoDup kvs.*1 → map_of kvs = kvs.
Proof. intros H. by apply (fold_map_set_fresh kvs []). Qed.

End js_map.

(** ** Sorting *)

Section js_sort.
Context {A : Type}.

(** [goes_before x y] is [cmp(x, y) <= 0] for the comparator of the call. *)
Fixpoint sort_insert (goes_before : A → A → bool) (x : A) (l : list A) : list A :=
  match l with
  | [] => [x]
  | y :: l => if goes_before x y then x :: y :: l else y :: sort_insert goes_before x l
  end.

(** [l.sort(cmp)] *)
Definition js_sort (goes_before : A → A → bool) (l : list A) : list A :=
  foldr (sort_insert goes_before) [] l.

Lemma sort_insert_perm lt x l : sort_insert lt x l ≡ₚ x :: l.
Proof.
  induction l as [|y l IH]; simpl; [done|]. case_match; [done|].
  rewrite IH. apply Permutation_swap.
Qed.

Lemma js_sort_perm lt l : js_sort lt l ≡ₚ l.
Proof. induction l as [|x l IH]; simpl; [done|]. by rewrite sort_insert_perm, IH. Qed.

Lemma elem_of_js_sort lt l x : x ∈ js_sort lt l ↔ x ∈ l.
Proof. by rewrite js_sort_perm. Qed.

(** The sorted order, for a comparator that is transitive and total on the
    elements of the array. *)
Section order.
Variable lt : A → A → bool.
Hypothesis lt_trans : ∀ x y z, lt x y = true → lt y z = true → lt x z = true.

Lemma sort_insert_sorted x l :
  (∀ y, y ∈ l → lt x y = true ∨ lt y x = true) →
  StronglySorted (λ a b, lt a b = true) l →
  StronglySorted (λ a b, lt a b = true) (sort_insert lt x l).
Proof.
  intros Htot. induction 1 as [|y l Hl IH Hy]; simpl.
  - repeat constructor.
  - destruct (lt x y) eqn:E.
    + constructor; [by constructor|]. constructor; [done|].
      eapply Forall_impl; [exact Hy|]. simpl. eauto.
    + constructor; [apply IH; set_solver|].
      rewrite sort_insert_perm. constructor; [|done].
      destruct (Htot y) as [H|H]; [set_solver|congruence|done].
Qed.

Lemma js_sort_sorted l :
  (∀ i j x y, l !! i = Some x → l !! j = Some y → i ≠ j → lt x y = true ∨ lt y x = true) →
  StronglySorted (λ a b, lt a b = true) (js_sort lt l).
Proof.
  induction l as [|x l IH]; simpl; intros Htot; [constructor|].
  apply sort_insert_sorted.
  - intros y Hy. rewrite elem_of_js_sort in Hy. apply list_elem_of_lookup in Hy as [j Hj].
    by apply (Htot 0 (S j)).
  - apply IH. intros i j a b Hi Hj Hij. apply (Htot (S i) (S j)); naive_solver.
Qed.

Hypothesis lt_irrefl : ∀ x, lt x x = false.

(** Two arrays with the same elements, both in strict order, are equal. *)
Lemma js_sort_unique l1 l2 :
  StronglySorted (λ a b, lt a b = true) l1 → StronglySorted (λ a b, lt a b = true) l2 →
  l1 ≡ₚ l2 → l1 = l2.
Proof.
  intros H1 H2 Hp. apply (StronglySorted_unique_strong (λ a b, lt a b = true)); try done.
  intros x y _ _ Hxy Hyx. exfalso.
  pose proof (lt_trans _ _ _ Hxy Hyx) as H. by rewrite lt_irrefl in H.
Qed.
End order.

Lemma sort_insert_ext (p q : A → A → bool) x l :
  (∀ y, y ∈ l → p x y = q x y) → sort_insert p x l = sort_insert q x l.
Proof.
  induction l as [|y l IH]; intros Hpq; [done|]. simpl. rewrite (Hpq y) by set_solver.
  rewrite IH; [done|]. set_solver.
Qed.

Lemma js_sort_ext (p q : A → A → bool) l :
  (∀ x y, x ∈ l → y ∈ l → p x y = q x y) → js_sort p l = js_sort q l.
Proof.
  induction l as [|x l IH]; intros Hpq; [done|]. simpl. rewrite IH by set_solver.
  apply sort_insert_ext. intros y Hy. rewrite elem_of_js_sort in Hy. apply Hpq; set_solver.
Qed.

End js_sort.

(** [xs.sort()] of strings *)
Definition sort_strings (xs : list string) : list string := js_sort String.leb xs.

Lemma sort_strings_perm l l' : l ≡ₚ l' → sort_strings l = sort_strings l'.
Proof.
  intros Hp. unfold sort_strings.
  apply (StronglySorted_unique_strong (λ a b, str_le a b = true)).
  - intros x y _ _ Hxy Hyx. apply str_le_lt_eq in Hxy as [Hxy|]; [|done].
    apply str_le_lt_eq in Hyx as [Hyx|]; [|done]. apply str_lt_asym in Hxy. congruence.
  - apply js_sort_sorted; [apply str_le_trans|]. intros. apply str_le_total.
  - apply js_sort_sorted; [apply str_le_trans|]. intros. apply str_le_total.
  - by rewrite !js_sort_perm.
Qed.

Lemma elem_of_sort_strings l x : x ∈ sort_strings l ↔ x ∈ l.
Proof. apply elem_of_js_sort. Qed.

Lemma NoDup_sort_strings l : NoDup l → NoDup (sort_strings l).
Proof. unfold sort_strings. by rewrite js_sort_perm. Qed.

(** ** Arrays *)

Section js_array.
Context {A : Type}.

(** [xs.findIndex(p)], [None] for [-1] *)
Fixpoint find_index (p : A → bool) (xs : list A) : option nat :=
  match xs with
  | [] => None
  | x :: xs => if p x then Some 0 else S <$> find_index p xs
  end.

Lemma find_index_Some p xs i :
  find_index p xs = Some i →
  ∃ x, xs !! i = Some x ∧ p x = true ∧ ∀ j y, j < i → xs !! j = Some y → p y = false.
Proof.
  revert i. induction xs as [|x xs IH]; intros i; simpl; [done|].
  destruct (p x) eqn:E.
  - intros [= <-]. exists x. split_and!; [done|done|lia].
  - destruct (find_index p xs) as [k|]; simpl; [|done]. intros [= <-].
    destruct (IH k eq_refl) as (y & Hy & Hp & Hj). exists y. split_and!; [done..|].
    intros [|j] z Hlt Hz; simplify_eq/=; [done|]. apply (Hj j z); [lia|done].
Qed.

Lemma find_index_None p xs :
  find_index p xs = None ↔ ∀ x, x ∈ xs → p x = false.
Proof.
  induction xs as [|x xs IH]; simpl; [set_solver|].
  destruct (p x) eqn:E; [split; [done|]; intros H; rewrite H in E; set_solver|].
  destruct (find_index p xs) as [k|]; simpl; split; try done.
  - intros H. assert (Some k = None) by (apply IH; set_solver). done.
  - intros _ y. rewrite elem_of_cons. intros [->|Hy]; [done|]. by apply IH.
Qed.

Lemma find_app (p : A → bool) l1 l2 :
  List.find p (l1 ++ l2) = match List.find p l1 with Some x => Some x | None => List.find p l2 end.
Proof. induction l1 as [|x l1 IH]; simpl; [done|]. by destruct (p x). Qed.

Lemma find_filter (p q : A → bool) l :
  List.find p (List.filter q l) = List.find (λ x, q x && p x) l.
Proof.
  induction l as [|x l IH]; simpl; [done|]. destruct (q x); simpl; by rewrite IH.
Qed.

Lemma find_ext (p q : A → bool) l :
  (∀ x, x ∈ l → p x = q x) → List.find p l = List.find q l.
Proof.
  induction l as [|x l IH]; simpl; intros H; [done|].
  rewrite (H x) by set_solver. rewrite IH; [done|]. set_solver.
Qed.

Lemma find_none (p : A → bool) l : (∀ x, x ∈ l → p x = false) → List.find p l = None.
Proof.
  induction l as [|x l IH]; simpl; intros H; [done|].
  rewrite (H x) by set_solver. apply IH. set_solver.
Qed.

Lemma find_map {B} (p : B → bool) (f : A → B) l :
  List.find p (map f l) = f <$> List.find (p ∘ f) l.
Proof. induction l as [|x l IH]; simpl; [done|]. by destruct (p (f x)). Qed.

Lemma filter_map_comm {B} (p : B → bool) (f : A → B) l :
  List.filter p (map f l) = map f (List.filter (p ∘ f) l).
Proof. induction l as [|x l IH]; simpl; [done|]. destruct (p (f x)); simpl; by rewrite IH. Qed.

End js_array.
