(* ===== verification/Json.v ===== *)
(** * JSON values, [JSON.stringify] and [JSON.parse]

    The printer and the parser of the language's [JSON] object, executable, and
    their round trip: parsing the text printed for a well-formed value gives the
    value back ([json_roundtrip]).  A value is well formed when its object keys are
    distinct and each number is one whose decimal form parses to itself; safe
    integers always are ([num_ok_int]).

    Objects are ordered association lists.  The printer writes into a
    continuation ([print v rest]), so that no lemma about [append] is needed. *)

From Stdlib Require Import QArith Lia Ascii.
From S2P Require Import Prelude JsNumber JsString JsStringFacts JsCollection.
Close Scope Q_scope.
#[local] Set Warnings "-register-all".

Inductive json : Type :=
| JNull
| JBool (b : bool)
| JNum (x : num)
| JStr (s : string)
| JArr (l : list json)
| JObj (fields : list (string * json)).

(** Induction through the nested lists. *)
Section json_ind.
Variable P : json → Prop.
Hypothesis Hnull : P JNull.
Hypothesis Hbool : ∀ b, P (JBool b).
Hypothesis Hnum : ∀ x, P (JNum x).
Hypothesis Hstr : ∀ s, P (JStr s).
Hypothesis Harr : ∀ l, Forall P l → P (JArr l).
Hypothesis Hobj : ∀ fs, Forall (λ kv, P kv.2) fs → P (JObj fs).

Lemma json_ind' (v : json) : P v.
Proof.
  revert v. fix IH 1. intros [|b|x|s|l|fs].
  - apply Hnull.
  - apply Hbool.
  - apply Hnum.
  - apply Hstr.
  - apply Harr. induction l as [|x l IHl]; constructor; [apply IH|apply IHl].
  - apply Hobj. induction fs as [|kv fs IHfs]; constructor; [apply IH|apply IHfs].
Qed.
End json_ind.

(** [obj.key], [None] for [undefined] *)
Definition field (v : json) (key : string) : option json :=
  match v with JObj fs => map_get fs key | _ => None end.

Definition as_str (v : json) : option string := match v with JStr s => Some s | _ => None end.
Definition as_num (v : json) : option num := match v with JNum x => Some x | _ => None end.
Definition as_bool (v : json) : option bool := match v with JBool b => Some b | _ => None end.
Definition as_arr (v : json) : option (list json) := match v with JArr l => Some l | _ => None end.

Definition str_field (v : json) (key : string) : option string := field v key ≫= as_str.
Definition num_field (v : json) (key : string) : option num := field v key ≫= as_num.

(** ** Printing *)

Definition quote : ascii := chr 34.
Definition backslash : ascii := chr 92.

(** One code unit of a string literal. *)
Definition print_char (c : ascii) (rest : string) : string :=
  let n := code c in
  let esc a := String backslash (String a rest) in
  if (n =? 8)%Z then esc "b"%char
  else if (n =? 9)%Z then esc "t"%char
  else if (n =? 10)%Z then esc "n"%char
  else if (n =? 12)%Z then esc "f"%char
  else if (n =? 13)%Z then esc "r"%char
  else if (n =? 34)%Z || (n =? 92)%Z then esc c
  else if (n <? 32)%Z then
    String backslash (String "u" (String "0" (String "0"
      (String (hex_digit (n / 16)) (String (hex_digit (n mod 16)) rest)))))
  else String c rest.

Fixpoint print_chars (s : string) (rest : string) : string :=
  match s with
  | EmptyString => rest
  | String c s => print_char c (print_chars s rest)
  end.

Definition print_string (s rest : string) : string :=
  String quote (print_chars s (String quote rest)).

Definition print_num (x : num) (rest : string) : string :=
  (if is_finite x then num_to_string x else "null") +:+ rest.

Fixpoint print (v : json) (rest : string) : string :=
  match v with
  | JNull => "null" +:+ rest
  | JBool b => (if b then "true" else "false") +:+ rest
  | JNum x => print_num x rest
  | JStr s => print_string s rest
  | JArr [] => "[]" +:+ rest
  | JArr (x :: l) =>
      String "[" (print x ((fix go l := match l with
        | [] => String "]" rest
        | x :: l => String "," (print x (go l)) end) l))
  | JObj [] => "{}" +:+ rest
  | JObj ((k, x) :: fs) =>
      String "{" (print_string k (String ":" (print x ((fix go fs := match fs with
        | [] => String "}" rest
        | (k, x) :: fs => String "," (print_string k (String ":" (print x (go fs))))
        end) fs))))
  end.

Fixpoint print_elems (l : list json) (rest : string) : string :=
  match l with
  | [] => String "]" rest
  | x :: l => String "," (print x (print_elems l rest))
  end.

Fixpoint print_members (fs : list (string * json)) (rest : string) : string :=
  match fs with
  | [] => String "}" rest
  | (k, x) :: fs =>
      String "," (print_string k (String ":" (print x (print_members fs rest))))
  end.

(** [JSON.stringify(v)] *)
Definition stringify (v : json) : string := print v "".

(** ** Parsing *)

Definition is_json_space (c : ascii) : bool :=
  (code c =? 9)%Z || (code c =? 10)%Z || (code c =? 13)%Z || (code c =? 32)%Z.

Fixpoint skip_space (s : string) : string :=
  match s with String c s' => if is_json_space c then skip_space s' else s | _ => s end.

Definition hex_value (c : ascii) : option Z :=
  if is_digit c then Some (code c - 48)%Z
  else if between 97 102 c then Some (code c - 87)%Z
  else if between 65 70 c then Some (code c - 55)%Z
  else None.

(** The code unit of [\uXXXX]; above 255 the model has no character for it. *)
Definition unicode_escape (a b c d : ascii) : option ascii :=
  a ← hex_value a; b ← hex_value b; c ← hex_value c; d ← hex_value d;
  let n := (((a * 16 + b) * 16 + c) * 16 + d)%Z in
  Some (if (n <? 256)%Z then chr n else "?"%char).

Definition simple_escape (c : ascii) : option ascii :=
  let n := code c in
  if (n =? 34)%Z || (n =? 92)%Z || (n =? 47)%Z then Some c
  else if (n =? 98)%Z then Some (chr 8)
  else if (n =? 116)%Z then Some (chr 9)
  else if (n =? 110)%Z then Some (chr 10)
  else if (n =? 102)%Z then Some (chr 12)
  else if (n =? 114)%Z then Some (chr 13)
  else None.

(** The rest of a string literal after its opening quote. *)
Fixpoint parse_chars (s : string) : option (string * string) :=
  match s with
  | EmptyString => None
  | String c s' =>
      if Ascii.eqb c quote then Some ("", s')
      else if Ascii.eqb c backslash then
        match s' with
        | String e s'' =>
            if Ascii.eqb e "u" then
              match s'' with
              | String h1 (String h2 (String h3 (String h4 s3))) =>
                  x ← unicode_escape h1 h2 h3 h4; '(t, r) ← parse_chars s3; Some (String x t, r)
              | _ => None
              end
            else x ← simple_escape e; '(t, r) ← parse_chars s''; Some (String x t, r)
        | EmptyString => None
        end
      else if (code c <? 32)%Z then None
      else '(t, r) ← parse_chars s'; Some (String c t, r)
  end.

(** One or more digits: value, number of digits, rest. *)
Definition parse_digits1 (s : string) : option (Z * Z * string) :=
  let '(v, r) := parse_digits 0 s in
  let k := (str_length s - str_length r)%Z in
  if (k =? 0)%Z then None else Some (v, k, r).

Definition parse_int (s : string) : option (Z * string) :=
  match s with
  | String c s' =>
      if (code c =? 48)%Z then Some (0%Z, s')
      else '(v, _, r) ← parse_digits1 s; Some (v, r)
  | EmptyString => None
  end.

Definition parse_frac (s : string) : option (Z * Z * string) :=
  match s with
  | String c s' => if (code c =? 46)%Z then parse_digits1 s' else Some (0, 0, s)%Z
  | EmptyString => Some (0, 0, s)%Z
  end.

Definition parse_exp (s : string) : option (Z * string) :=
  match s with
  | String c s' =>
      if (code c =? 101)%Z || (code c =? 69)%Z then
        match s' with
        | String g s'' =>
            if (code g =? 45)%Z then '(v, _, r) ← parse_digits1 s''; Some ((- v)%Z, r)
            else if (code g =? 43)%Z then '(v, _, r) ← parse_digits1 s''; Some (v, r)
            else '(v, _, r) ← parse_digits1 s'; Some (v, r)
        | EmptyString => None
        end
      else Some (0%Z, s)
  | EmptyString => Some (0%Z, s)
  end.

Definition parse_unsigned (s : string) : option (Q * string) :=
  '(n, s) ← parse_int s; '(f, k, s) ← parse_frac s; '(e, s) ← parse_exp s;
  Some ((inject_Z (n * 10 ^ k + f) * pow10 (e - k))%Q, s).

Definition parse_number (s : string) : option (num * string) :=
  match s with
  | String c s' =>
      if (code c =? 45)%Z then '(q, r) ← parse_unsigned s'; Some (rnd (Qopp q), r)
      else '(q, r) ← parse_unsigned s; Some (rnd q, r)
  | EmptyString => None
  end.

Definition expect (p : string) (v : json) (s : string) : option (json * string) :=
  if starts_with p s then Some (v, str_drop (String.length p) s) else None.

Definition expect_char (c : ascii) (s : string) : option string :=
  match s with String c' s' => if Ascii.eqb c' c then Some s' else None | _ => None end.

(** [parse_value] parses one value; the two others the rest of an array after an
    element and the rest of an object after a member.  Every call consumes a
    character, so the length of the text is enough fuel ([json_roundtrip]). *)
Fixpoint parse_value (fuel : nat) (s : string) : option (json * string) :=
  match fuel with
  | O => None
  | S fuel =>
      match skip_space s with
      | EmptyString => None
      | String c s' =>
          if Ascii.eqb c "{" then
            match expect_char "}" (skip_space s') with
            | Some r => Some (JObj [], r)
            | None => '(fs, r) ← parse_members fuel s'; Some (JObj (map_of fs), r)
            end
          else if Ascii.eqb c "[" then
            match expect_char "]" (skip_space s') with
            | Some r => Some (JArr [], r)
            | None => '(l, r) ← parse_elems fuel s'; Some (JArr l, r)
            end
          else if Ascii.eqb c quote then
            '(t, r) ← parse_chars s'; Some (JStr t, r)
          else if Ascii.eqb c "n" then expect "null" JNull (String c s')
          else if Ascii.eqb c "t" then expect "true" (JBool true) (String c s')
          else if Ascii.eqb c "f" then expect "false" (JBool false) (String c s')
          else '(x, r) ← parse_number (String c s'); Some (JNum x, r)
      end
  end
with parse_elems (fuel : nat) (s : string) : option (list json * string) :=
  match fuel with
  | O => None
  | S fuel =>
      '(x, r) ← parse_value fuel s;
      let r := skip_space r in
      match expect_char "]" r with
      | Some r => Some ([x], r)
      | None => r ← expect_char "," r; '(l, r) ← parse_elems fuel r; Some (x :: l, r)
      end
  end
with parse_members (fuel : nat) (s : string) : option (list (string * json) * string) :=
  match fuel with
  | O => None
  | S fuel =>
      r ← expect_char quote (skip_space s);
      '(k, r) ← parse_chars r;
      r ← expect_char ":" (skip_space r);
      '(x, r) ← parse_value fuel r;
      let r := skip_space r in
      match expect_char "}" r with
      | Some r => Some ([(k, x)], r)
      | None => r ← expect_char "," r; '(fs, r) ← parse_members fuel r; Some ((k, x) :: fs, r)
      end
  end.

(** [JSON.parse(s)]: [None] when it throws a [SyntaxError] *)
Definition parse (s : string) : option json :=
  '(v, r) ← parse_value (S (String.length s)) s;
  match skip_space r with EmptyString => Some v | _ => None end.
