(* ===== verification/JsonFacts.v ===== *)
(** * The round trip of [JSON.stringify] and [JSON.parse] *)

From Stdlib Require Import QArith Lia Ascii.
From S2P Require Import Prelude JsNumber JsString JsStringFacts JsCollection Json.
Close Scope Q_scope.

(** ** Strings *)

Lemma parse_print_char c t :
  parse_chars (print_char c t) = '(u, r) ← parse_chars t; Some (String c u, r).
Proof. by destruct c as [[] [] [] [] [] [] [] []]. Qed.

Lemma parse_print_chars s r : parse_chars (print_chars s (String quote r)) = Some (s, r).
Proof.
  induction s as [|c s IH]; [done|].
  cbn [print_chars]. rewrite parse_print_char, IH. done.
Qed.

(** ** Numbers *)

(** What may follow a number: anything that does not continue it. *)
Definition stop (r : string) : bool :=
  match r with
  | EmptyString => true
  | String c _ => negb (is_digit c || (code c =? 46)%Z || (code c =? 101)%Z || (code c =? 69)%Z)
  end.

(** A number whose decimal form parses to itself. *)
Definition num_ok (x : num) : bool :=
  is_finite x && bool_decide (parse_number (num_to_string x) = Some (x, "")).

Lemma stop_no_digit r : stop r = true → no_digit r = true.
Proof. destruct r as [|c r]; simpl; [done|]. by destruct (is_digit c). Qed.

Lemma str_app_cons c (s t : string) : String c s +:+ t = String c (s +:+ t).
Proof. done. Qed.

Lemma str_app_nil (s : string) : s +:+ "" = s.
Proof.
  induction s as [|c s IH]; [done|].
  change (String c s +:+ "") with (String c (s +:+ "")). by rewrite IH.
Qed.

Lemma str_app_inj (s t u : string) : s +:+ t = s +:+ u → t = u.
Proof. induction s as [|c s IH]; [done|]. rewrite !str_app_cons. intros [= ?]. auto. Qed.

Lemma str_app_len s t : String.length (s +:+ t) = String.length s + String.length t.
Proof. induction s as [|c s IH]; [done|]. rewrite str_app_cons. cbn. by rewrite IH. Qed.

Lemma str_app_length s t : str_length (s +:+ t) = (str_length s + str_length t)%Z.
Proof. unfold str_length. rewrite str_app_len. lia. Qed.

Lemma parse_digits_app acc s v t r :
  parse_digits acc s = (v, t) → no_digit r = true →
  parse_digits acc (s +:+ r) = (v, t +:+ r).
Proof.
  intros H Hr. revert acc H. induction s as [|c s IH]; intros acc H.
  - simplify_eq/=. by apply parse_digits_stop.
  - rewrite str_app_cons. cbn [parse_digits] in *.
    destruct (is_digit c) eqn:E; [by apply IH|]. by simplify_eq.
Qed.

Lemma parse_digits1_app s v k t r :
  parse_digits1 s = Some (v, k, t) → no_digit r = true →
  parse_digits1 (s +:+ r) = Some (v, k, t +:+ r).
Proof.
  unfold parse_digits1. destruct (parse_digits 0 s) as [v' t'] eqn:E. intros H Hr.
  rewrite (parse_digits_app _ _ _ _ _ E Hr), !str_app_length.
  replace (str_length s + str_length r - (str_length t' + str_length r))%Z
    with (str_length s - str_length t')%Z by lia.
  by destruct (_ =? 0)%Z; simplify_eq.
Qed.

Lemma parse_int_app s v t r :
  parse_int s = Some (v, t) → no_digit r = true → parse_int (s +:+ r) = Some (v, t +:+ r).
Proof.
  destruct s as [|c s]; [done|]. intros H Hr.
  rewrite str_app_cons. cbn [parse_int] in *.
  destruct (code c =? 48)%Z; [by simplify_eq|].
  destruct (parse_digits1 (String c s)) as [[[v' k] t']|] eqn:E; simplify_eq/=.
  change (String c (s +:+ r)) with (String c s +:+ r).
  by rewrite (parse_digits1_app _ _ _ _ _ E Hr).
Qed.

Lemma parse_frac_app s f k t r :
  parse_frac s = Some (f, k, t) → stop r = true → parse_frac (s +:+ r) = Some (f, k, t +:+ r).
Proof.
  intros H Hr. destruct s as [|c s].
  - simplify_eq/=. change ("" +:+ r) with r. destruct r as [|c r]; [done|].
    cbn in *. by destruct (code c =? 46)%Z, (is_digit c).
  - rewrite str_app_cons. cbn [parse_frac] in *.
    destruct (code c =? 46)%Z; [|by simplify_eq].
    apply parse_digits1_app; [done|by apply stop_no_digit].
Qed.

Lemma parse_exp_app s e t r :
  parse_exp s = Some (e, t) → stop r = true → parse_exp (s +:+ r) = Some (e, t +:+ r).
Proof.
  intros H Hr. pose proof (stop_no_digit _ Hr) as Hd. destruct s as [|c s].
  - simplify_eq/=. change ("" +:+ r) with r. destruct r as [|c r]; [done|].
    cbn in *. by destruct (code c =? 101)%Z, (code c =? 69)%Z, (is_digit c), (code c =? 46)%Z.
  - rewrite str_app_cons. cbn [parse_exp] in *.
    destruct (_ || _); [|by simplify_eq]. destruct s as [|g s]; [done|].
    rewrite str_app_cons. cbn iota.
    destruct (code g =? 45)%Z; [|destruct (code g =? 43)%Z].
    1,2: destruct (parse_digits1 s) as [[[v k] t']|] eqn:E; simplify_eq/=;
      by rewrite (parse_digits1_app _ _ _ _ _ E Hd).
    destruct (parse_digits1 (String g s)) as [[[v k] t']|] eqn:E; simplify_eq/=.
    change (String g (s +:+ r)) with (String g s +:+ r).
    by rewrite (parse_digits1_app _ _ _ _ _ E Hd).
Qed.

Lemma parse_unsigned_app s q t r :
  parse_unsigned s = Some (q, t) → stop r = true →
  parse_unsigned (s +:+ r) = Some (q, t +:+ r).
Proof.
  unfold parse_unsigned. intros H Hr. pose proof (stop_no_digit _ Hr) as Hd.
  destruct (parse_int s) as [[n s1]|] eqn:E1; simplify_eq/=.
  rewrite (parse_int_app _ _ _ _ E1 Hd). simpl.
  destruct (parse_frac s1) as [[[f k] s2]|] eqn:E2; simplify_eq/=.
  rewrite (parse_frac_app _ _ _ _ _ E2 Hr). simpl.
  destruct (parse_exp s2) as [[e s3]|] eqn:E3; simplify_eq/=.
  by rewrite (parse_exp_app _ _ _ _ E3 Hr).
Qed.

Lemma parse_number_app s x t r :
  parse_number s = Some (x, t) → stop r = true →
  parse_number (s +:+ r) = Some (x, t +:+ r).
Proof.
  destruct s as [|c s]; [done|]. intros H Hr.
  rewrite str_app_cons. cbn [parse_number] in *.
  destruct (code c =? 45)%Z.
  - destruct (parse_unsigned s) as [[q t']|] eqn:E; simplify_eq/=.
    by rewrite (parse_unsigned_app _ _ _ _ E Hr).
  - destruct (parse_unsigned (String c s)) as [[q t']|] eqn:E; simplify_eq/=.
    change (String c (s +:+ r)) with (String c s +:+ r).
    by rewrite (parse_unsigned_app _ _ _ _ E Hr).
Qed.

Lemma parse_digits1_head c s x : parse_digits1 (String c s) = Some x → is_digit c = true.
Proof.
  unfold parse_digits1. cbn [parse_digits]. destruct (is_digit c); [done|].
  by rewrite Z.sub_diag.
Qed.

Lemma parse_number_head s x :
  parse_number s = Some x → ∃ c s', s = String c s' ∧ (is_digit c = true ∨ code c = 45%Z).
Proof.
  destruct s as [|c s]; [done|]. intros H. exists c, s. split; [done|].
  cbn [parse_number] in H. destruct (Z.eqb_spec (code c) 45); [by right|]. left.
  unfold parse_unsigned in H.
  destruct (parse_int (String c s)) as [[m t]|] eqn:E; [|done]. clear H.
  cbn [parse_int] in E. destruct (Z.eqb_spec (code c) 48) as [H48|].
  - unfold is_digit, between. by rewrite H48.
  - destruct (parse_digits1 (String c s)) as [p|] eqn:E2; [|done].
    by eapply parse_digits1_head.
Qed.

(** Safe integers print and parse exactly. *)
Lemma print_digits_nonzero fuel n s :
  (0 < n < 2 ^ Z.of_nat fuel)%Z →
  ∃ c s', print_digits fuel n s = String c s' ∧ is_digit c = true ∧ code c ≠ 48%Z.
Proof.
  revert n s. induction fuel as [|fuel IH]; intros n s Hn; [simpl in Hn; lia|].
  cbn [print_digits].
  pose proof (Z.mod_pos_bound n 10 ltac:(lia)) as Hd.
  pose proof (Z.div_mod n 10 ltac:(lia)) as Hdm.
  destruct (is_digit_char (n mod 10) Hd) as [Hd1 Hd2].
  destruct (Z.eqb_spec (n / 10) 0).
  - eexists _, _. split_and!; [done|done|]. rewrite Hd2. lia.
  - apply IH. pose proof (Z.div_pos n 10).
    rewrite Nat2Z.inj_succ, Z.pow_succ_r in Hn by lia. lia.
Qed.

Lemma parse_unsigned_digits n :
  (0 <= n)%Z → parse_unsigned (print_nonneg n "") = Some (inject_Z n, "").
Proof.
  intros Hn. unfold parse_unsigned.
  assert (parse_int (print_nonneg n "") = Some (n, "")) as ->.
  { destruct (decide (n = 0)%Z) as [->|Hnz]; [done|].
    destruct (print_digits_nonzero (digits_fuel n) n "") as (c & s' & Hs & Hc & Hc0).
    { pose proof (digits_fuel_ok n Hn). lia. }
    assert (print_nonneg n "" = String c s') as E by done. rewrite E.
    cbn [parse_int]. rewrite (proj2 (Z.eqb_neq _ _) Hc0).
    unfold parse_digits1. rewrite <-E, parse_print_nonneg by done. rewrite E. done. }
  simpl. repeat f_equal. unfold inject_Z, Qmult; simpl. f_equal. lia.
Qed.

Lemma num_ok_int n : safe_Z n = true → num_ok (int n) = true.
Proof.
  intros Hs. unfold num_ok. apply andb_true_iff. split; [done|].
  apply bool_decide_eq_true. unfold num_to_string, int.
  change (Fin (inject_Z n)) with (int n). rewrite int_safe, Hs, int_to_Z.
  unfold string_of_Z, print_Z. destruct (Z.ltb_spec n 0).
  - cbn [parse_number]. rewrite parse_unsigned_digits by lia. simpl.
    unfold Qopp; simpl. rewrite Z.opp_involutive. change (n # 1)%Q with (inject_Z n).
    by rewrite rnd_int.
  - destruct (print_nonneg n "") as [|c s] eqn:E.
    { pose proof (parse_unsigned_digits n ltac:(lia)) as H'. by rewrite E in H'. }
    cbn [parse_number]. rewrite <-E, parse_unsigned_digits by lia. simpl.
    destruct (Z.eqb_spec (code c) 45) as [H45|]; [|by rewrite rnd_int].
    exfalso. destruct (print_digits_head (digits_fuel n) n "") as (c' & s' & Hp & Hc); [done|unfold digits_fuel; lia|].
    unfold print_nonneg in E. rewrite E in Hp. simplify_eq.
    unfold is_digit, between in Hc. rewrite H45 in Hc. done.
Qed.

#[export] Hint Resolve num_ok_int : sentinel.

(** ** Well-formed values *)

Fixpoint json_ok (v : json) : bool :=
  match v with
  | JNum x => num_ok x
  | JArr l => forallb json_ok l
  | JObj fs => bool_decide (NoDup fs.*1) && forallb (λ kv, json_ok kv.2) fs
  | _ => true
  end.

(** Fuel enough to parse the text of a value. *)
Fixpoint jsize (v : json) : nat :=
  match v with
  | JArr l => S (list_sum (map (λ x, S (jsize x)) l))
  | JObj fs => S (list_sum (map (λ kv, S (jsize kv.2)) fs))
  | _ => 1
  end.

Lemma print_arr_cons x l r : print (JArr (x :: l)) r = String "[" (print x (print_elems l r)).
Proof. cbn [print]. do 2 f_equal. induction l as [|y l IH]; [done|]. cbn. by do 2 f_equal. Qed.

Lemma print_obj_cons k x fs r :
  print (JObj ((k, x) :: fs)) r =
  String "{" (print_string k (String ":" (print x (print_members fs r)))).
Proof.
  cbn [print]. do 5 f_equal.
  induction fs as [|[k' y] fs IH]; [done|]. cbn. by do 4 f_equal.
Qed.

Lemma num_string_head x r :
  num_ok x = true →
  ∃ c t, print_num x r = String c t ∧ (is_digit c = true ∨ code c = 45%Z).
Proof.
  unfold num_ok, print_num. rewrite andb_true_iff. intros [-> H].
  apply bool_decide_eq_true in H. destruct (parse_number_head _ _ H) as (c & s & -> & Hc).
  exists c, (s +:+ r). done.
Qed.

Lemma number_head_tests c :
  is_digit c = true ∨ code c = 45%Z →
  is_json_space c = false ∧ Ascii.eqb c "]" = false ∧ Ascii.eqb c "}" = false ∧
  Ascii.eqb c "{" = false ∧ Ascii.eqb c "[" = false ∧ Ascii.eqb c quote = false ∧
  Ascii.eqb c "n" = false ∧ Ascii.eqb c "t" = false ∧ Ascii.eqb c "f" = false.
Proof. destruct c as [[] [] [] [] [] [] [] []]; intros [H|H]; vm_compute in H; done. Qed.

Lemma print_head v r :
  json_ok v = true →
  ∃ c t, print v r = String c t ∧ is_json_space c = false ∧ Ascii.eqb c "]" = false.
Proof.
  destruct v as [|[]|x|s|[|x l]|[|[k x] fs]]; intros Hok; try (eexists _, _; split; [done|done]).
  destruct (num_string_head x r Hok) as (c & t & E & Hc). exists c, t.
  split; [done|]. apply number_head_tests in Hc. naive_solver.
Qed.

Lemma skip_space_head c t : is_json_space c = false → skip_space (String c t) = String c t.
Proof. cbn [skip_space]. by intros ->. Qed.

Lemma print_elems_head l r :
  stop (print_elems l r) = true ∧ skip_space (print_elems l r) = print_elems l r.
Proof. by destruct l. Qed.

Lemma print_members_head fs r :
  stop (print_members fs r) = true ∧ skip_space (print_members fs r) = print_members fs r.
Proof. by destruct fs as [|[k x] fs]. Qed.

Definition parses (v : json) : Prop := ∀ r fuel,
  stop r = true → jsize v <= fuel → parse_value fuel (print v r) = Some (v, r).

Lemma parse_print_elems l : Forall parses l → ∀ x r fuel,
  parses x → list_sum (map (λ x, S (jsize x)) (x :: l)) <= fuel →
  parse_elems fuel (print x (print_elems l r)) = Some (x :: l, r).
Proof.
  induction 1 as [|y l Hy _ IH]; intros x r [|fuel] Hx Hf; simpl in Hf; try lia;
    cbn [parse_elems].
  - rewrite Hx by (done || lia). done.
  - destruct (print_elems_head (y :: l) r) as [Hs Hk].
    rewrite Hx by (done || lia). cbn [mbind option_bind]. rewrite Hk. cbn.
    rewrite IH by (done || (simpl; lia)). done.
Qed.

Lemma expect_colon t : expect_char ":" (skip_space (String ":" t)) = Some t.
Proof. done. Qed.

Lemma expect_key k t : expect_char quote (skip_space (print_string k t)) ≫= parse_chars = Some (k, t).
Proof.
  unfold print_string. change (expect_char quote _) with (Some (print_chars k (String quote t))).
  apply parse_print_chars.
Qed.

Lemma parse_members_step fuel k t :
  parse_members (S fuel) (print_string k (String ":" t)) =
  '(x, r) ← parse_value fuel t;
  let r := skip_space r in
  match expect_char "}" r with
  | Some r => Some ([(k, x)], r)
  | None => r ← expect_char "," r; '(fs, r) ← parse_members fuel r; Some ((k, x) :: fs, r)
  end.
Proof.
  cbn [parse_members]. pose proof (expect_key k (String ":" t)) as H.
  destruct (expect_char quote (skip_space (print_string k (String ":" t)))) as [r|]; [|done].
  cbn [mbind option_bind] in *. rewrite H. cbn [mbind option_bind].
  by rewrite expect_colon.
Qed.

Lemma parse_print_members fs : Forall (λ kv, parses kv.2) fs → ∀ k x r fuel,
  parses x → list_sum (map (λ kv : string * json, S (jsize kv.2)) ((k, x) :: fs)) <= fuel →
  parse_members fuel (print_string k (String ":" (print x (print_members fs r))))
    = Some ((k, x) :: fs, r).
Proof.
  induction 1 as [|[k' y] fs Hy _ IH]; intros k x r [|fuel] Hx Hf; simpl in Hf; try lia;
    rewrite parse_members_step.
  - rewrite Hx by (done || lia). done.
  - destruct (print_members_head ((k', y) :: fs) r) as [Hs Hk].
    rewrite Hx by (done || lia). cbn [mbind option_bind]. rewrite Hk. cbn.
    rewrite IH by (done || (simpl; lia)). done.
Qed.

Lemma parse_print_num x r fuel :
  num_ok x = true → stop r = true → 1 <= fuel →
  parse_value fuel (print_num x r) = Some (JNum x, r).
Proof.
  intros Hok Hr Hf. destruct fuel as [|fuel]; [lia|].
  destruct (num_string_head x r Hok) as (c & t & E & Hc).
  apply number_head_tests in Hc as (Hsp & _ & _ & H1 & H2 & H3 & H4 & H5 & H6).
  cbn [parse_value]. rewrite E, skip_space_head by done.
  rewrite H1, H2, H3, H4, H5, H6, <-E.
  unfold num_ok in Hok. apply andb_true_iff in Hok as [Hfin Hok].
  apply bool_decide_eq_true in Hok.
  unfold print_num. rewrite Hfin, (parse_number_app _ _ _ _ Hok Hr). done.
Qed.

Lemma parse_print v : json_ok v = true → parses v.
Proof.
  induction v as [|b|x|s|l IH|fs IH] using json_ind'; intros Hok r fuel Hr Hf;
    (destruct fuel as [|fuel]; [simpl in Hf; lia|]).
  - done.
  - by destruct b.
  - apply parse_print_num; [done..|lia].
  - cbn [print parse_value]. unfold print_string. cbn [skip_space].
    change (is_json_space quote) with false. cbn [skip_space]. cbn.
    by rewrite parse_print_chars.
  - cbn [json_ok] in Hok. rewrite forallb_forall in Hok.
    assert (Forall parses l) as Hl.
    { rewrite Forall_forall in IH |- *. intros x Hx. apply IH; [done|].
      apply Hok. by apply list_elem_of_In. }
    destruct l as [|x l]; [done|]. apply Forall_cons in Hl as [Hx Hl].
    rewrite print_arr_cons. cbn [parse_value skip_space].
    change (is_json_space "[") with false. cbn [skip_space].
    change (Ascii.eqb "[" "{") with false. change (Ascii.eqb "[" "[") with true. cbn iota.
    destruct (print_head x (print_elems l r)) as (c & t & E & Hsp & Hne).
    { apply Hok. by left. }
    rewrite E, skip_space_head by done. cbn [expect_char]. rewrite Hne, <-E.
    rewrite parse_print_elems by (done || (simpl in *; lia)). done.
  - cbn [json_ok] in Hok. apply andb_true_iff in Hok as [Hnd Hok].
    apply bool_decide_eq_true in Hnd.
    assert (Forall (λ kv, parses kv.2) fs) as Hl.
    { rewrite Forall_forall in IH |- *. intros kv Hkv. apply IH; [done|].
      rewrite forallb_forall in Hok. apply Hok. by apply list_elem_of_In. }
    destruct fs as [|[k x] fs]; [done|]. apply Forall_cons in Hl as [Hx Hl].
    rewrite print_obj_cons. cbn [parse_value skip_space].
    change (is_json_space "{") with false. cbn [skip_space].
    change (Ascii.eqb "{" "{") with true. cbn iota.
    unfold print_string at 1. cbn [skip_space]. change (is_json_space quote) with false.
    cbn [skip_space expect_char]. change (Ascii.eqb quote "}") with false. cbn iota.
    fold (print_string k (String ":" (print x (print_members fs r)))).
    rewrite parse_print_members by (done || (simpl in *; lia)). cbn [mbind option_bind].
    by rewrite map_of_NoDup.
Qed.

(** ** The length of the printed text bounds the fuel *)

Lemma print_chars_length s r : String.length r <= String.length (print_chars s r).
Proof.
  induction s as [|c s IH]; [done|]. cbn [print_chars]. unfold print_char.
  repeat case_match; cbn; lia.
Qed.

Definition sized (v : json) : Prop := ∀ r,
  String.length r + jsize v <= String.length (print v r).

Lemma print_elems_length l r :
  Forall sized l →
  String.length r + S (list_sum (map (λ x, S (jsize x)) l)) <= String.length (print_elems l r).
Proof.
  induction 1 as [|x l Hx _ IH]; cbn; [lia|]. specialize (Hx (print_elems l r)).
  unfold list_sum in *. cbn in *. lia.
Qed.

Lemma print_members_length fs r :
  Forall (λ kv, sized kv.2) fs →
  String.length r + S (list_sum (map (λ kv : string * json, S (jsize kv.2)) fs))
    <= String.length (print_members fs r).
Proof.
  induction 1 as [|[k x] fs Hx _ IH]; cbn; [lia|].
  pose proof (print_chars_length k (String quote (String ":" (print x (print_members fs r))))).
  specialize (Hx (print_members fs r)). unfold list_sum in *. cbn in *. lia.
Qed.

Lemma print_length v : json_ok v = true → sized v.
Proof.
  induction v as [|b|x|s|l IH|fs IH] using json_ind'; intros Hok r.
  - cbn [print]. rewrite str_app_len. cbn. lia.
  - destruct b; cbn [print]; rewrite str_app_len; cbn; lia.
  - destruct (num_string_head x r Hok) as (c & t & E & _). cbn [print jsize].
    unfold print_num in *. destruct (num_to_string x) as [|d s] eqn:Es.
    + exfalso. unfold num_ok in Hok. apply andb_true_iff in Hok as [_ Hok].
      apply bool_decide_eq_true in Hok. by rewrite Es in Hok.
    + unfold num_ok in Hok. apply andb_true_iff in Hok as [-> _].
      pose proof (str_app_length (String d s) r). unfold str_length in *.
      unfold list_sum in *. cbn in *. lia.
  - cbn [print jsize]. unfold print_string.
    pose proof (print_chars_length s (String quote r)). unfold list_sum in *. cbn in *. lia.
  - assert (Forall sized l) as Hl.
    { cbn [json_ok] in Hok. rewrite forallb_forall in Hok.
      rewrite Forall_forall in IH |- *. intros x Hx. apply IH; [done|].
      apply Hok. by apply list_elem_of_In. }
    destruct l as [|x l]; [cbn [print]; rewrite str_app_len; cbn; lia|]. rewrite print_arr_cons.
    apply Forall_cons in Hl as [Hx Hl]. pose proof (print_elems_length l r Hl).
    specialize (Hx (print_elems l r)). unfold list_sum in *. cbn in *. lia.
  - assert (Forall (λ kv, sized kv.2) fs) as Hl.
    { cbn [json_ok] in Hok. apply andb_true_iff in Hok as [_ Hok].
      rewrite forallb_forall in Hok.
      rewrite Forall_forall in IH |- *. intros x Hx. apply IH; [done|].
      apply Hok. by apply list_elem_of_In. }
    destruct fs as [|[k x] fs]; [cbn [print]; rewrite str_app_len; cbn; lia|]. rewrite print_obj_cons.
    apply Forall_cons in Hl as [Hx Hl]. pose proof (print_members_length fs r Hl).
    pose proof (print_chars_length k (String quote (String ":" (print x (print_members fs r))))).
    specialize (Hx (print_members fs r)). unfold list_sum in *. cbn in *. lia.
Qed.

(** [JSON.parse(JSON.stringify(v))] is [v]. *)
Lemma json_roundtrip v : json_ok v = true → parse (stringify v) = Some v.
Proof.
  intros Hok. unfold parse, stringify.
  rewrite (parse_print v Hok) by (done || (pose proof (print_length v Hok ""); cbn in *; lia)).
  done.
Qed.

Lemma stringify_inj v w :
  json_ok v = true → json_ok w = true → stringify v = stringify w → v = w.
Proof.
  intros Hv Hw H. apply (f_equal parse) in H. rewrite !json_roundtrip in H by done.
  congruence.
Qed.

(** Evaluate the field lookups of a literal object. *)
Ltac json_fields :=
  unfold str_field, num_field, field; cbn [map_get as_str as_num as_arr as_bool];
  repeat (match goal with
  | |- context [decide (?a = ?b)] =>
      first [rewrite (decide_True (P := a = b)) by reflexivity
            |rewrite (decide_False (P := a = b)) by discriminate]
  end; cbn [map_get as_str as_num as_arr as_bool]);
  unfold mbind, option_bind; cbn [as_str as_num as_arr as_bool].
