(* ===== verification/JsonPretty.v ===== *)
(** * [JSON.stringify(v, null, 2)]

    The indented printer, and that [JSON.parse] reads its output back
    ([pretty_roundtrip]). *)

From Stdlib Require Import QArith Lia Ascii.
From S2P Require Import Prelude JsNumber JsString JsStringFacts JsCollection Json JsonFacts.
Close Scope Q_scope.

Fixpoint spaces (n : nat) (s : string) : string :=
  match n with O => s | S n => String " " (spaces n s) end.

(** A line break and the indentation of depth [d]. *)
Definition newline (d : nat) (s : string) : string := String (chr 10) (spaces (2 * d) s).

Fixpoint pretty (d : nat) (v : json) (rest : string) : string :=
  match v with
  | JArr (x :: l) =>
      String "[" (newline (S d) (pretty (S d) x ((fix go l := match l with
        | [] => newline d (String "]" rest)
        | x :: l => String "," (newline (S d) (pretty (S d) x (go l))) end) l)))
  | JObj ((k, x) :: fs) =>
      String "{" (newline (S d) (print_string k (String ":" (String " " (pretty (S d) x
        ((fix go fs := match fs with
          | [] => newline d (String "}" rest)
          | (k, x) :: fs => String "," (newline (S d) (print_string k
              (String ":" (String " " (pretty (S d) x (go fs)))))) end) fs))))))
  | _ => print v rest
  end.

Definition stringify_pretty (v : json) : string := pretty 0 v "".

Fixpoint pretty_elems (d : nat) (l : list json) (rest : string) : string :=
  match l with
  | [] => newline d (String "]" rest)
  | x :: l => String "," (newline (S d) (pretty (S d) x (pretty_elems d l rest)))
  end.

Fixpoint pretty_members (d : nat) (fs : list (string * json)) (rest : string) : string :=
  match fs with
  | [] => newline d (String "}" rest)
  | (k, x) :: fs => String "," (newline (S d) (print_string k
      (String ":" (String " " (pretty (S d) x (pretty_members d fs rest))))))
  end.

Lemma pretty_arr_cons d x l r :
  pretty d (JArr (x :: l)) r = String "[" (newline (S d) (pretty (S d) x (pretty_elems d l r))).
Proof.
  cbn [pretty]. do 3 f_equal. induction l as [|y l IH]; [done|]. cbn [pretty_elems]. by do 3 f_equal.
Qed.

Lemma pretty_obj_cons d k x fs r :
  pretty d (JObj ((k, x) :: fs)) r = String "{" (newline (S d) (print_string k
    (String ":" (String " " (pretty (S d) x (pretty_members d fs r)))))).
Proof.
  cbn [pretty]. do 6 f_equal.
  induction fs as [|[k' y] fs IH]; [done|]. cbn [pretty_members]. by do 6 f_equal.
Qed.

Lemma skip_spaces n s : skip_space (spaces n s) = skip_space s.
Proof. induction n as [|n IH]; [done|]. apply IH. Qed.

Lemma skip_newline d s : skip_space (newline d s) = skip_space s.
Proof. apply skip_spaces. Qed.

Lemma parse_value_newline fuel d s : parse_value fuel (newline d s) = parse_value fuel s.
Proof. destruct fuel as [|fuel]; [done|]. cbn [parse_value]. by rewrite skip_newline. Qed.

Lemma parse_value_space fuel s : parse_value fuel (String " " s) = parse_value fuel s.
Proof. by destruct fuel. Qed.

Lemma parse_elems_newline fuel d s : parse_elems fuel (newline d s) = parse_elems fuel s.
Proof. destruct fuel as [|fuel]; [done|]. cbn [parse_elems]. by rewrite parse_value_newline. Qed.

Lemma parse_members_newline fuel d s : parse_members fuel (newline d s) = parse_members fuel s.
Proof. destruct fuel as [|fuel]; [done|]. cbn [parse_members]. by rewrite skip_newline. Qed.

Lemma parse_members_step_space fuel k t :
  parse_members (S fuel) (print_string k (String ":" (String " " t))) =
  parse_members (S fuel) (print_string k (String ":" t)).
Proof. rewrite !parse_members_step. by rewrite parse_value_space. Qed.

(** Skipping white space before what follows a value *)
Lemma pretty_elems_next d l r :
  stop (pretty_elems d l r) = true ∧
  skip_space (pretty_elems d l r) =
    match l with [] => String "]" r | _ => pretty_elems d l r end.
Proof. destruct l; split; try done. cbn [pretty_elems]. by rewrite skip_newline. Qed.

Lemma pretty_members_next d fs r :
  stop (pretty_members d fs r) = true ∧
  skip_space (pretty_members d fs r) =
    match fs with [] => String "}" r | _ => pretty_members d fs r end.
Proof. destruct fs as [|[]]; split; try done. cbn [pretty_members]. by rewrite skip_newline. Qed.

Definition pretty_parses (v : json) : Prop := ∀ d r fuel,
  stop r = true → jsize v <= fuel → parse_value fuel (pretty d v r) = Some (v, r).

Lemma pretty_head d v r :
  json_ok v = true →
  ∃ c t, pretty d v r = String c t ∧ is_json_space c = false ∧ Ascii.eqb c "]" = false.
Proof.
  intros Hok. destruct v as [|b|x|s|[|x l]|[|[k x] fs]]; try by apply print_head.
  - rewrite pretty_arr_cons. by eexists _, _.
  - rewrite pretty_obj_cons. by eexists _, _.
Qed.

Lemma parse_pretty_elems d l : Forall pretty_parses l → ∀ x r fuel,
  pretty_parses x → list_sum (map (λ x, S (jsize x)) (x :: l)) <= fuel →
  parse_elems fuel (pretty (S d) x (pretty_elems d l r)) = Some (x :: l, r).
Proof.
  induction 1 as [|y l Hy _ IH]; intros x r [|fuel] Hx Hf; simpl in Hf; try lia;
    cbn [parse_elems].
  - destruct (pretty_elems_next d [] r) as [Hs Hk].
    rewrite Hx by (done || lia). cbn [mbind option_bind]. by rewrite Hk.
  - destruct (pretty_elems_next d (y :: l) r) as [Hs Hk].
    rewrite Hx by (done || lia). cbn [mbind option_bind]. rewrite Hk. cbn [pretty_elems expect_char].
    change (Ascii.eqb "," "]") with false. change (Ascii.eqb "," ",") with true. cbn iota.
    cbn [mbind option_bind]. rewrite parse_elems_newline, IH by (done || (simpl; lia)). done.
Qed.

Lemma parse_pretty_members d fs : Forall (λ kv, pretty_parses kv.2) fs → ∀ k x r fuel,
  pretty_parses x → list_sum (map (λ kv : string * json, S (jsize kv.2)) ((k, x) :: fs)) <= fuel →
  parse_members fuel (print_string k (String ":" (String " "
    (pretty (S d) x (pretty_members d fs r))))) = Some ((k, x) :: fs, r).
Proof.
  induction 1 as [|[k' y] fs Hy _ IH]; intros k x r [|fuel] Hx Hf; simpl in Hf; try lia;
    rewrite parse_members_step_space, parse_members_step.
  - destruct (pretty_members_next d [] r) as [Hs Hk].
    rewrite Hx by (done || lia). cbn [mbind option_bind]. by rewrite Hk.
  - destruct (pretty_members_next d ((k', y) :: fs) r) as [Hs Hk].
    rewrite Hx by (done || lia). cbn [mbind option_bind]. rewrite Hk.
    cbn [pretty_members expect_char].
    change (Ascii.eqb "," "}") with false. change (Ascii.eqb "," ",") with true. cbn iota.
    cbn [mbind option_bind]. rewrite parse_members_newline, IH by (done || (simpl; lia)). done.
Qed.

Lemma parse_pretty v : json_ok v = true → pretty_parses v.
Proof.
  induction v as [|b|x|s|l IH|fs IH] using json_ind'; intros Hok d r fuel Hr Hf;
    try (apply parse_print; done); (destruct fuel as [|fuel]; [simpl in Hf; lia|]).
  - assert (Forall pretty_parses l) as Hl.
    { cbn [json_ok] in Hok. rewrite forallb_forall in Hok.
      rewrite Forall_forall in IH |- *. intros x Hx. apply IH; [done|].
      apply Hok. by apply list_elem_of_In. }
    destruct l as [|x l]; [by apply (parse_print (JArr []))|].
    apply Forall_cons in Hl as [Hx Hl].
    rewrite pretty_arr_cons. cbn [parse_value skip_space].
    change (is_json_space "[") with false. cbn [skip_space].
    change (Ascii.eqb "[" "{") with false. change (Ascii.eqb "[" "[") with true. cbn iota.
    destruct (pretty_head (S d) x (pretty_elems d l r)) as (c & t & E & Hsp & Hne).
    { cbn [json_ok forallb] in Hok. by apply andb_true_iff in Hok as [? _]. }
    rewrite skip_newline, E, skip_space_head by done. cbn [expect_char]. rewrite Hne, <-E.
    rewrite parse_elems_newline, parse_pretty_elems by (done || (simpl in *; lia)). done.
  - assert (Forall (λ kv, pretty_parses kv.2) fs) as Hl.
    { cbn [json_ok] in Hok. apply andb_true_iff in Hok as [_ Hok].
      rewrite forallb_forall in Hok.
      rewrite Forall_forall in IH |- *. intros kv Hkv. apply IH; [done|].
      apply Hok. by apply list_elem_of_In. }
    destruct fs as [|[k x] fs]; [by apply (parse_print (JObj []))|].
    apply Forall_cons in Hl as [Hx Hl].
    rewrite pretty_obj_cons. cbn [parse_value skip_space].
    change (is_json_space "{") with false. cbn [skip_space].
    change (Ascii.eqb "{" "{") with true. cbn iota. rewrite skip_newline.
    unfold print_string at 1. cbn [skip_space]. change (is_json_space quote) with false.
    cbn [skip_space expect_char]. change (Ascii.eqb quote "}") with false. cbn iota.
    rewrite parse_members_newline, parse_pretty_members by (done || (simpl in *; lia)).
    cbn [mbind option_bind]. cbn [json_ok] in Hok. apply andb_true_iff in Hok as [Hnd _].
    apply bool_decide_eq_true in Hnd. by rewrite map_of_NoDup.
Qed.

(** ** The length of the text bounds the fuel *)

Lemma spaces_length n s : String.length s <= String.length (spaces n s).
Proof. induction n; simpl; lia. Qed.

Lemma newline_length d s : S (String.length s) <= String.length (newline d s).
Proof. unfold newline. pose proof (spaces_length (2 * d) s). cbn [String.length]. lia. Qed.

Definition pretty_sized (v : json) : Prop := ∀ d r,
  String.length r + jsize v <= String.length (pretty d v r).

Lemma pretty_elems_length d l r :
  Forall pretty_sized l →
  String.length r + S (list_sum (map (λ x, S (jsize x)) l)) <= String.length (pretty_elems d l r).
Proof.
  induction 1 as [|x l Hx _ IH]; cbn [pretty_elems map list_sum fold_right].
  - pose proof (newline_length d (String "]" r)). simpl in *. lia.
  - specialize (Hx (S d) (pretty_elems d l r)).
    pose proof (newline_length (S d) (pretty (S d) x (pretty_elems d l r))).
    unfold list_sum in *. simpl in *. lia.
Qed.

Lemma pretty_members_length d fs r :
  Forall (λ kv, pretty_sized kv.2) fs →
  String.length r + S (list_sum (map (λ kv : string * json, S (jsize kv.2)) fs))
    <= String.length (pretty_members d fs r).
Proof.
  induction 1 as [|[k x] fs Hx _ IH]; cbn [pretty_members map list_sum fold_right snd].
  - pose proof (newline_length d (String "}" r)). simpl in *. lia.
  - specialize (Hx (S d) (pretty_members d fs r)). simpl in Hx.
    set (t := String ":" (String " " (pretty (S d) x (pretty_members d fs r)))).
    pose proof (newline_length (S d) (print_string k t)).
    pose proof (print_chars_length k (String quote t)). subst t.
    unfold print_string, list_sum in *. simpl in *. lia.
Qed.

Lemma pretty_length v : json_ok v = true → pretty_sized v.
Proof.
  induction v as [|b|x|s|l IH|fs IH] using json_ind'; intros Hok d r;
    try (apply print_length; done).
  - assert (Forall pretty_sized l) as Hl.
    { cbn [json_ok] in Hok. rewrite forallb_forall in Hok.
      rewrite Forall_forall in IH |- *. intros x Hx. apply IH; [done|].
      apply Hok. by apply list_elem_of_In. }
    destruct l as [|x l]; [by apply (print_length (JArr []))|]. rewrite pretty_arr_cons.
    apply Forall_cons in Hl as [Hx Hl]. pose proof (pretty_elems_length d l r Hl).
    specialize (Hx (S d) (pretty_elems d l r)).
    pose proof (newline_length (S d) (pretty (S d) x (pretty_elems d l r))).
    unfold list_sum in *. cbn in *. lia.
  - assert (Forall (λ kv, pretty_sized kv.2) fs) as Hl.
    { cbn [json_ok] in Hok. apply andb_true_iff in Hok as [_ Hok].
      rewrite forallb_forall in Hok.
      rewrite Forall_forall in IH |- *. intros x Hx. apply IH; [done|].
      apply Hok. by apply list_elem_of_In. }
    destruct fs as [|[k x] fs]; [by apply (print_length (JObj []))|]. rewrite pretty_obj_cons.
    apply Forall_cons in Hl as [Hx Hl]. pose proof (pretty_members_length d fs r Hl).
    specialize (Hx (S d) (pretty_members d fs r)). simpl in Hx.
    set (t := String ":" (String " " (pretty (S d) x (pretty_members d fs r)))).
    pose proof (newline_length (S d) (print_string k t)).
    pose proof (print_chars_length k (String quote t)). subst t.
    unfold print_string, list_sum in *. cbn in *. lia.
Qed.

(** [JSON.parse(JSON.stringify(v, null, 2))] is [v]. *)
Lemma pretty_roundtrip v : json_ok v = true → parse (stringify_pretty v) = Some v.
Proof.
  intros Hok. unfold parse, stringify_pretty.
  rewrite (parse_pretty v Hok) by (done || (pose proof (pretty_length v Hok 0 ""); cbn in *; lia)).
  done.
Qed.
