(* ===== verification/SharedTypes.v ===== *)
(** * The domain types of [shared/types/index.d.ts]

    Records for the interfaces.  A property declared [p?: T] is an [option]; one
    declared [p?: T | null] is an [option (option T)], [None] for [undefined] and
    [Some None] for [null].  The enumerations that the client only ever receives
    by a cast of server strings ([EventType], [Severity], [EventState], ...) stay
    strings, because the code never checks them; [TrustState], which the client
    normalises itself, is an inductive type. *)

From S2P Require Import Prelude JsNumber JsString Json.

Inductive TrustState : Type := heuristic | corroborating | confirmed.

#[export] Instance TrustState_eq_dec : EqDecision TrustState.
Proof. solve_decision. Defined.

Record SafetyEvent : Type := mkSafetyEvent {
  ev_id : string;
  ev_event_type : string;
  ev_severity : string;
  ev_title : string;
  ev_summary : option (option string);
  ev_lat : num;
  ev_lng : num;
  ev_place_name : option (option string);
  ev_county : option (option string);
  ev_is_active : bool;
  ev_state : string;
  ev_started_at : string;
  ev_created_at : string;
  ev_updated_at : option string;
  ev_radius_meters : option (option num);
  ev_confidence : option (option num);
  ev_source_count : option (option num);
  ev_source_breakdown : option (option json);
  ev_nostr_event_id : option (option string);
  ev_trust_state : option TrustState;
  ev_origin_class : option string
}.

Record CommunityReport : Type := mkCommunityReport {
  rp_id : string;
  rp_report_type : string;
  rp_description : option string;
  rp_lat : num;
  rp_lng : num;
  rp_place_name : option string;
  rp_reporter_tier : string;
  rp_consensus_score : num;
  rp_status : string;
  rp_confirmation_count : num;
  rp_denial_count : num;
  rp_photo_ipfs_cid : option string;
  rp_linked_event_id : option string;
  rp_created_at : string;
  rp_updated_at : string
}.

Inductive MemberStatus : Type := ONLINE | GHOST | OFFLINE.

#[export] Instance MemberStatus_eq_dec : EqDecision MemberStatus.
Proof. solve_decision. Defined.

Inductive MembershipState : Type := PENDING | ACTIVE.

#[export] Instance MembershipState_eq_dec : EqDecision MembershipState.
Proof. solve_decision. Defined.

Record Circle : Type := mkCircle {
  ci_circle_id : string;
  ci_name : option (option string);
  ci_name_ciphertext : option (option string);
  ci_name_version : option Z;
  ci_key_epoch : option Z;
  ci_location_protocol_version : option Z;
  ci_rekey_required : option bool;
  ci_membership_revision : option Z;
  ci_self_token : option string;
  ci_created_at : string;
  ci_is_owner : option bool
}.

Record CircleMember : Type := mkCircleMember {
  cm_circle_id : string;
  cm_member_token : option (option string);
  cm_alert_radius_km : num;
  cm_alert_severity : string;
  cm_joined_at : string;
  cm_member_label_ciphertext : option (option string);
  cm_membership_state : option MembershipState;
  cm_accepted_at : option (option string);
  cm_key_wrap_epoch : option (option Z);
  cm_pubkey : option string;
  cm_label : option string
}.

Record ProximityAlert : Type := mkProximityAlert {
  pa_id : string;
  pa_member_pubkey : string;
  pa_zone_name : string;
  pa_event_id : option string;
  pa_severity : string;
  pa_triggered_at : string
}.

Record CircleLocationEnvelopeV1 : Type := mkEnvelope {
  env_id : string;
  env_circle_id : string;
  env_key_epoch : Z;
  env_ciphertext : string;
  env_created_at : string;
  env_expires_at : string
}.

Record CircleEpochChange : Type := mkEpochChange {
  ec_circle_id : string;
  ec_key_epoch : Z;
  ec_rekey_required : bool
}.

Record CircleMemberRemoved : Type := mkMemberRemoved {
  mr_circle_id : string;
  mr_key_epoch : Z;
  mr_token : string
}.

(** The messages of the circle socket. *)
Inductive CircleWsMessage : Type :=
| CIRCLE_LOCATION_SNAPSHOT (payload : list CircleLocationEnvelopeV1)
| CIRCLE_LOCATION_ENVELOPE (payload : CircleLocationEnvelopeV1)
| CIRCLE_EPOCH_CHANGED (payload : CircleEpochChange)
| CIRCLE_MEMBER_REMOVED (payload : CircleMemberRemoved).
