(* ===== verification/Nostr.v ===== *)
(** * Nostr events and the signer interface

    Events, templates and rumors of the [nostr-tools] types, their JSON forms, and
    the [NostrSigner] contract of [services/signerService.ts] as a record of
    operations over any state.

    The cryptography comes from packages and from the browser, so it is a
    parameter: the classes [Aes], [Sha256] and [NostrTools] list the operations the
    services call and the documented behaviour they rely on.  Witnesses use
    concrete instances ([CryptoModel.v]). *)

From Stdlib Require Import QArith Lia.
From S2P Require Import Prelude JsNumber JsString JsCollection Json JsonFacts.
Close Scope Q_scope.

(** ** Events *)

Record EventTemplate : Type := mkTemplate {
  t_kind : num;
  t_created_at : num;
  t_tags : list (list string);
  t_content : string
}.

Record Event : Type := mkEvent {
  id : string;
  pubkey : string;
  created_at : num;
  kind : num;
  tags : list (list string);
  content : string;
  sig : string
}.

(** [Rumor] of [services/chat/nip59.ts] *)
Record Rumor : Type := mkRumor {
  r_pubkey : string;
  r_id : string;
  r_kind : num;
  r_created_at : num;
  r_tags : list (list string);
  r_content : string
}.

#[export] Instance EventTemplate_eq_dec : EqDecision EventTemplate.
Proof. solve_decision. Defined.
#[export] Instance Event_eq_dec : EqDecision Event.
Proof. solve_decision. Defined.
#[export] Instance Rumor_eq_dec : EqDecision Rumor.
Proof. solve_decision. Defined.

Definition template_of (e : Event) : EventTemplate :=
  mkTemplate (kind e) (created_at e) (tags e) (content e).

(** ** JSON forms *)

Definition tags_to_json (ts : list (list string)) : json :=
  JArr (map (λ t, JArr (map JStr t)) ts).

Definition tag_of_json (j : json) : option (list string) :=
  l ← as_arr j; mapM as_str l.
Definition tags_of_json (j : json) : option (list (list string)) :=
  l ← as_arr j; mapM tag_of_json l.

(** [JSON.stringify(event)] writes the fields in the order of the object the
    library builds. *)
Definition event_to_json (e : Event) : json :=
  JObj [("kind", JNum (kind e)); ("created_at", JNum (created_at e));
        ("tags", tags_to_json (tags e)); ("content", JStr (content e));
        ("pubkey", JStr (pubkey e)); ("id", JStr (id e)); ("sig", JStr (sig e))].

(** A parsed object read as an event.  A value with a missing or mistyped field
    gives [None]: [verifyEvent] and [getEventHash], the first thing the code calls
    on it, reject such a value. *)
Definition event_of_json (j : json) : option Event :=
  k ← num_field j "kind"; c ← num_field j "created_at";
  ts ← field j "tags" ≫= tags_of_json; ct ← str_field j "content";
  pk ← str_field j "pubkey"; i ← str_field j "id"; s ← str_field j "sig";
  Some (mkEvent i pk c k ts ct s).

(** The rumor is spread with its [id] last. *)
Definition rumor_to_json (r : Rumor) : json :=
  JObj [("pubkey", JStr (r_pubkey r)); ("kind", JNum (r_kind r));
        ("created_at", JNum (r_created_at r)); ("tags", tags_to_json (r_tags r));
        ("content", JStr (r_content r)); ("id", JStr (r_id r))].

Definition rumor_of_json (j : json) : option Rumor :=
  pk ← str_field j "pubkey"; k ← num_field j "kind"; c ← num_field j "created_at";
  ts ← field j "tags" ≫= tags_of_json; ct ← str_field j "content";
  Some (mkRumor pk (default "" (str_field j "id")) k c ts ct).

Lemma mapM_map {A B} (f : A → B) (g : B → option A) l :
  (∀ x, g (f x) = Some x) → mapM g (map f l) = Some l.
Proof. intros Hfg. induction l as [|x l IH]; [done|]. simpl. by rewrite Hfg, IH. Qed.

Lemma tags_of_to_json ts : tags_of_json (tags_to_json ts) = Some ts.
Proof.
  unfold tags_of_json, tags_to_json. simpl. apply mapM_map. intros t.
  unfold tag_of_json. simpl. by apply mapM_map.
Qed.

Lemma strings_json_ok' l : forallb json_ok (map JStr l) = true.
Proof. by induction l. Qed.

Lemma tags_json_ok ts : json_ok (tags_to_json ts) = true.
Proof.
  unfold tags_to_json. cbn [json_ok]. induction ts as [|t ts IH]; [done|]. simpl.
  by rewrite strings_json_ok', IH.
Qed.

Definition event_num_ok (e : Event) : bool := num_ok (kind e) && num_ok (created_at e).
Definition rumor_num_ok (r : Rumor) : bool := num_ok (r_kind r) && num_ok (r_created_at r).

Lemma event_of_to_json e : event_of_json (event_to_json e) = Some e.
Proof.
  unfold event_of_json, event_to_json. json_fields. rewrite tags_of_to_json. by destruct e.
Qed.

Lemma rumor_of_to_json r : rumor_of_json (rumor_to_json r) = Some r.
Proof.
  unfold rumor_of_json, rumor_to_json. json_fields. rewrite tags_of_to_json. by destruct r.
Qed.

Lemma event_json_ok e : event_num_ok e = true → json_ok (event_to_json e) = true.
Proof.
  unfold event_num_ok, event_to_json. intros [Hk Hc]%andb_true_iff. cbn [json_ok].
  apply andb_true_iff. split; [reflexivity|]. cbn [forallb snd].
  rewrite tags_json_ok. cbn [json_ok]. by rewrite Hk, Hc.
Qed.

Lemma rumor_json_ok r : rumor_num_ok r = true → json_ok (rumor_to_json r) = true.
Proof.
  unfold rumor_num_ok, rumor_to_json. intros [Hk Hc]%andb_true_iff. cbn [json_ok].
  apply andb_true_iff. split; [reflexivity|]. cbn [forallb snd].
  rewrite tags_json_ok. cbn [json_ok]. by rewrite Hk, Hc.
Qed.

(** ** Cryptography of the platform and of the packages *)

(** AES-GCM of WebCrypto.  A ciphertext decrypts to [p] exactly when it is the
    encryption of [p] under the same key, IV and additional data. *)
Class Aes : Type := {
  aes_encrypt : bytes → bytes → bytes → bytes → bytes;   (* key, iv, aad, data *)
  aes_decrypt : bytes → bytes → bytes → bytes → option bytes;
  aes_spec k iv aad p c : aes_decrypt k iv aad c = Some p ↔ c = aes_encrypt k iv aad p;
  aes_length k iv aad p : length (aes_encrypt k iv aad p) = length p + 16
}.

Class Sha256 : Type := {
  sha256 : bytes → bytes;
  sha256_length b : length (sha256 b) = 32
}.

(** The randomness of [crypto.getRandomValues] and [crypto.subtle.generateKey], by
    the number of the draw. *)
Class Random : Type := {
  random_bytes : nat → nat → bytes;
  random_length i n : length (random_bytes i n) = n;
  (** [crypto.randomUUID()] *)
  random_uuid : nat → string;
  random_uuid_form i : is_uuid_like (random_uuid i) = true
}.

(** [nostr-tools].  A function that throws returns [None]; a randomised one takes
    the number of the draw. *)
Class NostrTools : Type := {
  generateSecretKey : nat → bytes;
  getPublicKey : bytes → option string;
  finalizeEvent : nat → EventTemplate → bytes → option Event;
  verifyEvent : Event → bool;
  getEventHash : Rumor → option string;
  getConversationKey : bytes → string → option bytes;
  nip44_encrypt : nat → string → bytes → option string;
  nip44_decrypt : string → bytes → option string;
  (** Generated keys are valid, and public keys are 64 lower-case hex digits. *)
  generated_valid i : is_Some (getPublicKey (generateSecretKey i));
  generated_length i : length (generateSecretKey i) = 32;
  public_key_form sk pk : getPublicKey sk = Some pk → is_lower_hex64 pk = true;
  (** A finalized event is the template signed by the key. *)
  finalize_spec i t sk e : finalizeEvent i t sk = Some e →
    template_of e = t ∧ getPublicKey sk = Some (pubkey e) ∧ verifyEvent e = true;
  finalize_total i t sk pk : getPublicKey sk = Some pk → is_finite (t_kind t) = true →
    is_finite (t_created_at t) = true → is_Some (finalizeEvent i t sk);
  (** An event that verifies has a well-formed id and author. *)
  verify_form e : verifyEvent e = true →
    is_lower_hex64 (id e) = true ∧ is_lower_hex64 (pubkey e) = true;
  (** [getEventHash] ignores [id], and accepts exactly well-formed authors. *)
  hash_form r h : getEventHash r = Some h → is_lower_hex64 h = true;
  hash_total r : is_lower_hex64 (r_pubkey r) = true → is_finite (r_kind r) = true →
    is_finite (r_created_at r) = true → is_Some (getEventHash r);
  hash_ignores_id r i :
    getEventHash (mkRumor (r_pubkey r) i (r_kind r) (r_created_at r) (r_tags r) (r_content r))
    = getEventHash r;
  (** NIP-44 v2: both parties derive the same key, which undoes the encryption. *)
  conversation_key_symmetric a b pa pb :
    getPublicKey a = Some pa → getPublicKey b = Some pb →
    getConversationKey a pb = getConversationKey b pa;
  conversation_key_total a b pa pb :
    getPublicKey a = Some pa → getPublicKey b = Some pb →
    is_Some (getConversationKey a pb);
  nip44_roundtrip i p k c : nip44_encrypt i p k = Some c → nip44_decrypt c k = Some p;
  nip44_total i p k : (1 <= Z.of_nat (length (utf8_encode p)) <= 65535)%Z → is_Some (nip44_encrypt i p k)
}.

(** ** The signer contract *)

Inductive SignerMode : Type := Local | Bunker | Nip07.

#[export] Instance SignerMode_eq_dec : EqDecision SignerMode.
Proof. solve_decision. Defined.

Record NostrSigner (W : Type) : Type := mkSigner {
  s_mode : SignerMode;
  s_pubkey : prog W string;
  s_signEvent : EventTemplate → prog W Event;
  s_nip44Encrypt : string → string → prog W string;
  s_nip44Decrypt : string → string → prog W string
}.
Arguments mkSigner {W} _ _ _ _ _.
Arguments s_mode {W} _.
Arguments s_pubkey {W} _.
Arguments s_signEvent {W} _ _.
Arguments s_nip44Encrypt {W} _ _ _.
Arguments s_nip44Decrypt {W} _ _ _.

(** ** NIP-19 identifiers *)

(** What [nip19.decode] returns; the other types are not used. *)
Inductive Nip19Data : Type :=
| Nsec (sk : bytes)
| Npub (hex : string)
| Naddr (identifier : option string) (relays : option (list string))
| OtherNip19.

Class Nip19 : Type := {
  nip19_decode : string → option Nip19Data;
  npubEncode : string → option string;
  nsecEncode : bytes → option string;
  (** Encodings are ASCII without white space, and decode to what was encoded. *)
  nsec_roundtrip sk s : nsecEncode sk = Some s → trim s = s ∧ nip19_decode s = Some (Nsec sk);
  npub_roundtrip pk s : npubEncode pk = Some s →
    trim s = s ∧ starts_with "npub1" s = true ∧ nip19_decode s = Some (Npub pk);
  nsec_total sk : length sk = 32 → is_Some (nsecEncode sk);
  npub_total pk : is_lower_hex64 pk = true → is_Some (npubEncode pk)
}.
