(* ===== verification/CryptoModel.v ===== *)
(** * Concrete instances of the cryptographic classes

    Executable functions that satisfy the laws of [Nostr.v], used by the witnesses
    of the development.  They are not secure; they show that the laws can hold
    together, and let the definitions be evaluated. *)

From Stdlib Require Import QArith Lia Ascii.
From S2P Require Import Prelude JsNumber JsString JsStringFacts JsCollection Json Nostr.
Close Scope Q_scope.

Fixpoint to_bytes (len : nat) (n : Z) : bytes :=
  match len with
  | O => []
  | S len => chr (n mod 256) :: to_bytes len (n / 256)
  end.

Definition checksum (b : bytes) : Z :=
  fold_left (λ acc c, Z.land (acc * 33 + code c + 1) 4294967295)%Z b 7%Z.

Lemma to_bytes_length len n : length (to_bytes len n) = len.
Proof. revert n. induction len; intros n; simpl; auto. Qed.

(** ** AES-GCM: a tag of 16 bytes, then the data *)

Definition toy_tag (k iv aad : bytes) : bytes := to_bytes 16 (checksum (k ++ iv ++ aad)).
Definition toy_encrypt (k iv aad p : bytes) : bytes := toy_tag k iv aad ++ p.
Definition toy_decrypt (k iv aad c : bytes) : option bytes :=
  if bool_decide (take 16 c = toy_tag k iv aad) then Some (drop 16 c) else None.

#[export] Program Instance toy_aes : Aes :=
  {| aes_encrypt := toy_encrypt; aes_decrypt := toy_decrypt |}.
Next Obligation.
  intros k iv aad p c. unfold toy_decrypt, toy_encrypt.
  assert (length (toy_tag k iv aad) = 16) as Hl by apply to_bytes_length.
  case_bool_decide as H; split.
  - intros [= <-]. by rewrite <-H, take_drop.
  - intros ->. by rewrite <-Hl, drop_app_length.
  - done.
  - intros ->. exfalso. apply H. by rewrite <-Hl at 1; rewrite take_app_length.
Qed.
Next Obligation.
  intros k iv aad p. unfold toy_encrypt. rewrite length_app.
  assert (length (toy_tag k iv aad) = 16) as -> by apply to_bytes_length. lia.
Qed.

#[export] Program Instance toy_sha256 : Sha256 :=
  {| sha256 b := to_bytes 32 (checksum b) |}.
Next Obligation. intros b. apply to_bytes_length. Qed.

#[export] Program Instance toy_random : Random :=
  {| random_bytes i n := to_bytes n (Z.of_nat i + 1);
     random_uuid i := "00000000-0000-4000-8000-000000000000" |}.
Next Obligation. intros i n. apply to_bytes_length. Qed.
Next Obligation. reflexivity. Qed.

(** ** The functions of [nostr-tools] *)

Definition toy_public (sk : bytes) : option string :=
  if (length sk =? 32)%nat then Some (to_hex sk) else None.

Definition toy_hash_of (pk : string) (t : EventTemplate) : string :=
  to_hex (to_bytes 32 (checksum (bytes_of_str (stringify
    (JArr [JNum (t_kind t); JStr pk; JNum (t_created_at t); tags_to_json (t_tags t);
           JStr (t_content t)]))))).

Definition toy_hash (r : Rumor) : option string :=
  if is_lower_hex64 (r_pubkey r)
  then Some (toy_hash_of (r_pubkey r)
    (mkTemplate (r_kind r) (r_created_at r) (r_tags r) (r_content r)))
  else None.

Definition toy_verify (e : Event) : bool :=
  is_lower_hex64 (pubkey e) && String.eqb (id e) (toy_hash_of (pubkey e) (template_of e))
  && String.eqb (sig e) (id e).

Definition toy_finalize (i : nat) (t : EventTemplate) (sk : bytes) : option Event :=
  pk ← toy_public sk;
  let h := toy_hash_of pk t in
  Some (mkEvent h pk (t_created_at t) (t_kind t) (t_tags t) (t_content t) h).

Definition toy_conversation (sk : bytes) (pk : string) : option bytes :=
  mine ← toy_public sk;
  if is_lower_hex64 pk
  then Some (bytes_of_str (if str_le mine pk then mine +:+ pk else pk +:+ mine))
  else None.

(** The ciphertext is the plaintext after eight characters that depend on the key. *)
Definition key_mark (k : bytes) : string := to_hex (to_bytes 4 (checksum k)).

Definition toy_nip44_encrypt (i : nat) (p : string) (k : bytes) : option string := Some (key_mark k +:+ p).

Definition toy_nip44_decrypt (c : string) (k : bytes) : option string :=
  if starts_with (key_mark k) c then Some (str_drop (String.length (key_mark k)) c) else None.

Lemma toy_public_form sk pk : toy_public sk = Some pk → is_lower_hex64 pk = true.
Proof.
  unfold toy_public. case_match eqn:E; [|done]. intros [= <-].
  apply to_hex_32. by apply Nat.eqb_eq.
Qed.

Lemma toy_hash_form pk t : is_lower_hex64 (toy_hash_of pk t) = true.
Proof. apply to_hex_32, to_bytes_length. Qed.

#[local] Opaque toy_hash_of checksum to_bytes.

Lemma toy_finalize_spec i t sk e : toy_finalize i t sk = Some e →
  template_of e = t ∧ toy_public sk = Some (pubkey e) ∧ toy_verify e = true.
Proof.
  unfold toy_finalize. destruct (toy_public sk) as [pk|] eqn:E; simpl; [|done].
  intros [= <-]. destruct t as [k c ts ct]. split_and!; [reflexivity|reflexivity|].
  unfold toy_verify. cbn [id pubkey sig]. rewrite (toy_public_form _ _ E).
  unfold template_of. cbn [kind created_at tags content]. by rewrite !String.eqb_refl.
Qed.

Lemma toy_conversation_symmetric a b pa pb :
  toy_public a = Some pa → toy_public b = Some pb →
  toy_conversation a pb = toy_conversation b pa.
Proof.
  intros Ha Hb. unfold toy_conversation. rewrite Ha, Hb. simpl.
  rewrite (toy_public_form _ _ Ha), (toy_public_form _ _ Hb).
  destruct (str_le pa pb) eqn:E1, (str_le pb pa) eqn:E2; try done.
  - apply str_le_lt_eq in E1 as [E1| ->]; [|done].
    apply str_le_lt_eq in E2 as [E2| ->]; [|done].
    apply str_lt_asym in E1. congruence.
  - destruct (str_lt_total pa pb) as [H|[H|H]];
      [|subst; by rewrite str_le_refl in E1|].
    + rewrite (proj2 (str_le_lt_eq pa pb)) in E1 by auto. done.
    + rewrite (proj2 (str_le_lt_eq pb pa)) in E2 by auto. done.
Qed.

Lemma toy_nip44_roundtrip i p k c :
  toy_nip44_encrypt i p k = Some c → toy_nip44_decrypt c k = Some p.
Proof.
  unfold toy_nip44_encrypt, toy_nip44_decrypt. intros [= <-].
  by rewrite starts_with_app, str_drop_app.
Qed.

#[export] Program Instance toy_nostr : NostrTools :=
  {| generateSecretKey i := to_bytes 32 (Z.of_nat i + 1);
     getPublicKey := toy_public; finalizeEvent := toy_finalize; verifyEvent := toy_verify;
     getEventHash := toy_hash; getConversationKey := toy_conversation;
     nip44_encrypt := toy_nip44_encrypt; nip44_decrypt := toy_nip44_decrypt;
     public_key_form := toy_public_form; finalize_spec := toy_finalize_spec;
     conversation_key_symmetric := toy_conversation_symmetric;
     nip44_roundtrip := toy_nip44_roundtrip |}.
Next Obligation. intros i. unfold toy_public. by rewrite to_bytes_length. Qed.
Next Obligation. intros i. apply to_bytes_length. Qed.
Next Obligation. intros i t sk pk H _ _. unfold toy_finalize. rewrite H. by eexists. Qed.
Next Obligation.
  intros e H. unfold toy_verify in H. reflect_bools. split; [|done].
  match goal with H : id e = _ |- _ => rewrite H end. apply toy_hash_form.
Qed.
Next Obligation.
  intros r h. unfold toy_hash. case_match; [|done]. intros [= <-]. apply toy_hash_form.
Qed.
Next Obligation. intros r H _ _. unfold toy_hash. rewrite H. by eexists. Qed.
Next Obligation. done. Qed.
Next Obligation.
  intros a b pa pb Ha Hb. unfold toy_conversation. rewrite Ha. simpl.
  rewrite (toy_public_form _ _ Hb). by eexists.
Qed.
Next Obligation. intros i p k _. by eexists. Qed.

(** ** NIP-19: the prefix, then the hex digits *)

Definition from_hex_char (c : ascii) : option Z :=
  if is_digit c then Some (code c - 48)%Z
  else if between 97 102 c then Some (code c - 87)%Z else None.

Fixpoint from_hex (s : string) : option bytes :=
  match s with
  | EmptyString => Some []
  | String a (String b s) =>
      x ← from_hex_char a; y ← from_hex_char b; r ← from_hex s; Some (chr (16 * x + y) :: r)
  | _ => None
  end.

Definition toy_nip19_decode (s : string) : option Nip19Data :=
  if starts_with "nsec1" s then Nsec <$> from_hex (str_drop 5 s)
  else if starts_with "npub1" s then
    (if is_lower_hex64 (str_drop 5 s) then Some (Npub (str_drop 5 s)) else None)
  else None.

Definition no_space (s : string) : bool := str_forallb (negb ∘ is_space) s.

Lemma hex_no_space s : str_forallb is_hex_lower s = true → no_space s = true.
Proof.
  apply str_forallb_impl. intros c. unfold is_hex_lower, is_space, is_digit, between. simpl.
  rewrite !orb_true_iff, negb_true_iff, !orb_false_iff, !andb_true_iff, !andb_false_iff.
  rewrite !Z.leb_le, !Z.leb_gt, !Z.eqb_neq. lia.
Qed.

Lemma from_hex_char_digit n : (0 <= n < 16)%Z → from_hex_char (hex_digit n) = Some n.
Proof.
  intros Hn. assert (n ∈ seqZ 0 16) as Hin by (apply elem_of_seqZ; lia).
  clear Hn. revert n Hin. apply Forall_forall. vm_compute. repeat constructor.
Qed.

Lemma from_to_hex b : from_hex (to_hex b) = Some b.
Proof.
  induction b as [|c b IH]; [done|]. cbn [to_hex from_hex].
  pose proof (code_range c) as Hc.
  rewrite !from_hex_char_digit by
    (clear -Hc; Z.to_euclidean_division_equations; lia).
  simpl. rewrite IH. simpl. rewrite <-Z.div_mod by lia. by rewrite chr_code.
Qed.

Lemma rev_app_no_space a b : no_space (String.rev_app a b) = no_space a && no_space b.
Proof.
  revert b. induction a as [|c a IH]; intros b; [done|].
  cbn [String.rev_app]. rewrite IH. unfold no_space. cbn [str_forallb].
  rewrite andb_assoc. f_equal. apply andb_comm.
Qed.

Lemma rev_app_involutive a b : String.rev_app (String.rev_app a b) "" = String.rev_app b a.
Proof. revert b. induction a as [|c a IH]; intros b; [done|]. cbn [String.rev_app]. by rewrite IH. Qed.

Lemma trim_start_no_space s : no_space s = true → trim_start s = s.
Proof.
  destruct s as [|c s]; [done|]. unfold no_space. cbn [str_forallb trim_start]. unfold compose.
  destruct (is_space c); done.
Qed.

Lemma trim_no_space s : no_space s = true → trim s = s.
Proof.
  intros Hs. unfold trim. rewrite (trim_start_no_space s Hs).
  rewrite trim_start_no_space by (unfold String.rev; by rewrite rev_app_no_space, Hs).
  unfold String.rev. by rewrite rev_app_involutive.
Qed.

#[export] Program Instance toy_nip19 : Nip19 :=
  {| nip19_decode := toy_nip19_decode;
     npubEncode pk := if is_lower_hex64 pk then Some ("npub1" +:+ pk) else None;
     nsecEncode sk := Some ("nsec1" +:+ to_hex sk) |}.
Next Obligation.
  intros sk s [= <-]. split.
  - apply trim_no_space. simpl. apply (hex_no_space (to_hex sk)), to_hex_lower.
  - unfold toy_nip19_decode. rewrite starts_with_app.
    assert (str_drop 5 ("nsec1" +:+ to_hex sk) = to_hex sk) as -> by apply (str_drop_app "nsec1").
    by rewrite from_to_hex.
Qed.
Next Obligation.
  intros pk s. cbv beta. case_match eqn:E; [|done]. intros [= <-]. split_and!.
  - apply trim_no_space. simpl. apply (hex_no_space pk). unfold is_lower_hex64 in E.
    by apply andb_true_iff in E as [_ ?].
  - apply starts_with_app.
  - unfold toy_nip19_decode.
    assert (starts_with "nsec1" ("npub1" +:+ pk) = false) as -> by reflexivity.
    rewrite starts_with_app.
    assert (str_drop 5 ("npub1" +:+ pk) = pk) as -> by apply (str_drop_app "npub1").
    by rewrite E.
Qed.
Next Obligation. by eexists. Qed.
Next Obligation. intros pk H. cbv beta. rewrite H. by eexists. Qed.
