(* ===== verification/Platform.v ===== *)
(** * The device: browser storage, clock, randomness and session state

    [World] is everything the services share between calls: the IndexedDB
    databases, [localStorage], the clock, the randomness, and the module-level
    variables of the identity, signer and location services.

    Every IndexedDB request may be rejected.  [faults] is the schedule of
    rejections: each request takes one entry, [true] for a rejected request (which
    leaves the database unchanged), and an exhausted schedule rejects nothing.
    [localStorage] is [None] where the browser has none; writing to it may throw
    as well, which takes an entry of the same schedule.  The clock does not
    advance inside a call. *)

From Stdlib Require Import QArith Lia.
From S2P Require Import Prelude JsNumber JsString JsCollection Json Nostr.
Close Scope Q_scope.

(** ** What the databases hold *)

Record CryptoKey : Type := mkKey { key_raw : bytes; extractable : bool }.

Record VaultMeta : Type := mkVaultMeta { lastExportedFingerprint : string }.

(** The object store [keys] of the database [sentinelmesh-identity]. *)
Inductive IdentityValue : Type :=
| IdKey (k : CryptoKey)
| IdRecord (version : num) (blob : bytes)
| IdMeta (m : VaultMeta).

(** [StoredBunkerConnection] of [services/bunkerStore.ts] *)
Record StoredBunkerConnection : Type := mkConnection {
  clientSecretKey : bytes;
  bunkerPubkey : string;
  relays : list string;
  secret : option string;
  expectedPubkey : string
}.

(** The object store [state] of the database [sentinelmesh-remote-signer]. *)
Inductive BunkerValue : Type :=
| BkKey (k : CryptoKey)
| BkRecord (iv ciphertext : bytes).

(** ** Session state *)

Record NostrKeypair : Type := mkKeypair { publicKey : string; secretKey : bytes }.

Inductive SignerStatus : Type := Ready | Connecting | Offline | AuthorizationRequired | Failed.

#[export] Instance SignerStatus_eq_dec : EqDecision SignerStatus.
Proof. solve_decision. Defined.

Record ActiveIdentity : Type := mkIdentity {
  ai_mode : SignerMode;
  ai_pubkey : string;
  ai_status : SignerStatus;
  ai_approvalUrl : option string;
  ai_error : option string
}.

(** The [remote] variable of [services/signerService.ts]. *)
Record RemoteSession : Type := mkRemote {
  rs_connection : StoredBunkerConnection;
  rs_generation : nat
}.

(** [approximateSessionGrid] of [services/e2eeService.ts] *)
Record SessionGrid : Type := mkGrid {
  g_cellM : num; g_latStep : num; g_lngStep : num; g_latOffset : num; g_lngOffset : num
}.

(** The database of [services/chat/chatStore.ts]: a store per field, keyed by its key
    path.  A preference is any cloneable value, kept as JSON. *)
Inductive ChatConversationKind : Type := KindPublic | KindDm | KindCircle.
Inductive ChatDeliveryState : Type := Pending | Sent | Delivered | DeliveryFailed.

#[export] Instance ChatConversationKind_eq_dec : EqDecision ChatConversationKind.
Proof. solve_decision. Defined.
#[export] Instance ChatDeliveryState_eq_dec : EqDecision ChatDeliveryState.
Proof. solve_decision. Defined.

Record StoredConversation : Type := mkStoredConversation {
  sc_id : string; sc_kind : ChatConversationKind; sc_title : string; sc_muted : bool;
  sc_last_activity_at : num; sc_participants : option (list string);
  sc_group_id : option string; sc_relay_url : option string
}.
Record StoredMessage : Type := mkStoredMessage {
  sm_id : string; sm_conversation_id : string; sm_sender_pubkey : string; sm_created_at : num;
  sm_kind : num; sm_ciphertext : string; sm_delivery_state : ChatDeliveryState
}.
Record StoredOutboxItem : Type := mkOutboxItem {
  ob_id : string; ob_recipient_pubkey : string; ob_relays : list string; ob_wrap : string;
  ob_attempts : num; ob_next_retry_at : num; ob_delivered : bool
}.
Record StoredSyncState : Type := mkSyncState { ss_id : string; ss_since : num; ss_eose : bool }.
Record StoredReadState : Type := mkReadState {
  rd_conversation_id : string; rd_last_read_at : num; rd_unread : num
}.

Record ChatDb : Type := mkChatDb {
  db_conversations : gmap string StoredConversation; db_messages : gmap string StoredMessage;
  db_gift_wraps : gmap string Z; db_outbox : gmap string StoredOutboxItem;
  db_sync : gmap string StoredSyncState; db_read : gmap string StoredReadState;
  db_prefs : gmap string json; db_crypto : gmap string CryptoKey
}.
Definition empty_chat_db : ChatDb := mkChatDb ∅ ∅ ∅ ∅ ∅ ∅ ∅ ∅.

Record World : Type := mkWorld {
  identity_db : gmap string IdentityValue;
  circle_db : gmap string CryptoKey;
  bunker_db : gmap string BunkerValue;
  local_storage : option (gmap string string);
  faults : list bool;
  draws : nat;
  now_ms : Z;
  keypair : option NostrKeypair;
  init_promise : option NostrKeypair;
  identity : ActiveIdentity;
  remote : option RemoteSession;
  generation : nat;
  (* the variable [approvalUrl] of the latest remote session *)
  approval_url : option string;
  session_grid : option SessionGrid;
  chat_db : ChatDb;
  (* the set [seen] of the inbox subscription, [hooks/useInboxSync.ts] *)
  inbox_seen : list string
}.

Definition set_identity_db f w := mkWorld (f (identity_db w)) (circle_db w) (bunker_db w)
  (local_storage w) (faults w) (draws w) (now_ms w) (keypair w) (init_promise w)
  (identity w) (remote w) (generation w) (approval_url w) (session_grid w) (chat_db w) (inbox_seen w).
Definition set_circle_db f w := mkWorld (identity_db w) (f (circle_db w)) (bunker_db w)
  (local_storage w) (faults w) (draws w) (now_ms w) (keypair w) (init_promise w)
  (identity w) (remote w) (generation w) (approval_url w) (session_grid w) (chat_db w) (inbox_seen w).
Definition set_bunker_db f w := mkWorld (identity_db w) (circle_db w) (f (bunker_db w))
  (local_storage w) (faults w) (draws w) (now_ms w) (keypair w) (init_promise w)
  (identity w) (remote w) (generation w) (approval_url w) (session_grid w) (chat_db w) (inbox_seen w).
Definition set_local_storage f w := mkWorld (identity_db w) (circle_db w) (bunker_db w)
  (f (local_storage w)) (faults w) (draws w) (now_ms w) (keypair w) (init_promise w)
  (identity w) (remote w) (generation w) (approval_url w) (session_grid w) (chat_db w) (inbox_seen w).
Definition set_faults fs w := mkWorld (identity_db w) (circle_db w) (bunker_db w)
  (local_storage w) fs (draws w) (now_ms w) (keypair w) (init_promise w)
  (identity w) (remote w) (generation w) (approval_url w) (session_grid w) (chat_db w) (inbox_seen w).
Definition set_draws n w := mkWorld (identity_db w) (circle_db w) (bunker_db w)
  (local_storage w) (faults w) n (now_ms w) (keypair w) (init_promise w)
  (identity w) (remote w) (generation w) (approval_url w) (session_grid w) (chat_db w) (inbox_seen w).
Definition set_keypair k w := mkWorld (identity_db w) (circle_db w) (bunker_db w)
  (local_storage w) (faults w) (draws w) (now_ms w) k (init_promise w)
  (identity w) (remote w) (generation w) (approval_url w) (session_grid w) (chat_db w) (inbox_seen w).
Definition set_init_promise p w := mkWorld (identity_db w) (circle_db w) (bunker_db w)
  (local_storage w) (faults w) (draws w) (now_ms w) (keypair w) p
  (identity w) (remote w) (generation w) (approval_url w) (session_grid w) (chat_db w) (inbox_seen w).
Definition set_identity i w := mkWorld (identity_db w) (circle_db w) (bunker_db w)
  (local_storage w) (faults w) (draws w) (now_ms w) (keypair w) (init_promise w)
  i (remote w) (generation w) (approval_url w) (session_grid w) (chat_db w) (inbox_seen w).
Definition set_remote r g w := mkWorld (identity_db w) (circle_db w) (bunker_db w)
  (local_storage w) (faults w) (draws w) (now_ms w) (keypair w) (init_promise w)
  (identity w) r g (approval_url w) (session_grid w) (chat_db w) (inbox_seen w).
Definition set_session_grid g w := mkWorld (identity_db w) (circle_db w) (bunker_db w)
  (local_storage w) (faults w) (draws w) (now_ms w) (keypair w) (init_promise w)
  (identity w) (remote w) (generation w) (approval_url w) g (chat_db w) (inbox_seen w).
Definition set_approval_url u w := mkWorld (identity_db w) (circle_db w) (bunker_db w)
  (local_storage w) (faults w) (draws w) (now_ms w) (keypair w) (init_promise w)
  (identity w) (remote w) (generation w) u (session_grid w) (chat_db w) (inbox_seen w).

Definition set_chat_db f w := mkWorld (identity_db w) (circle_db w) (bunker_db w)
  (local_storage w) (faults w) (draws w) (now_ms w) (keypair w) (init_promise w)
  (identity w) (remote w) (generation w) (approval_url w) (session_grid w) (f (chat_db w)) (inbox_seen w).

Definition set_inbox_seen f w := mkWorld (identity_db w) (circle_db w) (bunker_db w)
  (local_storage w) (faults w) (draws w) (now_ms w) (keypair w) (init_promise w)
  (identity w) (remote w) (generation w) (approval_url w) (session_grid w) (chat_db w)
  (f (inbox_seen w)).

(** The device of a first visit. *)
Definition fresh_world : World :=
  mkWorld ∅ ∅ ∅ (Some ∅) [] 0 1767225600000 None None
    (mkIdentity Local "" Ready None None) None 0 None None empty_chat_db [].

(** ** Requests *)

Definition storage_error : string := "IndexedDB request rejected".

(** One request of the schedule: rejected, or [m]. *)
Definition request {A} (m : prog World A) : prog World A :=
  λ w, match faults w with
       | true :: fs => (Throw storage_error, set_faults fs w)
       | false :: fs => m (set_faults fs w)
       | [] => m w
       end.

Lemma request_no_fault {A} (m : prog World A) w : faults w = [] → request m w = m w.
Proof. unfold request. by intros ->. Qed.

(** A request runs, or is rejected, which takes a schedule that is not empty. *)
Lemma wp_request {A} (m : prog World A) Q E w :
  (∀ fs, (faults w = [] → fs = []) → wp m Q E (set_faults fs w)) →
  (∀ fs, faults w ≠ [] → E storage_error (set_faults fs w)) →
  wp (request m) Q E w.
Proof.
  intros Hm He. unfold wp, request. destruct (faults w) as [|[|] fs] eqn:Hf.
  - specialize (Hm [] (λ _, eq_refl)). rewrite <-Hf in Hm. by destruct w.
  - by apply He.
  - by apply Hm.
Qed.

(** A request keeps an invariant that does not look at the schedule. *)
Lemma preserves_request {A} (I : World → Prop) (m : prog World A) :
  (∀ fs w, I w → I (set_faults fs w)) → preserves I m → preserves I (request m).
Proof.
  intros Hf Hm w Hw. unfold request. destruct (faults w) as [|[|] fs]; simpl; auto.
Qed.

(** ** Clock and randomness *)

Section platform.
Context `{Random, NostrTools}.

(** [Date.now()] *)
Definition date_now : prog World Z := gets now_ms.
(** [Math.floor(Date.now() / 1000)] *)
Definition now_seconds : prog World Z := gets (λ w, (now_ms w / 1000)%Z).

(** The number of the next draw of randomness. *)
Definition draw : prog World nat := λ w, (Ok (draws w), set_draws (S (draws w)) w).

Definition getRandomValues (n : nat) : prog World bytes := i ← draw; mret (random_bytes i n).
Definition randomUUID : prog World string := i ← draw; mret (random_uuid i).

(** [crypto.subtle.generateKey({ name: 'AES-GCM', length: 256 }, ext, ...)] *)
Definition generateKey (ext : bool) : prog World CryptoKey :=
  raw ← getRandomValues 32; mret (mkKey raw ext).

(** [crypto.subtle.importKey('raw', raw, { name: 'AES-GCM' }, ext, ...)] accepts
    AES key lengths only. *)
Definition aes_key_length (raw : bytes) : bool :=
  match length raw with 16 | 24 | 32 => true | _ => false end.
Definition importKey (raw : bytes) (ext : bool) : prog World CryptoKey :=
  if aes_key_length raw then mret (mkKey raw ext) else throw "DataError".

(** [crypto.subtle.exportKey('raw', key)] *)
Definition exportKey (k : CryptoKey) : prog World bytes :=
  if extractable k then mret (key_raw k) else throw "InvalidAccessError".

Definition new_secret_key : prog World bytes := i ← draw; mret (generateSecretKey i).

Lemma wp_generateKey ext Q E w :
  (∀ k, length (key_raw k) = 32 → extractable k = ext → Q k (set_draws (S (draws w)) w)) →
  wp (generateKey ext) Q E w.
Proof. intros HQ. apply HQ; [apply random_length|done]. Qed.

Lemma wp_getRandomValues n (Q : bytes → World → Prop) E w :
  Q (random_bytes (draws w) n) (set_draws (S (draws w)) w) → wp (getRandomValues n) Q E w.
Proof. done. Qed.
End platform.

Section subtle.
Context `{Aes}.

Definition subtle_encrypt (k : CryptoKey) (iv aad data : bytes) : prog World bytes :=
  mret (aes_encrypt (key_raw k) iv aad data).

Definition subtle_decrypt (k : CryptoKey) (iv aad data : bytes) : prog World bytes :=
  lift_outcome (match aes_decrypt (key_raw k) iv aad data with
                | Some p => Ok p | None => Throw "OperationError" end).
End subtle.

(** ** [localStorage] *)

Definition local_getItem (key : string) (w : World) : option string :=
  ls ← local_storage w; ls !! key.

Definition local_setItem (key value : string) : prog World unit :=
  request (modify (set_local_storage (fmap (M:=option) <[key := value]>))).

Definition local_removeItem (key : string) : prog World unit :=
  modify (set_local_storage (fmap (M:=option) (delete key))).

(** [typeof localStorage !== 'undefined'] *)
Definition has_local_storage (w : World) : bool := bool_decide (is_Some (local_storage w)).
