(* ===== verification/IdentityStore.v ===== *)
(** * The encrypted identity vault: [services/identityStore.ts]

    The vault keeps the Nostr secret key and the circle keys, serialised to JSON
    and encrypted under a non-extractable wrap key.  The operations are programs
    over [World]; [read_vault] is what [loadVault] returns when no storage request
    is rejected, and the theorems state each operation by its effect on it, also
    when requests are rejected half way. *)

From Stdlib Require Import QArith Lia.
From S2P Require Import Prelude JsNumber JsString JsStringFacts JsCollection Json.
From S2P Require Import JsonFacts Nostr CryptoModel Platform.
Close Scope Q_scope.

Module Vault.

Definition WRAP_KEY_ID : string := "identity-wrap-key".
Definition SK_ID : string := "nostr-sk".
Definition META_ID : string := "vault-meta".
Definition VAULT_VERSION : num := int 2.

Record VaultCircle : Type := mkVaultCircle {
  vc_id : string;
  vc_key : bytes;
  vc_epoch : option num
}.

Record VaultPayload : Type := mkPayload {
  identitySk : bytes;
  circles : list VaultCircle
}.

#[export] Instance VaultCircle_eq_dec : EqDecision VaultCircle.
Proof. solve_decision. Defined.
#[export] Instance VaultPayload_eq_dec : EqDecision VaultPayload.
Proof. solve_decision. Defined.

(** ** Requests to the database [sentinelmesh-identity] *)

Definition idbGet (id : string) : prog World (option IdentityValue) :=
  request (gets (λ w, identity_db w !! id)).
Definition idbPut (id : string) (v : IdentityValue) : prog World unit :=
  request (modify (set_identity_db <[id := v]>)).
Definition idbDelete (id : string) : prog World unit :=
  request (modify (set_identity_db (delete id))).

(** [idbGet<CryptoKey>]: a value of another shape is refused by WebCrypto. *)
Definition idbGetKey (id : string) : prog World (option CryptoKey) :=
  v ← idbGet id;
  match v with
  | Some (IdKey k) => mret (Some k)
  | Some _ => throw "TypeError"
  | None => mret None
  end.

(** [idbGet<VaultRecord>]: a value of another shape has no [blob]. *)
Definition idbGetRecord (id : string) : prog World (option (num * bytes)) :=
  v ← idbGet id;
  mret (match v with Some (IdRecord version blob) => Some (version, blob) | _ => None end).

(** The Web Lock serialises the callers of different tabs; within one tab it only
    runs its argument. *)
Definition withInitLock {A} (fn : prog World A) : prog World A := fn.

(** ** Payload serialisation *)

Definition b64encode (b : bytes) : string := btoa (str_of_bytes b).
Definition b64decode (s : string) : outcome bytes :=
  match atob s with Some t => Ok (bytes_of_str t) | None => Throw "InvalidCharacterError" end.

(** [c.epoch ?? 1] *)
Definition epoch_of (c : VaultCircle) : num := default (int 1) (vc_epoch c).

Definition circle_to_json (c : VaultCircle) : json :=
  JObj [("id", JStr (vc_id c)); ("key", JStr (b64encode (vc_key c)));
        ("epoch", JNum (epoch_of c))].

Definition payload_to_json (p : VaultPayload) : json :=
  JObj [("identitySk", JStr (b64encode (identitySk p)));
        ("circles", JArr (map circle_to_json (circles p)))].

Definition encodeVaultPayload (p : VaultPayload) : string := stringify (payload_to_json p).

(** A field read at the type the cast of [JSON.parse] declares; another type is an
    error here, where the code would carry the value along. *)
Definition typed {A} (o : option A) : outcome A :=
  match o with Some a => Ok a | None => Throw "TypeError" end.

Definition epoch_field (o : option json) : outcome num :=
  match o with
  | None | Some JNull => Ok (int 1)
  | Some (JNum x) => Ok x
  | Some _ => Throw "TypeError"
  end.

Definition circle_of_json (j : json) : outcome VaultCircle :=
  id ← typed (str_field j "id");
  key ← typed (str_field j "key");
  key ← b64decode key;
  epoch ← epoch_field (field j "epoch");
  mret (mkVaultCircle id key (Some epoch)).

Fixpoint outcome_mapM {A B} (f : A → outcome B) (l : list A) : outcome (list B) :=
  match l with
  | [] => Ok []
  | x :: l => y ← f x; ys ← outcome_mapM f l; Ok (y :: ys)
  end.

(** [o.circles ?? []] *)
Definition circles_field (o : option json) : outcome (list json) :=
  match o with
  | None | Some JNull => Ok []
  | Some (JArr l) => Ok l
  | Some _ => Throw "TypeError"
  end.

Definition decodeVaultPayload (s : string) : outcome VaultPayload :=
  match parse s with
  | None => Throw "SyntaxError"
  | Some o =>
      sk ← typed (str_field o "identitySk");
      sk ← b64decode sk;
      cs ← circles_field (field o "circles");
      cs ← outcome_mapM circle_of_json cs;
      Ok (mkPayload sk cs)
  end.

Section vault.
Context `{Aes, Sha256, Random, NostrTools}.

Definition getOrCreateWrapKey : prog World CryptoKey :=
  existing ← idbGetKey WRAP_KEY_ID;
  match existing with
  | Some k => mret k
  | None =>
      key ← generateKey false;
      _ ← idbPut WRAP_KEY_ID (IdKey key);
      mret key
  end.

(** [blob.set(iv); blob.set(ciphertext, 12)] after encrypting under [key] *)
Definition seal_blob (key : CryptoKey) (aad plaintext : bytes) : prog World bytes :=
  iv ← getRandomValues 12;
  ciphertext ← subtle_encrypt key iv aad plaintext;
  mret (iv ++ ciphertext).

Definition saveVaultUnlocked (payload : VaultPayload) : prog World unit :=
  wrapKey ← getOrCreateWrapKey;
  blob ← seal_blob wrapKey [] (utf8_encode (encodeVaultPayload payload));
  idbPut SK_ID (IdRecord VAULT_VERSION blob).

Definition loadVault : prog World (option VaultPayload) :=
  try_catch
    (wrapKey ← idbGetKey WRAP_KEY_ID;
     rec ← idbGetRecord SK_ID;
     match wrapKey, rec with
     | Some wrapKey, Some (version, blob) =>
         if (length blob <? 28)%nat then mret None
         else
           plain ← subtle_decrypt wrapKey (take 12 blob) [] (drop 12 blob);
           if num_eqb version (int 1) then mret (Some (mkPayload plain []))
           else if negb (num_eqb version VAULT_VERSION) then mret None
           else lift_outcome (Some <$> decodeVaultPayload (utf8_decode plain))
     | _, _ => mret None
     end)
    (λ _, mret None).

Definition saveVault (payload : VaultPayload) : prog World unit :=
  withInitLock (saveVaultUnlocked payload).

Definition saveSecretKeyUnlocked (sk : bytes) : prog World unit :=
  current ← loadVault;
  saveVaultUnlocked (mkPayload sk (match current with Some v => circles v | None => [] end)).

Definition saveSecretKey (sk : bytes) : prog World unit :=
  withInitLock (saveSecretKeyUnlocked sk).

Definition loadSecretKey : prog World (option bytes) :=
  v ← loadVault; mret (identitySk <$> v).

Definition loadOrCreateSecretKey (generate : prog World bytes) : prog World bytes :=
  withInitLock (
    existing ← loadVault;
    match existing with
    | Some v => mret (identitySk v)
    | None =>
        sk ← generate;
        _ ← saveSecretKeyUnlocked sk;
        again ← loadVault;
        mret (match again with Some v => identitySk v | None => sk end)
    end).

Definition clearSecretKey : prog World unit :=
  _ ← idbDelete SK_ID; idbDelete META_ID.

Definition __writeLegacyV1ForTests (prod : bool) (sk : bytes) : prog World unit :=
  _ ← check (negb prod) "__writeLegacyV1ForTests is test-only";
  withInitLock (
    wrapKey ← getOrCreateWrapKey;
    blob ← seal_blob wrapKey [] sk;
    idbPut SK_ID (IdRecord (int 1) blob)).

(** [c.id === circleId && (c.epoch ?? 1) === epoch] *)
Definition is_circle_epoch (circleId : string) (epoch : num) (c : VaultCircle) : bool :=
  String.eqb (vc_id c) circleId && num_eqb (epoch_of c) epoch.

Definition upsertCircleKey (circleId : string) (rawKey : bytes) (epoch : num)
    : prog World unit :=
  withInitLock (
    v ← loadVault;
    match v with
    | None => mret tt
    | Some v =>
        let cs := List.filter (λ c, negb (is_circle_epoch circleId epoch c)) (circles v) in
        saveVaultUnlocked
          (mkPayload (identitySk v) (cs ++ [mkVaultCircle circleId rawKey (Some epoch)]))
    end).

(** The comparator [(b.epoch ?? 1) - (a.epoch ?? 1)], negative or zero when [a]
    stays before [b]. *)
Definition newest_first (a b : VaultCircle) : bool := negb (num_lt (epoch_of a) (epoch_of b)).

Definition find_circle_key (cs : list VaultCircle) (circleId : string) (epoch : option num)
    : option bytes :=
  let entries := List.filter (λ c, String.eqb (vc_id c) circleId) cs in
  let entry :=
    match epoch with
    | None => head (js_sort newest_first entries)
    | Some e => List.find (λ c, num_eqb (epoch_of c) e) entries
    end in
  vc_key <$> entry.

Definition loadVaultCircleKey (circleId : string) (epoch : option num)
    : prog World (option bytes) :=
  vault ← loadVault;
  mret (find_circle_key (match vault with Some v => circles v | None => [] end)
    circleId epoch).

Definition removeVaultCircle (circleId : string) (epoch : option num) : prog World unit :=
  withInitLock (
    v ← loadVault;
    match v with
    | None => mret tt
    | Some v =>
        let keep := match epoch with
          | None => λ c, negb (String.eqb (vc_id c) circleId)
          | Some e => λ c, negb (is_circle_epoch circleId e c) end in
        saveVaultUnlocked (mkPayload (identitySk v) (List.filter keep (circles v)))
    end).

Definition loadVaultMeta : prog World (option VaultMeta) :=
  v ← idbGet META_ID; mret (match v with Some (IdMeta m) => Some m | _ => None end).
Definition saveVaultMeta (m : VaultMeta) : prog World unit := idbPut META_ID (IdMeta m).

(** ** Scoped records *)

Definition scoped_id (scope : string) : string := "scoped:" +:+ scope.

Definition saveScopedDeviceRecord (scope : string) (plaintext : bytes) : prog World unit :=
  withInitLock (
    key ← getOrCreateWrapKey;
    blob ← seal_blob key (utf8_encode scope) plaintext;
    idbPut (scoped_id scope) (IdRecord (int 1) blob)).

Definition loadScopedDeviceRecord (scope : string) : prog World (option bytes) :=
  key ← idbGetKey WRAP_KEY_ID;
  record ← idbGetRecord (scoped_id scope);
  match key, record with
  | Some key, Some (version, blob) =>
      if negb (num_eqb version (int 1)) || (length blob <? 29)%nat then mret None
      else
        plaintext ← subtle_decrypt key (take 12 blob) (utf8_encode scope) (drop 12 blob);
        mret (Some plaintext)
  | _, _ => mret None
  end.

Definition clearScopedDeviceRecord (scope : string) : prog World unit :=
  idbDelete (scoped_id scope).

(** ** Fingerprints *)

Definition sha256Hex (b : bytes) : string := to_hex (sha256 b).

Definition fingerprintPayload (p : VaultPayload) : outcome string :=
  match getPublicKey (identitySk p) with
  | None => Throw "invalid secret key"
  | Some pubkey =>
      let lines := map (λ c, vc_id c +:+ ":" +:+ sha256Hex (vc_key c)) (circles p) in
      let lines := sort_strings lines in
      let newline := String (chr 10) "" in
      Ok (sha256Hex (utf8_encode (pubkey +:+ newline +:+ str_join newline lines)))
  end.

Definition vaultFingerprint : prog World string :=
  v ← loadVault;
  match v with Some p => lift_outcome (fingerprintPayload p) | None => mret "" end.

Definition formatVaultId (fingerprint : string) : string :=
  let h := toUpperCase (str_take 12 fingerprint) in
  str_slice 0 4 h +:+ "-" +:+ str_slice 4 8 h +:+ "-" +:+ str_slice 8 12 h.


(** ** What is stored *)

(** The key and the record [loadVault] reads, and the payload they hold. *)
Definition wrap_key (db : gmap string IdentityValue) : option CryptoKey :=
  match db !! WRAP_KEY_ID with Some (IdKey k) => Some k | _ => None end.

Definition open_blob (key : CryptoKey) (aad blob : bytes) : option bytes :=
  aes_decrypt (key_raw key) (take 12 blob) aad (drop 12 blob).

Definition read_record (key : CryptoKey) (version : num) (blob : bytes) : option VaultPayload :=
  if (length blob <? 28)%nat then None
  else
    plain ← open_blob key [] blob;
    if num_eqb version (int 1) then Some (mkPayload plain [])
    else if negb (num_eqb version VAULT_VERSION) then None
    else match decodeVaultPayload (utf8_decode plain) with Ok p => Some p | Throw _ => None end.

Definition read_vault (db : gmap string IdentityValue) : option VaultPayload :=
  match wrap_key db, db !! SK_ID with
  | Some key, Some (IdRecord version blob) => read_record key version blob
  | _, _ => None
  end.

(** The database is sound: the wrap key is a key, and there is one as soon as a
    record has been encrypted. *)
Definition keyed (db : gmap string IdentityValue) : Prop :=
  match db !! WRAP_KEY_ID with
  | Some (IdKey k) => length (key_raw k) = 32
  | Some _ => False
  | None => ∀ id version blob, db !! id ≠ Some (IdRecord version blob)
  end.

End vault.

(** ** Serialisation *)

Definition normalize_circle (c : VaultCircle) : VaultCircle :=
  mkVaultCircle (vc_id c) (vc_key c) (Some (epoch_of c)).
Definition normalize (p : VaultPayload) : VaultPayload :=
  mkPayload (identitySk p) (map normalize_circle (circles p)).

(** Every epoch is a number whose decimal form reads back, as safe integers are. *)
Definition payload_ok (p : VaultPayload) : bool := forallb (num_ok ∘ epoch_of) (circles p).

Lemma b64decode_encode b : b64decode (b64encode b) = Ok b.
Proof. unfold b64decode, b64encode. by rewrite atob_btoa, bytes_of_str_of_bytes. Qed.

Lemma circle_json_ok c : num_ok (epoch_of c) = true → json_ok (circle_to_json c) = true.
Proof. intros H. unfold circle_to_json. simpl. rewrite H. reflexivity. Qed.

Lemma payload_json_ok p : payload_ok p = true → json_ok (payload_to_json p) = true.
Proof.
  intros Hp. unfold payload_to_json. cbn [json_ok map].
  apply andb_true_iff. split; [reflexivity|]. simpl. rewrite andb_true_r.
  unfold payload_ok in Hp. rewrite forallb_forall in Hp. rewrite forallb_forall.
  intros j Hj. apply in_map_iff in Hj as (c & <- & Hc). apply circle_json_ok. by apply Hp.
Qed.

Lemma circle_of_to_json c : circle_of_json (circle_to_json c) = Ok (normalize_circle c).
Proof.
  unfold circle_of_json, circle_to_json. json_fields.
  unfold outcome_bind. cbn [typed]. rewrite b64decode_encode. done.
Qed.

Lemma circles_of_to_json cs :
  outcome_mapM circle_of_json (map circle_to_json cs) = Ok (map normalize_circle cs).
Proof.
  induction cs as [|c cs IH]; simpl; [done|]. by rewrite circle_of_to_json, IH.
Qed.

Lemma decode_encode_payload p :
  payload_ok p = true → decodeVaultPayload (encodeVaultPayload p) = Ok (normalize p).
Proof.
  intros Hp. unfold decodeVaultPayload, encodeVaultPayload.
  rewrite json_roundtrip by by apply payload_json_ok.
  unfold payload_to_json. json_fields. unfold outcome_bind. cbn [typed].
  rewrite b64decode_encode. cbn [circles_field]. by rewrite circles_of_to_json.
Qed.

(** ** The operations, request by request *)

Section vault_facts.
Context `{Aes, Sha256, Random, NostrTools}.

(** The parts of the device an operation of this file can change. *)
Definition vault_step (w w' : World) : Prop :=
  (∃ db fs n, w' = set_identity_db (λ _, db) (set_faults fs (set_draws n w))) ∧
  (faults w = [] → faults w' = []).

Lemma vault_step_refl w : vault_step w w.
Proof.
  split; [|done]. exists (identity_db w), (faults w), (draws w). by destruct w.
Qed.

Lemma vault_step_trans w1 w2 w3 : vault_step w1 w2 → vault_step w2 w3 → vault_step w1 w3.
Proof.
  intros [(db & fs & n & ->) Hf] [(db' & fs' & n' & ->) Hf']. split.
  - by exists db', fs', n'.
  - intros Hw. apply Hf', Hf, Hw.
Qed.

Lemma wp_idbGet id Q E w :
  (∀ fs, (faults w = [] → fs = []) → Q (identity_db w !! id) (set_faults fs w)) →
  (∀ fs, faults w ≠ [] → E storage_error (set_faults fs w)) →
  wp (idbGet id) Q E w.
Proof. intros HQ HE. apply wp_request; [|done]. intros fs Hfs. by apply HQ. Qed.

Lemma wp_idbPut id v Q E w :
  (∀ fs, (faults w = [] → fs = []) →
    Q tt (set_identity_db <[id := v]> (set_faults fs w))) →
  (∀ fs, faults w ≠ [] → E storage_error (set_faults fs w)) →
  wp (idbPut id v) Q E w.
Proof. intros HQ HE. apply wp_request; [|done]. intros fs Hfs. by apply HQ. Qed.

Lemma wp_idbDelete id Q E w :
  (∀ fs, (faults w = [] → fs = []) →
    Q tt (set_identity_db (delete id) (set_faults fs w))) →
  (∀ fs, faults w ≠ [] → E storage_error (set_faults fs w)) →
  wp (idbDelete id) Q E w.
Proof. intros HQ HE. apply wp_request; [|done]. intros fs Hfs. by apply HQ. Qed.

(** [loadVault] never throws and changes nothing: it yields the stored payload, or
    nothing when a request was rejected. *)
Lemma wp_loadVault Q E w :
  (∀ fs v, (faults w = [] → fs = [] ∧ v = read_vault (identity_db w)) →
    (v = None ∨ v = read_vault (identity_db w)) → Q v (set_faults fs w)) →
  wp loadVault Q E w.
Proof.
  intros HQ. unfold loadVault. rewrite wp_try_catch.
  apply (wp_mono _ (λ v w', ∃ fs, w' = set_faults fs w ∧ v = read_vault (identity_db w) ∧
      (faults w = [] → fs = [])) _
    (λ _ w', ∃ fs, w' = set_faults fs w ∧ (faults w ≠ [] ∨ read_vault (identity_db w) = None)
      ∧ (faults w = [] → fs = []))).
  - unfold idbGetKey, idbGetRecord. rewrite !wp_bind. apply wp_idbGet; [|naive_solver].
    intros fs Hfs. unfold read_vault, wrap_key.
    destruct (identity_db w !! WRAP_KEY_ID) as [[k|v b|m]|].
    + wp_run. apply wp_idbGet; [|naive_solver]. intros fs' Hfs'. wp_run.
      destruct (identity_db w !! SK_ID) as [[?|version blob|?]|]; try (wp_run; naive_solver).
      unfold read_record, open_blob. destruct (length blob <? 28)%nat; [wp_run; naive_solver|].
      unfold subtle_decrypt. wp_run. destruct (aes_decrypt _ _ _ _) as [plain|]; simpl;
        [|exists fs'; naive_solver].
      destruct (num_eqb version (int 1)); [wp_run; naive_solver|].
      destruct (num_eqb version VAULT_VERSION); simpl; [|wp_run; naive_solver].
      wp_run. destruct (decodeVaultPayload _); simpl; [naive_solver|exists fs'; naive_solver].
    + wp_run. exists fs. naive_solver.
    + wp_run. exists fs. naive_solver.
    + wp_run. apply wp_idbGet; [|naive_solver]. intros fs' Hfs'. wp_run. naive_solver.
  - intros v w' (fs & -> & -> & Hfs). apply HQ; naive_solver.
  - intros e w' (fs & -> & He & Hfs). rewrite wp_ret. apply HQ; [|by left].
    intros Hw. split; [auto|]. by destruct He.
Qed.

Lemma wp_seal_blob key aad p Q E w :
  (∀ blob, open_blob key aad blob = Some p → length blob = 28 + length p →
    Q blob (set_draws (S (draws w)) w)) →
  wp (seal_blob key aad p) Q E w.
Proof.
  intros HQ. unfold seal_blob, getRandomValues, draw, subtle_encrypt. simpl.
  unfold wp, mbind, prog_bind, mret, prog_ret. apply HQ.
  - unfold open_blob. pose proof (random_length (draws w) 12) as Hl.
    rewrite take_app_length', drop_app_length' by done. by apply aes_spec.
  - rewrite length_app, random_length, aes_length. lia.
Qed.

(** [db] is [db0], or [db0] with a first wrap key. *)
Definition wrapped (db0 db : gmap string IdentityValue) (k : CryptoKey) : Prop :=
  wrap_key db = Some k ∧ length (key_raw k) = 32 ∧
  (db = db0 ∨ (db0 !! WRAP_KEY_ID = None ∧ db = <[WRAP_KEY_ID := IdKey k]> db0)).

Lemma keyed_fresh_vault db : keyed db → db !! WRAP_KEY_ID = None → ∀ db',
  (∀ id, id ≠ WRAP_KEY_ID → db' !! id = db !! id) → read_vault db' = None.
Proof.
  unfold keyed, read_vault. intros Hk Hn db' Hd. rewrite Hn in Hk. rewrite Hd by done.
  destruct (wrap_key db'); [|done]. destruct (db !! SK_ID) as [[| |]|] eqn:E; try done.
  exfalso. by eapply Hk.
Qed.

Lemma wrapped_read_vault db0 db k : keyed db0 → wrapped db0 db k → read_vault db = read_vault db0.
Proof.
  intros Hk (_ & _ & [->|[Hn ->]]); [done|].
  rewrite (keyed_fresh_vault db0 Hk Hn).
  - symmetry. apply (keyed_fresh_vault db0 Hk Hn). done.
  - intros id Hid. by rewrite lookup_insert_ne.
Qed.

Lemma wrapped_keyed db0 db k : wrapped db0 db k → keyed db.
Proof.
  unfold keyed, wrapped, wrap_key. intros (Hk & Hl & _).
  destruct (db !! WRAP_KEY_ID) as [[| |]|]; simplify_eq. done.
Qed.

Lemma wrapped_other db0 db k id : wrapped db0 db k → id ≠ WRAP_KEY_ID → db !! id = db0 !! id.
Proof. intros (_ & _ & [->|[_ ->]]) Hid; [done|]. by rewrite lookup_insert_ne. Qed.

Lemma wp_getOrCreateWrapKey Q E w :
  keyed (identity_db w) →
  (∀ k w', vault_step w w' → wrapped (identity_db w) (identity_db w') k → Q k w') →
  (∀ fs n, faults w ≠ [] → E storage_error (set_faults fs (set_draws n w))) →
  wp getOrCreateWrapKey Q E w.
Proof.
  intros Hk HQ HE. unfold getOrCreateWrapKey, idbGetKey. rewrite !wp_bind.
  apply wp_idbGet; [|intros fs Hf; apply (HE fs (draws w) Hf)]. intros fs Hfs.
  unfold keyed in Hk. destruct (identity_db w !! WRAP_KEY_ID) as [[k| |]|] eqn:Hw; try done.
  - wp_run. apply HQ.
    + split; [|done]. by exists (identity_db w), fs, (draws w).
    + split_and!; [|done|by left]. simpl. unfold wrap_key. by rewrite Hw.
  - rewrite wp_ret. cbn beta iota. rewrite wp_bind. apply wp_generateKey.
    intros key Hl _. rewrite wp_bind. apply wp_idbPut.
    + simpl. intros fs' Hfs'. apply HQ.
      * split; [|simpl; auto].
        by exists (<[WRAP_KEY_ID:=IdKey key]> (identity_db w)), fs', (S (draws w)).
      * simpl. split_and!; [|done|by right].
        unfold wrap_key. by rewrite lookup_insert_eq.
    + simpl. intros fs' Hf. apply (HE fs' (S (draws w))). auto.
Qed.

(** Encrypting a record under the wrap key and storing it. *)
Lemma wp_save_record id version aad p Q E w :
  keyed (identity_db w) → id ≠ WRAP_KEY_ID →
  (∀ w' k db blob, vault_step w w' → wrapped (identity_db w) db k →
    open_blob k aad blob = Some p → length blob = 28 + length p →
    identity_db w' = <[id := IdRecord version blob]> db → Q tt w') →
  (∀ w', faults w ≠ [] → vault_step w w' →
    identity_db w' = identity_db w ∨ (∃ k, wrapped (identity_db w) (identity_db w') k) →
    E storage_error w') →
  wp (key ← getOrCreateWrapKey; blob ← seal_blob key aad p; idbPut id (IdRecord version blob))
    Q E w.
Proof.
  intros Hk Hid HQ HE. rewrite wp_bind. apply wp_getOrCreateWrapKey; [done| |].
  - intros k w1 Hs1 Hwr. rewrite wp_bind. apply wp_seal_blob. intros blob Hopen Hlen.
    assert (vault_step w1 (set_draws (S (draws w1)) w1)) as Hs2.
    { split; [|done]. by exists (identity_db w1), (faults w1), (S (draws w1)); destruct w1. }
    apply wp_idbPut; simpl; intros fs Hfs.
    + apply (HQ _ k (identity_db w1) blob); try done.
      destruct Hs1 as [(db & fs1 & n & ->) Hf1]. split; [|simpl; auto].
      by eexists _, _, _.
    + destruct Hs1 as [(db & fs1 & n & ->) Hf1]. simpl in *. apply HE.
      * intros Hw. by apply Hfs, Hf1.
      * split; [by eexists _, _, _|]. simpl. intros Hw. exfalso. by apply Hfs, Hf1.
      * right. by exists k.
  - intros fs n Hf. apply HE; [done| |by left].
    split; [by exists (identity_db w), fs, n|]. done.
Qed.

(** What a write of the vault leaves alone. *)
Definition others_kept (db db' : gmap string IdentityValue) : Prop :=
  (∀ id, id ≠ WRAP_KEY_ID → id ≠ SK_ID → db' !! id = db !! id) ∧
  (∀ k, wrap_key db = Some k → wrap_key db' = Some k).

Lemma wrapped_kept db0 db k : wrapped db0 db k → others_kept db0 db.
Proof.
  intros Hw. split; [intros; by eapply wrapped_other|].
  intros k' Hk'. destruct Hw as (Hk & _ & [->|[Hn ->]]); [done|].
  unfold wrap_key in Hk'. by rewrite Hn in Hk'.
Qed.

Lemma read_stored db k blob p :
  wrap_key db = Some k → open_blob k [] blob = Some (utf8_encode (encodeVaultPayload p)) →
  28 <= length blob → payload_ok p = true →
  read_vault (<[SK_ID := IdRecord VAULT_VERSION blob]> db) = Some (normalize p).
Proof.
  intros Hk Ho Hl Hp. unfold read_vault, wrap_key.
  rewrite lookup_insert_ne by done. unfold wrap_key in Hk. rewrite Hk, lookup_insert_eq.
  unfold read_record. rewrite (proj2 (Nat.ltb_ge _ _)) by done. rewrite Ho.
  cbv beta iota delta [mbind option_bind].
  replace (num_eqb VAULT_VERSION (int 1)) with false by reflexivity.
  replace (num_eqb VAULT_VERSION VAULT_VERSION) with true by reflexivity.
  cbn [negb]. by rewrite utf8_decode_encode, decode_encode_payload.
Qed.

Lemma keyed_insert db k id v blob : wrap_key db = Some k → keyed db → id ≠ WRAP_KEY_ID →
  keyed (<[id := IdRecord v blob]> db).
Proof.
  unfold keyed, wrap_key. intros Hk Hd Hid. rewrite lookup_insert_ne by done.
  by destruct (db !! WRAP_KEY_ID) as [[]|].
Qed.

(** The vault after a write: the new payload, or, if the write was rejected, the old
    one. *)
Lemma wp_saveVaultUnlocked p Q E w :
  keyed (identity_db w) → payload_ok p = true →
  (∀ w', vault_step w w' → keyed (identity_db w') → others_kept (identity_db w) (identity_db w') →
    read_vault (identity_db w') = Some (normalize p) → Q tt w') →
  (∀ w', faults w ≠ [] → vault_step w w' → keyed (identity_db w') →
    others_kept (identity_db w) (identity_db w') →
    read_vault (identity_db w') = read_vault (identity_db w) → E storage_error w') →
  wp (saveVaultUnlocked p) Q E w.
Proof.
  intros Hk Hp HQ HE. apply (wp_save_record SK_ID); [done..| |].
  - intros w' k db blob Hs Hw Ho Hl Hdb.
    destruct (wrapped_kept _ _ _ Hw) as [Hk1 Hk2]. pose proof (proj1 Hw) as Hkey.
    apply HQ; rewrite ?Hdb; [done| | |].
    + eapply keyed_insert; [done|by eapply wrapped_keyed|done].
    + split; [intros; rewrite lookup_insert_ne by done; by apply Hk1|].
      intros k' Hk'. unfold wrap_key. rewrite lookup_insert_ne by done. by apply Hk2.
    + eapply read_stored; eauto. lia.
  - intros w' Hf Hs [Hdb|[k Hw]]; apply HE; try done.
    + by rewrite Hdb.
    + rewrite Hdb. by split.
    + by rewrite Hdb.
    + by eapply wrapped_keyed.
    + by eapply wrapped_kept.
    + by eapply wrapped_read_vault.
Qed.

Lemma loadVault_ok w :
  faults w = [] → loadVault w = (Ok (read_vault (identity_db w)), w).
Proof.
  intros Hw. assert (wp loadVault (λ v w', v = read_vault (identity_db w) ∧ w' = w)
    (λ _ _, False) w) as Hl.
  { apply wp_loadVault. intros fs v Hok _. destruct (Hok Hw) as [-> ->]. split; [done|].
    rewrite <-Hw. by destruct w. }
  unfold wp in Hl. destruct (loadVault w) as [[v|e] w']; [|done]. by destruct Hl as [-> ->].
Qed.

Lemma vault_step_faults w w' fs : vault_step w w' → faults w = [] → set_faults fs w' = w' ∨ fs ≠ [].
Proof.
  intros [_ Hf] Hw. destruct fs; [left|by right]. specialize (Hf Hw). rewrite <-Hf. by destruct w'.
Qed.

(** ** The circle entries *)

Lemma find_circle_key_epoch cs c e :
  find_circle_key cs c (Some e) = vc_key <$> List.find (is_circle_epoch c e) cs.
Proof.
  unfold find_circle_key. rewrite find_filter. f_equal.
Qed.

Lemma find_circle_key_normalize cs c e :
  find_circle_key (map normalize_circle cs) c (Some e) = find_circle_key cs c (Some e).
Proof.
  rewrite !find_circle_key_epoch, find_map.
  rewrite (find_ext (is_circle_epoch c e ∘ normalize_circle) (is_circle_epoch c e)) by done.
  by destruct (List.find _ _).
Qed.

Lemma is_circle_epoch_trans c e c' e' x :
  is_circle_epoch c e x = true → is_circle_epoch c' e' x = true → c = c' ∧ num_eqb e e' = true.
Proof.
  unfold is_circle_epoch. intros. reflect_bools. split; [congruence|].
  eapply num_eqb_trans; [rewrite num_eqb_sym|]; eassumption.
Qed.

Definition same_slot (c : string) (e : num) (c' : string) (e' : num) : bool :=
  String.eqb c c' && num_eqb e e'.

Lemma find_other_slot c e c' e' cs :
  same_slot c e c' e' = false →
  List.find (is_circle_epoch c' e') (List.filter (λ x, negb (is_circle_epoch c e x)) cs) =
  List.find (is_circle_epoch c' e') cs.
Proof.
  intros Hs. rewrite find_filter. apply find_ext. intros x _.
  destruct (is_circle_epoch c e x) eqn:E1; simpl; [|done].
  destruct (is_circle_epoch c' e' x) eqn:E2; [|done].
  destruct (is_circle_epoch_trans _ _ _ _ _ E1 E2) as [-> He].
  unfold same_slot in Hs. by rewrite String.eqb_refl, He in Hs.
Qed.

Lemma find_removed_slot c e cs :
  List.find (is_circle_epoch c e) (List.filter (λ x, negb (is_circle_epoch c e x)) cs) = None.
Proof.
  apply find_none. intros x. rewrite elem_of_filter_b, negb_true_iff. naive_solver.
Qed.

Lemma payload_ok_filter sk f cs :
  payload_ok (mkPayload sk cs) = true → payload_ok (mkPayload sk (List.filter f cs)) = true.
Proof.
  unfold payload_ok. simpl. rewrite !forallb_forall. intros H' x Hx.
  apply filter_In in Hx as [Hx _]. by apply H'.
Qed.

Lemma payload_ok_upsert v f c k e :
  payload_ok v = true → num_ok e = true →
  payload_ok (mkPayload (identitySk v) (List.filter f (circles v) ++ [mkVaultCircle c k (Some e)]))
    = true.
Proof.
  intros Hv He. destruct v as [sk cs]. simpl.
  pose proof (payload_ok_filter sk f cs Hv) as Hf. unfold payload_ok in *. simpl in *.
  rewrite forallb_app, Hf. simpl. unfold epoch_of. simpl. by rewrite He.
Qed.

(** A read-modify-write of the vault either happens whole or leaves it unchanged. *)
Lemma wp_update_vault (f : VaultPayload → VaultPayload) Q E w :
  keyed (identity_db w) →
  (∀ v, read_vault (identity_db w) = Some v → payload_ok (f v) = true) →
  (∀ v w', vault_step w w' → keyed (identity_db w') → others_kept (identity_db w) (identity_db w') →
    read_vault (identity_db w) = Some v →
    read_vault (identity_db w') = Some (normalize (f v)) → Q tt w') →
  (∀ w', vault_step w w' → identity_db w' = identity_db w →
    (faults w = [] → read_vault (identity_db w) = None) → Q tt w') →
  (∀ w', faults w ≠ [] → vault_step w w' → keyed (identity_db w') →
    others_kept (identity_db w) (identity_db w') →
    read_vault (identity_db w') = read_vault (identity_db w) → E storage_error w') →
  wp (v ← loadVault; match v with None => mret tt | Some v => saveVaultUnlocked (f v) end) Q E w.
Proof.
  intros Hk Hf HQ HQ' HE. rewrite wp_bind. apply wp_loadVault.
  intros fs v Hok Hv. assert (vault_step w (set_faults fs w)) as Hs.
  { split; [by exists (identity_db w), fs, (draws w)|]. intros Hw. by destruct (Hok Hw). }
  destruct v as [v|].
  - destruct Hv as [|Hv]; [done|]. apply wp_saveVaultUnlocked; [done|by apply Hf| |].
    + intros w' Hs' Hk' Ho Hr. eapply HQ; eauto. by eapply vault_step_trans.
    + intros w' Hfl Hs' Hk' Ho Hr. apply HE; try done; [|by eapply vault_step_trans].
      intros Hw. apply Hfl. by destruct (Hok Hw).
  - rewrite wp_ret. apply HQ'; [done..|]. intros Hw. by destruct (Hok Hw).
Qed.

(** A write that did not fail, or that failed and changed nothing. *)
Definition unchanged (w w' : World) : Prop :=
  keyed (identity_db w') ∧ others_kept (identity_db w) (identity_db w') ∧
  read_vault (identity_db w') = read_vault (identity_db w).

Lemma unchanged_eq w w' : keyed (identity_db w) → identity_db w' = identity_db w → unchanged w w'.
Proof. intros Hk Hw. unfold unchanged. rewrite Hw. by split_and!. Qed.

(** The first wrap key does not exist before the first write, and exists after. *)
Definition rewritten (w w' : World) (p : VaultPayload) : Prop :=
  keyed (identity_db w') ∧ others_kept (identity_db w) (identity_db w') ∧
  read_vault (identity_db w') = Some (normalize p).

(** ** The properties of the vault *)

(** The serialised vault reads back: decoding the text written for a payload
    gives the payload, with the epoch of an entry that had none set to 1. *)
Theorem vault_payload_roundtrip p :
  payload_ok p = true → decodeVaultPayload (encodeVaultPayload p) = Ok (normalize p).
Proof. apply decode_encode_payload. Qed.

(** C2: Saving the vault is all or nothing, wherever a storage request is rejected:
    either the call resolves and [loadVault] returns the payload that was saved, or
    it rejects and [loadVault] returns what it returned before. *)
Theorem save_vault_atomic p w o w' :
  keyed (identity_db w) → payload_ok p = true → saveVault p w = (o, w') →
  let reloaded := loadVault (set_faults [] w') in
  (o = Ok tt ∧ reloaded = (Ok (Some (normalize p)), set_faults [] w')) ∨
  (o = Throw storage_error ∧ faults w ≠ [] ∧
   reloaded = (Ok (read_vault (identity_db w)), set_faults [] w')).
Proof.
  intros Hk Hp Hrun reloaded. subst reloaded.
  rewrite (loadVault_ok (set_faults [] w')) by done. simpl.
  assert (wp (saveVault p) (λ _ w', rewritten w w' p) (λ e w', e = storage_error ∧ faults w ≠ [] ∧
    unchanged w w') w) as Hw.
  { apply wp_saveVaultUnlocked; [done..| |].
    - intros w1 _ ???. by split_and!.
    - intros w1 ? _ ???. by split_and!. }
  unfold wp in Hw. rewrite Hrun in Hw. destruct o as [[]|e].
  - left. destruct Hw as (_ & _ & ->). done.
  - right. destruct Hw as (-> & ? & _ & _ & ->). done.
Qed.

(** [v'] is [v] with the key [k] at circle [c] and epoch [e]. *)
Definition upserted (v v' : VaultPayload) (c : string) (k : bytes) (e : num) : Prop :=
  identitySk v' = identitySk v ∧ find_circle_key (circles v') c (Some e) = Some k ∧
  ∀ c' e', same_slot c e c' e' = false →
    find_circle_key (circles v') c' (Some e') = find_circle_key (circles v) c' (Some e').

Lemma num_eqb_refl_ok e : num_ok e = true → num_eqb e e = true.
Proof.
  unfold num_ok. destruct e as [| |q]; simpl; try done. intros _. apply Qeq_bool_iff. reflexivity.
Qed.

Lemma upserted_push v c k e :
  num_ok e = true →
  upserted v (normalize (mkPayload (identitySk v)
    (List.filter (λ x, negb (is_circle_epoch c e x)) (circles v) ++ [mkVaultCircle c k (Some e)])))
    c k e.
Proof.
  intros He. split_and!; [done| |].
  - simpl. rewrite find_circle_key_normalize, find_circle_key_epoch, find_app, find_removed_slot.
    simpl. unfold is_circle_epoch, epoch_of. simpl.
    by rewrite String.eqb_refl, num_eqb_refl_ok.
  - intros c' e' Hs. simpl. rewrite find_circle_key_normalize, !find_circle_key_epoch, find_app.
    rewrite find_other_slot by done. destruct (List.find _ _); [done|]. simpl.
    unfold is_circle_epoch at 1, epoch_of. simpl. unfold same_slot in Hs.
    destruct (String.eqb_spec c c'); [|done]. simpl in *. by rewrite Hs.
Qed.

(** C3: Adding or replacing a circle key never loses anything: the call leaves the
    vault as it was (possible only when a storage request is rejected), or the vault
    has the same identity, the new key at its circle and epoch, and every other key
    as before. *)
Theorem upsert_circle_key_safe c k e w o w' v :
  keyed (identity_db w) → read_vault (identity_db w) = Some v → payload_ok v = true →
  num_ok e = true → upsertCircleKey c k e w = (o, w') →
  keyed (identity_db w') ∧ others_kept (identity_db w) (identity_db w') ∧
  ((faults w ≠ [] ∧ read_vault (identity_db w') = Some v) ∨
   (o = Ok tt ∧ ∃ v', read_vault (identity_db w') = Some v' ∧ upserted v v' c k e)).
Proof.
  intros Hk Hv Hok He Hrun.
  set (f := λ v : VaultPayload, mkPayload (identitySk v)
    (List.filter (λ x, negb (is_circle_epoch c e x)) (circles v) ++ [mkVaultCircle c k (Some e)])).
  assert (wp (upsertCircleKey c k e)
    (λ _ w', (faults w ≠ [] ∧ unchanged w w') ∨ rewritten w w' (f v))
    (λ _ w', faults w ≠ [] ∧ unchanged w w') w) as Hw.
  { apply (wp_update_vault f); [done| | | |].
    - intros v' Hv'. simplify_eq. by apply payload_ok_upsert.
    - intros v' w1 _ Hk1 Ho1 Hv1 Hr1. rewrite Hv in Hv1. simplify_eq. right. by split_and!.
    - intros w1 _ Hdb Hn. left. split; [|by apply unchanged_eq].
      intros Hf. rewrite Hv in Hn. by specialize (Hn Hf).
    - intros w1 Hf _ ???. split; [done|]. by split_and!. }
  unfold wp in Hw. rewrite Hrun in Hw.
  destruct o as [[]|m]; [destruct Hw as [[? (?&?&Hr)]|(?&?&Hr)]|destruct Hw as [? (?&?&Hr)]];
    split_and!; try done.
  - left. by rewrite Hr.
  - right. split; [done|]. eexists. split; [exact Hr|]. by apply upserted_push.
  - left. by rewrite Hr.
Qed.

(** What is left of the keys after a removal. *)
Definition removal_covers (c : string) (e : option num) (c' : string) (e' : num) : bool :=
  match e with Some e => same_slot c e c' e' | None => String.eqb c c' end.

Definition removed (v v' : VaultPayload) (c : string) (e : option num) : Prop :=
  identitySk v' = identitySk v ∧
  ∀ c' e', find_circle_key (circles v') c' (Some e') =
    if removal_covers c e c' e' then None else find_circle_key (circles v) c' (Some e').

Definition keep_entry (c : string) (e : option num) : VaultCircle → bool :=
  match e with
  | None => λ x, negb (String.eqb (vc_id x) c)
  | Some e => λ x, negb (is_circle_epoch c e x)
  end.

Lemma removed_filter v c e :
  removed v (normalize (mkPayload (identitySk v) (List.filter (keep_entry c e) (circles v)))) c e.
Proof.
  split; [done|]. intros c' e'. simpl.
  rewrite find_circle_key_normalize, !find_circle_key_epoch, find_filter.
  assert (∀ x, is_circle_epoch c' e' x = true → keep_entry c e x = negb (removal_covers c e c' e'))
    as Hx.
  { intros x Hx. unfold keep_entry, removal_covers, same_slot. destruct e as [e|].
    - f_equal. unfold is_circle_epoch in *. reflect_bools. subst. rewrite String.eqb_sym.
      f_equal. destruct (num_eqb e e') eqn:E.
      + eapply num_eqb_trans; [eassumption|]. by rewrite num_eqb_sym.
      + destruct (num_eqb (epoch_of x) e) eqn:E'; [|done].
        rewrite <-E. symmetry. eapply num_eqb_trans; [rewrite num_eqb_sym|]; eassumption.
    - unfold is_circle_epoch in Hx. reflect_bools. subst. by rewrite String.eqb_sym. }
  destruct (removal_covers c e c' e').
  - rewrite find_none; [done|]. intros x _. apply andb_false_iff.
    destruct (is_circle_epoch c' e' x) eqn:E; [left; by rewrite (Hx x E)|by right].
  - f_equal. apply find_ext. intros x _.
    destruct (is_circle_epoch c' e' x) eqn:E; [by rewrite (Hx x E)|by rewrite andb_false_r].
Qed.

(** Removing a circle's key (of one epoch, or of all) never touches the identity
    nor another key; the vault is left as it was only if a storage request was
    rejected, and otherwise the key is gone. *)
Theorem remove_vault_circle_safe c e w o w' v :
  keyed (identity_db w) → read_vault (identity_db w) = Some v → payload_ok v = true →
  removeVaultCircle c e w = (o, w') →
  keyed (identity_db w') ∧ others_kept (identity_db w) (identity_db w') ∧
  ((faults w ≠ [] ∧ read_vault (identity_db w') = Some v) ∨
   (o = Ok tt ∧ ∃ v', read_vault (identity_db w') = Some v' ∧ removed v v' c e)).
Proof.
  intros Hk Hv Hok Hrun.
  set (f := λ v : VaultPayload,
    mkPayload (identitySk v) (List.filter (keep_entry c e) (circles v))).
  assert (wp (removeVaultCircle c e)
    (λ _ w', (faults w ≠ [] ∧ unchanged w w') ∨ rewritten w w' (f v))
    (λ _ w', faults w ≠ [] ∧ unchanged w w') w) as Hw.
  { apply (wp_update_vault f); [done| | | |].
    - intros v' Hv'. simplify_eq. destruct v. by apply payload_ok_filter.
    - intros v' w1 _ Hk1 Ho1 Hv1 Hr1. rewrite Hv in Hv1. simplify_eq. right. by split_and!.
    - intros w1 _ Hdb Hn. left. split; [|by apply unchanged_eq].
      intros Hf. rewrite Hv in Hn. by specialize (Hn Hf).
    - intros w1 Hf _ ???. split; [done|]. by split_and!. }
  unfold wp in Hw. rewrite Hrun in Hw.
  destruct o as [[]|m]; [destruct Hw as [[? (?&?&Hr)]|(?&?&Hr)]|destruct Hw as [? (?&?&Hr)]];
    split_and!; try done.
  - left. by rewrite Hr.
  - right. split; [done|]. eexists. split; [exact Hr|]. apply removed_filter.
  - left. by rewrite Hr.
Qed.

(** ** Creating the identity *)

Lemma saveSecretKeyUnlocked_ok sk w :
  keyed (identity_db w) → faults w = [] →
  (∀ v, read_vault (identity_db w) = Some v → payload_ok v = true) →
  ∃ w', saveSecretKeyUnlocked sk w = (Ok tt, w') ∧ faults w' = [] ∧ keyed (identity_db w') ∧
    others_kept (identity_db w) (identity_db w') ∧
    read_vault (identity_db w') = Some (normalize (mkPayload sk
      match read_vault (identity_db w) with Some v => circles v | None => [] end)).
Proof.
  intros Hk Hf Hok. unfold saveSecretKeyUnlocked, mbind, prog_bind. rewrite loadVault_ok by done.
  set (p := mkPayload sk _).
  assert (payload_ok p = true) as Hp.
  { subst p. destruct (read_vault _) as [v|] eqn:E; [|done]. by apply (Hok v). }
  assert (wp (saveVaultUnlocked p) (λ _ w', rewritten w w' p ∧ faults w' = []) (λ _ _, False) w) as Hw.
  { apply wp_saveVaultUnlocked; [done..| |done]. intros w' [_ Hs] ???. by split_and!; auto. }
  unfold wp in Hw. destruct (saveVaultUnlocked p w) as [[[]|] w']; [|done].
  destruct Hw as [(?&?&?) ?]. by exists w'.
Qed.

Lemma loadOrCreate_stored v w :
  faults w = [] → read_vault (identity_db w) = Some v →
  loadOrCreateSecretKey new_secret_key w = (Ok (identitySk v), w).
Proof.
  intros Hf Hv. unfold loadOrCreateSecretKey, withInitLock, mbind, prog_bind.
  rewrite loadVault_ok by done. by rewrite Hv.
Qed.

Lemma loadOrCreate_after_miss w w1 :
  loadVault w = (Ok None, w1) → faults w1 = [] → keyed (identity_db w1) →
  (∀ v, read_vault (identity_db w1) = Some v → payload_ok v = true) →
  ∃ w', loadOrCreateSecretKey new_secret_key w = (Ok (generateSecretKey (draws w1)), w') ∧
    faults w' = [] ∧ keyed (identity_db w') ∧
    ∃ v', read_vault (identity_db w') = Some v' ∧ identitySk v' = generateSecretKey (draws w1).
Proof.
  intros Hload Hf Hk Hok. unfold loadOrCreateSecretKey, withInitLock, mbind, prog_bind.
  rewrite Hload. unfold new_secret_key, draw, mbind, prog_bind. simpl.
  destruct (saveSecretKeyUnlocked_ok (generateSecretKey (draws w1)) (set_draws (S (draws w1)) w1))
    as (w' & -> & Hf' & Hk' & _ & Hr); [done..|].
  rewrite loadVault_ok by done. rewrite Hr. exists w'. split_and!; [done..|]. by eexists.
Qed.

(** C1: The identity is created once: when storage answers, [loadOrCreateSecretKey]
    returns the stored key and writes nothing if there is one, otherwise generates
    and stores a key; either way every later call returns that same key. *)
Theorem load_or_create_once w :
  keyed (identity_db w) → faults w = [] →
  ∃ sk w', loadOrCreateSecretKey new_secret_key w = (Ok sk, w') ∧
    match read_vault (identity_db w) with
    | Some v => sk = identitySk v ∧ w' = w
    | None => sk = generateSecretKey (draws w)
    end ∧
    loadOrCreateSecretKey new_secret_key w' = (Ok sk, w').
Proof.
  intros Hk Hf. destruct (read_vault (identity_db w)) as [v|] eqn:Hv.
  - exists (identitySk v), w. by rewrite (loadOrCreate_stored v).
  - destruct (loadOrCreate_after_miss w w) as (w' & Hrun & Hf' & _ & v' & Hv' & Hsk); try done.
    + by rewrite loadVault_ok, Hv.
    + intros v. by rewrite Hv.
    + eexists _, w'. split_and!; [exact Hrun|done|]. by rewrite (loadOrCreate_stored v'), Hsk.
Qed.

(** C4: One rejected storage read at boot replaces the stored identity:
    [loadVault] reports it as an empty vault, and [loadOrCreateSecretKey] stores a
    freshly generated key over the existing one, contrary to the comment that it
    never regenerates when a key already exists. *)
Theorem rejected_read_replaces_identity w v :
  keyed (identity_db w) → read_vault (identity_db w) = Some v → payload_ok v = true →
  faults w = [true] →
  ∃ w' v', loadOrCreateSecretKey new_secret_key w = (Ok (generateSecretKey (draws w)), w') ∧
    read_vault (identity_db w') = Some v' ∧ identitySk v' = generateSecretKey (draws w).
Proof.
  intros Hk Hv Hok Hf.
  destruct (loadOrCreate_after_miss w (set_faults [] w)) as (w' & Hrun & _ & _ & v' & Hv' & Hsk);
    try done.
  - unfold loadVault, idbGetKey, idbGet, request, try_catch, mbind, prog_bind. by rewrite Hf.
  - simpl. intros v0 Hv0. simplify_eq. congruence.
  - by exists w', v'.
Qed.

(** ** Fingerprints and scoped records *)

(** The fingerprint of a vault does not depend on the order of its circles. *)
Theorem fingerprint_order_independent sk cs cs' :
  cs ≡ₚ cs' → fingerprintPayload (mkPayload sk cs) = fingerprintPayload (mkPayload sk cs').
Proof.
  intros Hp. unfold fingerprintPayload. simpl. destruct (getPublicKey sk); [|done].
  f_equal. f_equal. f_equal. f_equal. f_equal. f_equal. apply sort_strings_perm.
  by apply Permutation_map.
Qed.

(** A record stored for a scope opens under that scope only with the device key. *)
Lemma scoped_record_roundtrip scope p w w' :
  keyed (identity_db w) → p ≠ [] → saveScopedDeviceRecord scope p w = (Ok tt, w') →
  loadScopedDeviceRecord scope (set_faults [] w') = (Ok (Some p), set_faults [] w').
Proof.
  intros Hk Hp Hrun.
  assert (wp (saveScopedDeviceRecord scope p) (λ _ w', ∃ k db blob,
    wrap_key db = Some k ∧ open_blob k (utf8_encode scope) blob = Some p ∧
    length blob = 28 + length p ∧
    identity_db w' = <[scoped_id scope := IdRecord (int 1) blob]> db) (λ _ _, True) w) as Hw.
  { apply (wp_save_record (scoped_id scope)); [done|by destruct scope| |done].
    intros w1 k db blob _ [Hkey _] Ho Hl Hdb. by exists k, db, blob. }
  unfold wp in Hw. rewrite Hrun in Hw. destruct Hw as (k & db & blob & Hkey & Ho & Hl & Hdb).
  unfold loadScopedDeviceRecord. set (w1 := set_faults [] w').
  assert (identity_db w1 = <[scoped_id scope := IdRecord (int 1) blob]> db) as Hdb1 by done.
  rewrite (bind_ok _ _ w1 (Some k) w1), (bind_ok _ _ w1 (Some (int 1, blob)) w1).
  2: { unfold idbGetRecord, idbGet. rewrite (bind_ok _ _ w1 (Some (IdRecord (int 1) blob)) w1);
       [done|]. rewrite request_no_fault by done. unfold gets.
       by rewrite Hdb1, lookup_insert_eq. }
  2: { unfold idbGetKey, idbGet. rewrite (bind_ok _ _ w1 (Some (IdKey k)) w1); [done|].
       rewrite request_no_fault by done. unfold gets.
       rewrite Hdb1, lookup_insert_ne by (by destruct scope). unfold wrap_key in Hkey.
       by destruct (db !! WRAP_KEY_ID) as [[]|]; simplify_eq. }
  rewrite (proj2 (Nat.ltb_ge _ _)).
  - simpl. rewrite (bind_ok _ _ w1 p w1); [done|].
    unfold subtle_decrypt, lift_outcome. unfold open_blob in Ho. by rewrite Ho.
  - destruct p; [done|]. simpl in Hl. lia.
Qed.

(** ** The rest of the device *)

(** Statements about the device that do not look at the vault. *)
Definition beside_vault (I : World → Prop) : Prop :=
  ∀ w f fs n, I w → I (set_identity_db f w) ∧ I (set_faults fs w) ∧ I (set_draws n w).

Section beside.
Variable I : World → Prop.
Hypothesis HI : beside_vault I.

Lemma beside_request {A} (m : prog World A) : preserves I m → preserves I (request m).
Proof. apply preserves_request. intros fs w Hw. by apply (HI w (λ db, db) fs 0). Qed.

Lemma beside_draw : preserves I draw.
Proof. intros w Hw. by apply (HI w (λ db, db) [] _). Qed.

Lemma beside_idbGet id : preserves I (idbGet id).
Proof. apply beside_request, preserves_gets. Qed.

Lemma beside_idbPut id v : preserves I (idbPut id v).
Proof. apply beside_request, preserves_modify. intros w Hw. by apply (HI w _ [] 0). Qed.

Lemma beside_idbDelete id : preserves I (idbDelete id).
Proof. apply beside_request, preserves_modify. intros w Hw. by apply (HI w _ [] 0). Qed.

#[local] Hint Resolve beside_draw beside_idbGet beside_idbPut beside_idbDelete : preserves.

Lemma beside_new_secret_key : preserves I new_secret_key.
Proof. unfold new_secret_key. preserves_tac. Qed.

Lemma beside_loadVault : preserves I loadVault.
Proof. unfold loadVault, idbGetKey, idbGetRecord, subtle_decrypt. preserves_tac. Qed.

Lemma beside_saveVaultUnlocked p : preserves I (saveVaultUnlocked p).
Proof.
  unfold saveVaultUnlocked, getOrCreateWrapKey, idbGetKey, generateKey, seal_blob, getRandomValues,
    subtle_encrypt. preserves_tac.
Qed.

#[local] Hint Resolve beside_loadVault beside_saveVaultUnlocked beside_new_secret_key : preserves.

Lemma beside_saveSecretKey sk : preserves I (saveSecretKey sk).
Proof. unfold saveSecretKey, withInitLock, saveSecretKeyUnlocked. preserves_tac. Qed.

Lemma beside_upsert c k e : preserves I (upsertCircleKey c k e).
Proof. unfold upsertCircleKey, withInitLock. preserves_tac. Qed.

Lemma beside_remove c e : preserves I (removeVaultCircle c e).
Proof. unfold removeVaultCircle, withInitLock. preserves_tac. Qed.

Lemma beside_loadVaultCircleKey c e : preserves I (loadVaultCircleKey c e).
Proof. unfold loadVaultCircleKey. preserves_tac. Qed.

Lemma beside_loadOrCreate : preserves I (loadOrCreateSecretKey new_secret_key).
Proof. unfold loadOrCreateSecretKey, withInitLock, saveSecretKeyUnlocked. preserves_tac. Qed.
End beside.

End vault_facts.

#[export] Hint Resolve beside_draw beside_saveSecretKey beside_upsert beside_remove
  beside_loadVault beside_loadVaultCircleKey beside_loadOrCreate beside_new_secret_key : preserves.

(** ** Witnesses, on the concrete cryptography *)

Definition sample_sk : bytes := to_bytes 32 77.
Definition sample_payload : VaultPayload :=
  mkPayload sample_sk [mkVaultCircle "c1" (to_bytes 32 5) None; mkVaultCircle "c2" (to_bytes 32 6) (Some (int 3))].
Definition stored_world : World := (saveVault sample_payload fresh_world).2.

Lemma fresh_keyed : keyed (identity_db fresh_world).
Proof.
  unfold keyed. change (identity_db fresh_world) with (∅ : gmap string IdentityValue).
  rewrite lookup_empty. intros id version blob. by rewrite lookup_empty.
Qed.

Lemma vault_payload_roundtrip_witness :
  decodeVaultPayload (encodeVaultPayload sample_payload) = Ok (normalize sample_payload).
Proof. apply vault_payload_roundtrip. vm_compute. reflexivity. Defined.

Lemma save_vault_atomic_witness :
  let '(o, w') := saveVault sample_payload fresh_world in
  let reloaded := loadVault (set_faults [] w') in
  (o = Ok tt ∧ reloaded = (Ok (Some (normalize sample_payload)), set_faults [] w')) ∨
  (o = Throw storage_error ∧ faults fresh_world ≠ [] ∧
   reloaded = (Ok (read_vault (identity_db fresh_world)), set_faults [] w')).
Proof.
  destruct (saveVault sample_payload fresh_world) as [o w'] eqn:E.
  apply (save_vault_atomic sample_payload fresh_world o w').
  - apply fresh_keyed.
  - vm_compute. reflexivity.
  - exact E.
Defined.

Lemma upsert_circle_key_safe_witness :
  let '(o, w') := upsertCircleKey "c1" (to_bytes 32 9) (int 2) stored_world in
  keyed (identity_db w') ∧ others_kept (identity_db stored_world) (identity_db w') ∧
  ((faults stored_world ≠ [] ∧ read_vault (identity_db w') = Some (normalize sample_payload)) ∨
   (o = Ok tt ∧ ∃ v', read_vault (identity_db w') = Some v' ∧
     upserted (normalize sample_payload) v' "c1" (to_bytes 32 9) (int 2))).
Proof.
  destruct (upsertCircleKey "c1" (to_bytes 32 9) (int 2) stored_world) as [o w'] eqn:E.
  apply (upsert_circle_key_safe "c1" (to_bytes 32 9) (int 2) stored_world o w').
  - vm_compute. reflexivity.
  - vm_compute. reflexivity.
  - vm_compute. reflexivity.
  - vm_compute. reflexivity.
  - exact E.
Defined.

Lemma remove_vault_circle_safe_witness :
  let '(o, w') := removeVaultCircle "c2" None stored_world in
  keyed (identity_db w') ∧ others_kept (identity_db stored_world) (identity_db w') ∧
  ((faults stored_world ≠ [] ∧ read_vault (identity_db w') = Some (normalize sample_payload)) ∨
   (o = Ok tt ∧ ∃ v', read_vault (identity_db w') = Some v' ∧
     removed (normalize sample_payload) v' "c2" None)).
Proof.
  destruct (removeVaultCircle "c2" None stored_world) as [o w'] eqn:E.
  apply (remove_vault_circle_safe "c2" None stored_world o w').
  - vm_compute. reflexivity.
  - vm_compute. reflexivity.
  - vm_compute. reflexivity.
  - exact E.
Defined.

Lemma load_or_create_once_witness :
  ∃ sk w', loadOrCreateSecretKey new_secret_key fresh_world = (Ok sk, w') ∧
    match read_vault (identity_db fresh_world) with
    | Some v => sk = identitySk v ∧ w' = fresh_world
    | None => sk = generateSecretKey (draws fresh_world)
    end ∧
    loadOrCreateSecretKey new_secret_key w' = (Ok sk, w').
Proof. apply load_or_create_once; [apply fresh_keyed|reflexivity]. Defined.

Lemma rejected_read_replaces_identity_witness :
  ∃ w' v', loadOrCreateSecretKey new_secret_key (set_faults [true] stored_world) =
      (Ok (generateSecretKey (draws stored_world)), w') ∧
    read_vault (identity_db w') = Some v' ∧
    identitySk v' = generateSecretKey (draws stored_world).
Proof.
  apply (rejected_read_replaces_identity (set_faults [true] stored_world)
    (normalize sample_payload)).
  - vm_compute. reflexivity.
  - vm_compute. reflexivity.
  - vm_compute. reflexivity.
  - reflexivity.
Defined.

Lemma fingerprint_order_independent_witness :
  fingerprintPayload (mkPayload sample_sk [mkVaultCircle "a" [] None; mkVaultCircle "b" [] None]) =
  fingerprintPayload (mkPayload sample_sk [mkVaultCircle "b" [] None; mkVaultCircle "a" [] None]).
Proof. apply fingerprint_order_independent. apply perm_swap. Defined.

End Vault.
