(* ===== verification/LocalLists.v ===== *)
(** * Identifiers kept in [localStorage]: [services/circleIdStore.ts] and
    [services/chat/joinedChannels.ts]

    Both services keep a JSON array of strings under a fixed key and tolerate any
    other content of the slot; the circle service also keeps the owner key of each
    circle.  The two copies of the list code are instances of [read_list] and
    [write_list]. *)

From Stdlib Require Import QArith Lia.
From S2P Require Import Prelude JsNumber JsString JsStringFacts JsCollection Json.
From S2P Require Import JsonFacts Nostr CryptoModel Platform.
Close Scope Q_scope.

Module LocalLists.

Definition CIRCLE_IDS : string := "sentinelmesh:circle_ids".
Definition OWNER_KEYS_KEY : string := "sentinelmesh:circle_owner_keys".
Definition JOINED_CHANNELS : string := "sentinelmesh:joined_channels".

(** The strings of the array stored under [key], [[]] for any other content. *)
Definition read_list (key : string) (w : World) : list string :=
  match local_getItem key w with
  | Some raw =>
      if truthy raw then
        match parse raw with
        | Some (JArr l) => omap as_str l
        | _ => []
        end
      else []
  | None => []
  end.

Definition write_list (key : string) (ids : list string) : prog World unit :=
  local_setItem key (stringify (JArr (map JStr ids))).

(** [if (typeof localStorage === 'undefined') return] *)
Definition with_storage (m : prog World unit) : prog World unit :=
  λ w, if has_local_storage w then m w else (Ok tt, w).

Definition getCircleIds (w : World) : list string := read_list CIRCLE_IDS w.

Definition addCircleId (id : string) : prog World unit :=
  with_storage (ids ← gets getCircleIds; write_list CIRCLE_IDS (set_add (set_of ids) id)).

Definition removeCircleId (id : string) : prog World unit :=
  with_storage (
    ids ← gets getCircleIds;
    write_list CIRCLE_IDS (List.filter (λ x, negb (String.eqb x id)) ids)).

Definition getJoinedChannels (w : World) : list string := read_list JOINED_CHANNELS w.

Definition addJoinedChannel (groupId : string) : prog World unit :=
  with_storage (
    ids ← gets getJoinedChannels; write_list JOINED_CHANNELS (set_add (set_of ids) groupId)).

(** ** Owner keys *)

(** [JSON.parse(localStorage.getItem(OWNER_KEYS_KEY) ?? '{}')] *)
Definition owner_values (w : World) : option json :=
  parse (default "{}" (local_getItem OWNER_KEYS_KEY w)).

(** [values[id] = value]: a circle id is not an array index, so an array keeps its
    elements; a primitive value has no properties to assign. *)
Definition assign (values : json) (id : string) (value : json) : outcome json :=
  match values with
  | JObj fs => Ok (JObj (map_set fs id value))
  | JArr l => Ok (JArr l)
  | _ => Throw "TypeError"
  end.

Definition saveCircleOwnerKey (id ownerPubkey : string) : prog World unit :=
  with_storage (
    values ← gets (λ w, default (JObj []) (owner_values w));
    values ← lift_outcome (assign values id (JStr (toLowerCase ownerPubkey)));
    local_setItem OWNER_KEYS_KEY (stringify values)).

Definition getCircleOwnerKey (id : string) (w : World) : option string :=
  values ← owner_values w;
  value ← str_field values id;
  if is_lower_hex64 value then Some value else None.

(** ** What is read after a write *)

Lemma local_get_set key v key' w w' :
  has_local_storage w = true → local_setItem key v w = (Ok tt, w') →
  local_getItem key' w' = if decide (key = key') then Some v else local_getItem key' w.
Proof.
  intros Hls Hrun.
  assert (wp (local_setItem key v) (λ _ w', ∃ fs,
    w' = set_local_storage (fmap (M:=option) <[key := v]>) (set_faults fs w)) (λ _ _, True) w) as Hw.
  { apply wp_request; [|done]. intros fs _. by exists fs. }
  unfold wp in Hw. rewrite Hrun in Hw. destruct Hw as [fs ->].
  unfold has_local_storage in Hls. apply bool_decide_eq_true in Hls as [ls Hls].
  unfold local_getItem. simpl. rewrite Hls. simpl.
  case_decide; subst; [by rewrite lookup_insert_eq|by rewrite lookup_insert_ne].
Qed.

Lemma print_nonempty v : json_ok v = true → truthy (stringify v) = true.
Proof.
  intros Hv. unfold stringify. destruct (print_head v "" Hv) as (c & t & -> & _). done.
Qed.

Lemma strings_json_ok ids : json_ok (JArr (map JStr ids)) = true.
Proof. simpl. induction ids; [done|by simpl]. Qed.

Lemma omap_strings ids : omap as_str (map JStr ids) = ids.
Proof. induction ids as [|i ids IH]; [done|]. simpl. f_equal. apply IH. Qed.

Lemma read_write_list key ids w w' key' :
  has_local_storage w = true → write_list key ids w = (Ok tt, w') →
  read_list key' w' = if decide (key = key') then ids else read_list key' w.
Proof.
  intros Hls Hrun. unfold read_list. rewrite (local_get_set _ _ key' _ _ Hls Hrun).
  case_decide; [|done].
  rewrite print_nonempty, json_roundtrip by apply strings_json_ok. apply omap_strings.
Qed.

Lemma with_storage_run m w : has_local_storage w = true → with_storage m w = m w.
Proof. unfold with_storage. by intros ->. Qed.

Lemma addCircleId_ok id w :
  has_local_storage w = true → faults w = [] →
  ∃ w', addCircleId id w = (Ok tt, w') ∧
    w' = set_local_storage (fmap (M:=option) <[CIRCLE_IDS := stringify (JArr (map JStr
      (set_add (set_of (getCircleIds w)) id)))]>) w ∧
    getCircleIds w' = set_add (set_of (getCircleIds w)) id.
Proof.
  intros Hls Hf. eexists. unfold addCircleId. rewrite with_storage_run by done.
  rewrite (bind_ok _ _ w (getCircleIds w) w) by done.
  assert (write_list CIRCLE_IDS (set_add (set_of (getCircleIds w)) id) w =
    (Ok tt, set_local_storage (fmap (M:=option) <[CIRCLE_IDS := stringify (JArr (map JStr
      (set_add (set_of (getCircleIds w)) id)))]>) w)) as Hrun.
  { unfold write_list, local_setItem. by rewrite request_no_fault. }
  split_and!; [exact Hrun|done|].
  pose proof (read_write_list _ _ _ _ CIRCLE_IDS Hls Hrun) as Hr.
  rewrite decide_True in Hr by done. exact Hr.
Qed.

(** The recorded circle ids behave as a set: an added id is recorded once beside
    the others, a removed one is gone, and the joined channels are untouched. *)
Theorem circle_ids_set id w w1 w2 :
  has_local_storage w = true → has_local_storage w1 = true →
  addCircleId id w = (Ok tt, w1) → removeCircleId id w1 = (Ok tt, w2) →
  NoDup (getCircleIds w1) ∧
  (∀ x, x ∈ getCircleIds w1 ↔ x ∈ getCircleIds w ∨ x = id) ∧
  (∀ x, x ∈ getCircleIds w2 ↔ x ∈ getCircleIds w1 ∧ x ≠ id) ∧
  getJoinedChannels w2 = getJoinedChannels w.
Proof.
  intros Hls Hls1. unfold addCircleId, removeCircleId. rewrite !with_storage_run by done.
  intros Hadd Hrem. rewrite (bind_ok _ _ w (getCircleIds w) w) in Hadd by done.
  rewrite (bind_ok _ _ w1 (getCircleIds w1) w1) in Hrem by done.
  assert (∀ key, read_list key w1 = _) as H1 by exact (λ key, read_write_list _ _ _ _ key Hls Hadd).
  assert (∀ key, read_list key w2 = _) as H2 by exact (λ key, read_write_list _ _ _ _ key Hls1 Hrem).
  unfold getJoinedChannels. rewrite H2, decide_False, H1, decide_False by done.
  unfold getCircleIds at 1 2 4. rewrite H2, H1, !decide_True by done. split_and!.
  - apply NoDup_set_add, NoDup_set_of.
  - intros x. by rewrite elem_of_set_add, elem_of_set_of.
  - intros x. rewrite elem_of_filter_b, negb_true_iff, String.eqb_neq. done.
  - done.
Qed.

(** The slot of the owner keys holds an object of strings, as the service writes it. *)
Definition owner_slot_ok (w : World) : Prop :=
  ∃ fs, owner_values w = Some (JObj fs) ∧ NoDup fs.*1 ∧ Forall (λ kv, is_Some (as_str kv.2)) fs.

Lemma Forall_map_set (P : string * json → Prop) fs k v :
  (∀ k', P (k', v)) → Forall P fs → Forall P (map_set fs k v).
Proof.
  intros Hv. induction 1 as [|[k1 v1] fs Hx Hfs IH]; simpl; [by constructor|].
  case_decide; constructor; auto.
Qed.

Lemma strings_obj_json_ok fs :
  NoDup fs.*1 → Forall (λ kv, is_Some (as_str kv.2)) fs → json_ok (JObj fs) = true.
Proof.
  intros Hn Hs. simpl. rewrite bool_decide_eq_true_2 by done. simpl.
  clear Hn. induction Hs as [|[k v] fs [s Hv] _ IH]; [done|]. simpl in *. rewrite IH.
  by destruct v.
Qed.

(** The owner key recorded for a circle reads back in lower case, and the owners
    of the other circles are unchanged. *)
Theorem owner_key_roundtrip id pk w w' :
  has_local_storage w = true → owner_slot_ok w → is_hex64 pk = true →
  saveCircleOwnerKey id pk w = (Ok tt, w') →
  owner_slot_ok w' ∧ getCircleOwnerKey id w' = Some (toLowerCase pk) ∧
  ∀ id', id' ≠ id → getCircleOwnerKey id' w' = getCircleOwnerKey id' w.
Proof.
  intros Hls (fs & Hfs & Hn & Hstr) Hpk. unfold saveCircleOwnerKey.
  rewrite with_storage_run by done. rewrite (bind_ok _ _ w (JObj fs) w) by by unfold gets; rewrite Hfs.
  set (fs' := map_set fs id (JStr (toLowerCase pk))).
  rewrite (bind_ok _ _ w (JObj fs') w) by done. intros Hset.
  assert (NoDup fs'.*1) as Hn' by by apply map_set_NoDup.
  assert (Forall (λ kv, is_Some (as_str kv.2)) fs') as Hstr'.
  { apply Forall_map_set; [|done]. intros k. by eexists. }
  assert (owner_values w' = Some (JObj fs')) as Hv'.
  { unfold owner_values. rewrite (local_get_set _ _ OWNER_KEYS_KEY _ _ Hls Hset), decide_True by done.
    simpl. apply json_roundtrip. by apply strings_obj_json_ok. }
  assert (∀ id', str_field (JObj fs') id' =
    if decide (id = id') then Some (toLowerCase pk) else str_field (JObj fs) id') as Hget.
  { intros id'. unfold str_field, field, fs'. rewrite map_get_set. by case_decide. }
  split_and!.
  - by exists fs'.
  - unfold getCircleOwnerKey. rewrite Hv'. simpl. rewrite Hget, decide_True by done. simpl.
    by rewrite is_hex64_lower.
  - intros id' Hid. unfold getCircleOwnerKey. rewrite Hv', Hfs. simpl.
    by rewrite Hget, decide_False.
Qed.

Lemma circle_ids_set_witness :
  let w1 := (addCircleId "c1" fresh_world).2 in
  let w2 := (removeCircleId "c1" w1).2 in
  NoDup (getCircleIds w1) ∧
  (∀ x, x ∈ getCircleIds w1 ↔ x ∈ getCircleIds fresh_world ∨ x = "c1") ∧
  (∀ x, x ∈ getCircleIds w2 ↔ x ∈ getCircleIds w1 ∧ x ≠ "c1") ∧
  getJoinedChannels w2 = getJoinedChannels fresh_world.
Proof. apply circle_ids_set; vm_compute; reflexivity. Defined.

Definition sample_owner : string := to_hex (to_bytes 32 11).

Lemma owner_key_roundtrip_witness :
  let w' := (saveCircleOwnerKey "c1" (toUpperCase sample_owner) fresh_world).2 in
  owner_slot_ok w' ∧
  getCircleOwnerKey "c1" w' = Some (toLowerCase (toUpperCase sample_owner)) ∧
  ∀ id', id' ≠ "c1" → getCircleOwnerKey id' w' = getCircleOwnerKey id' fresh_world.
Proof.
  apply owner_key_roundtrip.
  - vm_compute. reflexivity.
  - exists []. split_and!; [vm_compute; reflexivity|constructor|constructor].
  - vm_compute. reflexivity.
  - vm_compute. reflexivity.
Defined.

End LocalLists.
