(* ===== verification/NostrIdentity.v ===== *)
(** * The session identity: the key half of [services/nostrService.ts]

    The local keypair cached for the session, its creation at boot, its explicit
    replacement (new identity, restore, import), and the conversions between key
    formats.  An [async] initialisation that completed leaves its promise in
    [init_promise]. *)

From Stdlib Require Import QArith Lia.
From S2P Require Import Prelude JsNumber JsString JsStringFacts JsCollection Json.
From S2P Require Import JsonFacts Nostr CryptoModel Platform IdentityStore.
Close Scope Q_scope.

Module NostrIdentity.

Section identity.
Context `{Aes, Sha256, Random, NostrTools, Nip19}.

Definition SK_STORAGE_KEY : string := "sentinel_nostr_sk".

(** [{ publicKey: getPublicKey(sk), secretKey: sk }] *)
Definition keypair_of (sk : bytes) : outcome NostrKeypair :=
  match getPublicKey sk with
  | Some pk => Ok (mkKeypair pk sk)
  | None => Throw "invalid secret key"
  end.

(** [_keypair = { publicKey: getPublicKey(sk), secretKey: sk }] *)
Definition cache_keypair (sk : bytes) : prog World NostrKeypair :=
  kp ← lift_outcome (keypair_of sk);
  _ ← modify (set_keypair (Some kp));
  mret kp.

Definition init_identity : prog World NostrKeypair :=
  try_catch
    (sk ← Vault.loadOrCreateSecretKey new_secret_key; cache_keypair sk)
    (λ _, sk ← new_secret_key; cache_keypair sk).

Definition loadIdentity : prog World NostrKeypair :=
  cached ← gets keypair;
  match cached with
  | Some kp => mret kp
  | None =>
      pending ← gets init_promise;
      match pending with
      | Some kp => mret kp
      | None =>
          kp ← init_identity;
          _ ← modify (set_init_promise (Some kp));
          mret kp
      end
  end.

Definition getCachedKeypair : prog World NostrKeypair :=
  cached ← gets keypair;
  match cached with
  | Some kp => mret kp
  | None => sk ← new_secret_key; cache_keypair sk
  end.

(** Persist [sk], cache it, and drop an earlier initialisation. *)
Definition adopt_secret_key (sk : bytes) : prog World NostrKeypair :=
  _ ← Vault.saveSecretKey sk;
  kp ← cache_keypair sk;
  _ ← modify (set_init_promise None);
  mret kp.

Definition generateNewIdentity : prog World NostrKeypair :=
  sk ← new_secret_key; adopt_secret_key sk.

Definition restoreIdentityFromSecretKey (sk : bytes) : prog World NostrKeypair :=
  adopt_secret_key sk.

Definition __resetIdentityCacheForTests : prog World unit :=
  modify (λ w, set_init_promise None (set_keypair None w)).

Definition importFromNsec (nsecStr : string) : prog World (option NostrKeypair) :=
  try_catch
    (match nip19_decode (trim nsecStr) with
     | Some (Nsec sk) => kp ← adopt_secret_key sk; mret (Some kp)
     | Some _ => mret None
     | None => throw "nip19"
     end)
    (λ _, mret None).

Definition clearStoredKey : prog World unit := local_removeItem SK_STORAGE_KEY.

Definition toNpub (hexPubkey : string) : string := default hexPubkey (npubEncode hexPubkey).

Definition toHex (b : bytes) : string := to_hex b.

Definition toNsec (sk : bytes) : string := default (toHex sk) (nsecEncode sk).

Definition hexFromNpubOrHex (input : string) : option string :=
  let trimmed := trim input in
  let by_hex := if is_hex64 trimmed then Some (toLowerCase trimmed) else None in
  if starts_with "npub1" trimmed then
    match nip19_decode trimmed with
    | Some (Npub hex) => Some hex
    | Some _ => by_hex
    | None => None
    end
  else by_hex.

(** ** Facts *)

(** The device keeps what the vault needs: a sound database whose payload, if any,
    can be written back. *)
Definition device_ok (w : World) : Prop :=
  Vault.keyed (identity_db w) ∧
  ∀ v, Vault.read_vault (identity_db w) = Some v → Vault.payload_ok v = true.

(** What a reload of the page forgets. *)
Definition reload (w : World) : World := set_init_promise None (set_keypair None w).

Lemma payload_ok_normalize p : Vault.payload_ok (Vault.normalize p) = Vault.payload_ok p.
Proof.
  unfold Vault.payload_ok, Vault.normalize. simpl. induction (Vault.circles p); simpl; [done|].
  by f_equal.
Qed.

Lemma saveSecretKey_device sk w :
  device_ok w → faults w = [] →
  ∃ w' cs, Vault.saveSecretKey sk w = (Ok tt, w') ∧ faults w' = [] ∧ device_ok w' ∧
    Vault.read_vault (identity_db w') = Some (Vault.mkPayload sk cs).
Proof.
  intros [Hk Hok] Hf.
  destruct (Vault.saveSecretKeyUnlocked_ok sk w Hk Hf Hok) as (w' & Hrun & Hf' & Hk' & _ & Hr).
  exists w'. eexists. split_and!; [exact Hrun|done| |exact Hr]. split; [done|].
  intros v. rewrite Hr. intros [= <-]. rewrite payload_ok_normalize.
  destruct (Vault.read_vault (identity_db w)) as [v|] eqn:E; [|done]. by apply (Hok v).
Qed.

Lemma upsert_device c k e w :
  device_ok w → faults w = [] → num_ok e = true →
  ∃ w', Vault.upsertCircleKey c k e w = (Ok tt, w') ∧ faults w' = [] ∧ device_ok w' ∧
    match Vault.read_vault (identity_db w) with
    | Some v => ∃ v', Vault.read_vault (identity_db w') = Some v' ∧ Vault.upserted v v' c k e
    | None => Vault.read_vault (identity_db w') = None
    end.
Proof.
  intros [Hk Hok] Hf He.
  set (f := λ v : Vault.VaultPayload, Vault.mkPayload (Vault.identitySk v)
    (List.filter (λ x, negb (Vault.is_circle_epoch c e x)) (Vault.circles v)
     ++ [Vault.mkVaultCircle c k (Some e)])).
  assert (wp (Vault.upsertCircleKey c k e) (λ _ w', faults w' = [] ∧ Vault.keyed (identity_db w') ∧
    Vault.read_vault (identity_db w') =
      (Vault.normalize ∘ f) <$> Vault.read_vault (identity_db w)) (λ _ _, False) w) as Hw.
  { apply (Vault.wp_update_vault f); [done| | | |done].
    - intros v Hv. by apply Vault.payload_ok_upsert; [apply Hok|].
    - intros v w' [_ Hs] Hk' _ Hv Hr. rewrite Hv, Hr. auto.
    - intros w' [_ Hs] Hdb Hn. rewrite Hdb, (Hn Hf). auto. }
  unfold wp in Hw. destruct (Vault.upsertCircleKey c k e w) as [[[]|] w']; [|done].
  destruct Hw as (Hf' & Hk' & Hr). exists w'. split_and!; [done|done| |].
  - split; [done|]. intros v'. rewrite Hr.
    destruct (Vault.read_vault (identity_db w)) as [v|] eqn:Hv; [|done]. simpl. intros [= <-].
    rewrite payload_ok_normalize. by apply Vault.payload_ok_upsert; [apply Hok|].
  - rewrite Hr. destruct (Vault.read_vault (identity_db w)) as [v|]; simpl; [|done].
    eexists. split; [done|]. by apply Vault.upserted_push.
Qed.

(** Booting a device whose vault holds [sk]. *)
Lemma loadIdentity_stored sk cs w :
  faults w = [] → Vault.read_vault (identity_db w) = Some (Vault.mkPayload sk cs) →
  is_Some (getPublicKey sk) →
  ∃ w', loadIdentity (reload w) = (keypair_of sk, w').
Proof.
  intros Hf Hv [pk Hpk]. unfold loadIdentity, init_identity, keypair_of. rewrite Hpk.
  rewrite (bind_ok _ _ (reload w) None (reload w)) by done.
  rewrite (bind_ok _ _ (reload w) None (reload w)) by done.
  erewrite bind_ok; [|unfold try_catch; erewrite bind_ok;
    [unfold cache_keypair, keypair_of, lift_outcome; rewrite Hpk; reflexivity
    |by apply (Vault.loadOrCreate_stored (Vault.mkPayload sk cs))]].
  by eexists.
Qed.

Lemma adopt_survives_reload sk w kp w' :
  device_ok w → faults w = [] → adopt_secret_key sk w = (Ok kp, w') →
  Ok kp = keypair_of sk ∧ keypair w' = Some kp ∧
  ∃ w'', loadIdentity (reload w') = (Ok kp, w'').
Proof.
  intros Hd Hf. destruct (saveSecretKey_device sk w Hd Hf) as (w1 & cs & Hrun & Hf1 & _ & Hr).
  unfold adopt_secret_key. rewrite (bind_ok _ _ _ _ _ Hrun).
  unfold cache_keypair, keypair_of. destruct (getPublicKey sk) as [pk|] eqn:Hpk; [|done].
  intros [= <- <-]. split_and!; [done..|].
  destruct (loadIdentity_stored sk cs w1 Hf1 Hr) as (w'' & Hload); [by eexists|].
  unfold keypair_of in Hload. rewrite Hpk in Hload. by exists w''.
Qed.

(** ** When storage fails *)

(** The identity the vault holds *)
Definition stored_identity (w : World) : option bytes :=
  Vault.identitySk <$> Vault.read_vault (identity_db w).

(** [w'] has the vault and the cached keypair of [w]. *)
Definition same_identity (w w' : World) : Prop :=
  Vault.read_vault (identity_db w') = Vault.read_vault (identity_db w) ∧ keypair w' = keypair w.

Lemma same_identity_refl w : same_identity w w.
Proof. done. Qed.

Lemma vault_step_keypair w w' : Vault.vault_step w w' → keypair w' = keypair w.
Proof. by intros [(db & fs & n & ->) _]. Qed.

Lemma payload_ok_device w : device_ok w → ∀ cs,
  (cs = match Vault.read_vault (identity_db w) with Some v => Vault.circles v | None => [] end ∨ cs = []) →
  ∀ sk, Vault.payload_ok (Vault.mkPayload sk cs) = true.
Proof.
  intros [_ Hok] cs [->| ->] sk; [|done].
  destruct (Vault.read_vault (identity_db w)) as [v|] eqn:Hv; [|done]. by apply (Hok v).
Qed.

(** Saving a key: it is in the vault, or nothing has changed. *)
Lemma wp_saveSecretKey sk w :
  device_ok w →
  wp (Vault.saveSecretKey sk)
    (λ _ w', device_ok w' ∧ stored_identity w' = Some sk ∧ keypair w' = keypair w ∧
      (faults w = [] → faults w' = []))
    (λ _ w', faults w ≠ [] ∧ device_ok w' ∧ same_identity w w') w.
Proof.
  intros Hd. unfold Vault.saveSecretKey, Vault.withInitLock, Vault.saveSecretKeyUnlocked.
  rewrite wp_bind. apply Vault.wp_loadVault. intros fs v Hok Hv.
  assert (Vault.payload_ok (Vault.mkPayload sk
    match v with Some v => Vault.circles v | None => [] end) = true) as Hp.
  { apply (payload_ok_device w Hd). destruct Hv as [->| ->]; [by right|by left]. }
  apply Vault.wp_saveVaultUnlocked; [apply Hd|done| |].
  - intros w' Hs Hk _ Hr. pose proof (vault_step_keypair _ _ Hs : keypair w' = keypair w) as Hkp.
    split_and!; [split; [done|]|..].
    + intros v'. rewrite Hr. intros [= <-]. by rewrite payload_ok_normalize.
    + unfold stored_identity. by rewrite Hr.
    + done.
    + intros Hw. apply Hs. cbn. by destruct (Hok Hw).
  - intros w' Hf Hs Hk _ Hr. pose proof (vault_step_keypair _ _ Hs : keypair w' = keypair w) as Hkp.
    split_and!; [|split; [done|]|by split].
    + intros Hw. apply Hf. by destruct (Hok Hw).
    + intros v'. rewrite Hr. apply Hd.
Qed.

(** Adopting a usable key: it is the identity of the vault and of the session, or
    nothing has changed. *)
Lemma wp_adopt sk w :
  device_ok w → is_Some (getPublicKey sk) →
  wp (adopt_secret_key sk)
    (λ kp w', device_ok w' ∧ keypair_of sk = Ok kp ∧ stored_identity w' = Some sk ∧
      keypair w' = Some kp ∧ (faults w = [] → faults w' = []))
    (λ _ w', faults w ≠ [] ∧ device_ok w' ∧ same_identity w w') w.
Proof.
  intros Hd [pk Hpk]. unfold adopt_secret_key. rewrite wp_bind.
  eapply wp_mono; [by apply wp_saveSecretKey| |done].
  intros [] w' (Hd' & Hs & _ & Hf). unfold cache_keypair, keypair_of. rewrite Hpk. wp_run.
  by split_and!.
Qed.

(** An identity that was generated, restored or imported survives a reload: the
    next boot yields the same keypair. *)
Theorem new_identity_survives_reload sk w :
  device_ok w → faults w = [] → is_Some (getPublicKey sk) →
  ∃ kp w', restoreIdentityFromSecretKey sk w = (Ok kp, w') ∧ secretKey kp = sk ∧
    keypair w' = Some kp ∧ ∃ w'', loadIdentity (reload w') = (Ok kp, w'').
Proof.
  intros Hd Hf [pk Hpk].
  destruct (saveSecretKey_device sk w Hd Hf) as (w1 & cs & Hrun & _).
  assert (∃ w', restoreIdentityFromSecretKey sk w = (Ok (mkKeypair pk sk), w')) as [w' Hrest].
  { unfold restoreIdentityFromSecretKey, adopt_secret_key. rewrite (bind_ok _ _ _ _ _ Hrun).
    unfold cache_keypair, keypair_of. rewrite Hpk. by eexists. }
  destruct (adopt_survives_reload sk w _ w' Hd Hf Hrest) as (_ & Hkp & Hload).
  by exists (mkKeypair pk sk), w'.
Qed.

(** Exporting a key to [nsec] and importing it restores the same identity. *)
Theorem nsec_export_import sk w :
  device_ok w → faults w = [] → length sk = 32 → is_Some (getPublicKey sk) →
  ∃ kp w', importFromNsec (toNsec sk) w = (Ok (Some kp), w') ∧ secretKey kp = sk ∧
    ∃ w'', loadIdentity (reload w') = (Ok kp, w'').
Proof.
  intros Hd Hf Hlen Hpk. destruct (nsec_total sk Hlen) as [s Hs].
  destruct (nsec_roundtrip sk s Hs) as [Htrim Hdec].
  destruct (new_identity_survives_reload sk w Hd Hf Hpk) as (kp & w' & Hrun & Hsk & _ & Hload).
  exists kp, w'. split_and!; [|done|done].
  unfold importFromNsec, toNsec. rewrite Hs. simpl. rewrite Htrim, Hdec.
  unfold try_catch. erewrite bind_ok by exact Hrun. done.
Qed.

(** A hex key, in any case and with white space around it, is normalised; an [npub] is
    decoded to the key it encodes. *)
Lemma hexFromNpub_npub pk : is_lower_hex64 pk = true → hexFromNpubOrHex (toNpub pk) = Some pk.
Proof.
  intros Hpk. destruct (npub_total pk Hpk) as [s Hs].
  destruct (npub_roundtrip pk s Hs) as (Htrim & Hpre & Hdec).
  unfold hexFromNpubOrHex, toNpub. rewrite Hs. change (default pk (Some s)) with s.
  cbv zeta. by rewrite Htrim, Hpre, Hdec.
Qed.

End identity.

Lemma fresh_device_ok : device_ok fresh_world.
Proof.
  split; [apply Vault.fresh_keyed|]. intros v.
  assert (Vault.read_vault (identity_db fresh_world) = None) as -> by (vm_compute; reflexivity).
  done.
Qed.

Lemma new_identity_survives_reload_witness :
  ∃ kp w', restoreIdentityFromSecretKey Vault.sample_sk fresh_world = (Ok kp, w') ∧
    secretKey kp = Vault.sample_sk ∧ keypair w' = Some kp ∧
    ∃ w'', loadIdentity (reload w') = (Ok kp, w'').
Proof.
  apply new_identity_survives_reload; [apply fresh_device_ok|reflexivity|].
  vm_compute. by eexists.
Defined.

Lemma nsec_export_import_witness :
  ∃ kp w', importFromNsec (toNsec Vault.sample_sk) fresh_world = (Ok (Some kp), w') ∧
    secretKey kp = Vault.sample_sk ∧ ∃ w'', loadIdentity (reload w') = (Ok kp, w'').
Proof.
  apply nsec_export_import; [apply fresh_device_ok|reflexivity|reflexivity|].
  vm_compute. by eexists.
Defined.

End NostrIdentity.
