(* ===== verification/CircleKeys.v ===== *)
(** * Circle keys: the key half of [services/e2eeService.ts]

    Circle keys live, non-extractable, in the database [sentinelmesh] under
    [circleId:epoch]; their raw bytes are also kept in the encrypted vault, from
    which they are wrapped for members.  The buffers the code zeroes in its
    [finally] blocks are local values here, so those blocks have no effect on the
    state. *)

From Stdlib Require Import QArith Qround Lia.
From S2P Require Import Prelude JsNumber JsString JsStringFacts JsCollection Json.
From S2P Require Import JsonFacts Nostr CryptoModel Platform IdentityStore NostrIdentity.
Close Scope Q_scope.

Import (hints) Vault.

Module CircleKeys.

Definition LEGACY_KEY_PREFIX : string := "sentinelmesh:circle_key:".

Definition keyId (circleId : string) (epoch : num) : string :=
  circleId +:+ ":" +:+ num_to_string epoch.

Definition idbPut (id : string) (key : CryptoKey) : prog World unit :=
  request (modify (set_circle_db <[id := key]>)).
Definition idbGet (id : string) : prog World (option CryptoKey) :=
  request (gets (λ w, circle_db w !! id)).
Definition idbDelete (id : string) : prog World unit :=
  request (modify (set_circle_db (delete id))).

Definition CIRCLE_KEY_EVENT_KIND : num := int 30079.
Definition CIRCLE_KEY_EVENT_TYPE : string := "sentinelmesh-circle-key-v2".
Definition ALGORITHM : string := "AES-256-GCM".

(** [tag[0] === name] *)
Definition has_name (name : string) (tag : list string) : bool :=
  match tag with n :: _ => String.eqb n name | [] => false end.

(** The value of the only tag [name]. *)
Definition singleTag (e : Event) (name : string) : option string :=
  match List.filter (has_name name) (tags e) with
  | [tag] => tag !! 1
  | _ => None
  end.

Definition tag_is (e : Event) (name value : string) : bool :=
  bool_decide (singleTag e name = Some value).

(** [encodeB64] and [decodeB64]: an IV of 12 bytes, then the ciphertext *)
Definition encodeB64 (iv data : bytes) : string := Vault.b64encode (iv ++ data).

Definition decodeB64 (b64 : string) : option (bytes * bytes) :=
  match Vault.b64decode b64 with
  | Ok b => if (length b <? 28)%nat then None else Some (take 12 b, drop 12 b)
  | Throw _ => None
  end.

Definition rawB64 (raw : bytes) : string := Vault.b64encode raw.

Definition decodeRawB64 (value : string) : outcome bytes :=
  raw ← Vault.b64decode value;
  if (length raw =? 32)%nat then Ok raw else Throw "Invalid circle key package".

Definition package_to_json (circleId : string) (keyEpoch : num) (key : string) (issued_at : Z)
    : json :=
  JObj [("version", JNum (int 2)); ("type", JStr CIRCLE_KEY_EVENT_TYPE);
        ("circle_id", JStr circleId); ("key_epoch", JNum keyEpoch);
        ("algorithm", JStr ALGORITHM); ("key", JStr key); ("issued_at", JNum (int issued_at))].

Definition num_is (o : option json) (x : num) : bool :=
  match o with Some (JNum y) => num_eqb y x | _ => false end.
Definition str_is (o : option json) (s : string) : bool :=
  match o with Some (JStr t) => String.eqb t s | _ => false end.

(** The key of a v2 package for this circle and epoch. *)
Definition package_key (value : json) (circleId : string) (keyEpoch : num) : option string :=
  if num_is (field value "version") (int 2) && str_is (field value "type") CIRCLE_KEY_EVENT_TYPE
     && str_is (field value "circle_id") circleId && num_is (field value "key_epoch") keyEpoch
     && str_is (field value "algorithm") ALGORITHM
  then str_field value "key" else None.

Definition legacy_package_key (value : json) (circleId : string) : option string :=
  if num_is (field value "version") (int 1) && str_is (field value "circle_id") circleId
     && str_is (field value "algorithm") ALGORITHM
  then str_field value "key" else None.

(** The loop [for (let e = 1; e < floor; e++)]. *)
Definition epochs_below (floor : num) : list Z :=
  match floor with
  | Fin q => seqZ 1 (Qceiling q - 1)
  | _ => []
  end.

Section keys.
Context `{Aes, Sha256, Random, NostrTools}.

Definition toNonExtractable (key : CryptoKey) : prog World CryptoKey :=
  if negb (extractable key) then mret key
  else raw ← exportKey key; importKey raw false.

Definition generateCircleKey : prog World CryptoKey := generateKey true.

Definition saveCircleKey (circleId : string) (key : CryptoKey) (epoch : num) : prog World unit :=
  storable ← toNonExtractable key;
  _ ← idbPut (keyId circleId epoch) storable;
  local_removeItem (LEGACY_KEY_PREFIX +:+ circleId).

Definition saveCircleKeyWithBackup (circleId : string) (rawKey : bytes) (epoch : num)
    : prog World unit :=
  liveKey ← importKey rawKey false;
  _ ← idbPut (keyId circleId epoch) liveKey;
  _ ← local_removeItem (LEGACY_KEY_PREFIX +:+ circleId);
  Vault.upsertCircleKey circleId rawKey epoch.

(** The base64 key the first version kept in [localStorage]. *)
Definition migrate_local (circleId b64 : string) : prog World (option CryptoKey) :=
  raw ← lift_outcome (Vault.b64decode b64);
  key ← importKey raw false;
  _ ← idbPut (keyId circleId (int 1)) key;
  _ ← Vault.upsertCircleKey circleId raw (int 1);
  _ ← local_removeItem (LEGACY_KEY_PREFIX +:+ circleId);
  mret (Some key).

Definition load_local (circleId : string) (epoch : num) : prog World (option CryptoKey) :=
  b64 ← gets (local_getItem (LEGACY_KEY_PREFIX +:+ circleId));
  match b64 with
  | Some b64 =>
      if truthy b64 && num_eqb epoch (int 1) then migrate_local circleId b64 else mret None
  | None => mret None
  end.

Definition loadCircleKey (circleId : string) (epoch : num) : prog World (option CryptoKey) :=
  existing ← idbGet (keyId circleId epoch);
  match existing with
  | Some k => mret (Some k)
  | None =>
      legacy ← (if num_eqb epoch (int 1) then idbGet circleId else mret None);
      match legacy with
      | Some legacy =>
          _ ← idbPut (keyId circleId (int 1)) legacy;
          _ ← idbDelete circleId;
          mret (Some legacy)
      | None => load_local circleId epoch
      end
  end.

Definition clearCircleKey (circleId : string) (epoch : option num) : prog World unit :=
  match epoch with
  | None =>
      _ ← for_each (seqZ 1 64) (λ e, idbDelete (keyId circleId (int e)));
      _ ← idbDelete circleId;
      _ ← local_removeItem (LEGACY_KEY_PREFIX +:+ circleId);
      Vault.removeVaultCircle circleId None
  | Some epoch =>
      _ ← idbDelete (keyId circleId epoch);
      _ ← local_removeItem (LEGACY_KEY_PREFIX +:+ circleId);
      Vault.removeVaultCircle circleId (Some epoch)
  end.

Definition rotateCircleKey (circleId : string) (nextEpoch : num) : prog World CryptoKey :=
  fresh ← generateCircleKey;
  raw ← exportKey fresh;
  _ ← saveCircleKeyWithBackup circleId raw nextEpoch;
  mret fresh.

Definition purgeCircleKeyEpochs (circleId : string) (currentEpoch : num) : prog World unit :=
  let floor := num_max (int 1) (num_sub currentEpoch (int 1)) in
  for_each (epochs_below floor) (λ e,
    _ ← idbDelete (keyId circleId (int e));
    Vault.removeVaultCircle circleId (Some (int e))).

(** ** Wrapping a key for a member *)

Definition from_option_or {A} (o : option A) (msg : string) : prog World A :=
  lift_outcome (match o with Some a => Ok a | None => Throw msg end).

Definition createNip44CircleKeyEvent (circleId recipientPubkey : string) (keyEpoch : num)
    : prog World Event :=
  _ ← check (is_hex64 recipientPubkey) "Invalid recipient public key";
  _ ← check (is_safe_integer keyEpoch && negb (num_lt keyEpoch (int 1))) "Invalid key epoch";
  rawKey ← Vault.loadVaultCircleKey circleId (Some keyEpoch);
  rawKey ← from_option_or rawKey "Circle key is not available in the encrypted vault";
  keypair ← NostrIdentity.getCachedKeypair;
  now ← now_seconds;
  let plaintext := stringify (package_to_json circleId keyEpoch (rawB64 rawKey) now) in
  conversationKey ← from_option_or (getConversationKey (secretKey keypair) recipientPubkey)
    "conversation key";
  i ← draw;
  content ← from_option_or (nip44_encrypt i plaintext conversationKey) "nip44";
  j ← draw;
  from_option_or (finalizeEvent j
    (mkTemplate CIRCLE_KEY_EVENT_KIND (int now)
      [["d"; CIRCLE_KEY_EVENT_TYPE]; ["circle"; circleId]; ["epoch"; num_to_string keyEpoch];
       ["p"; toLowerCase recipientPubkey]] content) (secretKey keypair)) "finalizeEvent".

(** Decrypt a package and store its key; every error becomes the same one. *)
Definition open_package (conversationKey : bytes) (ciphertext : string)
    (select : json → option string) (circleId : string) (epoch : num) : prog World unit :=
  try_catch
    (plaintext ← from_option_or (nip44_decrypt ciphertext conversationKey) "nip44";
     value ← from_option_or (parse plaintext) "SyntaxError";
     key ← from_option_or (select value) "Invalid circle key package";
     rawKey ← lift_outcome (decodeRawB64 key);
     saveCircleKeyWithBackup circleId rawKey epoch)
    (λ _, throw "Invalid circle key envelope").

Definition unwrapNip44CircleKey (circleId ownerPubkey : string) (event : Event)
    : prog World num :=
  keypair ← NostrIdentity.getCachedKeypair;
  _ ← check (is_lower_hex64 ownerPubkey) "Circle owner key is unavailable";
  _ ← check (verifyEvent event && num_eqb (kind event) CIRCLE_KEY_EVENT_KIND)
    "Invalid circle key envelope";
  _ ← check (String.eqb (pubkey event) (toLowerCase ownerPubkey))
    "Circle key envelope is not signed by the trusted owner";
  _ ← check (tag_is event "d" CIRCLE_KEY_EVENT_TYPE && tag_is event "circle" circleId
             && tag_is event "p" (toLowerCase (publicKey keypair)))
    "Circle key envelope is not bound to this circle and recipient";
  let epochTag := default "" (singleTag event "epoch") in
  _ ← check (is_digits epochTag) "Circle key envelope has no valid epoch";
  let keyEpoch := number_of_digits epochTag in
  conversationKey ← from_option_or (getConversationKey (secretKey keypair) ownerPubkey)
    "conversation key";
  _ ← open_package conversationKey (content event)
    (λ value, package_key value circleId keyEpoch) circleId keyEpoch;
  mret keyEpoch.

Definition unwrapLegacyCircleKey (circleId ownerPubkey ciphertext : string) : prog World unit :=
  keypair ← NostrIdentity.getCachedKeypair;
  _ ← check (is_lower_hex64 ownerPubkey) "Circle owner key is unavailable";
  conversationKey ← from_option_or (getConversationKey (secretKey keypair) ownerPubkey)
    "conversation key";
  open_package conversationKey ciphertext
    (λ value, legacy_package_key value circleId) circleId (int 1).

(** ** Strings under a circle key *)

Definition encryptString (circleKey : CryptoKey) (text : string) : prog World string :=
  iv ← getRandomValues 12;
  ciphertext ← subtle_encrypt circleKey iv [] (utf8_encode text);
  mret (encodeB64 iv ciphertext).

Definition decryptString (circleKey : CryptoKey) (ciphertextB64 : string) : option string :=
  '(iv, data) ← decodeB64 ciphertextB64;
  plain ← aes_decrypt (key_raw circleKey) iv [] data;
  Some (utf8_decode plain).

(** ** No stored key can be exported *)

Definition sealed (w : World) : Prop := map_Forall (λ _ k, extractable k = false) (circle_db w).

Lemma sealed_beside : Vault.beside_vault sealed.
Proof. intros w f fs n Hw. by split_and!. Qed.

Lemma sealed_put id k : extractable k = false → preserves sealed (idbPut id k).
Proof.
  intros Hk. apply preserves_request; [done|]. apply preserves_modify. intros w Hw.
  by apply map_Forall_insert_2.
Qed.

Lemma sealed_delete id : preserves sealed (idbDelete id).
Proof.
  apply preserves_request; [done|]. apply preserves_modify. intros w Hw.
  by apply map_Forall_delete.
Qed.

Lemma sealed_remove_item key : preserves sealed (local_removeItem key).
Proof. by apply preserves_modify. Qed.

(** A key read from the store is sealed, and so is an imported one. *)
Lemma sealed_get {B} id (f : option CryptoKey → prog World B) :
  (∀ o, (∀ k, o = Some k → extractable k = false) → preserves sealed (f o)) →
  preserves sealed (idbGet id ≫= f).
Proof.
  intros Hf w Hw. unfold idbGet, request, gets, mbind, prog_bind.
  destruct (faults w) as [|[|] fs]; [|done|]; simpl;
    (apply Hf; [|done]); intros k Hk; by apply (Hw id).
Qed.

Lemma sealed_import {B} raw (f : CryptoKey → prog World B) :
  (∀ k, extractable k = false → preserves sealed (f k)) →
  preserves sealed (importKey raw false ≫= f).
Proof.
  intros Hf. unfold importKey. destruct (aes_key_length raw).
  - intros w Hw. by apply (Hf (mkKey raw false)).
  - by intros w Hw.
Qed.

#[local] Hint Resolve sealed_beside sealed_put sealed_delete sealed_remove_item : preserves.

Lemma sealed_non_extractable {B} key (f : CryptoKey → prog World B) :
  (∀ k, extractable k = false → preserves sealed (f k)) →
  preserves sealed (toNonExtractable key ≫= f).
Proof.
  intros Hf. unfold toNonExtractable. destruct (extractable key) eqn:Hk; simpl; [|by apply Hf].
  unfold exportKey, importKey. rewrite Hk. intros w Hw.
  unfold mbind, prog_bind. simpl. destruct (aes_key_length (key_raw key)); simpl; [by apply Hf|done].
Qed.

Lemma sealed_saveCircleKey c k e : preserves sealed (saveCircleKey c k e).
Proof. unfold saveCircleKey. apply sealed_non_extractable. intros k' Hk. preserves_tac. Qed.

Lemma sealed_saveWithBackup c raw e : preserves sealed (saveCircleKeyWithBackup c raw e).
Proof. unfold saveCircleKeyWithBackup. apply sealed_import. intros k Hk. preserves_tac. Qed.

#[local] Hint Resolve sealed_saveCircleKey sealed_saveWithBackup : preserves.

Lemma sealed_load_local c e : preserves sealed (load_local c e).
Proof.
  assert (∀ b64, preserves sealed (migrate_local c b64)) as Hm.
  { intros b64. unfold migrate_local. apply preserves_bind; [apply preserves_lift_outcome|].
    intros raw. apply sealed_import. intros k Hk. preserves_tac. }
  unfold load_local. preserves_tac.
Qed.

Lemma sealed_loadCircleKey c e : preserves sealed (loadCircleKey c e).
Proof.
  unfold loadCircleKey. apply sealed_get. intros [k|] _; [apply preserves_ret|].
  assert (∀ o, (∀ k, o = Some k → extractable k = false) → preserves sealed
    (match o with
     | Some legacy => _ ← idbPut (keyId c (int 1)) legacy; _ ← idbDelete c; mret (Some legacy)
     | None => load_local c e end)) as Hrest.
  { intros [k|] Hk; [|apply sealed_load_local]. specialize (Hk k eq_refl). preserves_tac. }
  destruct (num_eqb e (int 1)); [by apply sealed_get|]. intros w Hw. by apply (Hrest None).
Qed.

(** The exported copy of a fresh key is stored sealed; only the returned one is
    extractable. *)
Lemma sealed_rotate c e : preserves sealed (rotateCircleKey c e).
Proof.
  unfold rotateCircleKey, generateCircleKey, generateKey, getRandomValues, exportKey.
  preserves_tac.
Qed.

Lemma sealed_clear c e : preserves sealed (clearCircleKey c e).
Proof. unfold clearCircleKey. preserves_tac. Qed.

Lemma sealed_purge c e : preserves sealed (purgeCircleKeyEpochs c e).
Proof. unfold purgeCircleKeyEpochs. preserves_tac. Qed.

Lemma sealed_cached_keypair : preserves sealed NostrIdentity.getCachedKeypair.
Proof.
  unfold NostrIdentity.getCachedKeypair, NostrIdentity.cache_keypair. preserves_tac.
Qed.

#[local] Hint Resolve sealed_cached_keypair : preserves.

Lemma sealed_unwrap c owner ev : preserves sealed (unwrapNip44CircleKey c owner ev).
Proof. unfold unwrapNip44CircleKey, open_package, from_option_or. preserves_tac. Qed.

Lemma sealed_unwrap_legacy c owner ct : preserves sealed (unwrapLegacyCircleKey c owner ct).
Proof. unfold unwrapLegacyCircleKey, open_package, from_option_or. preserves_tac. Qed.

(** One call of the key service. *)
Inductive key_call : Type :=
| SaveKey (c : string) (k : CryptoKey) (e : num)
| SaveRaw (c : string) (raw : bytes) (e : num)
| LoadKey (c : string) (e : num)
| ClearKey (c : string) (e : option num)
| Rotate (c : string) (e : num)
| Purge (c : string) (e : num)
| Unwrap (c owner : string) (ev : Event)
| UnwrapLegacy (c owner ct : string).

Definition run_call (x : key_call) : prog World unit :=
  match x with
  | SaveKey c k e => saveCircleKey c k e
  | SaveRaw c raw e => saveCircleKeyWithBackup c raw e
  | LoadKey c e => _ ← loadCircleKey c e; mret tt
  | ClearKey c e => clearCircleKey c e
  | Rotate c e => _ ← rotateCircleKey c e; mret tt
  | Purge c e => purgeCircleKeyEpochs c e
  | Unwrap c owner ev => _ ← unwrapNip44CircleKey c owner ev; mret tt
  | UnwrapLegacy c owner ct => unwrapLegacyCircleKey c owner ct
  end.

#[local] Hint Resolve sealed_loadCircleKey sealed_rotate sealed_clear sealed_purge sealed_unwrap
  sealed_unwrap_legacy : preserves.

(** C8: Whatever sequence of calls the key service receives, with whatever keys,
    envelopes and rejected storage requests, the store never holds a key that script
    could export. *)
Theorem stored_keys_sealed calls w :
  sealed w → sealed (fold_left (λ w x, (run_call x w).2) calls w).
Proof.
  revert w. induction calls as [|x calls IH]; intros w Hw; simpl; [done|]. apply IH.
  assert (preserves sealed (run_call x)) as Hx; [|by apply Hx].
  destruct x; simpl; preserves_tac.
Qed.

(** ** Storing a raw key *)

Lemma faults_beside_circle w fs : faults w = fs → ∀ f, faults (set_circle_db f w) = fs.
Proof. done. Qed.

Lemma upsert_keeps_circle_db c k e w o w' :
  Vault.upsertCircleKey c k e w = (o, w') →
  circle_db w' = circle_db w ∧ keypair w' = keypair w ∧ local_storage w' = local_storage w.
Proof.
  intros Hrun. split_and!.
  - apply (preserves_run (λ w', circle_db w' = circle_db w) _ _ _ _
      (Vault.beside_upsert (λ w', circle_db w' = circle_db w)
        (λ w _ _ _ Hw, conj Hw (conj Hw Hw)) c k e) Hrun). done.
  - apply (preserves_run (λ w', keypair w' = keypair w) _ _ _ _
      (Vault.beside_upsert (λ w', keypair w' = keypair w)
        (λ w _ _ _ Hw, conj Hw (conj Hw Hw)) c k e) Hrun). done.
  - apply (preserves_run (λ w', local_storage w' = local_storage w) _ _ _ _
      (Vault.beside_upsert (λ w', local_storage w' = local_storage w)
        (λ w _ _ _ Hw, conj Hw (conj Hw Hw)) c k e) Hrun). done.
Qed.

(** When storage answers, the key is stored sealed, and kept in the vault if the
    device has one. *)
Lemma saveWithBackup_ok c raw e w :
  NostrIdentity.device_ok w → faults w = [] → num_ok e = true → aes_key_length raw = true →
  ∃ w', saveCircleKeyWithBackup c raw e w = (Ok tt, w') ∧ faults w' = [] ∧
    NostrIdentity.device_ok w' ∧ keypair w' = keypair w ∧
    circle_db w' = <[keyId c e := mkKey raw false]> (circle_db w) ∧
    local_storage w' = delete (LEGACY_KEY_PREFIX +:+ c) <$> local_storage w ∧
    match Vault.read_vault (identity_db w) with
    | Some v => ∃ v', Vault.read_vault (identity_db w') = Some v' ∧ Vault.upserted v v' c raw e
    | None => Vault.read_vault (identity_db w') = None
    end.
Proof.
  intros Hd Hf He Hlen. set (w1 := set_circle_db <[keyId c e := mkKey raw false]> w).
  set (w2 := (local_removeItem (LEGACY_KEY_PREFIX +:+ c) w1).2).
  destruct (NostrIdentity.upsert_device c raw e w2) as (w' & Hrun & Hf' & Hd' & Hv); [done..|].
  exists w'. split_and!; try done.
  - unfold saveCircleKeyWithBackup. rewrite (bind_ok _ _ w (mkKey raw false) w)
      by (unfold importKey; by rewrite Hlen).
    rewrite (bind_ok _ _ w tt w1) by (unfold idbPut; by rewrite request_no_fault).
    by rewrite (bind_ok _ _ w1 tt w2).
  - by destruct (upsert_keeps_circle_db _ _ _ _ _ _ Hrun) as (_ & -> & _).
  - by destruct (upsert_keeps_circle_db _ _ _ _ _ _ Hrun) as (-> & _ & _).
  - by destruct (upsert_keeps_circle_db _ _ _ _ _ _ Hrun) as (_ & _ & ->).
Qed.

Lemma loadCircleKey_stored c e k w :
  faults w = [] → circle_db w !! keyId c e = Some k → loadCircleKey c e w = (Ok (Some k), w).
Proof.
  intros Hf Hk. unfold loadCircleKey. rewrite (bind_ok _ _ w (Some k) w); [done|].
  unfold idbGet. rewrite request_no_fault by done. unfold gets. by rewrite Hk.
Qed.

(** ** Wrapped keys *)

Lemma decode_raw_b64 raw : length raw = 32 → decodeRawB64 (rawB64 raw) = Ok raw.
Proof.
  intros Hl. unfold decodeRawB64, rawB64. rewrite Vault.b64decode_encode. simpl. by rewrite Hl.
Qed.

Lemma decode_raw_length s raw : decodeRawB64 s = Ok raw → length raw = 32.
Proof.
  unfold decodeRawB64. destruct (Vault.b64decode s) as [b|]; simpl; [|done].
  destruct (length b =? 32)%nat eqn:E; [|done]. intros [= <-]. by apply Nat.eqb_eq.
Qed.

Lemma package_json_ok c e key t :
  num_ok e = true → safe_Z t = true → json_ok (package_to_json c e key t) = true.
Proof.
  intros He Ht. unfold package_to_json. cbn [json_ok]. apply andb_true_iff. split; [reflexivity|].
  simpl. rewrite He, (num_ok_int t) by done. reflexivity.
Qed.

Lemma str_is_refl s : str_is (Some (JStr s)) s = true.
Proof. apply String.eqb_refl. Qed.

Lemma package_key_created c e key t :
  is_finite e = true → package_key (package_to_json c e key t) c e = Some key.
Proof.
  intros He. unfold package_key, package_to_json. json_fields.
  rewrite !str_is_refl. unfold num_is. rewrite (num_eqb_refl e He). reflexivity.
Qed.

Lemma option_or_inv {A} (o : option A) msg w a w' :
  from_option_or o msg w = (Ok a, w') → o = Some a ∧ w' = w.
Proof. unfold from_option_or, lift_outcome. destruct o; [|done]. by intros [= -> ->]. Qed.

Lemma getCachedKeypair_cached kp w :
  keypair w = Some kp → NostrIdentity.getCachedKeypair w = (Ok kp, w).
Proof.
  intros Hk. unfold NostrIdentity.getCachedKeypair. rewrite (bind_ok _ _ w (keypair w) w) by done.
  by rewrite Hk.
Qed.

(** What a created envelope is made of. *)
Lemma createKeyEvent_inv c recipient e raw kp w ev w' :
  keypair w = Some kp → Vault.loadVaultCircleKey c (Some e) w = (Ok (Some raw), w) →
  createNip44CircleKeyEvent c recipient e w = (Ok ev, w') →
  is_safe_integer e = true ∧ num_lt e (int 1) = false ∧
  ∃ ck i content,
    getConversationKey (secretKey kp) recipient = Some ck ∧
    nip44_encrypt i (stringify (package_to_json c e (rawB64 raw) (now_ms w / 1000))) ck = Some content ∧
    template_of ev = mkTemplate CIRCLE_KEY_EVENT_KIND (int (now_ms w / 1000))
      [["d"; CIRCLE_KEY_EVENT_TYPE]; ["circle"; c]; ["epoch"; num_to_string e];
       ["p"; toLowerCase recipient]] content ∧
    getPublicKey (secretKey kp) = Some (pubkey ev) ∧ verifyEvent ev = true.
Proof.
  intros Hkp Hraw Hrun. unfold createNip44CircleKeyEvent in Hrun.
  run_inv Hrun. apply check_inv in Hrun0 as [_ ->].
  run_inv Hrun. apply check_inv in Hrun0 as [He ->]. apply andb_true_iff in He as [He1 He2].
  apply negb_true_iff in He2.
  rewrite (bind_ok _ _ _ _ _ Hraw) in Hrun.
  run_inv Hrun. apply option_or_inv in Hrun0 as [[= <-] ->].
  rewrite (bind_ok _ _ _ _ _ (getCachedKeypair_cached kp w Hkp)) in Hrun.
  rewrite (bind_ok _ _ w (now_ms w / 1000)%Z w) in Hrun by done.
  run_inv Hrun. apply option_or_inv in Hrun0 as [Hck ->].
  run_inv Hrun. injection Hrun0 as <- <-.
  run_inv Hrun. apply option_or_inv in Hrun0 as [Henc ->].
  run_inv Hrun. injection Hrun0 as <- <-.
  apply option_or_inv in Hrun as [Hfin _]. apply finalize_spec in Hfin as (Ht & Hpk & Hver).
  split_and!; [done..|]. by eexists _, _, _.
Qed.

Lemma num_to_string_int e : safe_Z e = true → num_to_string (int e) = string_of_Z e.
Proof. intros Hs. unfold num_to_string. rewrite int_safe, Hs, int_to_Z. done. Qed.

(** A circle key wrapped by its owner opens for the member it was wrapped for: the
    member's device stores the same raw key, sealed, at the same circle and epoch, and
    keeps it in its vault. *)
Lemma key_event_roundtrip c e raw owner member wo ev wo' wm v :
  keypair wo = Some owner → keypair wm = Some member →
  getPublicKey (secretKey owner) = Some (publicKey owner) →
  getPublicKey (secretKey member) = Some (publicKey member) →
  Vault.loadVaultCircleKey c (Some (int e)) wo = (Ok (Some raw), wo) → length raw = 32 →
  safe_Z (now_ms wo / 1000) = true →
  createNip44CircleKeyEvent c (publicKey member) (int e) wo = (Ok ev, wo') →
  NostrIdentity.device_ok wm → faults wm = [] →
  Vault.read_vault (identity_db wm) = Some v →
  ∃ wm' v', unwrapNip44CircleKey c (publicKey owner) ev wm = (Ok (int e), wm') ∧
    loadCircleKey c (int e) wm' = (Ok (Some (mkKey raw false)), wm') ∧
    Vault.read_vault (identity_db wm') = Some v' ∧ Vault.upserted v v' c raw (int e).
Proof.
  intros Ho Hm Hpo Hpm Hraw Hlen Hnow Hcreate Hd Hf Hv.
  destruct (createKeyEvent_inv _ _ _ _ _ _ _ _ Ho Hraw Hcreate)
    as (Hsafe & Hge & ck & i & ct & Hck & Henc & Ht & Hpk & Hver).
  rewrite int_safe in Hsafe. rewrite int_lt in Hge. apply Z.ltb_ge in Hge.
  assert (pubkey ev = publicKey owner) as Hpub by congruence.
  assert (kind ev = CIRCLE_KEY_EVENT_KIND ∧ content ev = ct ∧ tags ev =
    [["d"; CIRCLE_KEY_EVENT_TYPE]; ["circle"; c]; ["epoch"; string_of_Z e];
     ["p"; toLowerCase (publicKey member)]]) as (Hkind & Hct & Htags).
  { rewrite <-num_to_string_int by done. destruct ev. unfold template_of in Ht. simpl in *. by simplify_eq. }
  pose proof (public_key_form _ _ Hpo) as Hofo. pose proof (public_key_form _ _ Hpm) as Hofm.
  destruct (saveWithBackup_ok c raw (int e) wm) as (wm' & Hsave & Hf' & _ & _ & Hdb & _ & Hvault);
    [done|done|by apply num_ok_int|unfold aes_key_length; by rewrite Hlen|].
  rewrite Hv in Hvault. destruct Hvault as (v' & Hv' & Hup). exists wm', v'.
  split_and!; [|apply loadCircleKey_stored; [done|by rewrite Hdb, lookup_insert_eq]|done|done].
  unfold unwrapNip44CircleKey.
  rewrite (bind_ok _ _ _ _ _ (getCachedKeypair_cached member wm Hm)).
  rewrite (bind_ok _ _ wm tt wm) by by rewrite Hofo.
  rewrite (bind_ok _ _ wm tt wm) by by rewrite Hver, Hkind.
  rewrite (bind_ok _ _ wm tt wm) by by rewrite Hpub, lower_hex64_fixed, String.eqb_refl.
  assert (singleTag ev "epoch" = Some (string_of_Z e)) as Hep by (unfold singleTag; by rewrite Htags).
  rewrite (bind_ok _ _ wm tt wm).
  2: { unfold tag_is, singleTag. rewrite Htags. simpl. by rewrite !bool_decide_eq_true_2. }
  rewrite Hep. simpl default. rewrite (bind_ok _ _ wm tt wm)
    by by rewrite string_of_Z_digits by lia.
  assert (number_of_digits (string_of_Z e) = int e) as ->.
  { apply number_of_string_of_Z; [lia|done]. }
  rewrite (bind_ok _ _ wm ck wm).
  2: { rewrite (conversation_key_symmetric _ _ _ _ Hpm Hpo), Hck. done. }
  rewrite (bind_ok _ _ wm tt wm'); [done|]. unfold open_package, try_catch.
  rewrite (bind_ok _ _ wm (stringify (package_to_json c (int e) (rawB64 raw) (now_ms wo / 1000))) wm)
    by by rewrite Hct, (nip44_roundtrip _ _ _ _ Henc).
  rewrite (bind_ok _ _ wm (package_to_json c (int e) (rawB64 raw) (now_ms wo / 1000)) wm)
    by by rewrite json_roundtrip by (apply package_json_ok; [by apply num_ok_int|done]).
  rewrite (bind_ok _ _ wm (rawB64 raw) wm) by by rewrite package_key_created.
  rewrite (bind_ok _ _ wm raw wm) by by rewrite decode_raw_b64. by rewrite Hsave.
Qed.

(** C9: An envelope is accepted only if the circle's trusted owner signed it, and it
    names this circle, this device's public key and an epoch; any other envelope
    leaves the stored keys and the vault unchanged. *)
Theorem unwrap_only_from_owner c owner ev w o w' kp :
  keypair w = Some kp → unwrapNip44CircleKey c owner ev w = (o, w') →
  (verifyEvent ev = true ∧ num_eqb (kind ev) CIRCLE_KEY_EVENT_KIND = true ∧ pubkey ev = owner ∧
   singleTag ev "circle" = Some c ∧ singleTag ev "p" = Some (toLowerCase (publicKey kp)) ∧
   ∃ epoch, singleTag ev "epoch" = Some epoch ∧ is_digits epoch = true ∧
     (∀ e, o = Ok e → e = number_of_digits epoch)) ∨
  (w' = w ∧ ∃ m, o = Throw m).
Proof.
  intros Hkp. unfold unwrapNip44CircleKey.
  rewrite (bind_ok _ _ _ _ _ (getCachedKeypair_cached kp w Hkp)). unfold check.
  destruct (is_lower_hex64 owner) eqn:Hown; [|intros [= <- <-]; right; eauto].
  rewrite (bind_ok _ _ w tt w) by done.
  destruct (verifyEvent ev && _) eqn:Hver; [|intros [= <- <-]; right; eauto].
  rewrite (bind_ok _ _ w tt w) by done. rewrite (lower_hex64_fixed owner) by done.
  destruct (String.eqb (pubkey ev) owner) eqn:Hpk; [|intros [= <- <-]; right; eauto].
  rewrite (bind_ok _ _ w tt w) by done. unfold tag_is.
  destruct (bool_decide (singleTag ev "d" = _) && _ && _) eqn:Htags; [|intros [= <- <-]; right; eauto].
  rewrite (bind_ok _ _ w tt w) by done.
  destruct (is_digits (default "" (singleTag ev "epoch"))) eqn:Hep; [|intros [= <- <-]; right; eauto].
  rewrite (bind_ok _ _ w tt w) by done. intros Hrun. left. reflect_bools. split_and!; try done.
  destruct (singleTag ev "epoch") as [ep|]; [|done]. exists ep. split_and!; [done..|].
  intros e ->. run_inv Hrun. run_inv Hrun. by injection Hrun as -> _.
Qed.

(** ** Clearing *)

Lemma keyId_inj c e e' :
  safe_Z e = true → safe_Z e' = true → (0 <= e)%Z → (0 <= e')%Z →
  keyId c (int e) = keyId c (int e') → e = e'.
Proof.
  intros Hs Hs' He He' Hk. unfold keyId in Hk. apply str_app_inj, str_app_inj in Hk.
  rewrite !num_to_string_int in Hk by done. by apply string_of_Z_inj.
Qed.

Lemma keyId_not_bare c e : keyId c e ≠ c.
Proof.
  intros Hk. apply (f_equal String.length) in Hk. unfold keyId in Hk.
  rewrite !str_app_len in Hk. simpl in Hk. lia.
Qed.

Definition holds_key (id : string) (k : CryptoKey) (w : World) : Prop := circle_db w !! id = Some k.

Lemma holds_key_beside id k : Vault.beside_vault (holds_key id k).
Proof. intros w f fs n Hw. by split_and!. Qed.

Lemma holds_key_delete id k id' : id' ≠ id → preserves (holds_key id k) (idbDelete id').
Proof.
  intros Hne. apply preserves_request; [done|]. apply preserves_modify. intros w Hw.
  unfold holds_key in *. simpl. by rewrite lookup_delete_ne.
Qed.

Lemma holds_key_remove_item id k key : preserves (holds_key id k) (local_removeItem key).
Proof. by apply preserves_modify. Qed.

#[local] Hint Resolve holds_key_beside holds_key_remove_item : preserves.

(** Clearing a circle is documented to delete every epoch, but deletes the first 64
    only: a key stored at epoch 65 or later is still loaded afterwards. *)
Theorem clear_keeps_later_epochs c e k w w' :
  (64 < e)%Z → safe_Z e = true → circle_db w !! keyId c (int e) = Some k →
  clearCircleKey c None w = (Ok tt, w') → faults w' = [] →
  loadCircleKey c (int e) w' = (Ok (Some k), w').
Proof.
  intros He Hs Hk Hrun Hf. apply loadCircleKey_stored; [done|].
  assert (preserves (holds_key (keyId c (int e)) k) (clearCircleKey c None)) as Hp;
    [|by apply (preserves_run _ _ _ _ _ Hp Hrun)].
  unfold clearCircleKey. apply preserves_bind; [|intros _; preserves_tac].
  - apply preserves_for_each_in. intros x Hx%elem_of_seqZ. apply holds_key_delete.
    intros Heq. apply keyId_inj in Heq; [lia| |done|lia..]. unfold safe_Z, max_safe. lia.
  - apply holds_key_delete. intros Heq. symmetry in Heq. by apply keyId_not_bare in Heq.
Qed.

(** Purging keeps the current epoch and the one before it: their keys still load,
    so messages in flight can be read after a rotation. *)
Theorem purge_keeps_recent_epochs c cur e k w w' :
  (1 <= cur)%Z → safe_Z cur = true → (cur - 1 <= e <= cur)%Z → (1 <= e)%Z →
  circle_db w !! keyId c (int e) = Some k →
  purgeCircleKeyEpochs c (int cur) w = (Ok tt, w') → faults w' = [] →
  loadCircleKey c (int e) w' = (Ok (Some k), w').
Proof.
  intros Hcur Hs He He1 Hk Hrun Hf. apply loadCircleKey_stored; [done|].
  assert (preserves (holds_key (keyId c (int e)) k) (purgeCircleKeyEpochs c (int cur))) as Hp;
    [|by apply (preserves_run _ _ _ _ _ Hp Hrun)].
  unfold purgeCircleKeyEpochs. apply preserves_for_each_in. intros x Hx.
  rewrite int_sub in Hx by (unfold safe_Z, max_safe in *; lia).
  assert (1 <= x < e)%Z as Hlt.
  { change (num_max (int 1) (int (cur - 1)))
      with (if num_lt (int 1) (int (cur - 1)) then int (cur - 1) else int 1) in Hx.
    rewrite int_lt in Hx.
    destruct (Z.ltb_spec 1 (cur - 1)); unfold epochs_below, int in Hx; rewrite Qceiling_Z in Hx;
      apply elem_of_seqZ in Hx; lia. }
  preserves_tac. apply holds_key_delete. intros Heq.
  apply keyId_inj in Heq; unfold safe_Z, max_safe in *; lia.
Qed.

End keys.

(** ** Witnesses: an owner, a member, and a key between them *)

Definition owner : NostrKeypair := mkKeypair (to_hex Vault.sample_sk) Vault.sample_sk.
Definition member : NostrKeypair := mkKeypair (to_hex (to_bytes 32 500)) (to_bytes 32 500).
Definition owner_world : World := set_keypair (Some owner) Vault.stored_world.
Definition member_vault : Vault.VaultPayload := Vault.mkPayload (to_bytes 32 500) [].
Definition member_world : World :=
  set_keypair (Some member) (Vault.saveVault member_vault fresh_world).2.
Definition created : outcome Event * World :=
  createNip44CircleKeyEvent "c1" (publicKey member) (int 1) owner_world.
Definition key_event : Event := match created.1 with Ok e => e
  | Throw _ => mkEvent "" "" (int 0) (int 0) [] "" "" end.

Lemma stored_keys_sealed_witness :
  sealed (fold_left (λ w x, (run_call x w).2)
    [SaveRaw "c" (to_bytes 32 1) (int 1); Rotate "c" (int 2); Purge "c" (int 4)] fresh_world).
Proof. apply stored_keys_sealed. apply map_Forall_empty. Defined.

Lemma key_event_roundtrip_witness :
  ∃ wm' v', unwrapNip44CircleKey "c1" (publicKey owner) key_event member_world = (Ok (int 1), wm') ∧
    loadCircleKey "c1" (int 1) wm' = (Ok (Some (mkKey (to_bytes 32 5) false)), wm') ∧
    Vault.read_vault (identity_db wm') = Some v' ∧
    Vault.upserted (Vault.normalize member_vault) v' "c1" (to_bytes 32 5) (int 1).
Proof.
  apply (key_event_roundtrip "c1" 1 (to_bytes 32 5) owner member owner_world key_event created.2).
  - reflexivity.
  - reflexivity.
  - vm_compute. reflexivity.
  - vm_compute. reflexivity.
  - vm_compute. reflexivity.
  - vm_compute. reflexivity.
  - vm_compute. reflexivity.
  - vm_compute. reflexivity.
  - split; [vm_compute; reflexivity|]. intros v.
    replace (Vault.read_vault (identity_db member_world))
      with (Some (Vault.normalize member_vault)) by (vm_compute; reflexivity).
    intros [= <-]. vm_compute. reflexivity.
  - vm_compute. reflexivity.
  - vm_compute. reflexivity.
Defined.

Definition stranger_run : outcome num * World :=
  unwrapNip44CircleKey "c1" (publicKey member) key_event member_world.

Lemma unwrap_only_from_owner_witness :
  (verifyEvent key_event = true ∧ num_eqb (kind key_event) CIRCLE_KEY_EVENT_KIND = true ∧
   pubkey key_event = publicKey member ∧
   singleTag key_event "circle" = Some "c1" ∧
   singleTag key_event "p" = Some (toLowerCase (publicKey member)) ∧
   ∃ epoch, singleTag key_event "epoch" = Some epoch ∧ is_digits epoch = true ∧
     (∀ e, stranger_run.1 = Ok e → e = number_of_digits epoch)) ∨
  (stranger_run.2 = member_world ∧ ∃ m, stranger_run.1 = Throw m).
Proof.
  apply (unwrap_only_from_owner "c1" (publicKey member) key_event member_world
    stranger_run.1 stranger_run.2 member).
  - reflexivity.
  - apply surjective_pairing.
Defined.

Definition two_epochs : World :=
  set_circle_db (λ _, <[keyId "c" (int 65) := mkKey (to_bytes 32 65) false]>
    (<[keyId "c" (int 64) := mkKey (to_bytes 32 64) false]> ∅)) fresh_world.

Lemma clear_keeps_later_epochs_witness :
  let w' := (clearCircleKey "c" None two_epochs).2 in
  loadCircleKey "c" (int 65) w' = (Ok (Some (mkKey (to_bytes 32 65) false)), w').
Proof.
  apply (clear_keeps_later_epochs "c" 65 (mkKey (to_bytes 32 65) false) two_epochs).
  - reflexivity.
  - reflexivity.
  - vm_compute. reflexivity.
  - vm_compute. reflexivity.
  - vm_compute. reflexivity.
Defined.

Lemma purge_keeps_recent_epochs_witness :
  let w' := (purgeCircleKeyEpochs "c" (int 65) two_epochs).2 in
  loadCircleKey "c" (int 64) w' = (Ok (Some (mkKey (to_bytes 32 64) false)), w').
Proof.
  apply (purge_keeps_recent_epochs "c" 65 64 (mkKey (to_bytes 32 64) false) two_epochs).
  - lia.
  - reflexivity.
  - lia.
  - lia.
  - vm_compute. reflexivity.
  - vm_compute. reflexivity.
  - vm_compute. reflexivity.
Defined.

End CircleKeys.
