(* ===== verification/HomeLocation.v ===== *)
(** * The home location: [services/homeLocationStore.ts]

    The user's home is kept on the device as a scoped record of the identity store,
    sealed under the device key.  A record that does not parse to a location is
    erased. *)

From Stdlib Require Import Lia.
From S2P Require Import Prelude JsNumber JsString JsStringFacts JsCollection Json.
From S2P Require Import JsonFacts Nostr CryptoModel Platform IdentityStore.

Module HomeLocation.

(** [HomeLocation] of [store/uiSlice.ts] *)
Record HomeLocation : Type := mkHome { lat : num; lng : num; label : string }.

#[global] Instance HomeLocation_eq_dec : EqDecision HomeLocation.
Proof. solve_decision. Defined.

Definition VERSION : num := int 1.
Definition SCOPE : string := "home-location".

(** [{ version: VERSION, ...home }] *)
Definition home_to_json (h : HomeLocation) : json :=
  JObj [("version", JNum VERSION); ("lat", JNum (lat h)); ("lng", JNum (lng h));
        ("label", JStr (label h))].

Definition in_range (bound : Z) (x : num) : bool :=
  is_finite x && num_le (int (- bound)) x && num_le x (int bound).

Definition label_ok (s : string) : bool := (0 <? str_length (trim s))%Z && (str_length s <=? 500)%Z.

(** The fields of a value that is a home location. *)
Definition isHomeLocation (value : json) : option HomeLocation :=
  match value with
  | JObj fs =>
      v ← num_field value "version"; la ← num_field value "lat"; ln ← num_field value "lng";
      l ← str_field value "label";
      if (length fs =? 4)%nat && num_eqb v VERSION && in_range 90 la && in_range 180 ln && label_ok l
      then Some (mkHome la ln l) else None
  | _ => None
  end.

Section home.
Context `{Aes, Sha256, Random, NostrTools}.

Definition saveHomeLocation (home : HomeLocation) : prog World unit :=
  _ ← check (bool_decide (is_Some (isHomeLocation (home_to_json home)))) "Invalid home location";
  Vault.saveScopedDeviceRecord SCOPE (utf8_encode (stringify (home_to_json home))).

Definition clearHomeLocation : prog World unit := Vault.clearScopedDeviceRecord SCOPE.

(** [await clearHomeLocation().catch(() => undefined); return null] *)
Definition discard : prog World (option HomeLocation) :=
  _ ← try_catch clearHomeLocation (λ _, mret tt); mret None.

Definition loadHomeLocation : prog World (option HomeLocation) :=
  plaintext ← try_catch (Vault.loadScopedDeviceRecord SCOPE) (λ _, mret None);
  match plaintext with
  | None => mret None
  | Some plaintext =>
      match parse (utf8_decode plaintext) with
      | None => discard
      | Some decoded =>
          match isHomeLocation decoded with
          | None => discard
          | Some home => mret (Some home)
          end
      end
  end.

(** ** Facts *)

Definition valid (h : HomeLocation) : bool :=
  in_range 90 (lat h) && in_range 180 (lng h) && label_ok (label h).

Lemma isHomeLocation_to_json h :
  isHomeLocation (home_to_json h) = if valid h then Some h else None.
Proof. destruct h as [la ln l]. unfold isHomeLocation, home_to_json, valid. by json_fields. Qed.

Lemma isHomeLocation_valid v h : isHomeLocation v = Some h → valid h = true.
Proof.
  destruct v as [| | | | |fs]; try done. unfold isHomeLocation, valid.
  destruct (num_field (JObj fs) "version") as [v|]; [|done].
  destruct (num_field (JObj fs) "lat") as [la|]; [|done].
  destruct (num_field (JObj fs) "lng") as [ln|]; [|done].
  destruct (str_field (JObj fs) "label") as [l|]; [|done]. simpl.
  destruct (_ && label_ok l) eqn:E; [|done]. intros [= <-]. simpl.
  rewrite !andb_true_iff in *. naive_solver.
Qed.

(** The database without the home record. *)
Definition without_home (w : World) : gmap string IdentityValue :=
  delete (Vault.scoped_id SCOPE) (identity_db w).

Definition untouched_or_erased (w w' : World) : Prop :=
  identity_db w' = identity_db w ∨ identity_db w' = without_home w.

Lemma wp_discard w :
  wp discard (λ r w', r = None ∧ untouched_or_erased w w') (λ _ _, False) w.
Proof.
  unfold discard. wp_run. unfold clearHomeLocation, Vault.clearScopedDeviceRecord.
  apply Vault.wp_idbDelete; [|intros fs _; wp_run; split; [done|by left]].
  intros fs _. wp_run. split; [done|by right].
Qed.

Lemma wp_load_record w :
  wp (Vault.loadScopedDeviceRecord SCOPE) (λ _ w', identity_db w' = identity_db w)
    (λ _ w', identity_db w' = identity_db w) w.
Proof.
  unfold Vault.loadScopedDeviceRecord, Vault.idbGetKey, Vault.idbGetRecord. wp_run.
  apply Vault.wp_idbGet; [|done]. intros fs _.
  destruct (identity_db w !! Vault.WRAP_KEY_ID) as [[k|v b|m]|]; wp_run; try done;
    (apply Vault.wp_idbGet; [|done]); intros fs' _;
    wp_run; try done; destruct (identity_db w !! Vault.scoped_id SCOPE) as [[?|version blob|?]|];
    wp_run; try done.
  destruct (negb _ || _); wp_run; [done|]. unfold subtle_decrypt. wp_run.
  by destruct (aes_decrypt _ _ _ _).
Qed.

(** Loading the home location never throws.  What it yields has coordinates on the
    globe and a label that is not blank, and all it changes in the identity database is
    to erase the home record. *)
Theorem load_home_safe w :
  wp loadHomeLocation
    (λ r w', (∀ h, r = Some h → valid h = true) ∧ untouched_or_erased w w') (λ _ _, False) w.
Proof.
  unfold loadHomeLocation. wp_run.
  apply (wp_mono _ (λ _ w', identity_db w' = identity_db w) _ (λ _ w', identity_db w' = identity_db w));
    [apply wp_load_record| |].
  - intros [p|] w' Hw; [|wp_run; split; [done|by left]].
    assert (wp discard (λ r w', (∀ h, r = Some h → valid h = true) ∧ untouched_or_erased w w')
      (λ _ _, False) w') as Hd.
    { eapply wp_mono; [apply wp_discard| |done]. intros r w'' [-> Hu].
      split; [done|]. by unfold untouched_or_erased, without_home in *; rewrite <-Hw. }
    destruct (parse (utf8_decode p)) as [v|]; [|done].
    destruct (isHomeLocation v) as [h|] eqn:Hv; [|done]. wp_run.
    split; [|by left]. intros h' [= <-]. by eapply isHomeLocation_valid.
  - intros e w' Hw. wp_run. split; [done|by left].
Qed.

(** Only a valid location is saved, and a location that was saved is what every
    later visit loads from the same database. *)
Theorem home_location_roundtrip h w w' :
  Vault.keyed (identity_db w) → num_ok (lat h) = true → num_ok (lng h) = true →
  saveHomeLocation h w = (Ok tt, w') →
  valid h = true ∧ loadHomeLocation (set_faults [] w') = (Ok (Some h), set_faults [] w').
Proof.
  intros Hk Hla Hln Hrun. unfold saveHomeLocation in Hrun. run_inv Hrun.
  apply check_inv in Hrun0 as [Hv ->]. apply bool_decide_eq_true_1 in Hv.
  rewrite isHomeLocation_to_json in Hv. destruct (valid h) eqn:Hvalid; [|by destruct Hv].
  split; [done|]. apply Vault.scoped_record_roundtrip in Hrun; [|done|by destruct h].
  unfold loadHomeLocation.
  rewrite (bind_ok _ _ (set_faults [] w') (Some (utf8_encode (stringify (home_to_json h))))
    (set_faults [] w')) by (unfold try_catch; by rewrite Hrun).
  rewrite utf8_decode_encode, json_roundtrip.
  - by rewrite isHomeLocation_to_json, Hvalid.
  - unfold home_to_json. cbn [json_ok forallb snd]. by rewrite Hla, Hln.
Qed.

(** ** What the device holds *)

(** The home location a database holds, as a later visit reads it *)
Definition home_in (db : gmap string IdentityValue) : option HomeLocation :=
  match Vault.wrap_key db, db !! Vault.scoped_id SCOPE with
  | Some k, Some (IdRecord version blob) =>
      if negb (num_eqb version (int 1)) || (length blob <? 29)%nat then None
      else p ← Vault.open_blob k (utf8_encode SCOPE) blob; v ← parse (utf8_decode p); isHomeLocation v
  | _, _ => None
  end.

Lemma load_home_reads w :
  faults w = [] → Vault.keyed (identity_db w) → (loadHomeLocation w).1 = Ok (home_in (identity_db w)).
Proof.
  intros Hf Hk. assert (∀ w', faults w' = [] → (discard w').1 = Ok None) as Hd.
  { intros w' Hw. unfold discard, clearHomeLocation, Vault.clearScopedDeviceRecord, Vault.idbDelete,
      try_catch, mbind, prog_bind. by rewrite request_no_fault. }
  unfold loadHomeLocation, Vault.loadScopedDeviceRecord, Vault.idbGetKey, Vault.idbGetRecord, Vault.idbGet,
    try_catch, mbind, prog_bind. rewrite !request_no_fault by done. unfold gets. cbn -[parse isHomeLocation discard utf8_decode].
  unfold home_in, Vault.wrap_key. unfold Vault.keyed in Hk.
  destruct (identity_db w !! Vault.WRAP_KEY_ID) as [[k| |]|]; try done; cbn -[parse isHomeLocation discard utf8_decode]; rewrite !request_no_fault by done; cbn -[parse isHomeLocation discard utf8_decode];
    destruct (identity_db w !! Vault.scoped_id SCOPE) as [[|version blob|]|]; try done; cbn -[parse isHomeLocation discard utf8_decode].
  destruct (negb _ || _); [done|]. unfold subtle_decrypt, lift_outcome, Vault.open_blob. cbn -[parse isHomeLocation discard utf8_decode].
  destruct (aes_decrypt _ _ _ _) as [p|]; cbn -[parse isHomeLocation discard utf8_decode]; [|done]. destruct (parse (utf8_decode p)) as [v|]; cbn -[parse isHomeLocation discard utf8_decode]; [|by apply Hd].
  destruct (isHomeLocation v); [done|by apply Hd].
Qed.

(** Creating the wrap key changes nothing for the record. *)
Lemma wrapped_home db0 db k : Vault.keyed db0 → Vault.wrapped db0 db k → home_in db = home_in db0.
Proof.
  intros Hk Hw. unfold home_in. rewrite (Vault.wrapped_other _ _ _ (Vault.scoped_id SCOPE) Hw) by done.
  pose proof (Vault.wrapped_kept _ _ _ Hw) as [_ Hkeep].
  destruct (Vault.wrap_key db0) as [k0|] eqn:E; [by rewrite (Hkeep k0 eq_refl)|].
  unfold Vault.keyed, Vault.wrap_key in *. destruct (db0 !! Vault.WRAP_KEY_ID) as [[]|]; try done.
  destruct (db0 !! Vault.scoped_id SCOPE) as [[| |]|] eqn:Hs; try (by destruct (db !! Vault.WRAP_KEY_ID) as [[]|]).
  by destruct (Hk (Vault.scoped_id SCOPE) version blob).
Qed.

(** A record that opens to the text of a home is that home. *)
Lemma home_in_saved db k blob h :
  Vault.wrap_key db = Some k → (29 <= length blob)%nat →
  Vault.open_blob k (utf8_encode SCOPE) blob = Some (utf8_encode (stringify (home_to_json h))) →
  valid h = true → num_ok (lat h) = true → num_ok (lng h) = true →
  home_in (<[Vault.scoped_id SCOPE := IdRecord (int 1) blob]> db) = Some h.
Proof.
  intros Hk Hl Ho Hv Hla Hln. unfold home_in.
  assert (Vault.wrap_key (<[Vault.scoped_id SCOPE := IdRecord (int 1) blob]> db) = Some k) as ->.
  { unfold Vault.wrap_key in *. by rewrite lookup_insert_ne. }
  rewrite lookup_insert_eq, (proj2 (Nat.ltb_ge _ _)) by done.
  assert (negb (num_eqb (int 1) (int 1)) || false = false) as -> by done.
  rewrite Ho. unfold mbind, option_bind. rewrite utf8_decode_encode, json_roundtrip.
  - by rewrite isHomeLocation_to_json, Hv.
  - unfold home_to_json. cbn [json_ok forallb snd]. by rewrite Hla, Hln.
Qed.

(** Saving a home: the device holds it, or what it held before. *)
Lemma wp_saveHomeLocation h w :
  Vault.keyed (identity_db w) → num_ok (lat h) = true → num_ok (lng h) = true →
  wp (saveHomeLocation h)
    (λ _ w', Vault.keyed (identity_db w') ∧ valid h = true ∧ home_in (identity_db w') = Some h)
    (λ _ w', Vault.keyed (identity_db w') ∧ home_in (identity_db w') = home_in (identity_db w) ∧
       (faults w ≠ [] ∨ valid h = false)) w.
Proof.
  intros Hk Hla Hln. unfold saveHomeLocation. rewrite wp_bind, wp_check, isHomeLocation_to_json.
  destruct (valid h) eqn:Hv; cbn -[utf8_encode stringify]; [|by split_and!; [| |right]].
  apply (Vault.wp_save_record (Vault.scoped_id SCOPE)); [done|done| |].
  - intros w' k db blob _ Hw Ho Hl Hdb. rewrite Hdb. split_and!; [|done|].
    + eapply Vault.keyed_insert; [apply Hw|by eapply Vault.wrapped_keyed|done].
    + destruct Hw as [Hw _]. apply (home_in_saved _ k); [done| |done..].
      rewrite Hl. assert (utf8_encode (stringify (home_to_json h)) ≠ []) as Hne by by destruct h.
      revert Hne. clear. destruct (utf8_encode _); cbn; [done|lia].
  - intros w' Hf _ [->|[k Hw]]; [by split_and!; [| |left]|].
    split_and!; [by eapply Vault.wrapped_keyed|by eapply wrapped_home|by left].
Qed.

(** Clearing the home: the device holds none, or nothing has changed. *)
Lemma wp_clearHomeLocation w :
  Vault.keyed (identity_db w) →
  wp clearHomeLocation
    (λ _ w', Vault.keyed (identity_db w') ∧ home_in (identity_db w') = None)
    (λ _ w', faults w ≠ [] ∧ identity_db w' = identity_db w) w.
Proof.
  intros Hk. unfold clearHomeLocation, Vault.clearScopedDeviceRecord.
  apply Vault.wp_idbDelete; [|by intros]. intros fs _. cbn. split.
  - unfold Vault.keyed in *. rewrite lookup_delete_ne by done.
    destruct (identity_db w !! Vault.WRAP_KEY_ID) as [[]|]; try done.
    intros id version blob Hl. apply lookup_delete_Some in Hl as [_ Hl]. by eapply Hk.
  - unfold home_in. rewrite lookup_delete_eq. by destruct (Vault.wrap_key _).
Qed.

End home.

Definition nairobi : HomeLocation := mkHome (lit (-12921) 10000) (lit 368219 10000) "Home".

Lemma home_location_roundtrip_witness :
  let w' := (saveHomeLocation nairobi Vault.stored_world).2 in
  valid nairobi = true ∧ loadHomeLocation (set_faults [] w') = (Ok (Some nairobi), set_faults [] w').
Proof.
  apply (home_location_roundtrip nairobi Vault.stored_world).
  - vm_compute. reflexivity.
  - vm_compute. reflexivity.
  - vm_compute. reflexivity.
  - vm_compute. reflexivity.
Defined.

End HomeLocation.
