(* ===== verification/Backup.v ===== *)
(** * Encrypted backups: [services/backupService.ts]

    The whole vault, encrypted under a key derived from a passphrase, in a versioned
    JSON file; its inspection before a restore; and the restore itself.  PBKDF2 is
    WebCrypto's, so it is a parameter. *)

From Stdlib Require Import QArith Lia.
From S2P Require Import Prelude JsNumber JsString JsStringFacts JsCollection Json.
From S2P Require Import JsonFacts JsonPretty Nostr CryptoModel Platform IdentityStore.
From S2P Require Import LocalLists NostrIdentity CircleKeys.
Close Scope Q_scope.
Import (hints) Vault.

(** [deriveKey] with PBKDF2-SHA-256: password, salt, iterations.  [None] when the
    browser refuses the iteration count. *)
Class Pbkdf2 : Type := {
  pbkdf2 : bytes → bytes → num → option bytes;
  pbkdf2_accepts p s : is_Some (pbkdf2 p s (int 600000))
}.

Module Backup.

Definition FORMAT : string := "sentinelmesh-vault-backup".
Definition FORMAT_VERSION : num := int 1.
Definition PBKDF2_ITERATIONS : num := int 600000.

Record RestoreResult : Type := mkRestore {
  identityRestored : bool;
  circlesRestored : nat;
  circlesFailed : list string
}.

Definition b64e (b : bytes) : string := Vault.b64encode b.
Definition b64d (s : string) : outcome bytes := Vault.b64decode s.

(** [BackupFile] *)
Definition backup_file (salt iv ciphertext : bytes) : json :=
  JObj [("format", JStr FORMAT); ("version", JNum FORMAT_VERSION);
        ("kdf", JObj [("name", JStr "PBKDF2"); ("hash", JStr "SHA-256");
                      ("iterations", JNum PBKDF2_ITERATIONS); ("salt", JStr (b64e salt))]);
        ("iv", JStr (b64e iv)); ("ciphertext", JStr (b64e ciphertext))].

Section backup.
Context `{Aes, Sha256, Random, NostrTools, Pbkdf2}.

Definition deriveKey (passphrase : string) (salt : bytes) (iterations : num) : outcome CryptoKey :=
  match pbkdf2 (utf8_encode passphrase) salt iterations with
  | Some raw => Ok (mkKey raw false)
  | None => Throw "OperationError"
  end.

Definition exportBackup (passphrase : string) : prog World string :=
  payload ← Vault.loadVault;
  match payload with
  | None => throw "No identity to back up"
  | Some payload =>
      salt ← getRandomValues 16;
      iv ← getRandomValues 12;
      aesKey ← lift_outcome (deriveKey passphrase salt PBKDF2_ITERATIONS);
      ciphertext ← subtle_encrypt aesKey iv [] (utf8_encode (Vault.encodeVaultPayload payload));
      fp ← Vault.vaultFingerprint;
      _ ← Vault.saveVaultMeta (mkVaultMeta fp);
      mret (stringify_pretty (backup_file salt iv ciphertext))
  end.

Definition currentVaultId : prog World string :=
  fp ← Vault.vaultFingerprint; mret (Vault.formatVaultId fp).

Definition open_file (file : json) (passphrase : string) : outcome (Vault.VaultPayload * string) :=
  kdf ← Vault.typed (field file "kdf");
  salt ← Vault.typed (str_field kdf "salt");
  salt ← b64d salt;
  iterations ← Vault.typed (num_field kdf "iterations");
  aesKey ← deriveKey passphrase salt iterations;
  iv ← Vault.typed (str_field file "iv");
  iv ← b64d iv;
  ciphertext ← Vault.typed (str_field file "ciphertext");
  ciphertext ← b64d ciphertext;
  plain ← Vault.typed (aes_decrypt (key_raw aesKey) iv [] ciphertext);
  payload ← Vault.decodeVaultPayload (utf8_decode plain);
  fp ← Vault.fingerprintPayload payload;
  Ok (payload, Vault.formatVaultId fp).

Definition decryptBackup (fileText passphrase : string) : outcome (Vault.VaultPayload * string) :=
  match parse fileText with
  | None => Throw "Not a valid backup file"
  | Some file =>
      if negb (CircleKeys.str_is (field file "format") FORMAT
               && CircleKeys.num_is (field file "version") FORMAT_VERSION)
      then Throw "Unrecognized or unsupported backup file format"
      else
        match open_file file passphrase with
        | Ok r => Ok r
        | Throw _ => Throw "Incorrect passphrase or corrupted backup file"
        end
  end.

(** One circle of the payload: restored, or recorded as failed. *)
Definition restore_circle (acc : nat * list string) (c : Vault.VaultCircle)
    : prog World (nat * list string) :=
  try_catch
    (_ ← CircleKeys.saveCircleKeyWithBackup (Vault.vc_id c) (Vault.vc_key c) (Vault.epoch_of c);
     _ ← LocalLists.addCircleId (Vault.vc_id c);
     mret (S acc.1, acc.2))
    (λ _, mret (acc.1, acc.2 ++ [Vault.vc_id c])).

Definition applyRestore (payload : Vault.VaultPayload) : prog World RestoreResult :=
  _ ← NostrIdentity.restoreIdentityFromSecretKey (Vault.identitySk payload);
  '(n, failed) ← for_fold (Vault.circles payload) (0, []) restore_circle;
  mret (mkRestore true n failed).

(** ** Export and inspection *)

Lemma backup_json_ok salt iv c : json_ok (backup_file salt iv c) = true.
Proof. reflexivity. Qed.

Lemma open_exported v salt iv k pass fp :
  Vault.payload_ok v = true → deriveKey pass salt PBKDF2_ITERATIONS = Ok k →
  Vault.fingerprintPayload (Vault.normalize v) = Ok fp →
  open_file (backup_file salt iv
      (aes_encrypt (key_raw k) iv [] (utf8_encode (Vault.encodeVaultPayload v)))) pass
    = Ok (Vault.normalize v, Vault.formatVaultId fp).
Proof.
  intros Hok Hk Hfp. set (c := aes_encrypt _ _ _ _).
  set (kdf := JObj [("name", JStr "PBKDF2"); ("hash", JStr "SHA-256");
    ("iterations", JNum PBKDF2_ITERATIONS); ("salt", JStr (b64e salt))]).
  assert (field (backup_file salt iv c) "kdf" = Some kdf) as Hkdf by reflexivity.
  assert (str_field kdf "salt" = Some (b64e salt)) as Hsalt by reflexivity.
  assert (num_field kdf "iterations" = Some PBKDF2_ITERATIONS) as Hit by reflexivity.
  assert (str_field (backup_file salt iv c) "iv" = Some (b64e iv)) as Hiv by reflexivity.
  assert (str_field (backup_file salt iv c) "ciphertext" = Some (b64e c)) as Hc by reflexivity.
  unfold open_file. unfold mbind, outcome_bind.
  rewrite Hkdf. cbn [Vault.typed]. rewrite Hsalt. cbn [Vault.typed].
  unfold b64d, b64e in *. rewrite Vault.b64decode_encode, Hit. cbn [Vault.typed].
  rewrite Hk, Hiv. cbn [Vault.typed]. rewrite Vault.b64decode_encode, Hc. cbn [Vault.typed].
  rewrite Vault.b64decode_encode. subst c. rewrite (proj2 (aes_spec _ _ _ _ _) eq_refl).
  cbn [Vault.typed]. rewrite utf8_decode_encode, Vault.decode_encode_payload by done.
  by rewrite Hfp.
Qed.

Lemma decrypt_exported v salt iv k pass fp :
  Vault.payload_ok v = true → deriveKey pass salt PBKDF2_ITERATIONS = Ok k →
  Vault.fingerprintPayload (Vault.normalize v) = Ok fp →
  decryptBackup (stringify_pretty (backup_file salt iv
      (aes_encrypt (key_raw k) iv [] (utf8_encode (Vault.encodeVaultPayload v))))) pass
    = Ok (Vault.normalize v, Vault.formatVaultId fp).
Proof.
  intros Hok Hk Hfp. unfold decryptBackup. rewrite pretty_roundtrip by apply backup_json_ok.
  match goal with |- context [backup_file ?s ?i ?c] =>
    assert (CircleKeys.str_is (field (backup_file s i c) "format") FORMAT
      && CircleKeys.num_is (field (backup_file s i c) "version") FORMAT_VERSION = true) as ->
      by reflexivity end.
  cbn [negb]. by rewrite (open_exported _ _ _ _ pass fp Hok Hk Hfp).
Qed.

(** A backup opens with its passphrase to the vault it was made from, and the
    vault id shown for it is the fingerprint of that vault. *)
Theorem backup_roundtrip pass w text w' v fp :
  faults w = [] → Vault.read_vault (identity_db w) = Some v → Vault.payload_ok v = true →
  exportBackup pass w = (Ok text, w') →
  Vault.fingerprintPayload (Vault.normalize v) = Ok fp →
  decryptBackup text pass = Ok (Vault.normalize v, Vault.formatVaultId fp).
Proof.
  intros Hf Hv Hok Hrun Hfp. unfold exportBackup in Hrun.
  rewrite (bind_ok _ _ w (Some v) w) in Hrun by (rewrite Vault.loadVault_ok, Hv; done).
  run_inv Hrun. injection Hrun0 as <- <-. run_inv Hrun. injection Hrun0 as <- <-.
  run_inv Hrun. unfold lift_outcome in Hrun0. injection Hrun0 as Hk <-.
  run_inv Hrun. injection Hrun0 as <- <-. run_inv Hrun. run_inv Hrun.
  injection Hrun as <- <-. by apply decrypt_exported.
Qed.

Lemma read_vault_meta m db : Vault.read_vault (<[Vault.META_ID := IdMeta m]> db) = Vault.read_vault db.
Proof. unfold Vault.read_vault, Vault.wrap_key. by rewrite !lookup_insert_ne. Qed.

Lemma fingerprint_normalize p : Vault.fingerprintPayload (Vault.normalize p) = Vault.fingerprintPayload p.
Proof. unfold Vault.fingerprintPayload, Vault.normalize. cbn [Vault.identitySk Vault.circles]. by rewrite map_map. Qed.

(** A fingerprint read while requests are rejected is that of the vault, or empty. *)
Lemma wp_vaultFingerprint v fp Q E w :
  Vault.read_vault (identity_db w) = Some v → Vault.fingerprintPayload v = Ok fp →
  (∀ fs x, x = fp ∨ x = "" → Q x (set_faults fs w)) → wp Vault.vaultFingerprint Q E w.
Proof.
  intros Hv Hfp HQ. unfold Vault.vaultFingerprint. rewrite wp_bind. apply Vault.wp_loadVault.
  intros fs o _ [->| ->]; [|rewrite Hv]; wp_run; [|rewrite Hfp]; by auto.
Qed.

(** Whatever requests are rejected, an export that succeeds is one that opens to the vault
    of the device. *)
Lemma wp_exportBackup pass v fp Q E w :
  Vault.read_vault (identity_db w) = Some v → Vault.payload_ok v = true →
  Vault.fingerprintPayload v = Ok fp →
  (∀ text w', decryptBackup text pass = Ok (Vault.normalize v, Vault.formatVaultId fp) →
    keypair w' = keypair w → Vault.read_vault (identity_db w') = Some v → Q text w') →
  (∀ e w', keypair w' = keypair w → Vault.read_vault (identity_db w') = Some v → E e w') →
  wp (exportBackup pass) Q E w.
Proof.
  intros Hv Hok Hfp HQ HE. unfold exportBackup. rewrite wp_bind. apply Vault.wp_loadVault.
  intros fs o _ [->| ->]; [rewrite wp_throw; by apply HE|]. rewrite Hv.
  unfold subtle_encrypt. do 2 (rewrite wp_bind; apply wp_getRandomValues). wp_run.
  destruct (deriveKey _ _ _) as [k|e] eqn:Hk; simpl; [|by apply HE].
  wp_run. eapply wp_vaultFingerprint; [exact Hv|exact Hfp|]. intros fs' x _. wp_run.
  apply Vault.wp_idbPut; intros fs'' _; wp_run; [|by apply HE].
  apply HQ; [|done|cbn; by rewrite read_vault_meta].
  apply decrypt_exported; [done|exact Hk|by rewrite fingerprint_normalize].
Qed.

(** Without rejected requests an export succeeds, and records the fingerprint of what it
    exported. *)
Lemma exportBackup_ok pass v fp w :
  faults w = [] → Vault.read_vault (identity_db w) = Some v → Vault.fingerprintPayload v = Ok fp →
  ∃ text w', exportBackup pass w = (Ok text, w') ∧ faults w' = [] ∧ keypair w' = keypair w ∧
    identity_db w' = <[Vault.META_ID := IdMeta (mkVaultMeta fp)]> (identity_db w).
Proof.
  intros Hf Hv Hfp. unfold exportBackup, Vault.vaultFingerprint, Vault.saveVaultMeta.
  rewrite (bind_ok _ _ w (Some v) w) by (by rewrite Vault.loadVault_ok, Hv).
  destruct (pbkdf2_accepts (utf8_encode pass) (random_bytes (draws w) 16)) as [k Hk].
  set (w1 := set_draws (S (S (draws w))) w).
  assert (Vault.loadVault w1 = (Ok (Some v), w1)) as Hload by (by rewrite Vault.loadVault_ok, <-Hv).
  eexists _, (set_identity_db <[Vault.META_ID := IdMeta (mkVaultMeta fp)]> w1).
  split_and!; [|done..].
  rewrite (bind_ok _ _ w (random_bytes (draws w) 16) (set_draws (S (draws w)) w)) by done.
  rewrite (bind_ok _ _ _ (random_bytes (S (draws w)) 12) w1) by done.
  rewrite (bind_ok _ _ w1 (mkKey k false) w1) by (unfold lift_outcome, deriveKey, PBKDF2_ITERATIONS; by rewrite Hk).
  rewrite (bind_ok _ _ w1 _ w1) by done.
  rewrite (bind_ok _ _ w1 fp w1) by (rewrite (bind_ok _ _ _ _ _ Hload); unfold lift_outcome; by rewrite Hfp).
  rewrite (bind_ok _ _ w1 tt (set_identity_db <[Vault.META_ID := IdMeta (mkVaultMeta fp)]> w1))
    by (unfold Vault.idbPut; by rewrite request_no_fault).
  reflexivity.
Qed.

(** A file that opens holds a usable identity, and the vault id shown before the
    restore is the one of the payload that would be restored. *)
Theorem opened_backup_is_usable text pass p vid :
  decryptBackup text pass = Ok (p, vid) →
  is_Some (getPublicKey (Vault.identitySk p)) ∧
  ∃ fp, Vault.fingerprintPayload p = Ok fp ∧ vid = Vault.formatVaultId fp.
Proof.
  unfold decryptBackup. destruct (parse text) as [file|]; [|done].
  destruct (negb _); [done|]. destruct (open_file file pass) as [r|] eqn:Hopen; [|done].
  intros [= ->]. unfold open_file in Hopen. unfold mbind, outcome_bind in Hopen.
  repeat match type of Hopen with
  | match ?x with Ok _ => _ | Throw _ => _ end = _ => destruct x eqn:?; [|done]
  end.
  injection Hopen as -> <-. split; [|by eexists].
  match goal with H : Vault.fingerprintPayload p = Ok _ |- _ => revert H end.
  unfold Vault.fingerprintPayload. destruct (getPublicKey (Vault.identitySk p)); [by eexists|done].
Qed.

(** ** Restore *)

(** The payload's entries name distinct slots of the vault. *)
Definition distinct_slots (cs : list Vault.VaultCircle) : Prop :=
  ForallOrdPairs (λ a b, Vault.same_slot (Vault.vc_id b) (Vault.epoch_of b)
    (Vault.vc_id a) (Vault.epoch_of a) = false) cs.

(** A device in the middle of a restore: the identity is in place, and the entries
    restored so far are in the vault and among the recorded circles. *)
Definition restoring (sk : bytes) (cs : list Vault.VaultCircle) (w : World) : Prop :=
  NostrIdentity.device_ok w ∧ faults w = [] ∧ has_local_storage w = true ∧
  ∃ v, Vault.read_vault (identity_db w) = Some v ∧ Vault.identitySk v = sk ∧
    Forall (λ c, Vault.find_circle_key (Vault.circles v) (Vault.vc_id c)
      (Some (Vault.epoch_of c)) = Some (Vault.vc_key c)) cs ∧
    Forall (λ c, Vault.vc_id c ∈ LocalLists.getCircleIds w) cs.

Lemma legacy_key_not_ids c : CircleKeys.LEGACY_KEY_PREFIX +:+ c ≠ LocalLists.CIRCLE_IDS.
Proof. done. Qed.

Lemma circle_ids_delete key w w' :
  key ≠ LocalLists.CIRCLE_IDS → local_storage w' = delete key <$> local_storage w →
  LocalLists.getCircleIds w' = LocalLists.getCircleIds w.
Proof.
  intros Hne Hls. unfold LocalLists.getCircleIds, LocalLists.read_list, local_getItem.
  rewrite Hls. destruct (local_storage w) as [ls|]; [|done]. simpl. by rewrite lookup_delete_ne.
Qed.

(** One restored circle *)
Lemma restore_circle_ok sk cs c n failed w :
  restoring sk cs w → num_ok (Vault.epoch_of c) = true → aes_key_length (Vault.vc_key c) = true →
  Forall (λ a, Vault.same_slot (Vault.vc_id c) (Vault.epoch_of c) (Vault.vc_id a)
    (Vault.epoch_of a) = false) cs →
  ∃ w', restore_circle (n, failed) c w = (Ok (S n, failed), w') ∧ restoring sk (cs ++ [c]) w'.
Proof.
  intros (Hd & Hf & Hls & v & Hv & Hsk & Hkeys & Hids) He Hlen Hslots.
  destruct (CircleKeys.saveWithBackup_ok (Vault.vc_id c) (Vault.vc_key c) (Vault.epoch_of c) w)
    as (w1 & Hrun1 & Hf1 & Hd1 & _ & _ & Hls1 & Hv1); [done..|].
  rewrite Hv in Hv1. destruct Hv1 as (v1 & Hv1 & Hid1 & Hfind & Hothers).
  assert (has_local_storage w1 = true) as Hhas1.
  { unfold has_local_storage in *. rewrite Hls1. apply bool_decide_eq_true in Hls.
    apply bool_decide_eq_true. by apply fmap_is_Some. }
  destruct (LocalLists.addCircleId_ok (Vault.vc_id c) w1) as (w2 & Hrun2 & Hw2 & Hids2); [done..|].
  assert (LocalLists.getCircleIds w1 = LocalLists.getCircleIds w) as Hids1.
  { eapply circle_ids_delete; [|exact Hls1]. apply legacy_key_not_ids. }
  exists w2. split.
  - unfold restore_circle, try_catch. rewrite (bind_ok _ _ _ _ _ Hrun1).
    by rewrite (bind_ok _ _ _ _ _ Hrun2).
  - subst w2. split_and!; [done|done| |exists v1; split_and!; [done|congruence| |]].
    + unfold has_local_storage in *. simpl. apply bool_decide_eq_true in Hhas1.
      apply bool_decide_eq_true. by apply fmap_is_Some.
    + apply Forall_app. split; [|by constructor].
      rewrite Forall_forall in Hkeys, Hslots |- *. intros a Ha.
      rewrite Hothers by (by apply Hslots). by apply Hkeys.
    + rewrite Hids2, Hids1. apply Forall_app. split.
      * eapply Forall_impl; [exact Hids|]. intros a Ha.
        apply elem_of_set_add. left. by apply elem_of_set_of.
      * constructor; [|constructor]. apply elem_of_set_add. by right.
Qed.

Lemma restore_circles_ok sk cs done n w :
  restoring sk done w → Forall (λ c, num_ok (Vault.epoch_of c) = true ∧
    aes_key_length (Vault.vc_key c) = true) cs →
  distinct_slots cs → Forall (λ c, Forall (λ a, Vault.same_slot (Vault.vc_id c) (Vault.epoch_of c)
    (Vault.vc_id a) (Vault.epoch_of a) = false) done) cs →
  ∃ w', for_fold cs (n, []) restore_circle w = (Ok (n + length cs, []), w') ∧
    restoring sk (done ++ cs) w'.
Proof.
  revert done n w. induction cs as [|c cs IH]; intros dn n w Hr Hok Hd Hdone.
  - exists w. rewrite app_nil_r, Nat.add_0_r. done.
  - apply Forall_cons in Hok as [[He Hl] Hok]. apply Forall_cons in Hdone as [Hc Hdone].
    inversion Hd as [|? ? Hcs Hd']; subst.
    destruct (restore_circle_ok sk dn c n [] w Hr He Hl Hc) as (w1 & Hrun & Hr1).
    destruct (IH (dn ++ [c]) (S n) w1) as (w' & Hrun' & Hr'); [done..| |].
    + rewrite Forall_forall in Hdone, Hcs |- *. intros x Hx. apply Forall_app.
      split; [by apply Hdone|]. constructor; [by apply Hcs|constructor].
    + exists w'. cbn [for_fold length]. rewrite (bind_ok _ _ _ _ _ Hrun), Hrun'.
      rewrite <-app_assoc in Hr'. split; [|done]. do 2 f_equal. f_equal. lia.
Qed.

(** ** A restore whose storage requests may fail *)

(** The device is sound, and [kp], of the secret key [sk], is the identity of the vault
    and of the session. *)
Definition holding (sk : bytes) (kp : NostrKeypair) (w : World) : Prop :=
  NostrIdentity.device_ok w ∧ NostrIdentity.stored_identity w = Some sk ∧ keypair w = Some kp.

Lemma holding_frame sk kp w w' :
  identity_db w' = identity_db w → keypair w' = keypair w → holding sk kp w → holding sk kp w'.
Proof.
  intros Hdb Hkp. unfold holding, NostrIdentity.device_ok, NostrIdentity.stored_identity.
  by rewrite Hdb, Hkp.
Qed.

Lemma holding_request {A} sk kp (m : prog World A) :
  preserves (holding sk kp) m → preserves (holding sk kp) (request m).
Proof. apply preserves_request. intros fs w. by apply holding_frame. Qed.

Lemma holding_with_storage sk kp m :
  preserves (holding sk kp) m → preserves (holding sk kp) (LocalLists.with_storage m).
Proof. intros Hm w Hw. unfold LocalLists.with_storage. destruct (has_local_storage w); [by apply Hm|done]. Qed.

Lemma holding_upsert sk kp c k e : num_ok e = true →
  preserves (holding sk kp) (Vault.upsertCircleKey c k e).
Proof.
  intros He w (Hd & Hs & Hkp).
  assert (wp (Vault.upsertCircleKey c k e) (λ _, holding sk kp) (λ _, holding sk kp) w) as Hw.
  { set (f := λ v : Vault.VaultPayload, Vault.mkPayload (Vault.identitySk v)
      (List.filter (λ x, negb (Vault.is_circle_epoch c e x)) (Vault.circles v)
       ++ [Vault.mkVaultCircle c k (Some e)])).
    apply (Vault.wp_update_vault f); [apply Hd| | | |].
    - intros v Hv. apply Vault.payload_ok_upsert; [|done]. by apply Hd.
    - intros v w' Hst Hk _ Hv Hr. split_and!; [split; [done|]| |].
      + intros v'. rewrite Hr. intros [= <-]. rewrite NostrIdentity.payload_ok_normalize.
        apply Vault.payload_ok_upsert; [|done]. by apply Hd.
      + unfold NostrIdentity.stored_identity in *. rewrite Hv in Hs. by rewrite Hr.
      + by rewrite (NostrIdentity.vault_step_keypair _ _ Hst).
    - intros w' Hst Hdb _. apply (holding_frame _ _ w); [done| |by split_and!].
      by apply NostrIdentity.vault_step_keypair.
    - intros w' _ Hst Hk _ Hr. split_and!; [split; [done|]| |].
      + intros v'. rewrite Hr. apply Hd.
      + unfold NostrIdentity.stored_identity. by rewrite Hr.
      + by rewrite (NostrIdentity.vault_step_keypair _ _ Hst). }
  unfold wp in Hw. by destruct (Vault.upsertCircleKey c k e w) as [[] ?].
Qed.

Lemma holding_restore_circle sk kp acc c : num_ok (Vault.epoch_of c) = true →
  preserves (holding sk kp) (restore_circle acc c).
Proof.
  intros He. unfold restore_circle, CircleKeys.saveCircleKeyWithBackup, importKey,
    CircleKeys.idbPut, LocalLists.addCircleId, LocalLists.write_list, local_setItem, local_removeItem.
  pose proof (holding_upsert sk kp (Vault.vc_id c) (Vault.vc_key c) (Vault.epoch_of c) He).
  preserves_tac; try apply holding_with_storage; preserves_tac; try apply holding_request;
    apply preserves_modify; intros w; by apply holding_frame.
Qed.

(** The slot of the key store that a circle of a backup is restored to *)
Definition slot (c : Vault.VaultCircle) : string := CircleKeys.keyId (Vault.vc_id c) (Vault.epoch_of c).

(** The device [w] has the circle [c] of the backup: a key is stored, sealed, in the slot of
    [c], the one that the backup [cs] has for that slot; and the circle is among those the
    device lists, when it has local storage. *)
Definition on_device (cs : list Vault.VaultCircle) (w : World) (c : Vault.VaultCircle) : Prop :=
  (∃ c', c' ∈ cs ∧ slot c' = slot c ∧
    circle_db w !! slot c = Some (mkKey (Vault.vc_key c') false)) ∧
  (has_local_storage w = true → Vault.vc_id c ∈ LocalLists.getCircleIds w).

(** What the restore of one circle may change *)
Definition after_circle (c : Vault.VaultCircle) (w w' : World) : Prop :=
  (circle_db w' = circle_db w ∨ circle_db w' = <[slot c := mkKey (Vault.vc_key c) false]> (circle_db w)) ∧
  has_local_storage w' = has_local_storage w ∧
  (has_local_storage w = true → ∀ x, x ∈ LocalLists.getCircleIds w → x ∈ LocalLists.getCircleIds w') ∧
  (faults w = [] → faults w' = []).

Lemma on_device_after cs c c0 w w' :
  after_circle c w w' → on_device cs w c0 → on_device (cs ++ [c]) w' c0.
Proof.
  intros (Hdb & Hls & Hids & _) [(c' & Hin & Hs & Hk) Hid]. split; [|rewrite Hls; auto].
  destruct Hdb as [->| ->].
  - exists c'. split_and!; [|done|done]. apply elem_of_app. by left.
  - destruct (decide (slot c = slot c0)) as [He|Hne].
    + exists c. rewrite He, lookup_insert_eq. split_and!; [|done|done].
      apply elem_of_app. right. by apply list_elem_of_singleton.
    + exists c'. rewrite lookup_insert_ne by done. split_and!; [|done|done]. apply elem_of_app. by left.
Qed.

Lemma wp_addCircleId id Q E w :
  (∀ w', circle_db w' = circle_db w → has_local_storage w' = has_local_storage w →
    (faults w = [] → faults w' = []) →
    (has_local_storage w = true → ∀ x, x ∈ LocalLists.getCircleIds w ∨ x = id → x ∈ LocalLists.getCircleIds w') →
    Q tt w') →
  (∀ fs, faults w ≠ [] → E storage_error (set_faults fs w)) →
  wp (LocalLists.addCircleId id) Q E w.
Proof.
  intros HQ HE. unfold wp, LocalLists.addCircleId, LocalLists.with_storage.
  destruct (has_local_storage w) eqn:Hls; [|by apply HQ].
  rewrite (bind_ok _ _ w (LocalLists.getCircleIds w) w) by done.
  destruct (LocalLists.write_list LocalLists.CIRCLE_IDS _ w) as [o w'] eqn:Hw. revert Hw.
  unfold LocalLists.write_list, local_setItem.
  match goal with |- request ?m w = _ → _ => 
    assert (wp (request m) (λ _ w', ∃ fs, (faults w = [] → fs = []) ∧ m (set_faults fs w) = (Ok tt, w'))
      (λ e w', e = storage_error ∧ faults w ≠ [] ∧ ∃ fs, w' = set_faults fs w) w) as Hr end.
  { apply wp_request; [intros fs Hfs; by exists fs|intros fs Hf; split_and!; [done|done|by exists fs]]. }
  intros Hrun. pose proof Hr as Hr'. unfold wp in Hr. rewrite Hrun in Hr. destruct o as [[]|e].
  - destruct Hr as (fs & Hfs & [= <-]). apply HQ; [done| |done|].
    + unfold has_local_storage in *. cbn. apply bool_decide_eq_true in Hls. rewrite bool_decide_eq_true_2; [done|].
      by apply fmap_is_Some.
    + intros _ x Hx. unfold LocalLists.getCircleIds at 1.
      rewrite (LocalLists.read_write_list LocalLists.CIRCLE_IDS _ w _ LocalLists.CIRCLE_IDS Hls Hrun).
      rewrite decide_True by done. apply elem_of_set_add. destruct Hx as [Hx| ->]; [left|by right].
      by apply elem_of_set_of.
  - destruct Hr as (-> & Hf & fs & ->). by apply HE.
Qed.

(** One circle: it is on the device, or it is recorded as failed; then a request was
    rejected, or its key is not one of AES. *)
Lemma wp_restore_circle n failed c Q E w :
  NostrIdentity.device_ok w → num_ok (Vault.epoch_of c) = true →
  (∀ w', after_circle c w w' → on_device [c] w' c → Q (S n, failed) w') →
  (∀ w', after_circle c w w' → faults w ≠ [] ∨ aes_key_length (Vault.vc_key c) = false →
    Q (n, failed ++ [Vault.vc_id c]) w') →
  wp (restore_circle (n, failed) c) Q E w.
Proof.
  intros [Hk Hok] He HQ HF. unfold restore_circle, CircleKeys.saveCircleKeyWithBackup, importKey.
  wp_run. destruct (aes_key_length _) eqn:Hl; wp_run; [|apply HF; [|by right]; split_and!; auto].
  apply wp_request; [|intros fs Hf; wp_run; apply HF; [split_and!; try done; by left|by left]].
  intros fs Hfs. unfold local_removeItem. wp_run. fold (slot c).
  match goal with |- wp _ _ _ ?x => set (w1 := x) end.
  assert (has_local_storage w1 = has_local_storage w) as Hls1.
  { unfold has_local_storage. apply bool_decide_ext. cbn. by rewrite fmap_is_Some. }
  assert (LocalLists.getCircleIds w1 = LocalLists.getCircleIds w) as Hids.
  { by eapply (circle_ids_delete (CircleKeys.LEGACY_KEY_PREFIX +:+ Vault.vc_id c)). }
  assert (∀ w', circle_db w' = circle_db w1 → has_local_storage w' = has_local_storage w1 →
    (has_local_storage w1 = true → ∀ x, x ∈ LocalLists.getCircleIds w1 → x ∈ LocalLists.getCircleIds w') →
    (faults w = [] → faults w' = []) → after_circle c w w') as Hafter.
  { intros w' Hc Hh Hi Hf. rewrite Hls1 in Hh, Hi. rewrite Hids in Hi. split_and!; try done. by right. }
  assert (∀ w2, Vault.vault_step w1 w2 → circle_db w2 = circle_db w1 ∧
    local_storage w2 = local_storage w1 ∧ (faults w = [] → faults w2 = [])) as Hstep.
  { intros w2 [(db & fs2 & k & ->) Hf2]. split_and!; [done|done|]. intros Hf. apply Hf2. by apply Hfs. }
  assert (∀ w2, local_storage w2 = local_storage w1 → has_local_storage w2 = has_local_storage w1 ∧
    LocalLists.getCircleIds w2 = LocalLists.getCircleIds w1) as Hlocal.
  { intros w2 Hl2. unfold has_local_storage, LocalLists.getCircleIds, LocalLists.read_list, local_getItem.
    by rewrite Hl2. }
  assert (∀ w2, Vault.vault_step w1 w2 → wp (LocalLists.addCircleId (Vault.vc_id c))
    (λ _ w', Q (S n, failed) w') (λ _ w', Q (n, failed ++ [Vault.vc_id c]) w') w2) as Hadd.
  { intros w2 (Hc2 & Hl2 & Hf2)%Hstep. destruct (Hlocal w2 Hl2) as [Hh2 Hi2]. apply wp_addCircleId.
    - intros w' Hc Hh Hf Hi. apply HQ; [apply Hafter; [congruence..| |by auto]|].
      + rewrite <-Hh2, <-Hi2. auto.
      + split; [|rewrite Hh; intros Hh'; apply Hi; auto].
        exists c. split_and!; [by apply list_elem_of_singleton|done|]. rewrite Hc, Hc2. apply lookup_insert_eq.
    - intros fs2 Hf. apply HF; [|left; by auto]. apply Hafter; [done|done| |].
      + intros _ x. cbn. by rewrite <-Hi2.
      + intros Hw. by destruct (Hf (Hf2 Hw)). }
  apply (Vault.wp_update_vault (λ v : Vault.VaultPayload, Vault.mkPayload (Vault.identitySk v)
      (List.filter (λ x, negb (Vault.is_circle_epoch (Vault.vc_id c) (Vault.epoch_of c) x)) (Vault.circles v)
       ++ [Vault.mkVaultCircle (Vault.vc_id c) (Vault.vc_key c) (Some (Vault.epoch_of c))]))).
  - done.
  - intros v Hv. apply Vault.payload_ok_upsert; [by apply Hok|done].
  - intros v w2 Hs _ _ _ _. wp_run. by apply Hadd.
  - intros w2 Hs _ _. wp_run. by apply Hadd.
  - intros w2 Hf Hs _ _ _. wp_run. destruct (Hstep w2 Hs) as (Hc2 & Hl2 & Hf2).
    destruct (Hlocal w2 Hl2) as [Hh2 Hi2]. apply HF; [|left; by auto].
    apply Hafter; [done|done| |done]. intros _ x. by rewrite Hi2.
Qed.

(** The circles [cs] of a backup are those restored, [dn], which are on the device, and
    those that failed, [fl], each because a request was rejected or its key is not one of
    AES. *)
Definition accounted (cs : list Vault.VaultCircle) (troubled : Prop) (dn fl : list Vault.VaultCircle)
    (w : World) : Prop :=
  cs ≡ₚ dn ++ fl ∧ Forall (on_device cs w) dn ∧
  Forall (λ c, troubled ∨ aes_key_length (Vault.vc_key c) = false) fl.

Lemma wp_restore_circles sk kp troubled pre dn fl cs w :
  (faults w ≠ [] → troubled) → holding sk kp w → forallb (num_ok ∘ Vault.epoch_of) cs = true →
  accounted pre troubled dn fl w →
  wp (for_fold cs (length dn, map Vault.vc_id fl) restore_circle)
    (λ r w', holding sk kp w' ∧ ∃ dn fl, r = (length dn, map Vault.vc_id fl) ∧
      accounted (pre ++ cs) troubled dn fl w') (λ _ _, False) w.
Proof.
  revert pre dn fl w. induction cs as [|c cs IH]; intros pre dn fl w Hf Hh Hok Hacc; simpl.
  { wp_run. rewrite app_nil_r. split; [done|]. by exists dn, fl. }
  apply andb_true_iff in Hok as [Hc Hok]. destruct Hacc as (Hp & Hdn & Hfl).
  assert (∀ w', after_circle c w w' → (faults w' ≠ [] → troubled) ∧ Forall (on_device (pre ++ [c]) w') dn) as Hafter.
  { intros w' Ha. split; [intros Hf'; apply Hf; intros Hw; by apply Hf', Ha|].
    eapply Forall_impl; [exact Hdn|]. intros c0. by apply on_device_after. }
  rewrite wp_bind. apply (wp_preserves (holding sk kp)); [by apply holding_restore_circle|done|].
  replace (pre ++ c :: cs) with ((pre ++ [c]) ++ cs) by (by rewrite <-app_assoc).
  apply wp_restore_circle; [by apply Hh|done| |]; intros w' Ha.
  - intros [(c' & ->%list_elem_of_singleton & Hs & Hk) Hid] Hh'. destruct (Hafter w' Ha) as [Hf' Hdn'].
    replace (S (length dn)) with (length (dn ++ [c])) by (rewrite length_app; cbn; lia).
    apply IH; [done..|]. split_and!; [rewrite Hp; solve_Permutation| |done].
    apply Forall_app. split; [done|]. constructor; [|constructor]. split; [|done].
    exists c. split_and!; [|done|done]. apply elem_of_app. right. by apply list_elem_of_singleton.
  - intros Hwhy Hh'. destruct (Hafter w' Ha) as [Hf' Hdn'].
    replace (map Vault.vc_id fl ++ [Vault.vc_id c]) with (map Vault.vc_id (fl ++ [c])) by (by rewrite map_app).
    apply IH; [done..|]. split_and!; [rewrite Hp; solve_Permutation|done|].
    apply Forall_app. split; [done|]. constructor; [|constructor]. destruct Hwhy; auto.
Qed.

(** A restore installs the identity of the backup and accounts for each of its circles,
    or changes nothing. *)
Lemma wp_applyRestore p w :
  NostrIdentity.device_ok w → is_Some (getPublicKey (Vault.identitySk p)) →
  Vault.payload_ok p = true →
  wp (applyRestore p)
    (λ r w', ∃ kp dn fl, NostrIdentity.keypair_of (Vault.identitySk p) = Ok kp ∧
      holding (Vault.identitySk p) kp w' ∧ r = mkRestore true (length dn) (map Vault.vc_id fl) ∧
      accounted (Vault.circles p) (faults w ≠ []) dn fl w')
    (λ _ w', faults w ≠ [] ∧ NostrIdentity.device_ok w' ∧ NostrIdentity.same_identity w w') w.
Proof.
  intros Hd Hsk Hp. unfold applyRestore. rewrite wp_bind.
  eapply wp_mono; [by apply NostrIdentity.wp_adopt| |done].
  intros kp w1 (Hd1 & Hkp & Hs1 & Hk1 & Hf1). rewrite wp_bind.
  eapply wp_mono; [apply (wp_restore_circles (Vault.identitySk p) kp (faults w ≠ []) [] [] [])| |done].
  - intros Hf Hw. by apply Hf, Hf1.
  - done.
  - exact Hp.
  - split_and!; [done|constructor|constructor].
  - intros r w2 (Hh & dn & fl & -> & Hacc). wp_run. by exists kp, dn, fl.
Qed.

(** Restoring a backup on a device whose storage answers restores everything: the
    identity (which survives a reload), and every circle's key, at its epoch and under
    its id, with no circle reported as failed. *)
Theorem restore_complete p w kp :
  NostrIdentity.device_ok w → faults w = [] → has_local_storage w = true →
  NostrIdentity.keypair_of (Vault.identitySk p) = Ok kp →
  Forall (λ c, num_ok (Vault.epoch_of c) = true ∧ aes_key_length (Vault.vc_key c) = true)
    (Vault.circles p) → distinct_slots (Vault.circles p) →
  ∃ w' v, applyRestore p w = (Ok (mkRestore true (length (Vault.circles p)) []), w') ∧
    Vault.read_vault (identity_db w') = Some v ∧ Vault.identitySk v = Vault.identitySk p ∧
    Forall (λ c, Vault.find_circle_key (Vault.circles v) (Vault.vc_id c)
        (Some (Vault.epoch_of c)) = Some (Vault.vc_key c) ∧
      Vault.vc_id c ∈ LocalLists.getCircleIds w') (Vault.circles p) ∧
    ∃ w'', NostrIdentity.loadIdentity (NostrIdentity.reload w') = (Ok kp, w'').
Proof.
  intros Hd Hf Hls Hkp Hok Hslots.
  destruct (NostrIdentity.saveSecretKey_device (Vault.identitySk p) w Hd Hf)
    as (w1 & cs & Hrun1 & Hf1 & Hd1 & Hv1).
  set (w2 := set_init_promise None (set_keypair (Some kp) w1)).
  assert (NostrIdentity.restoreIdentityFromSecretKey (Vault.identitySk p) w = (Ok kp, w2)) as Hrest.
  { unfold NostrIdentity.restoreIdentityFromSecretKey, NostrIdentity.adopt_secret_key.
    rewrite (bind_ok _ _ _ _ _ Hrun1). unfold NostrIdentity.cache_keypair. by rewrite Hkp. }
  assert (has_local_storage w1 = true) as Hls1.
  { apply (preserves_run (λ w, has_local_storage w = true) _ _ _ _
      (Vault.beside_saveSecretKey (λ w, has_local_storage w = true)
        (λ w _ _ _ Hw, conj Hw (conj Hw Hw)) _) Hrun1 Hls). }
  destruct (restore_circles_ok (Vault.identitySk p) (Vault.circles p) [] 0 w2)
    as (w' & Hrun & Hd' & Hf' & _ & v & Hv & Hsk & Hkeys & Hids).
  - split_and!; [done..|]. eexists. split_and!; [exact Hv1|done|constructor|constructor].
  - done.
  - done.
  - apply Forall_forall. intros; constructor.
  - exists w', v. split_and!; [|done|done| |].
    + unfold applyRestore. rewrite (bind_ok _ _ _ _ _ Hrest). by rewrite (bind_ok _ _ _ _ _ Hrun).
    + simpl in Hkeys, Hids. rewrite Forall_forall in Hkeys, Hids |- *. auto.
    + destruct (NostrIdentity.loadIdentity_stored (Vault.identitySk p) (Vault.circles v) w')
        as (w'' & Hload); [done| | |].
      * rewrite Hv, <-Hsk. by destruct v.
      * unfold NostrIdentity.keypair_of in Hkp. destruct (getPublicKey _); [by eexists|done].
      * exists w''. by rewrite Hload, Hkp.
Qed.

End backup.

(** ** Witnesses *)

#[local] Instance toy_pbkdf2 : Pbkdf2.
Proof. refine {| pbkdf2 p s n := Some (to_bytes 32 (checksum (p ++ s))) |}. by eexists. Defined.

Definition exported : string :=
  match (exportBackup "correct horse" Vault.stored_world).1 with Ok t => t | Throw _ => "" end.
Definition sample_fp : string :=
  match Vault.fingerprintPayload (Vault.normalize Vault.sample_payload) with
  | Ok fp => fp | Throw _ => "" end.

Lemma backup_roundtrip_witness :
  decryptBackup exported "correct horse" =
    Ok (Vault.normalize (Vault.normalize Vault.sample_payload), Vault.formatVaultId sample_fp).
Proof.
  apply (backup_roundtrip "correct horse" Vault.stored_world exported
    (exportBackup "correct horse" Vault.stored_world).2 (Vault.normalize Vault.sample_payload)
    sample_fp).
  - vm_compute. reflexivity.
  - vm_compute. reflexivity.
  - vm_compute. reflexivity.
  - vm_compute. reflexivity.
  - vm_compute. reflexivity.
Defined.

Lemma opened_backup_is_usable_witness :
  is_Some (getPublicKey (Vault.identitySk (Vault.normalize Vault.sample_payload))) ∧
  ∃ fp, Vault.fingerprintPayload (Vault.normalize Vault.sample_payload) = Ok fp ∧
    Vault.formatVaultId sample_fp = Vault.formatVaultId fp.
Proof.
  apply (opened_backup_is_usable exported "correct horse"). vm_compute. reflexivity.
Defined.

Lemma restore_complete_witness :
  ∃ w' v, applyRestore Vault.sample_payload fresh_world = (Ok (mkRestore true 2 []), w') ∧
    Vault.read_vault (identity_db w') = Some v ∧
    Vault.identitySk v = Vault.identitySk Vault.sample_payload ∧
    Forall (λ c, Vault.find_circle_key (Vault.circles v) (Vault.vc_id c)
        (Some (Vault.epoch_of c)) = Some (Vault.vc_key c) ∧
      Vault.vc_id c ∈ LocalLists.getCircleIds w') (Vault.circles Vault.sample_payload) ∧
    ∃ w'', NostrIdentity.loadIdentity (NostrIdentity.reload w') = (Ok CircleKeys.owner, w'').
Proof.
  apply (restore_complete Vault.sample_payload fresh_world CircleKeys.owner).
  - apply NostrIdentity.fresh_device_ok.
  - reflexivity.
  - vm_compute. reflexivity.
  - vm_compute. reflexivity.
  - repeat constructor.
  - repeat constructor.
Defined.

End Backup.
