(* ===== verification/BunkerStore.v ===== *)
(** * The stored remote-signer connection: [services/bunkerStore.ts]

    The connection to a NIP-46 bunker is serialised to JSON and encrypted under its
    own non-extractable key.  The plaintext buffer the code zeroes afterwards is a
    local value here. *)

From Stdlib Require Import QArith Lia.
From S2P Require Import Prelude JsNumber JsString JsStringFacts JsCollection Json.
From S2P Require Import JsonFacts Nostr CryptoModel Platform IdentityStore.
Close Scope Q_scope.

Module BunkerStore.

Definition WRAP_KEY_ID : string := "wrap-key".
Definition CONNECTION_ID : string := "connection".

Definition get (id : string) : prog World (option BunkerValue) :=
  request (gets (λ w, bunker_db w !! id)).
Definition put (id : string) (v : BunkerValue) : prog World unit :=
  request (modify (set_bunker_db <[id := v]>)).
Definition remove (id : string) : prog World unit :=
  request (modify (set_bunker_db (delete id))).

(** [get<CryptoKey>(WRAP_KEY_ID)]; a value of another shape is refused by WebCrypto. *)
Definition get_key : prog World (option CryptoKey) :=
  v ← get WRAP_KEY_ID;
  match v with
  | Some (BkKey k) => mret (Some k)
  | Some (BkRecord _ _) => throw "TypeError"
  | None => mret None
  end.

Definition connection_to_json (c : StoredBunkerConnection) : json :=
  JObj [("clientSecretKey", JStr (btoa (str_of_bytes (clientSecretKey c))));
        ("bunkerPubkey", JStr (bunkerPubkey c));
        ("relays", JArr (map JStr (relays c)));
        ("secret", match secret c with Some s => JStr s | None => JNull end);
        ("expectedPubkey", JStr (expectedPubkey c))].

Definition encode (c : StoredBunkerConnection) : bytes :=
  utf8_encode (stringify (connection_to_json c)).

Definition secret_field (j : option json) : outcome (option string) :=
  match j with
  | Some JNull => Ok None
  | Some (JStr s) => Ok (Some s)
  | _ => Throw "TypeError"
  end.

Definition strings_field (j : option json) : outcome (list string) :=
  match j with
  | Some (JArr l) => Vault.typed (mapM as_str l)
  | _ => Throw "TypeError"
  end.

Definition decode (b : bytes) : outcome StoredBunkerConnection :=
  match parse (utf8_decode b) with
  | None => Throw "SyntaxError"
  | Some v =>
      key ← Vault.typed (str_field v "clientSecretKey");
      key ← Vault.b64decode key;
      pk ← Vault.typed (str_field v "bunkerPubkey");
      rs ← strings_field (field v "relays");
      s ← secret_field (field v "secret");
      ep ← Vault.typed (str_field v "expectedPubkey");
      Ok (mkConnection key pk rs s ep)
  end.

Section bunker.
Context `{Aes, Random}.

Definition wrapKey : prog World CryptoKey :=
  existing ← get_key;
  match existing with
  | Some k => mret k
  | None =>
      key ← generateKey false;
      _ ← put WRAP_KEY_ID (BkKey key);
      mret key
  end.

Definition saveBunkerConnection (value : StoredBunkerConnection) : prog World unit :=
  key ← wrapKey;
  iv ← getRandomValues 12;
  ciphertext ← subtle_encrypt key iv [] (encode value);
  put CONNECTION_ID (BkRecord iv ciphertext).

Definition loadBunkerConnection : prog World (option StoredBunkerConnection) :=
  try_catch
    (key ← get_key;
     record ← get CONNECTION_ID;
     match key, record with
     | Some key, Some (BkRecord iv ciphertext) =>
         plaintext ← subtle_decrypt key iv [] ciphertext;
         c ← lift_outcome (decode plaintext);
         mret (Some c)
     | Some key, Some (BkKey _) => throw "TypeError"
     | _, _ => mret None
     end)
    (λ _, mret None).

Definition clearBunkerConnection : prog World unit := remove CONNECTION_ID.

(** ** Round trip *)

Lemma connection_json_ok c : json_ok (connection_to_json c) = true.
Proof.
  unfold connection_to_json. cbn [json_ok].
  apply andb_true_iff. split; [reflexivity|]. simpl. rewrite !andb_true_iff. split_and!; try done.
  - by induction (relays c).
  - by destruct (secret c).
Qed.

Lemma mapM_strings l : mapM as_str (map JStr l) = Some l.
Proof. induction l as [|x l IH]; [done|]. simpl. by rewrite IH. Qed.

Lemma decode_encode c : decode (encode c) = Ok c.
Proof.
  unfold decode, encode. rewrite utf8_decode_encode, json_roundtrip by apply connection_json_ok.
  destruct c as [sk pk rs s ep]. unfold connection_to_json. json_fields.
  cbn [clientSecretKey bunkerPubkey relays secret expectedPubkey].
  unfold outcome_bind. cbn [Vault.typed].
  change (btoa (str_of_bytes sk)) with (Vault.b64encode sk).
  rewrite Vault.b64decode_encode. cbn [strings_field]. rewrite mapM_strings. by destruct s.
Qed.

(** The key and the record of the database, and the connection they hold. *)
Definition stored_key (db : gmap string BunkerValue) : option CryptoKey :=
  match db !! WRAP_KEY_ID with Some (BkKey k) => Some k | _ => None end.

Definition read_connection (db : gmap string BunkerValue) : option StoredBunkerConnection :=
  match stored_key db, db !! CONNECTION_ID with
  | Some k, Some (BkRecord iv c) =>
      p ← aes_decrypt (key_raw k) iv [] c;
      match decode p with Ok v => Some v | Throw _ => None end
  | _, _ => None
  end.

Lemma wp_get id Q E w :
  (∀ fs, (faults w = [] → fs = []) → Q (bunker_db w !! id) (set_faults fs w)) →
  (∀ fs, faults w ≠ [] → E storage_error (set_faults fs w)) →
  wp (get id) Q E w.
Proof. intros HQ HE. apply wp_request; [|done]. intros fs Hfs. by apply HQ. Qed.

Lemma wp_put id v Q E w :
  (∀ fs, Q tt (set_bunker_db <[id := v]> (set_faults fs w))) →
  (∀ fs, faults w ≠ [] → E storage_error (set_faults fs w)) →
  wp (put id v) Q E w.
Proof. intros HQ HE. apply wp_request; [|done]. intros fs Hfs. by apply HQ. Qed.

(** A connection is stored whole: afterwards it is what the database holds. *)
Lemma saveBunkerConnection_stored c w w' :
  saveBunkerConnection c w = (Ok tt, w') →
  read_connection (bunker_db w') = Some c.
Proof.
  intros Hrun.
  assert (∀ k w1, stored_key (bunker_db w1) = Some k →
    wp (iv ← getRandomValues 12; ciphertext ← subtle_encrypt k iv [] (encode c);
        put CONNECTION_ID (BkRecord iv ciphertext))
      (λ _ w', read_connection (bunker_db w') = Some c) (λ _ _, True) w1) as Hput.
  { intros k w1 Hk. rewrite wp_bind. unfold getRandomValues, draw. simpl.
    unfold wp at 1, mbind at 1, prog_bind at 1. simpl. rewrite wp_bind.
    unfold subtle_encrypt. rewrite wp_ret. apply wp_put; [|done]. intros fs. simpl.
    unfold read_connection, stored_key. rewrite lookup_insert_ne by done.
    unfold stored_key in Hk. rewrite Hk, lookup_insert_eq.
    erewrite (proj2 (aes_spec _ _ _ (encode c) _)) by reflexivity. simpl.
    by rewrite decode_encode. }
  assert (wp (saveBunkerConnection c) (λ _ w', read_connection (bunker_db w') = Some c)
    (λ _ _, True) w) as Hw; [|unfold wp in Hw; by rewrite Hrun in Hw].
  unfold saveBunkerConnection, wrapKey, get_key. rewrite !wp_bind. apply wp_get; [|done].
  intros fs _. destruct (bunker_db w !! WRAP_KEY_ID) as [[k|]|] eqn:E.
  - rewrite wp_ret. cbn beta iota. rewrite wp_ret. apply Hput. unfold stored_key. simpl. by rewrite E.
  - rewrite wp_throw. done.
  - rewrite wp_ret. cbn beta iota. rewrite wp_bind. apply wp_generateKey. intros k _ _.
    rewrite wp_bind. apply wp_put; [|done]. intros fs'. rewrite wp_ret. apply Hput.
    unfold stored_key. simpl. by rewrite lookup_insert_eq.
Qed.

Lemma set_faults_id w : faults w = [] → set_faults [] w = w.
Proof. intros <-. by destruct w. Qed.

Lemma loadBunkerConnection_ok w :
  faults w = [] → loadBunkerConnection w = (Ok (read_connection (bunker_db w)), w).
Proof.
  intros Hf.
  assert (wp loadBunkerConnection (λ v w', v = read_connection (bunker_db w) ∧ w' = w)
    (λ _ _, False) w) as Hw.
  { unfold loadBunkerConnection, get_key, read_connection, stored_key.
    rewrite wp_try_catch, !wp_bind. apply wp_get; [|done].
    intros fs Hfs. specialize (Hfs Hf). subst. rewrite set_faults_id by done.
    destruct (bunker_db w !! WRAP_KEY_ID) as [[k|]|]; wp_run; try done;
      (apply wp_get; [|done]); intros fs Hfs; specialize (Hfs Hf); subst;
      rewrite set_faults_id by done;
      destruct (bunker_db w !! CONNECTION_ID) as [[|iv c]|]; wp_run; try done.
    unfold subtle_decrypt. wp_run. destruct (aes_decrypt _ _ _ _); simpl; [|done].
    by destruct (decode _). }
  unfold wp in Hw. destruct (loadBunkerConnection w) as [[v|e] w']; [|done].
  by destruct Hw as [-> ->].
Qed.

End bunker.
End BunkerStore.
