(* ===== verification/Signer.v ===== *)
(** * The active signer: [services/signerService.ts]

    The service signs with one of three identities: the local key, a NIP-07 browser
    extension or a NIP-46 bunker.  Extension and bunker are outside the program:
    their calls are parameters ([Extension], [Bunkers]) that may return anything and
    may change the world in any way while they run (other tasks of the page run
    meanwhile), and a timer may fire before they answer ([timer_first]).  No theorem
    below assumes anything of them. *)

From Stdlib Require Import QArith Lia.
From S2P Require Import Prelude JsNumber JsString JsStringFacts JsCollection Json.
From S2P Require Import JsonFacts Nostr CryptoModel Platform IdentityStore NostrIdentity.
From S2P Require Import BunkerStore.
Close Scope Q_scope.

(** [new URL(s)] of the browser *)
Record Url : Type := mkUrl {
  href : string; protocol : string; username : string; password : string; port : string;
  hostname : string; pathname : string; hash : string; searchParams : list (string * string)
}.

Class UrlParser : Type := { parse_url : string → option Url }.

(** [window.nostr] *)
Record Nostr07Extension : Type := mkExtension {
  ext_getPublicKey : prog World string;
  ext_signEvent : EventTemplate → prog World Event;
  ext_nip44 : option ((string → string → prog World string) * (string → string → prog World string))
}.

Class Extension : Type := { nostr07Extension : option Nostr07Extension }.

(** [BunkerSigner] of [nostr-tools/nip46], by the connection it was made for *)
Class Bunkers : Type := {
  bk_connect : StoredBunkerConnection → prog World unit;
  bk_getPublicKey : StoredBunkerConnection → prog World string;
  bk_ping : StoredBunkerConnection → prog World unit;
  bk_signEvent : StoredBunkerConnection → EventTemplate → prog World Event;
  bk_nip44Encrypt : StoredBunkerConnection → string → string → prog World string;
  bk_nip44Decrypt : StoredBunkerConnection → string → string → prog World string;
  (* [signer.close()] and [pool.destroy()], whose errors are ignored *)
  bk_close : RemoteSession → World → World;
  (* whether the timer of a deadline fires before the answer *)
  timer_first : string → World → bool
}.

Module Signer.

Section signer.
Context `{Aes, Sha256, Random, NostrTools, UrlParser, Extension, Bunkers}.

Definition publish (next : ActiveIdentity) : prog World unit := modify (set_identity next).

Definition getActiveIdentity : prog World ActiveIdentity := gets identity.

(** The identity of the local key. *)
Definition publish_local : prog World unit :=
  kp ← NostrIdentity.getCachedKeypair;
  publish (mkIdentity Local (publicKey kp) Ready None None).

Definition initializeActiveSigner : prog World unit :=
  stored ← BunkerStore.loadBunkerConnection;
  match stored with
  | Some c => publish (mkIdentity Bunker (expectedPubkey c) Offline None None)
  | None => publish_local
  end.

Definition refreshLocalIdentity : prog World unit :=
  i ← getActiveIdentity;
  if bool_decide (ai_mode i = Local) then publish_local else mret tt.

Definition activateNip07Signer : prog World ActiveIdentity :=
  match nostr07Extension with
  | None => throw "NIP-07 extension is not available"
  | Some ext =>
      pubkey ← ext_getPublicKey ext;
      _ ← check (is_lower_hex64 pubkey) "NIP-07 extension returned an invalid identity";
      _ ← publish (mkIdentity Nip07 pubkey Ready None None);
      getActiveIdentity
  end.

(** ** Connection strings *)

Record BunkerPointer : Type := mkPointer {
  bp_pubkey : string; bp_relays : list string; bp_secret : option string
}.

(** [url.searchParams.getAll(key)] *)
Definition getAll (key : string) (u : Url) : list string :=
  map snd (List.filter (λ kv, String.eqb kv.1 key) (searchParams u)).

Definition parse_relay (s : string) : outcome string :=
  match parse_url s with Some u => Ok (href u) | None => Throw "Invalid URL" end.

Definition relay_ok (s : string) : outcome bool :=
  match parse_url s with
  | Some u => Ok (String.eqb (protocol u) "wss:" && negb (truthy (username u))
                  && negb (truthy (password u)))
  | None => Throw "Invalid URL"
  end.

Definition outcome_check (b : bool) (msg : string) : outcome unit :=
  if b then Ok tt else Throw msg.

Fixpoint check_relays (rs : list string) : outcome unit :=
  match rs with
  | [] => Ok tt
  | r :: rs =>
      ok ← relay_ok r;
      _ ← outcome_check ok "Bunker relays must use wss:// without credentials";
      check_relays rs
  end.

Definition unsupported_parts (u : Url) : bool :=
  truthy (username u) || truthy (password u) || truthy (port u)
  || (truthy (pathname u) && negb (String.eqb (pathname u) "/")) || truthy (hash u).

Definition known_param (key : string) : bool := String.eqb key "relay" || String.eqb key "secret".

Definition check_params (u : Url) : outcome unit :=
  match List.find (λ kv, negb (known_param kv.1)) (searchParams u) with
  | Some kv => Throw ("Bunker URI contains unsupported parameter: " +:+ kv.1)
  | None => Ok tt
  end.

Definition secret_too_long (s : option string) : bool :=
  match s with Some s => truthy s && (512 <? str_length s)%Z | None => false end.

Definition parsePointer (input : string) : outcome BunkerPointer :=
  _ ← outcome_check (negb ((2048 <? str_length input)%Z || negb (starts_with "bunker://" input)))
    "Enter a bunker:// connection URI";
  url ← match parse_url input with Some u => Ok u | None => Throw "Invalid URL" end;
  _ ← outcome_check (negb (unsupported_parts url)) "Bunker URI contains unsupported components";
  _ ← check_params url;
  _ ← outcome_check (length (getAll "secret" url) <=? 1)%nat
    "Bunker URI contains multiple secrets";
  let pubkey := toLowerCase (hostname url) in
  _ ← outcome_check (is_lower_hex64 pubkey) "Bunker transport key is invalid";
  relays ← Vault.outcome_mapM parse_relay (getAll "relay" url);
  let relays := set_of relays in
  _ ← outcome_check (negb ((length relays =? 0)%nat || (3 <? length relays)%nat))
    "Bunker URI must contain one to three relays";
  _ ← check_relays relays;
  let secret := head (getAll "secret" url) in
  _ ← outcome_check (negb (secret_too_long secret)) "Bunker secret is too long";
  Ok (mkPointer pubkey relays secret).

(** ** Remote sessions *)

(** [Promise.race] against a timer: when the timer wins, the answer is lost but
    what the call did is not. *)
Definition deadline {A} (m : prog World A) (label : string) : prog World A :=
  λ w, if timer_first label w then (Throw (label +:+ " timed out"), (m w).2) else m w.

Definition closeRemote : prog World unit :=
  current ← gets remote;
  _ ← modify (λ w, set_remote None (S (generation w)) w);
  match current with
  | None => mret tt
  | Some r => modify (bk_close r)
  end.

Definition same_session (g : nat) (r : option RemoteSession) : bool :=
  match r with Some r => (rs_generation r =? g)%nat | None => false end.

(** The [onauth] callback of the session of generation [g]. *)
Definition onauth (stored : StoredBunkerConnection) (g : nat) (raw : string) : prog World unit :=
  r ← gets remote;
  if negb (same_session g r) then mret tt
  else
    match parse_url raw with
    | Some url =>
        if negb (String.eqb (protocol url) "https:") then mret tt
        else
          _ ← modify (set_approval_url (Some (href url)));
          publish (mkIdentity Bunker (expectedPubkey stored) AuthorizationRequired
            (Some (href url)) None)
    | None => mret tt
    end.

Definition handshake (stored : StoredBunkerConnection) (g : nat) (persist : bool)
    : prog World ActiveIdentity :=
  _ ← deadline (bk_connect stored) "Remote signer connection";
  pubkey ← deadline (bk_getPublicKey stored) "Remote signer identity";
  _ ← check (is_lower_hex64 pubkey) "Remote signer returned an invalid identity";
  _ ← check (negb (truthy (expectedPubkey stored)
                   && negb (String.eqb (expectedPubkey stored) pubkey)))
    "Remote signer identity changed";
  _ ← deadline (bk_ping stored) "Remote signer ping";
  r ← gets remote;
  _ ← check (same_session g r) "Remote signer session changed";
  let connection := mkConnection (clientSecretKey stored) (bunkerPubkey stored)
    (relays stored) (secret stored) pubkey in
  _ ← (if persist then BunkerStore.saveBunkerConnection connection else mret tt);
  url ← gets approval_url;
  _ ← publish (mkIdentity Bunker pubkey Ready url None);
  getActiveIdentity.

Definition open (stored : StoredBunkerConnection) (persist : bool) : prog World ActiveIdentity :=
  _ ← closeRemote;
  _ ← publish (mkIdentity Bunker (expectedPubkey stored) Connecting None None);
  g ← gets generation;
  _ ← modify (λ w, set_approval_url None (set_remote (Some (mkRemote stored g)) g w));
  try_catch (handshake stored g persist)
    (λ message,
      _ ← closeRemote;
      url ← gets approval_url;
      _ ← publish (mkIdentity Bunker (expectedPubkey stored) Failed url (Some message));
      throw message).

Definition connectBunker (input : string) : prog World ActiveIdentity :=
  pointer ← lift_outcome (parsePointer (trim input));
  key ← new_secret_key;
  open (mkConnection key (bp_pubkey pointer) (bp_relays pointer) (bp_secret pointer) "") true.

Definition reconnectBunker : prog World ActiveIdentity :=
  stored ← BunkerStore.loadBunkerConnection;
  match stored with
  | None => throw "No remote signer connection is stored"
  | Some c => open c false
  end.

Definition disconnectBunker : prog World unit :=
  _ ← closeRemote;
  _ ← BunkerStore.clearBunkerConnection;
  publish_local.

(** ** Signing *)

Definition sameTemplate (t : EventTemplate) (e : Event) : bool :=
  num_eqb (kind e) (t_kind t) && num_eqb (created_at e) (t_created_at t)
  && String.eqb (content e) (t_content t)
  && String.eqb (stringify (tags_to_json (tags e))) (stringify (tags_to_json (t_tags t))).

(** [verifyEvent(event) && event.pubkey === active.pubkey && sameTemplate(...)] *)
Definition faithful (active : ActiveIdentity) (t : EventTemplate) (e : Event) : bool :=
  verifyEvent e && String.eqb (pubkey e) (ai_pubkey active) && sameTemplate t e.

Definition sign_local (t : EventTemplate) (sk : bytes) : prog World Event :=
  i ← draw;
  lift_outcome (match finalizeEvent i t sk with
                | Some e => Ok e | None => Throw "finalizeEvent" end).

#[local] Instance RemoteSession_eq_dec : EqDecision RemoteSession.
Proof.
  assert (EqDecision StoredBunkerConnection) by solve_decision. solve_decision.
Defined.

Definition signWithActiveIdentity (t : EventTemplate) : prog World Event :=
  active ← getActiveIdentity;
  match ai_mode active with
  | Local => kp ← NostrIdentity.getCachedKeypair; sign_local t (secretKey kp)
  | Nip07 =>
      match nostr07Extension with
      | None => throw "NIP-07 extension is unavailable"
      | Some ext =>
          event ← deadline (ext_signEvent ext t) "NIP-07 signing";
          _ ← check (faithful active t event) "NIP-07 extension altered the requested event";
          mret event
      end
  | Bunker =>
      r ← gets remote;
      match r with
      | None => throw "Remote signer is offline"
      | Some current =>
          _ ← check (bool_decide (ai_status active = Ready)) "Remote signer is offline";
          try_catch
            (event ← deadline (bk_signEvent (rs_connection current) t) "Remote signing";
             r ← gets remote;
             g ← gets generation;
             _ ← check (bool_decide (r = Some current) && (rs_generation current =? g)%nat)
               "Remote signer session changed";
             _ ← check (faithful active t event) "Remote signer altered the requested event";
             mret event)
            (λ message,
              _ ← closeRemote;
              _ ← publish (mkIdentity Bunker (ai_pubkey active) Failed None (Some message));
              throw message)
      end
  end.

(** ** The capability-based contract *)

Definition lift_option {A} (o : option A) (msg : string) : prog World A :=
  lift_outcome (match o with Some a => Ok a | None => Throw msg end).

Definition createLocalNostrSigner (sk : bytes) (publicKey : option string)
    : outcome (NostrSigner World) :=
  match match publicKey with Some pk => Some pk | None => getPublicKey sk end with
  | None => Throw "invalid secret key"
  | Some pk => Ok (mkSigner Local
      (mret pk)
      (λ t, sign_local t sk)
      (λ peer plaintext,
        key ← lift_option (getConversationKey sk peer) "conversation key";
        i ← draw; lift_option (nip44_encrypt i plaintext key) "nip44 encrypt")
      (λ peer ciphertext,
        key ← lift_option (getConversationKey sk peer) "conversation key";
        lift_option (nip44_decrypt ciphertext key) "nip44 decrypt"))
  end.

Definition localNostrSigner : prog World (NostrSigner World) :=
  kp ← NostrIdentity.getCachedKeypair;
  lift_outcome (createLocalNostrSigner (secretKey kp) (Some (publicKey kp))).

Definition bunkerNostrSigner : prog World (NostrSigner World) :=
  i ← getActiveIdentity;
  r ← gets remote;
  match r with
  | None => throw "Remote signer is offline"
  | Some r =>
      _ ← check (bool_decide (ai_status i = Ready)) "Remote signer is offline";
      let c := rs_connection r in
      mret (mkSigner Bunker (bk_getPublicKey c) (bk_signEvent c) (bk_nip44Encrypt c)
        (bk_nip44Decrypt c))
  end.

Definition nip07EncryptionAvailable : bool :=
  match nostr07Extension with
  | Some ext => bool_decide (is_Some (ext_nip44 ext))
  | None => false
  end.

Definition nip07NostrSigner (ext : Nostr07Extension) : NostrSigner World :=
  mkSigner Nip07 (ext_getPublicKey ext) (ext_signEvent ext)
    (λ peer plaintext, match ext_nip44 ext with
      | Some (enc, _) => enc peer plaintext
      | None => throw "NIP-07 extension does not support NIP-44" end)
    (λ peer ciphertext, match ext_nip44 ext with
      | Some (_, dec) => dec peer ciphertext
      | None => throw "NIP-07 extension does not support NIP-44" end).

Definition getNostrSigner : prog World (NostrSigner World) :=
  active ← getActiveIdentity;
  match ai_mode active with
  | Bunker => bunkerNostrSigner
  | Nip07 =>
      match nostr07Extension with
      | None => throw "NIP-07 extension is unavailable"
      | Some ext => mret (nip07NostrSigner ext)
      end
  | Local => localNostrSigner
  end.

Definition getNip07NostrSigner : option (NostrSigner World) :=
  nip07NostrSigner <$> nostr07Extension.

(** ** Facts *)

Lemma map_inj {A B} (f : A → B) : (∀ x y, f x = f y → x = y) → ∀ a b, map f a = map f b → a = b.
Proof.
  intros Hf. induction a as [|x a IH]; intros [|y b] Hab; try done. simpl in Hab.
  injection Hab as Hx Hab. f_equal; auto.
Qed.

Lemma stringify_tags_inj a b :
  stringify (tags_to_json a) = stringify (tags_to_json b) → a = b.
Proof.
  intros Heq. apply stringify_inj in Heq; [|apply tags_json_ok..]. injection Heq.
  apply map_inj. intros x y. intros [= Hxy]. revert Hxy. apply map_inj. by intros ?? [= ->].
Qed.

Lemma sameTemplate_spec t e : sameTemplate t e = true →
  num_eqb (kind e) (t_kind t) = true ∧ num_eqb (created_at e) (t_created_at t) = true ∧
  content e = t_content t ∧ tags e = t_tags t.
Proof.
  unfold sameTemplate. intros Hs. reflect_bools. split_and!; try done. by apply stringify_tags_inj.
Qed.

(** What is signed is what was asked. *)
Definition signs (t : EventTemplate) (e : Event) : Prop :=
  verifyEvent e = true ∧ num_eqb (kind e) (t_kind t) = true ∧
  num_eqb (created_at e) (t_created_at t) = true ∧ content e = t_content t ∧ tags e = t_tags t.

Lemma faithful_spec active t e :
  faithful active t e = true → signs t e ∧ pubkey e = ai_pubkey active.
Proof.
  unfold faithful. intros Hf. reflect_bools. split; [|done]. split; [done|].
  by apply sameTemplate_spec.
Qed.

Lemma wp_deadline {A} (m : prog World A) label (Q : A → World → Prop) E w :
  (∀ a w', Q a w') → (∀ e w', E e w') → wp (deadline m label) Q E w.
Proof.
  intros HQ HE. unfold wp, deadline. destruct (timer_first label w); [apply HE|].
  destruct (m w) as [[a|e] w']; auto.
Qed.

(** The local signature is made with the cached key. *)
Lemma wp_sign_local_keypair t sk w :
  wp (sign_local t sk) (λ e w', verifyEvent e = true ∧ template_of e = t ∧
    getPublicKey sk = Some (pubkey e) ∧ keypair w' = keypair w) (λ _ _, True) w.
Proof.
  unfold sign_local. rewrite wp_bind. unfold wp at 1, draw. rewrite wp_lift_outcome.
  destruct (finalizeEvent _ t sk) as [e|] eqn:E; [|done]. apply finalize_spec in E. naive_solver.
Qed.

Lemma wp_getCachedKeypair Q E w :
  (∀ kp w', keypair w' = Some kp → (∀ kp0, keypair w = Some kp0 → kp = kp0 ∧ w' = w) → Q kp w') →
  wp NostrIdentity.getCachedKeypair Q E w.
Proof.
  intros HQ. unfold NostrIdentity.getCachedKeypair. rewrite wp_bind, wp_gets.
  destruct (keypair w) as [kp|] eqn:Hk; [rewrite wp_ret; apply HQ; naive_solver|].
  unfold new_secret_key. rewrite !wp_bind. unfold wp at 1, draw. rewrite wp_ret.
  unfold NostrIdentity.cache_keypair, NostrIdentity.keypair_of.
  destruct (generated_valid (draws w)) as [pk ->].
  rewrite wp_bind, wp_lift_outcome, wp_bind, wp_modify, wp_ret. apply HQ; [done|]. intros kp0 Hkp0. done.
Qed.

Lemma wp_publish i (Q : unit → World → Prop) E w : Q tt (set_identity i w) → wp (publish i) Q E w.
Proof. done. Qed.

(** What a signature by the active identity of [w] is. *)
Definition signed_by_active (w : World) (t : EventTemplate) (e : Event) (w' : World) : Prop :=
  signs t e ∧
  match ai_mode (identity w) with
  | Local => ∃ kp, keypair w' = Some kp ∧ (∀ kp0, keypair w = Some kp0 → kp = kp0) ∧
      getPublicKey (secretKey kp) = Some (pubkey e)
  | _ => pubkey e = ai_pubkey (identity w)
  end.

Lemma wp_sign_active t w :
  is_finite (t_kind t) = true → is_finite (t_created_at t) = true →
  wp (signWithActiveIdentity t) (signed_by_active w t) (λ _ _, True) w.
Proof.
  intros Hk Hc. unfold signed_by_active.
  unfold signWithActiveIdentity, getActiveIdentity. rewrite wp_bind, wp_gets.
  destruct (ai_mode (identity w)).
  - rewrite wp_bind. apply wp_getCachedKeypair. intros kp w1 Hkp Hsame.
    eapply wp_mono; [apply wp_sign_local_keypair| |done].
    intros e1 w2 (Hver & <- & Hpk & Hk2). simpl in *. split.
    + split_and!; [done|by apply num_eqb_refl..|done|done].
    + exists kp. split_and!; [congruence| |done]. intros kp0 Hkp0. by destruct (Hsame kp0 Hkp0).
  - rewrite wp_bind, wp_gets. destruct (remote w) as [current|]; [|done].
    rewrite wp_bind, wp_check. case_match; [|done]. rewrite wp_try_catch.
    apply (wp_mono _ (λ e w', signs t e ∧ pubkey e = ai_pubkey (identity w)) _ (λ _ _, True));
      [|done|].
    + rewrite wp_bind. apply wp_deadline; [|done]. intros e1 w1.
      rewrite wp_bind, wp_gets, wp_bind, wp_gets, wp_bind, wp_check. case_match; [|done].
      rewrite wp_bind, wp_check. case_match eqn:Hf; [|done]. rewrite wp_ret.
      by apply faithful_spec.
    + intros m w1 _. unfold closeRemote. rewrite !wp_bind, wp_gets, !wp_bind, wp_modify.
      destruct (remote w1); rewrite ?wp_modify, ?wp_ret, wp_bind; apply wp_publish;
        by rewrite wp_throw.
  - destruct nostr07Extension as [ext|]; [|done]. rewrite wp_bind. apply wp_deadline; [|done].
    intros e1 w1. rewrite wp_bind, wp_check. case_match eqn:Hf; [|done]. rewrite wp_ret.
    by apply faithful_spec.
Qed.

(** C11: Whatever an extension, a bunker or a timer does, an event that
    [signWithActiveIdentity] returns verifies, carries exactly the requested kind,
    timestamp, tags and content, and is signed by the identity that was active: the
    local key in local mode, and otherwise the published public key.  The service
    never falls back to the local key. *)
Theorem sign_never_falls_back t w e w' :
  is_finite (t_kind t) = true → is_finite (t_created_at t) = true →
  signWithActiveIdentity t w = (Ok e, w') →
  signs t e ∧
  match ai_mode (identity w) with
  | Local => ∃ kp, keypair w' = Some kp ∧ (∀ kp0, keypair w = Some kp0 → kp = kp0) ∧
      getPublicKey (secretKey kp) = Some (pubkey e)
  | _ => pubkey e = ai_pubkey (identity w)
  end.
Proof. intros Hk Hc Hrun. exact (wp_ok _ _ _ _ _ _ Hrun (wp_sign_active t w Hk Hc)). Qed.

Lemma sign_offline t w :
  ai_mode (identity w) = Bunker → (remote w = None ∨ ai_status (identity w) ≠ Ready) →
  signWithActiveIdentity t w = (Throw "Remote signer is offline", w).
Proof.
  intros Hm Hoff. unfold signWithActiveIdentity, getActiveIdentity.
  rewrite (bind_ok _ _ w (identity w) w) by done. rewrite Hm.
  rewrite (bind_ok _ _ w (remote w) w) by done.
  destruct (remote w) as [r|]; [|done]. destruct Hoff as [|Hs]; [done|].
  unfold check. by rewrite bool_decide_eq_false_2.
Qed.

(** A bunker signature that fails never makes another identity active: the bunker
    was offline and nothing changed, or its session is closed and the same public key
    is published in the failed state with the error.  Either way every further
    signature is refused until the user reconnects. *)
Theorem bunker_failure_closes_session t w m w' t' :
  ai_mode (identity w) = Bunker → signWithActiveIdentity t w = (Throw m, w') →
  (w' = w ∨ identity w' = mkIdentity Bunker (ai_pubkey (identity w)) Failed None (Some m)) ∧
  signWithActiveIdentity t' w' = (Throw "Remote signer is offline", w').
Proof.
  intros Hm Hrun.
  assert ((w' = w ∧ (remote w = None ∨ ai_status (identity w) ≠ Ready)) ∨
    identity w' = mkIdentity Bunker (ai_pubkey (identity w)) Failed None (Some m)) as Hw.
  { destruct (remote w) as [r|] eqn:Hr;
      [|left; rewrite sign_offline in Hrun by (try done; by left); split; [congruence|by left]].
    destruct (decide (ai_status (identity w) = Ready)) as [Hs|Hs];
      [|left; rewrite sign_offline in Hrun by (try done; by right); split; [congruence|by right]].
    right. unfold signWithActiveIdentity, getActiveIdentity in Hrun.
    rewrite (bind_ok _ _ w (identity w) w) in Hrun by done. rewrite Hm in Hrun.
    rewrite (bind_ok _ _ w (remote w) w) in Hrun by done. rewrite Hr in Hrun.
    rewrite (bind_ok _ _ w tt w) in Hrun by (unfold check; by rewrite bool_decide_eq_true_2).
    revert Hrun. match goal with |- try_catch ?m ?h w = _ → _ =>
      generalize m; intros body end.
    unfold try_catch. destruct (body w) as [[e|m1] w1]; [done|].
    unfold closeRemote, mbind, prog_bind, gets, modify. simpl.
    destruct (remote w1); simpl; by intros [= <- <-]. }
  split; [naive_solver|]. destruct Hw as [[-> Hoff]|Hid].
  - by apply sign_offline.
  - apply sign_offline; rewrite Hid; [done|by right].
Qed.

(** ** Connecting *)

(** What a successful handshake has established. *)
Definition connected (stored : StoredBunkerConnection) (persist : bool) (i : ActiveIdentity)
    (w' : World) : Prop :=
  ai_mode i = Bunker ∧ ai_status i = Ready ∧ identity w' = i ∧
  is_lower_hex64 (ai_pubkey i) = true ∧
  (expectedPubkey stored = "" ∨ expectedPubkey stored = ai_pubkey i) ∧
  (persist = true → BunkerStore.read_connection (bunker_db w') =
    Some (mkConnection (clientSecretKey stored) (bunkerPubkey stored) (relays stored)
      (secret stored) (ai_pubkey i))).

(** The bunker of [stored], asked in the state [w0] of its session, connected, gave the public
    key [pk] and answered the ping, and the session was still the current one then. *)
Definition answered (stored : StoredBunkerConnection) (g : nat) (w0 : World) (pk : string) : Prop :=
  ∃ w1 w2 w3, bk_connect stored w0 = (Ok tt, w1) ∧ bk_getPublicKey stored w1 = (Ok pk, w2) ∧
    bk_ping stored w2 = (Ok tt, w3) ∧ same_session g (remote w3) = true.

Lemma wp_deadline_run {A} (m : prog World A) label (Q : A → World → Prop) E w :
  (∀ a w', m w = (Ok a, w') → Q a w') → (∀ e w', E e w') → wp (deadline m label) Q E w.
Proof.
  intros HQ HE. unfold wp, deadline. destruct (timer_first label w); [apply HE|].
  destruct (m w) as [[a|e] w'] eqn:Hm; [by apply HQ|apply HE].
Qed.

Lemma wp_handshake stored g persist w :
  wp (handshake stored g persist) (λ i w', answered stored g w (ai_pubkey i) ∧ connected stored persist i w')
    (λ _ _, True) w.
Proof.
  unfold handshake. rewrite wp_bind. apply wp_deadline_run; [|done]. intros [] w1 Hconn.
  rewrite wp_bind. apply wp_deadline_run; [|done]. intros pk w2 Hkey.
  rewrite wp_bind, wp_check. case_match eqn:Hpk; [|done].
  rewrite wp_bind, wp_check. case_match eqn:Hexp; [|done].
  rewrite wp_bind. apply wp_deadline_run; [|done]. intros [] w3 Hping.
  rewrite wp_bind, wp_gets, wp_bind, wp_check. case_match eqn:Hsame; [|done]. rewrite wp_bind.
  assert (answered stored g w pk) as Hans by by exists w1, w2, w3.
  assert (expectedPubkey stored = "" ∨ expectedPubkey stored = pk) as He.
  { apply negb_true_iff, andb_false_iff in Hexp as [Hx|Hx]; reflect_bools; [|by right].
    left. unfold truthy in Hx. by reflect_bools. }
  destruct persist.
  - match goal with |- wp ?m _ _ _ =>
      destruct (m w3) as [[[]|err] w4] eqn:Hsave; unfold wp at 1; rewrite Hsave; [|done] end.
    apply BunkerStore.saveBunkerConnection_stored in Hsave.
    rewrite wp_bind, wp_gets, wp_bind. apply wp_publish. unfold connected. by split_and!.
  - rewrite wp_ret, wp_bind, wp_gets, wp_bind. apply wp_publish. unfold connected. by split_and!.
Qed.

Lemma wp_closeRemote (Q : unit → World → Prop) E w : (∀ w', Q tt w') → wp closeRemote Q E w.
Proof.
  intros HQ. unfold closeRemote. rewrite !wp_bind, wp_gets, wp_bind, wp_modify.
  destruct (remote w); apply HQ.
Qed.

(** How an attempt to open a session ends: with the identity that the bunker gave in this
    session, well formed and the expected one if there is one, active and, if asked for,
    stored; or with the bunker as the active identity in the failed state. *)
Definition opened (stored : StoredBunkerConnection) (persist : bool) (o : outcome ActiveIdentity)
    (w' : World) : Prop :=
  match o with
  | Ok i => connected stored persist i w' ∧
      ∃ w0, remote w0 = Some (mkRemote stored (generation w0)) ∧
        identity w0 = mkIdentity Bunker (expectedPubkey stored) Connecting None None ∧
        answered stored (generation w0) w0 (ai_pubkey i)
  | Throw m => ∃ url, identity w' = mkIdentity Bunker (expectedPubkey stored) Failed url (Some m)
  end.

Lemma wp_open stored persist w :
  wp (open stored persist) (λ i, opened stored persist (Ok i)) (λ m, opened stored persist (Throw m)) w.
Proof.
  unfold open. rewrite wp_bind. apply wp_closeRemote. intros w1.
  rewrite wp_bind. apply wp_publish. rewrite wp_bind, wp_gets, wp_bind, wp_modify, wp_try_catch.
  eapply wp_mono; [apply wp_handshake| |].
  - intros i w2 [Hans Hconn]. split; [done|]. eexists. split_and!; [| |exact Hans]; done.
  - intros m w2 _. cbv beta. rewrite wp_bind. apply wp_closeRemote. intros w3.
    rewrite wp_bind, wp_gets, wp_bind. apply wp_publish. rewrite wp_throw. by eexists.
Qed.

(** Reading the stored connection changes the schedule of rejections only. *)
Lemma loadBunkerConnection_total w : ∃ c fs,
  BunkerStore.loadBunkerConnection w = (Ok c, set_faults fs w).
Proof.
  assert (wp BunkerStore.loadBunkerConnection (λ _ w', ∃ fs, w' = set_faults fs w) (λ _ _, False) w) as Hw.
  { unfold BunkerStore.loadBunkerConnection, BunkerStore.get_key.
    assert (w = set_faults (faults w) w) as Hid by by destruct w.
    assert (∀ fs fs', set_faults fs (set_faults fs' w) = set_faults fs w) as Hset by done.
    rewrite wp_try_catch, !wp_bind. apply BunkerStore.wp_get; [|by intros fs; exists fs].
    intros fs _. destruct (bunker_db w !! BunkerStore.WRAP_KEY_ID) as [[k|]|]; wp_run; try (by exists fs);
      (apply BunkerStore.wp_get; [|intros fs' _; rewrite Hset; by exists fs']); intros fs' _; rewrite !Hset; cbn [bunker_db set_faults];
      destruct (bunker_db w !! BunkerStore.CONNECTION_ID) as [[|iv ct]|]; wp_run; try (by exists fs').
    unfold subtle_decrypt. wp_run. destruct (aes_decrypt _ _ _ _); [|by exists fs'].
    wp_run. destruct (BunkerStore.decode _); wp_run; by exists fs'. }
  unfold wp in Hw. destruct (BunkerStore.loadBunkerConnection w) as [[c|e] w'] eqn:E; [|done].
  destruct Hw as [fs ->]. by exists c, fs.
Qed.

(** C12: Connecting to a bunker, for the first time or again, whatever storage, the bunker and
    the timers do.  If the call resolves, the bunker was asked in this very session, and
    the public key it gave is well formed, is the one it had when it was connected first,
    and is the active identity (and stored, the first time).  If it rejects, the bunker is
    the active identity in the failed state, so that nothing is signed with another key;
    but for a connection string that is not accepted, or when no connection can be read:
    then nothing has changed. *)
Theorem reconnect_checks_identity w :
  (∀ input o w', connectBunker input w = (o, w') →
    match parsePointer (trim input) with
    | Ok p => opened (mkConnection (generateSecretKey (draws w)) (bp_pubkey p) (bp_relays p) (bp_secret p) "") true o w'
    | Throw m => o = Throw m ∧ w' = w
    end) ∧
  (∀ o w', reconnectBunker w = (o, w') →
    match (BunkerStore.loadBunkerConnection w).1 with
    | Ok (Some c) => opened c false o w'
    | _ => (∃ m, o = Throw m) ∧ ∃ fs, w' = set_faults fs w
    end).
Proof.
  assert (∀ c persist w1 o w', open c persist w1 = (o, w') → opened c persist o w') as Hopen.
  { intros c persist w1 o w' Hrun. pose proof (wp_open c persist w1) as Hw. unfold wp in Hw.
    rewrite Hrun in Hw. by destruct o. }
  split.
  - intros input o w' Hrun. unfold connectBunker in Hrun. destruct (parsePointer (trim input)) as [p|m].
    + rewrite (bind_ok _ _ w p w) in Hrun by done.
      rewrite (bind_ok _ _ w (generateSecretKey (draws w)) (set_draws (S (draws w)) w)) in Hrun by done.
      by apply Hopen in Hrun.
    + rewrite (bind_err _ _ w m w) in Hrun by done. by injection Hrun as <- <-.
  - intros o w' Hrun. unfold reconnectBunker in Hrun.
    destruct (loadBunkerConnection_total w) as (c & fs & Hload). rewrite (bind_ok _ _ _ _ _ Hload) in Hrun.
    rewrite Hload. cbn [fst]. destruct c as [c|]; [by apply Hopen in Hrun|]. injection Hrun as <- <-. eauto.
Qed.

(** A bunker connection survives a reload: after [connectBunker] resolved with a
    public key, the next start publishes the same bunker identity, offline. *)
Theorem bunker_survives_reload input w i w' :
  connectBunker input w = (Ok i, w') → faults w' = [] →
  is_lower_hex64 (ai_pubkey i) = true ∧
  ∃ w'', initializeActiveSigner (NostrIdentity.reload w') = (Ok tt, w'') ∧
    identity w'' = mkIdentity Bunker (ai_pubkey i) Offline None None.
Proof.
  intros Hrun Hf. unfold connectBunker in Hrun.
  destruct (parsePointer (trim input)) as [p|e] eqn:Hp; [|done].
  rewrite (bind_ok _ _ w p w) in Hrun by done.
  rewrite (bind_ok _ _ w (generateSecretKey (draws w)) (set_draws (S (draws w)) w)) in Hrun by done.
  match type of Hrun with open ?c _ ?w1 = _ => pose proof (wp_open c true w1) as Hw end.
  unfold wp in Hw. rewrite Hrun in Hw. destruct Hw as [(_ & _ & _ & Hpk & _ & Hc) _].
  split; [done|]. specialize (Hc eq_refl). unfold initializeActiveSigner.
  erewrite bind_ok; [|by apply BunkerStore.loadBunkerConnection_ok].
  simpl. rewrite Hc. by eexists.
Qed.

Lemma check_relays_spec rs :
  check_relays rs = Ok tt →
  Forall (λ r, ∃ u, parse_url r = Some u ∧ protocol u = "wss:" ∧ username u = "" ∧ password u = "") rs.
Proof.
  induction rs as [|r rs IH]; [constructor|]. cbn [check_relays]. unfold mbind, outcome_bind, relay_ok.
  destruct (parse_url r) as [u|] eqn:Hu; [|done]. unfold outcome_check.
  destruct (String.eqb (protocol u) "wss:" && _ && _) eqn:Hok; [|done]. intros Hrs.
  constructor; [|by apply IH]. unfold truthy in Hok. reflect_bools. by exists u.
Qed.

(** A connection string that is accepted names a well-formed transport key, one to
    three distinct relays that are secure and carry no credentials, and a secret of
    at most 512 characters. *)
Theorem parsePointer_sound input p :
  parsePointer input = Ok p →
  is_lower_hex64 (bp_pubkey p) = true ∧ NoDup (bp_relays p) ∧
  1 <= length (bp_relays p) <= 3 ∧
  Forall (λ r, ∃ u, parse_url r = Some u ∧ protocol u = "wss:" ∧ username u = "" ∧ password u = "")
    (bp_relays p) ∧
  ∀ s, bp_secret p = Some s → (str_length s <= 512)%Z.
Proof.
  unfold parsePointer. unfold mbind, outcome_bind.
  destruct (outcome_check _ _); [|done].
  destruct (parse_url input) as [url|]; [|done].
  destruct (outcome_check (negb (unsupported_parts url)) _); [|done].
  destruct (check_params url); [|done]. destruct (outcome_check (_ <=? 1)%nat _); [|done].
  unfold outcome_check at 1. destruct (is_lower_hex64 _) eqn:Hpk; [|done].
  destruct (Vault.outcome_mapM _ _) as [rs|]; [|done].
  unfold outcome_check at 1. destruct (negb (_ || _)) eqn:Hlen; [|done].
  destruct (check_relays (set_of rs)) as [[]|] eqn:Hrs; [|done].
  unfold outcome_check. destruct (negb (secret_too_long _)) eqn:Hsec; [|done].
  intros [= <-]. simpl. reflect_bools. rewrite Nat.eqb_neq, Nat.ltb_ge in *.
  split_and!; [done|apply NoDup_set_of|lia|lia| |].
  - by apply check_relays_spec.
  - intros s Hs. rewrite Hs in Hsec. unfold secret_too_long, truthy in Hsec.
    destruct (String.eqb s "") eqn:E; [apply String.eqb_eq in E; by rewrite E|].
    simpl in Hsec. by apply Z.ltb_ge in Hsec.
Qed.

End signer.

(** ** Witnesses: a bunker that signs with its own key and is always in time *)

Definition remote_sk : bytes := to_bytes 32 4242.
Definition remote_pk : string := to_hex remote_sk.
Definition relay_url : string := "wss://relay.example/".
Definition bunker_uri : string := "bunker://" +:+ to_hex (to_bytes 32 99) +:+ "?relay=" +:+ relay_url.

#[local] Instance sample_urls : UrlParser :=
  {| parse_url s :=
       if String.eqb s relay_url then
         Some (mkUrl relay_url "wss:" "" "" "" "relay.example" "/" "" [])
       else if String.eqb s bunker_uri then
         Some (mkUrl bunker_uri "bunker:" "" "" "" (to_hex (to_bytes 32 99)) "" ""
           [("relay", relay_url)])
       else None |}.
#[local] Instance no_extension : Extension := {| nostr07Extension := None |}.
#[local] Instance sample_bunker : Bunkers :=
  {| bk_connect _ := mret tt; bk_getPublicKey _ := mret remote_pk; bk_ping _ := mret tt;
     bk_signEvent _ t := sign_local t remote_sk;
     bk_nip44Encrypt _ _ _ := throw "unused"; bk_nip44Decrypt _ _ _ := throw "unused";
     bk_close _ w := w; timer_first _ _ := false |}.

Definition sample_template : EventTemplate := mkTemplate (int 1) (int 1767225600) [["t"; "x"]] "hi".
Definition bunker_world : World := (connectBunker bunker_uri fresh_world).2.
Definition signed : outcome Event * World := signWithActiveIdentity sample_template bunker_world.
Definition signed_event : Event := match signed.1 with Ok e => e
  | Throw _ => mkEvent "" "" (int 0) (int 0) [] "" "" end.

Lemma sign_never_falls_back_witness :
  signs sample_template signed_event ∧ pubkey signed_event = ai_pubkey (identity bunker_world).
Proof.
  apply (sign_never_falls_back sample_template bunker_world signed_event signed.2).
  - reflexivity.
  - reflexivity.
  - vm_compute. reflexivity.
Defined.

Definition offline_world : World := set_identity (mkIdentity Bunker remote_pk Offline None None) fresh_world.

Lemma bunker_failure_closes_session_witness :
  (offline_world = offline_world ∨ identity offline_world =
    mkIdentity Bunker remote_pk Failed None (Some "Remote signer is offline")) ∧
  signWithActiveIdentity sample_template offline_world =
    (Throw "Remote signer is offline", offline_world).
Proof.
  apply (bunker_failure_closes_session sample_template offline_world "Remote signer is offline").
  - reflexivity.
  - vm_compute. reflexivity.
Defined.

Definition sample_connection : StoredBunkerConnection :=
  mkConnection (generateSecretKey 0) (to_hex (to_bytes 32 99)) [relay_url] None remote_pk.

Lemma reconnect_checks_identity_witness :
  opened sample_connection false (reconnectBunker bunker_world).1 (reconnectBunker bunker_world).2 ∧
  (reconnectBunker bunker_world).1 = Ok (mkIdentity Bunker remote_pk Ready None None).
Proof.
  assert ((BunkerStore.loadBunkerConnection bunker_world).1 = Ok (Some sample_connection)) as Hload
    by (vm_compute; reflexivity).
  split; [|vm_compute; reflexivity].
  pose proof (proj2 (reconnect_checks_identity bunker_world) (reconnectBunker bunker_world).1
    (reconnectBunker bunker_world).2 (surjective_pairing _)) as Hw.
  rewrite Hload in Hw. exact Hw.
Defined.

Lemma bunker_survives_reload_witness :
  is_lower_hex64 remote_pk = true ∧
  ∃ w'', initializeActiveSigner (NostrIdentity.reload bunker_world) = (Ok tt, w'') ∧
    identity w'' = mkIdentity Bunker remote_pk Offline None None.
Proof.
  apply (bunker_survives_reload bunker_uri fresh_world
    (mkIdentity Bunker remote_pk Ready None None) bunker_world).
  - vm_compute. reflexivity.
  - vm_compute. reflexivity.
Defined.

Lemma parsePointer_sound_witness :
  is_lower_hex64 (to_hex (to_bytes 32 99)) = true ∧ NoDup [relay_url] ∧
  1 <= length [relay_url] <= 3 ∧
  Forall (λ r, ∃ u, parse_url r = Some u ∧ protocol u = "wss:" ∧ username u = "" ∧ password u = "")
    [relay_url] ∧
  ∀ s, None = Some s → (str_length s <= 512)%Z.
Proof.
  apply (parsePointer_sound bunker_uri
    (mkPointer (to_hex (to_bytes 32 99)) [relay_url] None)).
  vm_compute. reflexivity.
Defined.

End Signer.
