(* ===== verification/CircleLocation.v ===== *)
(** * Encrypted locations: the location half of [services/e2eeService.ts]

    A location is signed by the active identity (kind 30080, with tags that bind it
    to a circle, a key epoch, an expiry and a nonce) and the signed event is
    encrypted under the circle key, with the circle and the epoch as additional
    data.  [Math.cos] is implementation-approximated, so it is a parameter. *)

From Stdlib Require Import QArith Lia.
From S2P Require Import Prelude JsNumber JsString JsStringFacts JsCollection Json.
From S2P Require Import JsonFacts Nostr CryptoModel Platform IdentityStore NostrIdentity.
From S2P Require Import CircleKeys BunkerStore Signer.
Close Scope Q_scope.

Class MathLib : Type := { math_cos : num → num; math_PI : num }.

Module CircleLocation.

Definition CIRCLE_LOCATION_EVENT_KIND : num := int 30080.
Definition LOCATION_AAD_PREFIX : string := "sentinelmesh:circle-location:v1".
Definition LOCATION_MAX_AGE_SECONDS : num := int 300.
Definition LOCATION_FUTURE_SKEW_SECONDS : num := int 30.

Inductive LocationPrecision : Type := Exact | Approximate.

#[export] Instance LocationPrecision_eq_dec : EqDecision LocationPrecision.
Proof. solve_decision. Defined.

Record CircleLocationContentV1 : Type := mkContent {
  lc_lat : num; lc_lng : num; lc_accuracy_m : num; lc_captured_at : num;
  lc_precision : LocationPrecision
}.

Record VerifiedCircleLocationV1 : Type := mkVerified {
  vl_content : CircleLocationContentV1;
  vl_pubkey : string;
  vl_event_id : string;
  vl_expires_at : num
}.

Definition locationAad (circleId : string) (keyEpoch : num) : bytes :=
  utf8_encode (LOCATION_AAD_PREFIX +:+ "|" +:+ circleId +:+ "|" +:+ num_to_string keyEpoch).

(** ** The session grid *)

(** The three elements of [new Uint32Array(3)] filled with random bytes. *)
Definition uint32 (b : bytes) (i : nat) : Z :=
  fold_right (λ c acc, (code c + 256 * acc)%Z) 0%Z (take 4 (drop (4 * i) b)).

Definition two32 : num := int 4294967296.

Definition make_grid `{MathLib} (lat : num) (random : bytes) : SessionGrid :=
  let cellM := int (250 + uint32 random 0 mod 251) in
  let referenceCos := num_max (math_cos (num_div (num_mul lat math_PI) (int 180))) (lit 1 100) in
  mkGrid cellM (num_div cellM (int 111320)) (num_div cellM (num_mul (int 111320) referenceCos))
    (num_div (int (uint32 random 1)) two32) (num_div (int (uint32 random 2)) two32).

(** [(Math.floor(x / step - offset) + offset + 0.5) * step] *)
Definition snap (x step offset : num) : num :=
  num_mul (num_add (num_add (num_floor (num_sub (num_div x step) offset)) offset) (lit 1 2)) step.

Definition on_grid (g : SessionGrid) (lat lng : num) : num * num * num :=
  (snap lat (g_latStep g) (g_latOffset g), snap lng (g_lngStep g) (g_lngOffset g), g_cellM g).

(** ** Validation of the content *)

Definition precision_name (p : LocationPrecision) : string :=
  match p with Exact => "exact" | Approximate => "approximate" end.

Definition precision_of (j : option json) : option LocationPrecision :=
  if CircleKeys.str_is j "exact" then Some Exact
  else if CircleKeys.str_is j "approximate" then Some Approximate else None.

Definition content_to_json (c : CircleLocationContentV1) : json :=
  JObj [("lat", JNum (lc_lat c)); ("lng", JNum (lc_lng c)); ("accuracy_m", JNum (lc_accuracy_m c));
        ("captured_at", JNum (lc_captured_at c)); ("precision", JStr (precision_name (lc_precision c)))].

(** [typeof x === 'number' && Number.isFinite(x) && lo <= x && x <= hi] *)
Definition in_range (lo hi x : num) : bool := is_finite x && num_le lo x && num_le x hi.

Definition expected_keys : string := "accuracy_m,captured_at,lat,lng,precision".

Definition validCoordinateContent (value : json) : option CircleLocationContentV1 :=
  match value with
  | JObj fs =>
      if String.eqb (str_join "," (sort_strings fs.*1)) expected_keys then
        lat ← num_field value "lat"; lng ← num_field value "lng";
        acc ← num_field value "accuracy_m"; cap ← num_field value "captured_at";
        p ← precision_of (field value "precision");
        if in_range (int (-90)) (int 90) lat && in_range (int (-180)) (int 180) lng
           && in_range (int 0) (int 100000) acc && is_safe_integer cap
        then Some (mkContent lat lng acc cap p) else None
      else None
  | _ => None
  end.

(** ** The tags of a location event *)

Definition tag_names : list string := ["circle"; "epoch"; "expires"; "nonce"].

(** The value of a tag of exactly two elements. *)
Definition pair_value (tag : option (list string)) : option string :=
  match tag with Some [_; v] => Some v | _ => None end.

Definition exactLocationTags (e : Event) (circleId : string) (keyEpoch : num) : option num :=
  if negb (length (tags e) =? 4)%nat then None
  else
    let expected := map_of (map (λ t, (head t, t)) (tags e)) in
    if negb (length expected =? 4)%nat
       || existsb (λ k, match k with Some n => negb (includes tag_names n) | None => true end)
            expected.*1
    then None
    else
      let get name := pair_value (map_get expected (Some name)) in
      circle ← get "circle"; epoch ← get "epoch"; expires ← get "expires"; nonce ← get "nonce";
      if String.eqb circle circleId && String.eqb epoch (num_to_string keyEpoch)
         && is_digits expires && is_uuid_like nonce
      then
        let expiresAt := number_of_digits expires in
        if is_safe_integer expiresAt then Some expiresAt else None
      else None.

Section location.
Context `{Aes, Sha256, Random, NostrTools, UrlParser, Extension, Bunkers, MathLib}.

Definition approximateLocationForSession (lat lng : num) : prog World (num * num * num) :=
  g ← gets session_grid;
  g ← match g with
      | Some g => mret g
      | None =>
          random ← getRandomValues 12;
          let g := make_grid lat random in
          _ ← modify (set_session_grid (Some g));
          mret g
      end;
  mret (on_grid g lat lng).

Definition encryptCircleLocationV1 (circleKey : CryptoKey) (circleId : string) (keyEpoch : num)
    (lat lng accuracy_m : num) (captured_at : option num) (precision : LocationPrecision)
    (expiresAt : num) : prog World string :=
  _ ← check (truthy circleId && is_safe_integer keyEpoch && negb (num_lt keyEpoch (int 1)))
    "Invalid circle location context";
  now ← now_seconds;
  let capturedAt := default (int now) captured_at in
  '(tlat, tlng, cell_m) ← match precision with
    | Approximate => approximateLocationForSession lat lng
    | Exact => mret (lat, lng, int 0)
    end;
  let content := mkContent tlat tlng
    (match precision with Approximate => num_max accuracy_m cell_m | Exact => accuracy_m end)
    capturedAt precision in
  _ ← check (bool_decide (is_Some (validCoordinateContent (content_to_json content)))
             && is_safe_integer expiresAt
             && negb (num_le expiresAt capturedAt)
             && negb (num_lt (num_add capturedAt LOCATION_MAX_AGE_SECONDS) expiresAt))
    "Invalid circle location payload";
  nonce ← randomUUID;
  event ← Signer.signWithActiveIdentity (mkTemplate CIRCLE_LOCATION_EVENT_KIND capturedAt
    [["circle"; circleId]; ["epoch"; num_to_string keyEpoch];
     ["expires"; num_to_string expiresAt]; ["nonce"; nonce]]
    (stringify (content_to_json content)));
  iv ← getRandomValues 12;
  ciphertext ← subtle_encrypt circleKey iv (locationAad circleId keyEpoch)
    (utf8_encode (stringify (event_to_json event)));
  mret (CircleKeys.encodeB64 iv ciphertext).

(** [catch { return null }] covers every failure below. *)
Definition decryptCircleLocationV1 (circleKey : CryptoKey) (ciphertextB64 circleId : string)
    (keyEpoch : num) (activeMemberPubkeys : list string) (now : num)
    : option VerifiedCircleLocationV1 :=
  '(iv, data) ← CircleKeys.decodeB64 ciphertextB64;
  plaintext ← aes_decrypt (key_raw circleKey) iv (locationAad circleId keyEpoch) data;
  event ← parse (utf8_decode plaintext) ≫= event_of_json;
  if negb (verifyEvent event) || negb (num_eqb (kind event) CIRCLE_LOCATION_EVENT_KIND)
     || num_lt (num_add now LOCATION_FUTURE_SKEW_SECONDS) (created_at event)
     || negb (includes activeMemberPubkeys (toLowerCase (pubkey event)))
  then None
  else
    expiresAt ← exactLocationTags event circleId keyEpoch;
    if num_le expiresAt now
       || num_lt (num_add (created_at event) LOCATION_MAX_AGE_SECONDS) expiresAt
    then None
    else
      content ← parse (content event) ≫= validCoordinateContent;
      if negb (num_eqb (lc_captured_at content) (created_at event))
         || num_lt (num_add now LOCATION_FUTURE_SKEW_SECONDS) (lc_captured_at content)
         || num_lt (lc_captured_at content) (num_sub now LOCATION_MAX_AGE_SECONDS)
      then None
      else Some (mkVerified content (pubkey event) (id event) expiresAt).

(** The protocol-0 location of the first version. *)
Definition encryptLocation (circleKey : CryptoKey) (lat lng : num) (iso_now : string)
    : prog World string :=
  iv ← getRandomValues 12;
  ciphertext ← subtle_encrypt circleKey iv []
    (utf8_encode (stringify (JObj [("lat", JNum lat); ("lng", JNum lng); ("ts", JStr iso_now)])));
  mret (CircleKeys.encodeB64 iv ciphertext).

Definition decryptLocation (circleKey : CryptoKey) (ciphertextB64 : string)
    : option (num * num * string) :=
  '(iv, data) ← CircleKeys.decodeB64 ciphertextB64;
  plain ← aes_decrypt (key_raw circleKey) iv [] data;
  v ← parse (utf8_decode plain);
  lat ← num_field v "lat"; lng ← num_field v "lng"; ts ← str_field v "ts";
  Some (lat, lng, ts).

(** ** Soundness *)

Lemma decodeB64_encode iv data :
  length iv = 12 → 16 <= length data → CircleKeys.decodeB64 (CircleKeys.encodeB64 iv data) = Some (iv, data).
Proof.
  intros Hiv Hd. unfold CircleKeys.decodeB64, CircleKeys.encodeB64. rewrite Vault.b64decode_encode.
  rewrite (proj2 (Nat.ltb_ge _ _)) by (rewrite length_app; lia).
  by rewrite take_app_length', drop_app_length'.
Qed.

Lemma validContent_spec v c :
  validCoordinateContent v = Some c →
  in_range (int (-90)) (int 90) (lc_lat c) = true ∧ in_range (int (-180)) (int 180) (lc_lng c) = true ∧
  in_range (int 0) (int 100000) (lc_accuracy_m c) = true ∧ is_safe_integer (lc_captured_at c) = true.
Proof.
  unfold validCoordinateContent. destruct v as [| | | | |fs]; try done.
  destruct (String.eqb _ _); [|done]. unfold mbind, option_bind.
  destruct (num_field _ "lat"); [|done]. destruct (num_field _ "lng"); [|done].
  destruct (num_field _ "accuracy_m"); [|done]. destruct (num_field _ "captured_at"); [|done].
  destruct (precision_of _); [|done]. case_match eqn:E; [|done]. intros [= <-]. simpl.
  by reflect_bools.
Qed.

(** The tags bind the event to the circle and the epoch. *)
Definition bound_to (e : Event) (circleId : string) (keyEpoch : num) : Prop :=
  ["circle"; circleId] ∈ tags e ∧ ["epoch"; num_to_string keyEpoch] ∈ tags e.

Lemma map_set_elem {K V} `{EqDecision K} (m : list (K * V)) k v kv :
  kv ∈ map_set m k v → kv ∈ m ∨ kv = (k, v).
Proof.
  induction m as [|[k' v'] m IH]; simpl; [set_solver|]. case_decide; set_solver.
Qed.

Lemma map_of_elem {K V} `{EqDecision K} (kvs m : list (K * V)) kv :
  kv ∈ fold_left (λ m kv, map_set m kv.1 kv.2) kvs m → kv ∈ m ∨ kv ∈ kvs.
Proof.
  revert m. induction kvs as [|[k v] kvs IH]; intros m; simpl; [by left|].
  intros Hkv. apply IH in Hkv as [Hkv|Hkv]; [|by right; right].
  apply map_set_elem in Hkv as [?| ->]; [by left|right; by left].
Qed.

Lemma pair_value_tag e name v :
  pair_value (map_get (map_of (map (λ t, (head t, t)) (tags e))) (Some name)) = Some v →
  [name; v] ∈ tags e.
Proof.
  destruct (map_get _ _) as [t|] eqn:Hget; [|done]. intros Hv.
  apply map_get_elem, map_of_elem in Hget as [Hget|Hget]; [by apply elem_of_nil in Hget|].
  apply list_elem_of_fmap_1 in Hget as (t' & [= Hn ->] & Ht).
  destruct t' as [|n [|v' [|]]]; try done. simpl in *. by simplify_eq.
Qed.

Lemma exactLocationTags_bound e c ep x : exactLocationTags e c ep = Some x → bound_to e c ep.
Proof.
  unfold exactLocationTags. case_match; [done|]. case_match; [done|].
  unfold mbind, option_bind.
  destruct (pair_value (map_get _ (Some "circle"))) as [circle|] eqn:Hc; [|done].
  destruct (pair_value (map_get _ (Some "epoch"))) as [epoch|] eqn:He; [|done].
  destruct (pair_value (map_get _ (Some "expires"))); [|done].
  destruct (pair_value (map_get _ (Some "nonce"))); [|done].
  case_match eqn:Hok; [|done]. intros _. reflect_bools. subst.
  split; by apply pair_value_tag.
Qed.

(** C10: A location is shown only if its ciphertext is an AES-GCM encryption under the
    circle's key, with this circle and epoch as additional data, of an event that
    verifies, is signed by an active member, is bound by its tags to this circle and
    epoch, is at most five minutes old and not expired, and holds coordinates in
    range. *)
Theorem decrypted_location_sound key ct c e roster now v :
  decryptCircleLocationV1 key ct c e roster now = Some v →
  ∃ iv plain ev,
    CircleKeys.decodeB64 ct = Some (iv, aes_encrypt (key_raw key) iv (locationAad c e) plain) ∧
    (parse (utf8_decode plain) ≫= event_of_json) = Some ev ∧
    verifyEvent ev = true ∧ num_eqb (kind ev) CIRCLE_LOCATION_EVENT_KIND = true ∧
    vl_pubkey v = pubkey ev ∧ vl_event_id v = id ev ∧ pubkey ev ∈ roster ∧ bound_to ev c e ∧
    num_eqb (lc_captured_at (vl_content v)) (created_at ev) = true ∧
    num_lt (lc_captured_at (vl_content v)) (num_sub now LOCATION_MAX_AGE_SECONDS) = false ∧
    num_le (vl_expires_at v) now = false ∧
    in_range (int (-90)) (int 90) (lc_lat (vl_content v)) = true ∧
    in_range (int (-180)) (int 180) (lc_lng (vl_content v)) = true.
Proof.
  unfold decryptCircleLocationV1. unfold mbind, option_bind.
  destruct (CircleKeys.decodeB64 ct) as [[iv data]|]; [|done].
  destruct (aes_decrypt _ _ _ data) as [plain|] eqn:Hdec; [|done]. apply aes_spec in Hdec as ->.
  destruct (match parse _ with Some x => event_of_json x | None => None end) as [ev|] eqn:Hev; [|done].
  destruct (negb (verifyEvent ev) || _ || _ || _) eqn:Hchk; [done|]. destruct (exactLocationTags ev c e) as [exp|] eqn:Htags; [|done].
  destruct (num_le exp now || _) eqn:Hexp; [done|].
  destruct (match parse (content ev) with Some x => validCoordinateContent x | None => None end)
    as [cnt|] eqn:Hcnt; [|done].
  destruct (negb (num_eqb (lc_captured_at cnt) _) || _ || _) eqn:Hfresh; [done|]. intros [= <-].
  destruct (parse (content ev)) as [cv|]; [|done].
  apply validContent_spec in Hcnt as (? & ? & _). apply exactLocationTags_bound in Htags.
  reflect_bools. exists iv, plain, ev. simpl.
  match goal with H : verifyEvent ev = true |- _ => pose proof (verify_form ev H) as [_ Hpk] end.
  match goal with H : includes _ _ = true |- _ => apply includes_spec in H end.
  rewrite lower_hex64_fixed in * by done. by split_and!.
Qed.

(** What is decrypted comes from the roster, at a time that is an integer. *)
Lemma decrypted_member key ct c e roster now v :
  decryptCircleLocationV1 key ct c e roster now = Some v →
  toLowerCase (vl_pubkey v) ∈ roster ∧ is_safe_integer (lc_captured_at (vl_content v)) = true.
Proof.
  unfold decryptCircleLocationV1. intros ([iv data] & _ & Hrun)%bind_Some.
  apply bind_Some in Hrun as (plain & _ & Hrun). apply bind_Some in Hrun as (ev & _ & Hrun).
  destruct (negb (verifyEvent ev) || _ || _ || _) eqn:Hchk; [done|].
  apply bind_Some in Hrun as (x & _ & Hrun). destruct (num_le x now || _); [done|].
  apply bind_Some in Hrun as (cnt & Hcnt & Hrun).
  destruct (negb (num_eqb (lc_captured_at cnt) _) || _ || _); [done|].
  injection Hrun as <-. apply bind_Some in Hcnt as (cv & _ & Hcnt%validContent_spec).
  destruct Hcnt as (_ & _ & _ & Hcap). reflect_bools. split; [by apply includes_spec|done].
Qed.

(** ** Completeness *)

Lemma content_json_ok c :
  num_ok (lc_lat c) = true → num_ok (lc_lng c) = true → num_ok (lc_accuracy_m c) = true →
  num_ok (lc_captured_at c) = true → json_ok (content_to_json c) = true.
Proof.
  intros H1' H2' H3' H4'. unfold content_to_json. cbn [json_ok].
  apply andb_true_iff. split; [reflexivity|]. cbn [forallb snd json_ok].
  by rewrite H1', H2', H3', H4'.
Qed.

Lemma validContent_to_json c c' : validCoordinateContent (content_to_json c) = Some c' → c' = c.
Proof.
  unfold validCoordinateContent, content_to_json.
  destruct (String.eqb _ _); [|done]. json_fields.
  destruct c as [lat lng acc cap p]. cbn [lc_lat lc_lng lc_accuracy_m lc_captured_at lc_precision].
  assert (precision_of (Some (JStr (precision_name p))) = Some p) as -> by by destruct p.
  destruct (_ && _); [|done]. by intros [= <-].
Qed.

Lemma exactLocationTags_created ev c e x nonce :
  tags ev = [["circle"; c]; ["epoch"; num_to_string e]; ["expires"; string_of_Z x]; ["nonce"; nonce]] →
  is_uuid_like nonce = true → (0 <= x)%Z → safe_Z x = true →
  exactLocationTags ev c e = Some (int x).
Proof.
  intros Ht Hn Hx Hs. unfold exactLocationTags. rewrite Ht. cbn [length map head].
  rewrite map_of_NoDup by (refine (bool_decide_eq_true_1 (NoDup _) _); vm_compute; done).
  cbn -[includes pair_value map_get string_of_Z num_to_string is_digits is_uuid_like].
  cbn [map_get]. decide_literals.
  cbn [pair_value]. unfold mbind, option_bind.
  rewrite !String.eqb_refl, string_of_Z_digits, Hn by done. cbn [andb].
  rewrite number_of_string_of_Z by done. by rewrite int_safe, Hs.
Qed.

(** The event a local identity signs. *)
Lemma sign_local_mode t w ev w' kp :
  ai_mode (identity w) = Local → keypair w = Some kp →
  Signer.signWithActiveIdentity t w = (Ok ev, w') →
  template_of ev = t ∧ getPublicKey (secretKey kp) = Some (pubkey ev) ∧ verifyEvent ev = true.
Proof.
  intros Hm Hk Hrun. unfold Signer.signWithActiveIdentity, Signer.getActiveIdentity in Hrun.
  rewrite (bind_ok _ _ w (identity w) w) in Hrun by done. rewrite Hm in Hrun.
  rewrite (bind_ok _ _ _ _ _ (CircleKeys.getCachedKeypair_cached kp w Hk)) in Hrun.
  pose proof (Signer.wp_sign_local_keypair t (secretKey kp) w) as Hw. unfold wp in Hw.
  rewrite Hrun in Hw. naive_solver.
Qed.

(** What a shared location is made of. *)
Lemma encrypt_exact_inv key c e lat lng acc t x w ct w' kp :
  ai_mode (identity w) = Local → keypair w = Some kp →
  encryptCircleLocationV1 key c e lat lng acc (Some (int t)) Exact (int x) w = (Ok ct, w') →
  let cnt := mkContent lat lng acc (int t) Exact in
  ∃ iv nonce ev, length iv = 12 ∧ is_uuid_like nonce = true ∧
    is_Some (validCoordinateContent (content_to_json cnt)) ∧ safe_Z x = true ∧
    template_of ev = mkTemplate CIRCLE_LOCATION_EVENT_KIND (int t)
      [["circle"; c]; ["epoch"; num_to_string e]; ["expires"; num_to_string (int x)];
       ["nonce"; nonce]] (stringify (content_to_json cnt)) ∧
    getPublicKey (secretKey kp) = Some (pubkey ev) ∧ verifyEvent ev = true ∧
    num_lt (num_add (int t) LOCATION_MAX_AGE_SECONDS) (int x) = false ∧
    ct = CircleKeys.encodeB64 iv (aes_encrypt (key_raw key) iv (locationAad c e)
      (utf8_encode (stringify (event_to_json ev)))).
Proof.
  intros Hm Hk Hrun. unfold encryptCircleLocationV1 in Hrun.
  run_inv Hrun. apply check_inv in Hrun0 as [_ ->].
  run_inv Hrun. injection Hrun0 as <- <-. simpl default in Hrun.
  run_inv Hrun. injection Hrun0 as <- <-.
  run_inv Hrun. apply check_inv in Hrun0 as [Hchk ->]. reflect_bools.
  run_inv Hrun. injection Hrun0 as <- <-.
  run_inv Hrun. apply (sign_local_mode _ _ _ _ kp) in Hrun0 as (Ht & Hpk & Hver); [|done..].
  run_inv Hrun. injection Hrun0 as <- <-. run_inv Hrun. injection Hrun0 as <- <-.
  injection Hrun as <- <-. rewrite int_safe in *.
  eexists _, _, _. split_and!; [apply random_length|apply random_uuid_form|done..].
Qed.

(** A member of the circle who holds its key reads the location that was shared:
    whatever the local identity encrypts for a circle and epoch decrypts, while it is
    fresh, to the same coordinates, accuracy and time, attributed to the sender. *)
Lemma location_roundtrip key c e lat lng acc t x w ct w' kp roster n :
  ai_mode (identity w) = Local → keypair w = Some kp →
  getPublicKey (secretKey kp) = Some (publicKey kp) → publicKey kp ∈ roster →
  num_ok lat = true → num_ok lng = true → num_ok acc = true →
  (0 <= t)%Z → (0 <= n)%Z → (t - 30 <= n < x)%Z → (n <= t + 300)%Z → safe_Z (x + 330) = true →
  encryptCircleLocationV1 key c e lat lng acc (Some (int t)) Exact (int x) w = (Ok ct, w') →
  ∃ event_id, decryptCircleLocationV1 key ct c e roster (int n) =
    Some (mkVerified (mkContent lat lng acc (int t) Exact) (publicKey kp) event_id (int x)).
Proof.
  intros Hm Hk Hpk Hroster Hlat Hlng Hacc Ht Hn0 Hn Hn' Hs Hrun.
  apply (encrypt_exact_inv _ _ _ _ _ _ _ _ _ _ _ kp) in Hrun; [|done..].
  destruct Hrun as (iv & nonce & ev & Hiv & Hnonce & [cnt' Hvalid] & Hx & Htpl & Hpub & Hver & Hage & ->).
  set (cnt := mkContent lat lng acc (int t) Exact) in *.
  pose proof (validContent_to_json _ _ Hvalid) as ->.
  assert (pubkey ev = publicKey kp) as Hpub' by congruence.
  assert (kind ev = CIRCLE_LOCATION_EVENT_KIND ∧ created_at ev = int t ∧
    content ev = stringify (content_to_json cnt) ∧
    tags ev = [["circle"; c]; ["epoch"; num_to_string e]; ["expires"; string_of_Z x]; ["nonce"; nonce]])
    as (Hkind & Hcr & Hct & Htags).
  { rewrite <-CircleKeys.num_to_string_int by done. destruct ev. unfold template_of in Htpl.
    simpl in *. by simplify_eq. }
  assert (safe_Z t = true ∧ safe_Z (t + 300) = true ∧ safe_Z (n + 30) = true ∧ safe_Z (n - 300) = true)
    as (Hst & Hst' & Hsn & Hsn') by (unfold safe_Z, max_safe in *; lia).
  exists (id ev). unfold decryptCircleLocationV1. unfold mbind, option_bind.
  rewrite decodeB64_encode by (rewrite ?aes_length; lia || done).
  rewrite (proj2 (aes_spec _ _ _ _ _) eq_refl), utf8_decode_encode.
  rewrite json_roundtrip by
    (apply event_json_ok; unfold event_num_ok; rewrite Hkind, Hcr, (num_ok_int t) by done;
     vm_compute; reflexivity).
  rewrite event_of_to_json, Hver, Hkind, Hcr, Hpub'. unfold LOCATION_FUTURE_SKEW_SECONDS,
    LOCATION_MAX_AGE_SECONDS in *.
  rewrite lower_hex64_fixed by (by eapply public_key_form). rewrite (proj2 (includes_spec _ _)) by done.
  rewrite int_add, int_lt in * by done.
  replace (n + 30 <? t)%Z with false by (symmetry; apply Z.ltb_ge; lia).
  replace (num_eqb CIRCLE_LOCATION_EVENT_KIND CIRCLE_LOCATION_EVENT_KIND) with true by reflexivity.
  cbn [orb negb].
  rewrite (exactLocationTags_created _ c e x nonce) by (done || lia).
  rewrite int_le, int_add, int_lt, Hage by done.
  replace (x <=? n)%Z with false by (symmetry; apply Z.leb_gt; lia). cbn [orb negb].
  rewrite Hct, json_roundtrip by (apply content_json_ok; try done; by apply num_ok_int).
  rewrite Hvalid. cbn [lc_captured_at cnt]. rewrite int_eqb, Z.eqb_refl, int_sub, ?int_add, !int_lt by done.
  replace (n + 30 <? t)%Z with false by (symmetry; apply Z.ltb_ge; lia).
  replace (t <? n - 300)%Z with false by (symmetry; apply Z.ltb_ge; lia). done.
Qed.

End location.

(** ** Witnesses *)

#[local] Existing Instances Signer.sample_urls Signer.no_extension Signer.sample_bunker.
#[local] Instance flat_earth : MathLib := {| math_cos _ := int 1; math_PI := lit 314159 100000 |}.

Definition circle_key : CryptoKey := mkKey (to_bytes 32 5) false.
Definition shared : outcome string * World :=
  encryptCircleLocationV1 circle_key "c1" (int 1) (lit (-129) 100) (lit 3682 100) (int 25)
    (Some (int 1767225600)) Exact (int 1767225900) CircleKeys.owner_world.
Definition shared_text : string := match shared.1 with Ok ct => ct | Throw _ => "" end.
Definition members : list string := [publicKey CircleKeys.owner; publicKey CircleKeys.member].
Definition seen : option VerifiedCircleLocationV1 :=
  decryptCircleLocationV1 circle_key shared_text "c1" (int 1) members (int 1767225660).
Definition sample_content : CircleLocationContentV1 :=
  mkContent (lit (-129) 100) (lit 3682 100) (int 25) (int 1767225600) Exact.
Definition sample_seen : VerifiedCircleLocationV1 :=
  mkVerified sample_content (publicKey CircleKeys.owner)
    (from_option vl_event_id "" seen) (int 1767225900).

Lemma location_roundtrip_witness :
  ∃ event_id, seen = Some (mkVerified sample_content (publicKey CircleKeys.owner) event_id
    (int 1767225900)).
Proof.
  unfold seen, sample_content. apply (location_roundtrip circle_key "c1" (int 1) (lit (-129) 100) (lit 3682 100) (int 25)
    1767225600 1767225900 CircleKeys.owner_world shared_text shared.2 CircleKeys.owner members
    1767225660).
  - reflexivity.
  - reflexivity.
  - vm_compute. reflexivity.
  - left.
  - vm_compute. reflexivity.
  - vm_compute. reflexivity.
  - vm_compute. reflexivity.
  - lia.
  - lia.
  - lia.
  - lia.
  - vm_compute. reflexivity.
  - vm_compute. reflexivity.
Defined.

Lemma decrypted_location_sound_witness :
  ∃ iv plain ev,
    CircleKeys.decodeB64 shared_text =
      Some (iv, aes_encrypt (key_raw circle_key) iv (locationAad "c1" (int 1)) plain) ∧
    (parse (utf8_decode plain) ≫= event_of_json) = Some ev ∧
    verifyEvent ev = true ∧ num_eqb (kind ev) CIRCLE_LOCATION_EVENT_KIND = true ∧
    vl_pubkey sample_seen = pubkey ev ∧ vl_event_id sample_seen = id ev ∧ pubkey ev ∈ members ∧
    bound_to ev "c1" (int 1) ∧
    num_eqb (lc_captured_at (vl_content sample_seen)) (created_at ev) = true ∧
    num_lt (lc_captured_at (vl_content sample_seen))
      (num_sub (int 1767225660) LOCATION_MAX_AGE_SECONDS) = false ∧
    num_le (vl_expires_at sample_seen) (int 1767225660) = false ∧
    in_range (int (-90)) (int 90) (lc_lat (vl_content sample_seen)) = true ∧
    in_range (int (-180)) (int 180) (lc_lng (vl_content sample_seen)) = true.
Proof.
  apply (decrypted_location_sound circle_key shared_text "c1" (int 1) members (int 1767225660)).
  vm_compute. reflexivity.
Defined.

End CircleLocation.
