(* ===== verification/NostrAuth.v ===== *)
(** * Signed requests and bindings: the signing half of [services/nostrService.ts]

    NIP-98 authorisation events, the canonical strings that bind a signature to a
    report, a vote or a vouch, and the events that carry them. *)

From Stdlib Require Import QArith Qround Lia Ascii.
From S2P Require Import Prelude JsNumber JsString JsStringFacts JsCollection Json.
From S2P Require Import JsonFacts Nostr CryptoModel Platform IdentityStore NostrIdentity.
From S2P Require Import CircleKeys BunkerStore Signer CircleLocation.
Close Scope Q_scope.

Module NostrAuth.

Section auth.
Context `{Aes, Sha256, Random, NostrTools, UrlParser, Extension, Bunkers}.

(** [hasNip07()]: [window.nostr] exists, usable or not. *)
Definition hasNip07 (window_nostr : option (prog World string)) : bool :=
  bool_decide (is_Some window_nostr).

Definition signEventAsync (t : EventTemplate) : prog World Event :=
  Signer.signWithActiveIdentity t.

Definition auth_kind : num := int 27235.

Definition signAuthEvent : prog World Event :=
  now ← now_seconds; signEventAsync (mkTemplate auth_kind (int now) [] "").

(** [[['u', url], ['method', method], ['nonce', ...]]] and the payload tag, if any *)
Definition nip98_tags (url method nonce : string) (payloadHash : option string)
    : list (list string) :=
  [["u"; url]; ["method"; method]; ["nonce"; nonce]] ++
  match payloadHash with
  | Some h => if truthy h then [["payload"; h]] else []
  | None => []
  end.

Definition signNip98AuthEvent (url method : string) (payloadHash : option string)
    : prog World Event :=
  nonce ← randomUUID;
  now ← now_seconds;
  signEventAsync (mkTemplate auth_kind (int now) (nip98_tags url method nonce payloadHash) "").

Definition signLocalNip98AuthEvent (url method : string) (payloadHash : option string)
    : prog World Event :=
  nonce ← randomUUID;
  now ← now_seconds;
  kp ← NostrIdentity.getCachedKeypair;
  Signer.sign_local (mkTemplate auth_kind (int now) (nip98_tags url method nonce payloadHash) "")
    (secretKey kp).

Definition signBoundEvent (content : string) : prog World Event :=
  now ← now_seconds; signEventAsync (mkTemplate (int 30078) (int now) [] content).

Definition sha256Hex (input : string) : string := to_hex (sha256 (utf8_encode input)).

Definition getPublicKeyAsync (window_nostr : option (prog World string)) : prog World string :=
  match window_nostr with
  | Some ext_getPublicKey => ext_getPublicKey
  | None => kp ← NostrIdentity.getCachedKeypair; mret (publicKey kp)
  end.

Definition signReport (content : string) (sk : bytes) : prog World Event :=
  now ← now_seconds;
  Signer.sign_local (mkTemplate (int 30078) (int now) [["d"; "sentinel-report"]] content) sk.

(** ** Canonical bindings *)

Definition reportBindingContent (reportType : string) (lat lng : num) (description : option string)
    : string :=
  "r1|" +:+ reportType +:+ "|" +:+ to_fixed 6 lat +:+ "|" +:+ to_fixed 6 lng +:+ "|" +:+
  default "" description.

Definition voteBindingContent (vote reportId : string) : string :=
  "v1|" +:+ vote +:+ "|" +:+ reportId.

Definition vouchBindingContent (voucheePubkey : string) : string :=
  "sentinelmesh:vouch:v1:" +:+ voucheePubkey.

Definition vouchRevokeBindingContent (voucheePubkey : string) : string :=
  "sentinelmesh:vouch-revoke:v1:" +:+ voucheePubkey.

(** ** Facts *)

Definition not_bar (c : ascii) : bool := negb (code c =? 124)%Z.
Definition no_bar (s : string) : bool := str_forallb not_bar s.

Lemma split_bar a a' b b' :
  no_bar a = true → no_bar a' = true → a +:+ "|" +:+ b = a' +:+ "|" +:+ b' → a = a' ∧ b = b'.
Proof.
  revert a'. induction a as [|c a IH]; intros [|c' a'] Ha Ha'; rewrite ?str_app_cons.
  - intros Hb. split; [done|]. by apply (str_app_inj "|").
  - change ("" +:+ "|" +:+ b) with (String "|"%char b). intros [= <- _]. done.
  - change ("" +:+ "|" +:+ b') with (String "|"%char b'). intros [= -> _]. done.
  - intros Hab. injection Hab as Hc Hab. subst c'.
    unfold no_bar in Ha, Ha'. cbn [str_forallb] in Ha, Ha'.
    apply andb_true_iff in Ha as [_ Ha]. apply andb_true_iff in Ha' as [_ Ha'].
    by destruct (IH a' Ha Ha' Hab) as [-> ->].
Qed.

Lemma forallb_app p (s t : string) : str_forallb p (s +:+ t) = str_forallb p s && str_forallb p t.
Proof.
  induction s as [|c s IH]; [done|]. rewrite str_app_cons. cbn [str_forallb].
  by rewrite IH, andb_assoc.
Qed.

Lemma forallb_take p n s : str_forallb p s = true → str_forallb p (str_take n s) = true.
Proof.
  revert s. induction n as [|n IH]; intros [|c s]; try done. cbn [str_forallb str_take].
  intros [Hc Hs]%andb_true_iff. rewrite Hc. by apply IH.
Qed.

Lemma forallb_drop p n s : str_forallb p s = true → str_forallb p (str_drop n s) = true.
Proof.
  revert s. induction n as [|n IH]; intros [|c s]; try done. cbn [str_forallb str_drop].
  intros [Hc Hs]%andb_true_iff. by apply IH.
Qed.

Lemma zeros_no_bar n s : no_bar s = true → no_bar (zeros n s) = true.
Proof. intros Hs. induction n as [|n IH]; [done|]. apply IH. Qed.

Lemma digits_no_bar n : (0 <= n)%Z → no_bar (string_of_Z n) = true.
Proof.
  intros Hn. pose proof (string_of_Z_digits n Hn) as Hd. unfold is_digits in Hd.
  apply andb_true_iff in Hd as [_ Hd]. revert Hd. apply str_forallb_impl. intros c.
  unfold is_digit, between, not_bar. rewrite andb_true_iff, negb_true_iff, !Z.leb_le, Z.eqb_neq. lia.
Qed.

(** A coordinate printed with six decimals has no separator in it. *)
Lemma to_fixed_no_bar x : no_bar (to_fixed 6 x) = true.
Proof.
  destruct x as [|[]|q]; [done..|]. unfold to_fixed.
  set (a := if Qle_bool 0 q then q else Qopp q).
  assert (0 <= Qfloor (a * inject_Z (10 ^ Z.of_nat 6) + (1 # 2)))%Z as Hn.
  { change 0%Z with (Qfloor 0). apply Qfloor_resp_le.
    assert (0 <= a)%Q as Ha.
    { subst a. destruct (Qle_bool 0 q) eqn:E; [by apply Qle_bool_iff|].
      destruct (Qlt_le_dec q 0) as [Hq|Hq].
      - apply Qlt_le_weak in Hq. apply Qopp_le_compat in Hq. exact Hq.
      - apply Qle_bool_iff in Hq. congruence. }
    assert (0 <= a * inject_Z (10 ^ Z.of_nat 6))%Q as Hm.
    { apply Qmult_le_0_compat; [done|]. vm_compute. discriminate. }
    apply (Qle_trans _ (a * inject_Z (10 ^ Z.of_nat 6) + 0)); [by rewrite Qplus_0_r|].
    apply Qplus_le_r. vm_compute. discriminate. }
  apply digits_no_bar in Hn. set (ds := string_of_Z _) in *. clearbody ds. clear -Hn.
  apply (zeros_no_bar (7 - String.length ds)) in Hn. set (z := zeros _ ds) in *.
  unfold no_bar, with_point in *. rewrite !forallb_app. rewrite !andb_true_iff. split_and!.
  - by destruct (Qle_bool 0 q).
  - by apply forallb_take.
  - done.
  - by apply forallb_drop.
Qed.

(** The string a report's signature covers determines the report: two reports with
    the same binding have the same type, the same coordinates to six decimals and the
    same description; and no binding of a report is the binding of a vote. *)
Theorem report_binding_injective t1 la1 ln1 d1 t2 la2 ln2 d2 vote rid :
  no_bar t1 = true → no_bar t2 = true →
  (reportBindingContent t1 la1 ln1 d1 = reportBindingContent t2 la2 ln2 d2 →
   t1 = t2 ∧ to_fixed 6 la1 = to_fixed 6 la2 ∧ to_fixed 6 ln1 = to_fixed 6 ln2 ∧
   default "" d1 = default "" d2) ∧
  reportBindingContent t1 la1 ln1 d1 ≠ voteBindingContent vote rid.
Proof.
  intros H1' H2'. split; [|done]. unfold reportBindingContent. intros Heq.
  apply str_app_inj in Heq. apply split_bar in Heq as [-> Heq]; [|done..].
  apply split_bar in Heq as [Hlat Heq]; [|apply to_fixed_no_bar..].
  apply split_bar in Heq as [Hlng Heq]; [|apply to_fixed_no_bar..]. by split_and!.
Qed.

Lemma report_binding_injective_witness :
  (reportBindingContent "flood" (lit 1 10) (int 2) None =
     reportBindingContent "flood" (lit 1 10) (int 2) (Some "") →
   "flood" = "flood" ∧ to_fixed 6 (lit 1 10) = to_fixed 6 (lit 1 10) ∧
   to_fixed 6 (int 2) = to_fixed 6 (int 2) ∧ "" = "") ∧
  reportBindingContent "flood" (lit 1 10) (int 2) None ≠ voteBindingContent "confirm" "r".
Proof.
  apply (report_binding_injective "flood" (lit 1 10) (int 2) None "flood" (lit 1 10) (int 2) (Some "")
    "confirm" "r"); reflexivity.
Defined.

End auth.
End NostrAuth.
