(* ===== verification/EventsSlice.v ===== *)
(** * The event store: [store/eventsSlice.ts] and [lib/trust.ts]

    The slice keeps every event received, newest first, and the ids visible in
    the map viewport.  Its reducers are functions on [EventsState]; [dispatch] runs
    one action and [reachable] is the set of states the store can be in. *)

From Stdlib Require Import Lia.
From S2P Require Import Prelude JsNumber JsString JsStringFacts JsCollection Json SharedTypes.

Module Events.

Record EventsState : Type := mkEventsState {
  items : list SafetyEvent;
  viewportIds : list string;
  connected : bool;
  initialized : bool;
  error : option string
}.

Definition initialState : EventsState := mkEventsState [] [] false false None.

Definition set_items (f : list SafetyEvent → list SafetyEvent) (s : EventsState) : EventsState :=
  mkEventsState (f (items s)) (viewportIds s) (connected s) (initialized s) (error s).
Definition set_viewportIds (ids : list string) (s : EventsState) : EventsState :=
  mkEventsState (items s) ids (connected s) (initialized s) (error s).

(** The value of a property after [merged[key] = value] for a defined [value]. *)
Definition over {A} (incoming current : option A) : option A :=
  match incoming with Some _ => incoming | None => current end.

Definition mergeEvent (current : option SafetyEvent) (incoming : SafetyEvent) : SafetyEvent :=
  match current with
  | None => incoming
  | Some c => mkSafetyEvent
      (ev_id incoming) (ev_event_type incoming) (ev_severity incoming) (ev_title incoming)
      (over (ev_summary incoming) (ev_summary c))
      (ev_lat incoming) (ev_lng incoming)
      (over (ev_place_name incoming) (ev_place_name c))
      (over (ev_county incoming) (ev_county c))
      (ev_is_active incoming) (ev_state incoming)
      (ev_started_at incoming) (ev_created_at incoming)
      (over (ev_updated_at incoming) (ev_updated_at c))
      (over (ev_radius_meters incoming) (ev_radius_meters c))
      (over (ev_confidence incoming) (ev_confidence c))
      (over (ev_source_count incoming) (ev_source_count c))
      (over (ev_source_breakdown incoming) (ev_source_breakdown c))
      (over (ev_nostr_event_id incoming) (ev_nostr_event_id c))
      (over (ev_trust_state incoming) (ev_trust_state c))
      (over (ev_origin_class incoming) (ev_origin_class c))
  end.

(** [current.updated_at && event.updated_at && event.updated_at < current.updated_at] *)
Definition stale (current event : SafetyEvent) : bool :=
  match ev_updated_at current, ev_updated_at event with
  | Some c, Some e => truthy c && truthy e && str_lt e c
  | _, _ => false
  end.

Definition has_id (id : string) (e : SafetyEvent) : bool := String.eqb (ev_id e) id.

(** [items.find(e => e.id === id)] *)
Definition find_event (id : string) (l : list SafetyEvent) : option SafetyEvent :=
  i ← find_index (has_id id) l; l !! i.

Definition upsert_items (l : list SafetyEvent) (event : SafetyEvent) : list SafetyEvent :=
  match find_index (has_id (ev_id event)) l with
  | Some idx =>
      match l !! idx with
      | Some current =>
          if stale current event then l else <[idx := mergeEvent (Some current) event]> l
      | None => l
      end
  | None => event :: l
  end.

Definition upsert (s : EventsState) (event : SafetyEvent) : EventsState :=
  set_items (λ l, upsert_items l event) s.

Definition eventReceived (s : EventsState) (e : SafetyEvent) : EventsState := upsert s e.

Definition hydrate_one (s : EventsState) (event : SafetyEvent) : EventsState :=
  upsert s (match find_event (ev_id event) (items s) with
            | Some current => mergeEvent (Some event) current
            | None => event
            end).

Definition eventsHydrated (s : EventsState) (payload : list SafetyEvent) : EventsState :=
  let s := fold_left hydrate_one payload s in
  mkEventsState (items s) (viewportIds s) (connected s) true None.

Definition eventsHydrationFailed (s : EventsState) (msg : string) : EventsState :=
  mkEventsState (items s) (viewportIds s) (connected s) true (Some msg).

Definition viewportEventsSet (s : EventsState) (payload : list SafetyEvent) : EventsState :=
  set_viewportIds (set_of (map ev_id payload)) (fold_left upsert payload s).

Definition viewportEventsBatchApply (s : EventsState)
    (added : list SafetyEvent) (removed : list string) (updated : list SafetyEvent)
    : EventsState :=
  let s := fold_left upsert (added ++ updated) s in
  let ids := set_of (viewportIds s) in
  let ids := fold_left set_delete removed ids in
  let ids := fold_left (λ ids e, set_add ids (ev_id e)) added ids in
  let ids := fold_left (λ ids e, set_add ids (ev_id e)) updated ids in
  set_viewportIds ids s.

Definition set_inactive (e : SafetyEvent) : SafetyEvent :=
  mkSafetyEvent (ev_id e) (ev_event_type e) (ev_severity e) (ev_title e) (ev_summary e)
    (ev_lat e) (ev_lng e) (ev_place_name e) (ev_county e) false (ev_state e)
    (ev_started_at e) (ev_created_at e) (ev_updated_at e) (ev_radius_meters e)
    (ev_confidence e) (ev_source_count e) (ev_source_breakdown e) (ev_nostr_event_id e)
    (ev_trust_state e) (ev_origin_class e).

Definition eventResolved (s : EventsState) (id : string) : EventsState :=
  set_items (λ l, match find_index (has_id id) l with
                  | Some idx => alter set_inactive idx l
                  | None => l
                  end) s.

Definition setConnected (s : EventsState) (b : bool) : EventsState :=
  mkEventsState (items s) (viewportIds s) b (initialized s) (error s).

Inductive action : Type :=
| EventReceived (e : SafetyEvent)
| EventsHydrated (es : list SafetyEvent)
| EventsHydrationFailed (msg : string)
| ViewportEventsSet (es : list SafetyEvent)
| ViewportEventsBatchApply (added : list SafetyEvent) (removed : list string)
    (updated : list SafetyEvent)
| EventResolved (id : string)
| SetConnected (b : bool).

Definition dispatch (s : EventsState) (a : action) : EventsState :=
  match a with
  | EventReceived e => eventReceived s e
  | EventsHydrated es => eventsHydrated s es
  | EventsHydrationFailed m => eventsHydrationFailed s m
  | ViewportEventsSet es => viewportEventsSet s es
  | ViewportEventsBatchApply added removed updated =>
      viewportEventsBatchApply s added removed updated
  | EventResolved id => eventResolved s id
  | SetConnected b => setConnected s b
  end.

Inductive reachable : EventsState → Prop :=
| reach_init : reachable initialState
| reach_step s a : reachable s → reachable (dispatch s a).

Definition selectViewportEventItems (s : EventsState) : list SafetyEvent :=
  let ids := set_of (viewportIds s) in
  List.filter (λ e, includes ids (ev_id e)) (items s).

Definition selectActiveViewportEvents (s : EventsState) : list SafetyEvent :=
  List.filter ev_is_active (selectViewportEventItems s).

Definition selectMapStats (s : EventsState) : nat :=
  length (List.filter ev_is_active (items s)).

(** ** [lib/trust.ts] *)

Definition trustStateOf (e : SafetyEvent) : TrustState := default heuristic (ev_trust_state e).

Definition isUnverified (e : SafetyEvent) : bool :=
  negb (bool_decide (trustStateOf e = confirmed)).

Record TrustStyle : Type := mkTrustStyle { badge : string; opacity : num; color : string }.

Definition STYLES (t : TrustState) : TrustStyle :=
  match t with
  | heuristic => mkTrustStyle "Automated Detection" (lit 45 100) "#94a3b8"
  | corroborating => mkTrustStyle "Corroborating" (lit 75 100) "#FFB300"
  | confirmed => mkTrustStyle "" (int 1) "#4CAF50"
  end.

Definition trustStyle (e : SafetyEvent) : TrustStyle := STYLES (trustStateOf e).

(** ** Lookups after an upsert *)

Lemma has_id_spec id e : has_id id e = true ↔ ev_id e = id.
Proof. apply String.eqb_eq. Qed.

Lemma find_event_cons id x l :
  find_event id (x :: l) = if decide (ev_id x = id) then Some x else find_event id l.
Proof.
  unfold find_event. cbn [find_index]. unfold has_id at 1.
  destruct (String.eqb_spec (ev_id x) id); destruct (decide _); try done.
  by destruct (find_index (has_id id) l).
Qed.

Lemma find_event_Some id l e : find_event id l = Some e → e ∈ l ∧ ev_id e = id.
Proof.
  induction l as [|x l IH]; [done|]. rewrite find_event_cons.
  case_decide; [intros; simplify_eq; set_solver|]. intros H'. apply IH in H' as [? ?]. set_solver.
Qed.

Lemma find_event_elem id l : id ∈ map ev_id l ↔ is_Some (find_event id l).
Proof.
  induction l as [|x l IH]; [split; [set_solver|by intros [??]]|].
  rewrite find_event_cons. cbn [map]. rewrite elem_of_cons. case_decide; naive_solver.
Qed.

Lemma find_event_index id l idx :
  find_index (has_id id) l = Some idx → find_event id l = l !! idx.
Proof. unfold find_event. by intros ->. Qed.

Lemma find_event_index_None id l : find_index (has_id id) l = None → find_event id l = None.
Proof. unfold find_event. by intros ->. Qed.

Lemma find_event_update l idx k c c' id :
  find_index (has_id k) l = Some idx → l !! idx = Some c → ev_id c' = k →
  find_event id (<[idx := c']> l) = if decide (id = k) then Some c' else find_event id l.
Proof.
  revert idx. induction l as [|x l IH]; intros idx; [done|]. cbn [find_index].
  destruct (has_id k x) eqn:E.
  - apply has_id_spec in E. intros [= <-] _ Hc'. simpl. rewrite !find_event_cons.
    repeat case_decide; congruence.
  - destruct (find_index (has_id k) l) as [j|]; simpl; [|done]. intros [= <-] Hl Hc'.
    simpl in *. rewrite !find_event_cons, (IH j) by done.
    apply String.eqb_neq in E. repeat case_decide; congruence.
Qed.

Lemma merge_id c e : ev_id (mergeEvent c e) = ev_id e.
Proof. by destruct c. Qed.

(** The record kept when [event] arrives and [current] is stored. *)
Definition resolve (current : option SafetyEvent) (event : SafetyEvent) : SafetyEvent :=
  match current with
  | Some c => if stale c event then c else mergeEvent (Some c) event
  | None => event
  end.

Lemma find_event_upsert l x id :
  find_event id (upsert_items l x) =
  if decide (id = ev_id x) then Some (resolve (find_event id l) x) else find_event id l.
Proof.
  unfold upsert_items. destruct (find_index (has_id (ev_id x)) l) as [idx|] eqn:E.
  - pose proof (find_event_index _ _ _ E) as Hf.
    destruct (l !! idx) as [c|] eqn:Hl.
    + destruct (stale c x) eqn:Hst.
      * case_decide; [|done]. subst. rewrite Hf. simpl. by rewrite Hst.
      * erewrite find_event_update by (done || apply merge_id).
        case_decide; [|done]. subst. rewrite Hf. simpl. by rewrite Hst.
    + apply find_index_Some in E as (c & Hc & _). congruence.
  - rewrite find_event_cons. apply find_event_index_None in E.
    repeat case_decide; try congruence. subst. by rewrite E.
Qed.

Lemma upsert_ids l x :
  map ev_id (upsert_items l x) =
  if decide (ev_id x ∈ map ev_id l) then map ev_id l else ev_id x :: map ev_id l.
Proof.
  unfold upsert_items. destruct (find_index (has_id (ev_id x)) l) as [idx|] eqn:E.
  - pose proof (find_index_Some _ _ _ E) as (c & Hl & Hc & _). rewrite Hl.
    apply has_id_spec in Hc. rewrite decide_True.
    + destruct (stale c x); [done|]. change (map ev_id) with (fmap (M:=list) ev_id).
      rewrite list_fmap_insert. apply list_insert_id.
      rewrite list_lookup_fmap, Hl. simpl. by rewrite Hc.
    + rewrite <-Hc. apply list_elem_of_lookup. exists idx.
      change (map ev_id) with (fmap (M:=list) ev_id). by rewrite list_lookup_fmap, Hl.
  - rewrite decide_False; [done|]. rewrite find_event_elem.
    rewrite (find_event_index_None _ _ E). by intros [??].
Qed.

(** ** The store invariant *)

Definition well_formed (s : EventsState) : Prop :=
  NoDup (map ev_id (items s)) ∧ NoDup (viewportIds s) ∧
  ∀ id, id ∈ viewportIds s → id ∈ map ev_id (items s).

Definition same_view (s s' : EventsState) : Prop :=
  viewportIds s' = viewportIds s ∧ NoDup (map ev_id (items s')) ∧
  (∀ id, id ∈ map ev_id (items s) → id ∈ map ev_id (items s')).

Lemma same_view_refl s : NoDup (map ev_id (items s)) → same_view s s.
Proof. intros Hn. unfold same_view. split_and!; auto. Qed.

Lemma same_view_upsert s x : NoDup (map ev_id (items s)) → same_view s (upsert s x).
Proof.
  intros Hn. unfold same_view. simpl. rewrite upsert_ids.
  case_decide; split_and!; try done; [by constructor|set_solver].
Qed.

Lemma same_view_trans s1 s2 s3 : same_view s1 s2 → same_view s2 s3 → same_view s1 s3.
Proof. unfold same_view. intros (?&?&?) (?&?&?). split_and!; [congruence|done|auto]. Qed.

Lemma same_view_fold (f : EventsState → SafetyEvent → EventsState) xs s :
  (∀ s x, NoDup (map ev_id (items s)) → same_view s (f s x)) →
  NoDup (map ev_id (items s)) → same_view s (fold_left f xs s).
Proof.
  intros Hf. revert s. induction xs as [|x xs IH]; intros s Hn; simpl; [by apply same_view_refl|].
  pose proof (Hf s x Hn) as Hs. eapply same_view_trans; [exact Hs|]. apply IH. apply Hs.
Qed.

Lemma fold_upsert_elem xs s x :
  x ∈ xs → ev_id x ∈ map ev_id (items (fold_left upsert xs s)).
Proof.
  revert s. induction xs as [|y xs IH]; intros s Hx; [set_solver|]. simpl.
  apply elem_of_cons in Hx as [->|Hx]; [|by apply IH].
  clear IH. assert (ev_id y ∈ map ev_id (items (upsert s y))) as Hy.
  { simpl. rewrite upsert_ids. case_decide; [done|set_solver]. }
  revert Hy. generalize (upsert s y). clear s. induction xs as [|z xs IH]; intros s Hs; [done|].
  apply IH. simpl. rewrite upsert_ids. case_decide; [done|set_solver].
Qed.

Lemma elem_of_fold_set_add (xs : list SafetyEvent) ids id :
  id ∈ fold_left (λ ids e, set_add ids (ev_id e)) xs ids ↔ id ∈ ids ∨ id ∈ map ev_id xs.
Proof.
  revert ids. induction xs as [|x xs IH]; intros ids; simpl; [set_solver|].
  rewrite IH, elem_of_set_add, elem_of_cons. tauto.
Qed.

Lemma NoDup_fold_set_add (xs : list SafetyEvent) ids :
  NoDup ids → NoDup (fold_left (λ ids e, set_add ids (ev_id e)) xs ids).
Proof. revert ids. induction xs as [|x xs IH]; intros ids H; simpl; auto with sentinel. Qed.

Lemma fold_set_delete_spec (xs ids : list string) :
  (NoDup ids → NoDup (fold_left set_delete xs ids)) ∧
  (∀ id, id ∈ fold_left set_delete xs ids ↔ id ∈ ids ∧ id ∉ xs).
Proof.
  revert ids. induction xs as [|x xs IH]; intros ids; simpl; [split; [done|set_solver]|].
  destruct (IH (set_delete ids x)) as [IH1 IH2]. split.
  - intros H. by apply IH1, NoDup_set_delete.
  - intros id. rewrite IH2, elem_of_set_delete. set_solver.
Qed.

Lemma well_formed_view s s' ids :
  same_view s s' → NoDup ids → (∀ id, id ∈ ids → id ∈ map ev_id (items s')) →
  well_formed (set_viewportIds ids s').
Proof. intros (_ & Hn & _) Hids Hsub. unfold well_formed. split_and!; auto. Qed.

Lemma alter_ids i l : map ev_id (alter set_inactive i l) = map ev_id l.
Proof.
  revert i. induction l as [|x l IH]; intros [|i]; try done.
  simpl. f_equal. apply (IH i).
Qed.

Lemma well_formed_dispatch s a : well_formed s → well_formed (dispatch s a).
Proof.
  intros (Hn & Hv & Hsub). destruct a as [e|es|m|es|added removed updated|id|b]; simpl.
  - destruct (same_view_upsert s e Hn) as (Hve & Hn' & Hsub').
    unfold eventReceived, well_formed. rewrite Hve. split_and!; auto.
  - assert (same_view s (fold_left hydrate_one es s)) as (Hve & Hn' & Hsub').
    { apply same_view_fold; [|done]. intros s' x Hs'. by apply same_view_upsert. }
    unfold eventsHydrated, well_formed. simpl. rewrite Hve. split_and!; auto.
  - done.
  - pose proof (same_view_fold upsert es s same_view_upsert Hn) as Hs.
    apply (well_formed_view s); [done|apply NoDup_set_of|].
    intros id. rewrite elem_of_set_of. intros Hid.
    apply list_elem_of_fmap_1 in Hid as (x & -> & Hx). by apply fold_upsert_elem.
  - pose proof (same_view_fold upsert (added ++ updated) s same_view_upsert Hn) as Hs.
    apply (well_formed_view s); [done| |].
    + do 2 apply NoDup_fold_set_add. apply fold_set_delete_spec. apply NoDup_set_of.
    + intros id. rewrite !elem_of_fold_set_add, (proj2 (fold_set_delete_spec _ _)),
        elem_of_set_of. destruct Hs as (Hve & _ & Hsub'). rewrite Hve.
      intros [[[H _]|H]|H]; [by apply Hsub', Hsub| |];
        apply list_elem_of_fmap_1 in H as (x & -> & Hx); apply fold_upsert_elem; set_solver.
  - unfold eventResolved, well_formed. simpl.
    assert (map ev_id (match find_index (has_id id) (items s) with
       | Some idx => alter set_inactive idx (items s) | None => items s end)
       = map ev_id (items s)) as ->; [|done].
    destruct (find_index _ _) as [idx|]; [apply alter_ids|done].
  - done.
Qed.

(** ** Freshness *)

(** A payload whose events do not carry an empty [updated_at]. *)
Definition stamped (e : SafetyEvent) : Prop := ev_updated_at e ≠ Some "".

Definition payload (a : action) : list SafetyEvent :=
  match a with
  | EventReceived e => [e]
  | EventsHydrated es | ViewportEventsSet es => es
  | ViewportEventsBatchApply added _ updated => added ++ updated
  | _ => []
  end.

Lemma find_event_alter id k l :
  find_event id (match find_index (has_id k) l with Some idx => alter set_inactive idx l | None => l end) =
  if decide (id = k) then set_inactive <$> find_event id l else find_event id l.
Proof.
  induction l as [|x l IH]; [by case_decide|]. cbn [find_index]. destruct (has_id k x) eqn:E.
  - apply has_id_spec in E. simpl. rewrite !find_event_cons. simpl. repeat case_decide; done || congruence.
  - apply String.eqb_neq in E. revert IH. destruct (find_index (has_id k) l) as [i|]; simpl; intros IH.
    + change (alter set_inactive (S i) (x :: l)) with (x :: alter set_inactive i l).
      change (alter set_inactive) with (list_alter set_inactive) in IH. rewrite !find_event_cons, IH.
      repeat case_decide; done || congruence.
    + rewrite !find_event_cons. repeat case_decide; done || congruence.
Qed.

(** *** The properties of the store *)

(** In every state the store can reach, no two stored events share an id, no
    id occurs twice in the viewport, and every id of the viewport names a stored
    event: the map never draws a marker twice nor refers to a missing event. *)
Theorem events_well_formed s : reachable s → well_formed s.
Proof.
  induction 1 as [|s a _ IH]; [|by apply well_formed_dispatch].
  unfold well_formed. simpl. split_and!; [constructor..|set_solver].
Qed.

(** What an event says, besides the parts that every update fills in: its kind, place, state
    and dates *)
Definition says (e : SafetyEvent) :=
  (ev_event_type e, ev_severity e, ev_title e, ev_lat e, ev_lng e, ev_is_active e, ev_state e,
   ev_started_at e, ev_created_at e).

(** [e'] is what is stored in place of [e], whose time is [t], after the events [es] came:
    either it says the same and keeps its time, or it says what one of these events says,
    and that one has the time of [e'], which is not before [t], or has none. *)
Definition succeeds (es : list SafetyEvent) (id t : string) (e : SafetyEvent) (found : option SafetyEvent) : Prop :=
  ∃ e' t', found = Some e' ∧ ev_updated_at e' = Some t' ∧ t' ≠ "" ∧ str_le t t' = true ∧
    ((says e' = says e ∧ t' = t) ∨
     ∃ x, x ∈ es ∧ ev_id x = id ∧ says e' = says x ∧
       (ev_updated_at x = Some t' ∨ ev_updated_at x = None)).

Lemma succeeds_refl es id t e : ev_updated_at e = Some t → t ≠ "" → succeeds es id t e (Some e).
Proof. intros Ht Hne. exists e, t. split_and!; [done..|apply str_le_refl|by left]. Qed.

Lemma succeeds_trans es id t e e' t' found :
  ev_updated_at e' = Some t' → succeeds es id t e (Some e') → succeeds es id t' e' found →
  succeeds es id t e found.
Proof.
  intros He' (e1 & t1 & [= <-] & Ht1 & _ & Hle & Hsame) (e2 & t2 & -> & Ht2 & Hne & Hle2 & Hsame2).
  rewrite He' in Ht1. injection Ht1 as <-. exists e2, t2. split_and!; [done..|by eapply str_le_trans|].
  destruct Hsame2 as [[Hs ->]|?]; [|by right]. destruct Hsame as [[Hs1 ->]|(x & ? & ? & Hs1 & Hx)].
  - left. by rewrite Hs, Hs1.
  - right. exists x. by rewrite Hs.
Qed.

Lemma succeeds_upsert es t e l x : x ∈ es → stamped x →
  find_event (ev_id x) l = Some e → ev_updated_at e = Some t → t ≠ "" →
  succeeds es (ev_id x) t e (Some (resolve (find_event (ev_id x) l) x)).
Proof.
  intros Hx Hst -> Ht Hne. simpl. unfold stale. rewrite Ht.
  assert (truthy t = true) as Htt by (by apply negb_true_iff, String.eqb_neq).
  destruct (ev_updated_at x) as [u|] eqn:Hu.
  - assert (u ≠ "") as Hu' by (intros ->; by apply Hst).
    assert (truthy u = true) as Hut by (by apply negb_true_iff, String.eqb_neq).
    rewrite Htt, Hut. simpl. destruct (str_lt u t) eqn:Hlt; [by apply succeeds_refl|].
    exists (mergeEvent (Some e) x), u. simpl. rewrite Hu. split_and!; [done|done|done|by apply str_lt_false_le|].
    right. exists x. split_and!; [done..|by left].
  - exists (mergeEvent (Some e) x), t. simpl. rewrite Hu, Ht. split_and!; [done|done|done|apply str_le_refl|].
    right. exists x. split_and!; [done..|by right].
Qed.

(** One event of a payload, live or hydrated *)
Definition arrives (f : EventsState → SafetyEvent → EventsState) : Prop := ∀ es s x id e t,
  x ∈ es → stamped x → find_event id (items s) = Some e → ev_updated_at e = Some t → t ≠ "" →
  succeeds es id t e (find_event id (items (f s x))).

Lemma arrives_upsert : arrives upsert.
Proof.
  intros es s x id e t Hx Hst He Ht Hne. simpl. rewrite find_event_upsert.
  case_decide as Hid; [subst id; by apply succeeds_upsert|]. rewrite He. by apply succeeds_refl.
Qed.

Lemma arrives_hydrate : arrives hydrate_one.
Proof.
  intros es s x id e t Hx Hst He Ht Hne. unfold hydrate_one.
  destruct (find_event (ev_id x) (items s)) as [c|] eqn:Hc; [|by apply arrives_upsert].
  pose proof (find_event_Some _ _ _ Hc) as [_ Hcid]. cbn [items upsert set_items]. rewrite find_event_upsert, merge_id, Hcid.
  case_decide as Hid; [subst id|rewrite He; by apply succeeds_refl].
  rewrite He in Hc. injection Hc as <-. rewrite He. simpl. unfold stale. simpl. rewrite Ht. simpl.
  rewrite str_lt_irrefl, !andb_false_r. eexists _, t. split; [done|].
  split_and!; [done|done|apply str_le_refl|by left].
Qed.

Lemma arrives_fold f es xs s id e t : arrives f → (∀ x, x ∈ xs → x ∈ es) → Forall stamped xs →
  find_event id (items s) = Some e → ev_updated_at e = Some t → t ≠ "" →
  succeeds es id t e (find_event id (items (fold_left f xs s))).
Proof.
  intros Hf. revert s e t. induction xs as [|x xs IH]; intros s e t Hsub Hst He Ht Hne; simpl.
  { rewrite He. by apply succeeds_refl. }
  inversion Hst as [|?? Hx Hxs]; subst.
  pose proof (Hf es s x id e t ltac:(apply Hsub; by left) Hx He Ht Hne) as Hs1.
  destruct (Hs1) as (e1 & t1 & He1 & Ht1 & Hne1 & _). rewrite He1 in Hs1.
  eapply succeeds_trans; [exact Ht1|exact Hs1|]. apply IH; [|done..]. intros y Hy. apply Hsub. by right.
Qed.

(** C31: A dated event is never replaced by a version that is known to be older.  Whatever
    arrives (live, hydrated or viewport events, each with a time that is not the empty
    text, or none) in whatever order, a stored event with a time stays stored and its time only grows; what it says changes to what an arriving
    event of its id says, either one whose time it then has, or one that carries no time
    (the viewport's carry none, and do replace it); otherwise it says what it said, but for
    a resolution, which makes it inactive. *)
Theorem events_never_go_back s a id e t :
  Forall stamped (payload a) →
  find_event id (items s) = Some e → ev_updated_at e = Some t → t ≠ "" →
  succeeds (payload a) id t e (find_event id (items (dispatch s a))) ∨
  (a = EventResolved id ∧ find_event id (items (dispatch s a)) = Some (set_inactive e)).
Proof.
  intros Hp He Ht Hne. destruct a as [x|es|m|es|added removed updated|i|b]; simpl in Hp |- *;
    try (left; rewrite He; by apply succeeds_refl).
  - left. apply (arrives_upsert [x] s x); [by left|by inversion Hp|done..].
  - left. by apply (arrives_fold hydrate_one es es); [apply arrives_hydrate|..].
  - left. by apply (arrives_fold upsert es es); [apply arrives_upsert|..].
  - left. by apply (arrives_fold upsert _ (added ++ updated)); [apply arrives_upsert|..].
  - rewrite find_event_alter. case_decide as Hid; [subst i; right; by rewrite He|].
    left. rewrite He. by apply succeeds_refl.
Qed.

Definition sample (id updated : string) : SafetyEvent :=
  mkSafetyEvent id "flood" "HIGH" "River Nzoia" (Some None) (int 0) (int 34) None None true
    "ACTIVE" "2026-01-01T00:00:00Z" "2026-01-01T00:00:00Z" (Some updated)
    None None None None None (Some heuristic) None.

Lemma events_never_go_back_witness :
  ∃ e' t', find_event "a" (items (dispatch (eventReceived initialState (sample "a" "2026-02"))
      (EventReceived (sample "a" "2026-01")))) = Some e' ∧
    ev_updated_at e' = Some t' ∧ str_le "2026-02" t' = true.
Proof.
  destruct (events_never_go_back (eventReceived initialState (sample "a" "2026-02"))
    (EventReceived (sample "a" "2026-01")) "a" (sample "a" "2026-02") "2026-02")
    as [(e' & t' & Hf & Ht & _ & Hle & _)|[Ha _]].
  - repeat constructor. discriminate.
  - reflexivity.
  - reflexivity.
  - discriminate.
  - by exists e', t'.
  - discriminate Ha.
Defined.

(** An event of the viewport carries no time: it brings a state back that an update of
    February had replaced, and the event keeps the time of February. *)
Definition resolved : SafetyEvent :=
  mkSafetyEvent "a" "flood" "HIGH" "River Nzoia" (Some None) (int 0) (int 34) None None false
    "RESOLVED" "2026-01-01T00:00:00Z" "2026-01-01T00:00:00Z" (Some "2026-02")
    None None None None None (Some heuristic) None.
Definition undated : SafetyEvent :=
  mkSafetyEvent "a" "flood" "HIGH" "River Nzoia" (Some None) (int 0) (int 34) None None true
    "ACTIVE" "2026-01-01T00:00:00Z" "2026-01-01T00:00:00Z" None
    None None None None None (Some heuristic) None.
Example undated_event_replaces :
  let e := find_event "a" (items (dispatch (eventReceived initialState resolved) (ViewportEventsSet [undated]))) in
  ev_state <$> e = Some "ACTIVE" ∧ ev_is_active <$> e = Some true ∧ (e ≫= ev_updated_at) = Some "2026-02".
Proof. by vm_compute. Qed.

Lemma events_well_formed_witness :
  well_formed (dispatch initialState (EventReceived (sample "a" "2026-02"))).
Proof. apply events_well_formed. apply reach_step. apply reach_init. Defined.

End Events.
