(* ===== verification/CirclesSlice.v ===== *)
(** * The circle store: [store/circlesSlice.ts]

    The circles of the user, their members and key epochs, what is known of each
    member's presence and position, and the proximity alerts.  Objects used as maps are
    [gmap]s; an array updated by index or through a draft is a list. *)

From Stdlib Require Import Lia.
From S2P Require Import Prelude JsNumber JsString JsStringFacts JsCollection SharedTypes.

Module Circles.

Inductive Precision : Type := exact | approximate.

Record DecryptedLocation : Type := mkLocation {
  lat : num; lng : num; ts : string; event_id : option string; expires_at : option num;
  accuracy_m : option num; precision : option Precision
}.

Record CircleEpoch : Type := mkEpoch { key_epoch : Z; rekey_required : bool }.

Record CirclesState : Type := mkState {
  circles : list Circle;
  activeCircleId : option string;
  members : gmap string (list CircleMember);
  epochs : gmap string CircleEpoch;
  memberStatuses : gmap string MemberStatus;
  decryptedLocations : gmap string DecryptedLocation;
  proximityAlerts : list ProximityAlert;
  activeAlert : option ProximityAlert;
  decryptErrors : list string
}.

Definition initialState : CirclesState := mkState [] None ∅ ∅ ∅ ∅ [] None [].

Definition set_circles f s := mkState (f (circles s)) (activeCircleId s) (members s) (epochs s)
  (memberStatuses s) (decryptedLocations s) (proximityAlerts s) (activeAlert s) (decryptErrors s).
Definition set_activeCircleId c s := mkState (circles s) c (members s) (epochs s)
  (memberStatuses s) (decryptedLocations s) (proximityAlerts s) (activeAlert s) (decryptErrors s).
Definition set_members f s := mkState (circles s) (activeCircleId s) (f (members s)) (epochs s)
  (memberStatuses s) (decryptedLocations s) (proximityAlerts s) (activeAlert s) (decryptErrors s).
Definition set_epochs f s := mkState (circles s) (activeCircleId s) (members s) (f (epochs s))
  (memberStatuses s) (decryptedLocations s) (proximityAlerts s) (activeAlert s) (decryptErrors s).
Definition set_statuses f s := mkState (circles s) (activeCircleId s) (members s) (epochs s)
  (f (memberStatuses s)) (decryptedLocations s) (proximityAlerts s) (activeAlert s) (decryptErrors s).
Definition set_locations f s := mkState (circles s) (activeCircleId s) (members s) (epochs s)
  (memberStatuses s) (f (decryptedLocations s)) (proximityAlerts s) (activeAlert s) (decryptErrors s).
Definition set_alerts l a s := mkState (circles s) (activeCircleId s) (members s) (epochs s)
  (memberStatuses s) (decryptedLocations s) l a (decryptErrors s).
Definition set_errors l s := mkState (circles s) (activeCircleId s) (members s) (epochs s)
  (memberStatuses s) (decryptedLocations s) (proximityAlerts s) (activeAlert s) l.

(** ** Reducers *)

Definition is_circle (id : string) (c : Circle) : bool := String.eqb (ci_circle_id c) id.

(** Replace the circle of the same id in place, or add it at the end. *)
Definition put_circle (circle : Circle) (l : list Circle) : list Circle :=
  match find_index (is_circle (ci_circle_id circle)) l with
  | Some i => <[i := circle]> l
  | None => l ++ [circle]
  end.

Definition default_offline (m : CircleMember) (statuses : gmap string MemberStatus)
    : gmap string MemberStatus :=
  match cm_pubkey m with
  | Some pk =>
      if truthy pk && negb (bool_decide (is_Some (statuses !! pk)))
      then <[pk := OFFLINE]> statuses else statuses
  | None => statuses
  end.

Definition circleLoaded (circle : Circle) (ms : list CircleMember) (s : CirclesState) : CirclesState :=
  let s := set_circles (put_circle circle) s in
  let s := set_members <[ci_circle_id circle := ms]> s in
  let s := set_activeCircleId (Some (ci_circle_id circle)) s in
  set_statuses (λ st, fold_left (λ st m, default_offline m st) ms st) s.

Definition with_epoch (e : CircleEpoch) (c : Circle) : Circle :=
  mkCircle (ci_circle_id c) (ci_name c) (ci_name_ciphertext c) (ci_name_version c)
    (Some (key_epoch e)) (ci_location_protocol_version c) (Some (rekey_required e))
    (ci_membership_revision c) (ci_self_token c) (ci_created_at c) (ci_is_owner c).

(** [state.circles.find(...)], updated through the draft: the first one only. *)
Definition circleEpochChanged (id : string) (e : CircleEpoch) (s : CirclesState) : CirclesState :=
  let s := set_epochs <[id := e]> s in
  match find_index (is_circle id) (circles s) with
  | Some i => set_circles (alter (with_epoch e) i) s
  | None => s
  end.

Definition memberStatusUpdated (pubkey : string) (status : MemberStatus) : CirclesState → CirclesState :=
  set_statuses <[pubkey := status]>.

Definition locationReceived (pubkey : string) (location : DecryptedLocation) (s : CirclesState)
    : CirclesState :=
  set_statuses <[pubkey := ONLINE]> (set_locations <[pubkey := location]> s).

(** [m.member_token === token], where a member's token is absent, [null] or a string. *)
Definition same_token (t : option (option string)) (token : option string) : bool :=
  match t, token with
  | None, None => true
  | Some (Some a), Some b => String.eqb a b
  | _, _ => false
  end.

Definition kept (pubkey token : option string) (m : CircleMember) : bool :=
  match pubkey with
  | Some _ => negb (bool_decide (cm_pubkey m = pubkey))
  | None => negb (same_token (cm_member_token m) token)
  end.

Definition memberRemoved (id : string) (pubkey token : option string) (s : CirclesState) : CirclesState :=
  let s := match members s !! id with
           | Some ms => set_members <[id := List.filter (kept pubkey token) ms]> s
           | None => s
           end in
  match pubkey with
  | Some pk => if truthy pk then set_statuses (delete pk) (set_locations (delete pk) s) else s
  | None => s
  end.

Definition activate (pubkey : string) (m : CircleMember) : CircleMember :=
  match cm_pubkey m with
  | Some pk =>
      if truthy pk && String.eqb (toLowerCase pk) (toLowerCase pubkey)
      then mkCircleMember (cm_circle_id m) (cm_member_token m) (cm_alert_radius_km m)
             (cm_alert_severity m) (cm_joined_at m) (cm_member_label_ciphertext m) (Some ACTIVE)
             (cm_accepted_at m) (cm_key_wrap_epoch m) (cm_pubkey m) (cm_label m)
      else m
  | None => m
  end.

Definition memberAccepted (id pubkey : string) (s : CirclesState) : CirclesState :=
  match members s !! id with
  | Some ms => set_members <[id := map (activate pubkey) ms]> s
  | None => s
  end.

Definition expired (now : num) (l : DecryptedLocation) : bool :=
  match expires_at l with Some e => num_le e now | None => false end.

Definition locationsPruned (now : num) : CirclesState → CirclesState :=
  set_locations (filter (λ kl, expired now kl.2 = false)).

Definition proximityAlertAdded (alert : ProximityAlert) (s : CirclesState) : CirclesState :=
  if existsb (λ a, String.eqb (pa_id a) (pa_id alert)) (proximityAlerts s) then s
  else set_alerts (alert :: proximityAlerts s) (Some alert) s.

Definition activeAlertDismissed (s : CirclesState) : CirclesState :=
  set_alerts (proximityAlerts s) None s.

Definition circleDecryptError (msg : string) (s : CirclesState) : CirclesState :=
  set_errors (take 3 (msg :: decryptErrors s)) s.

Definition circleLeft (s : CirclesState) : CirclesState := initialState.

Inductive action : Type :=
| CircleLoaded (circle : Circle) (ms : list CircleMember)
| CircleEpochChanged (id : string) (e : CircleEpoch)
| MemberStatusUpdated (pubkey : string) (status : MemberStatus)
| LocationReceived (pubkey : string) (location : DecryptedLocation)
| MemberRemoved (id : string) (pubkey token : option string)
| MemberAccepted (id pubkey : string)
| LocationsPruned (now : num)
| ProximityAlertAdded (alert : ProximityAlert)
| ActiveAlertDismissed
| CircleDecryptError (msg : string)
| CircleLeft.

Definition dispatch (s : CirclesState) (a : action) : CirclesState :=
  match a with
  | CircleLoaded circle ms => circleLoaded circle ms s
  | CircleEpochChanged id e => circleEpochChanged id e s
  | MemberStatusUpdated pk st => memberStatusUpdated pk st s
  | LocationReceived pk l => locationReceived pk l s
  | MemberRemoved id pk token => memberRemoved id pk token s
  | MemberAccepted id pk => memberAccepted id pk s
  | LocationsPruned now => locationsPruned now s
  | ProximityAlertAdded a => proximityAlertAdded a s
  | ActiveAlertDismissed => activeAlertDismissed s
  | CircleDecryptError msg => circleDecryptError msg s
  | CircleLeft => circleLeft s
  end.

Inductive reachable : CirclesState → Prop :=
| reach_init : reachable initialState
| reach_step s a : reachable s → reachable (dispatch s a).

(** ** The store invariant *)

Definition ids (s : CirclesState) : list string := map ci_circle_id (circles s).

Record well_formed (s : CirclesState) : Prop := {
  wf_circles : NoDup (ids s);
  wf_active : ∀ id, activeCircleId s = Some id → id ∈ ids s;
  wf_members : ∀ id, is_Some (members s !! id) → id ∈ ids s;
  wf_locations : ∀ pk, is_Some (decryptedLocations s !! pk) → is_Some (memberStatuses s !! pk);
  wf_alerts : NoDup (map pa_id (proximityAlerts s));
  wf_alert : ∀ a, activeAlert s = Some a → a ∈ proximityAlerts s;
  wf_errors : length (decryptErrors s) <= 3
}.

Lemma find_circle_index id l i :
  find_index (is_circle id) l = Some i → map ci_circle_id l !! i = Some id.
Proof.
  intros (c & Hc & Hid%String.eqb_eq & _)%find_index_Some.
  change (map ci_circle_id l) with (ci_circle_id <$> l). rewrite list_lookup_fmap, Hc. simpl. by rewrite Hid.
Qed.

Lemma put_circle_ids c l :
  map ci_circle_id (put_circle c l) =
  if decide (ci_circle_id c ∈ map ci_circle_id l) then map ci_circle_id l
  else map ci_circle_id l ++ [ci_circle_id c].
Proof.
  unfold put_circle. destruct (find_index _ l) as [i|] eqn:E.
  - apply find_circle_index in E. rewrite decide_True by (by eapply list_elem_of_lookup_2).
    change (map ci_circle_id) with (fmap (M:=list) ci_circle_id) in *.
    rewrite list_fmap_insert. by apply list_insert_id.
  - rewrite decide_False; [by rewrite map_app|]. intros Hin.
    change (map ci_circle_id l) with (ci_circle_id <$> l) in Hin.
    apply list_elem_of_fmap in Hin as (x & Hx & Hin). rewrite find_index_None in E.
    specialize (E x Hin). unfold is_circle in E. by rewrite Hx, String.eqb_refl in E.
Qed.

Lemma alter_epoch_ids e i l : map ci_circle_id (alter (with_epoch e) i l) = map ci_circle_id l.
Proof.
  change (map ci_circle_id) with (fmap (M:=list) ci_circle_id).
  apply list_eq. intros j. rewrite !list_lookup_fmap.
  destruct (decide (i = j)) as [->|].
  - rewrite list_lookup_alter_eq. by destruct (l !! j).
  - by rewrite list_lookup_alter_ne.
Qed.

Lemma default_offline_kept ms st pk :
  is_Some (st !! pk) → is_Some (fold_left (λ st m, default_offline m st) ms st !! pk).
Proof.
  revert st. induction ms as [|m ms IH]; intros st H; [done|]. simpl. apply IH.
  unfold default_offline. destruct (cm_pubkey m) as [k|]; [|done]. case_match; [|done].
  destruct (decide (pk = k)) as [->|]; [rewrite lookup_insert_eq; by eexists|].
  by rewrite lookup_insert_ne.
Qed.

Lemma circles_initial_ok : well_formed initialState.
Proof. split; try done; [constructor|by intros ? [??]|by intros ? [??]|constructor|simpl; lia]. Qed.

Lemma well_formed_removed id pk token s : well_formed s → well_formed (memberRemoved id pk token s).
Proof.
  intros Hs. unfold memberRemoved.
  assert (well_formed match members s !! id with
    | Some ms => set_members <[id := List.filter (kept pk token) ms]> s | None => s end) as Hs1.
  { destruct (members s !! id) as [ms|] eqn:E; [|done]. destruct Hs. split; try done.
    intros id' H. simpl in H. change (id' ∈ ids s). destruct (decide (id = id')) as [<-|].
    - apply wf_members0. by rewrite E.
    - rewrite lookup_insert_ne in H by done. auto. }
  destruct pk as [pk|]; [|done]. destruct (truthy pk); [|done].
  set (s1 := match members s !! id with Some _ => _ | None => _ end) in *. clearbody s1.
  destruct Hs1. split; try done. intros k H. simpl in *. destruct (decide (pk = k)) as [<-|].
  - rewrite lookup_delete_eq in H. by destruct H.
  - rewrite lookup_delete_ne in H by done. rewrite lookup_delete_ne by done. auto.
Qed.

Lemma well_formed_loaded c ms s : well_formed s → well_formed (circleLoaded c ms s).
Proof.
  intros []. assert (∀ id, id ∈ ids s ∨ id = ci_circle_id c ↔ id ∈ ids (circleLoaded c ms s)) as Hids.
  { intros id. unfold ids. simpl. rewrite put_circle_ids. case_decide; set_solver. }
  split; try done.
  - unfold ids. simpl. rewrite put_circle_ids. case_decide as Hd; [done|].
    apply NoDup_app. split_and!; [done| |apply NoDup_singleton]. intros x Hx ->%list_elem_of_singleton. done.
  - intros id [= <-]. apply Hids. by right.
  - intros id H. apply Hids. simpl in H. destruct (decide (ci_circle_id c = id)) as [<-|]; [by right|].
    rewrite lookup_insert_ne in H by done. auto.
  - intros pk H. simpl. apply default_offline_kept. auto.
Qed.

Lemma circles_dispatch_ok s a : well_formed s → well_formed (dispatch s a).
Proof.
  intros Hs. destruct a as [c ms|id e|pk st|pk l|id pk token|id pk|now|al| |msg|]; simpl.
  - by apply well_formed_loaded.
  - destruct Hs. unfold circleEpochChanged. case_match; [|by split].
    split; try done; unfold ids; simpl; rewrite alter_epoch_ids; done.
  - destruct Hs. split; try done. intros k H. simpl in *. destruct (decide (pk = k)) as [<-|].
    + rewrite lookup_insert_eq. by eexists.
    + rewrite lookup_insert_ne by done. auto.
  - destruct Hs. split; try done. intros k H. simpl in *. destruct (decide (pk = k)) as [<-|].
    + rewrite lookup_insert_eq. by eexists.
    + rewrite lookup_insert_ne in H by done. rewrite lookup_insert_ne by done. auto.
  - by apply well_formed_removed.
  - unfold memberAccepted. destruct (members s !! id) as [ms|] eqn:E; [|done].
    destruct Hs. split; try done. intros id' H. simpl in H. change (id' ∈ ids s).
    destruct (decide (id = id')) as [<-|]; [apply wf_members0; by rewrite E|].
    rewrite lookup_insert_ne in H by done. auto.
  - destruct Hs. split; try done. intros k [l Hl]. simpl in *. apply map_lookup_filter_Some in Hl as [Hl _].
    apply wf_locations0. by eexists.
  - unfold proximityAlertAdded. destruct (existsb _ _) eqn:E; [done|].
    destruct Hs. split; try done; simpl.
    + apply NoDup_cons. split; [|done]. change (map pa_id ?l) with (pa_id <$> l).
      rewrite list_elem_of_fmap. intros (x & Hx & Hin%list_elem_of_In).
      assert (existsb (λ a, String.eqb (pa_id a) (pa_id al)) (proximityAlerts s) = true); [|congruence].
      apply existsb_exists. exists x. by rewrite Hx, String.eqb_refl.
    + intros a [= <-]. by left.
  - destruct Hs. by split.
  - destruct Hs. split; try done. cbn -[take]. rewrite length_take. lia.
  - apply circles_initial_ok.
Qed.

(** In every state the circle store can reach, circle ids are distinct, the active
    circle and every member list belong to a known circle, every member with a position
    has a status, alert ids are distinct and the alert on screen is one of them, and at
    most three decryption errors are kept. *)
Theorem circles_well_formed s : reachable s → well_formed s.
Proof. induction 1; [apply circles_initial_ok|by apply circles_dispatch_ok]. Qed.

(** Once a member is removed by public key, nothing of that member is left: not in
    the circle's member list, no position and no status; the other members are
    untouched.  And no position outlives its expiry once the store is pruned, while
    those that have not expired stay. *)
Theorem removed_and_expired_gone s id pk now :
  pk ≠ "" →
  let s1 := dispatch s (MemberRemoved id (Some pk) None) in
  let s2 := dispatch s (LocationsPruned now) in
  (∀ ms m, members s1 !! id = Some ms → m ∈ ms → cm_pubkey m ≠ Some pk) ∧
  decryptedLocations s1 !! pk = None ∧ memberStatuses s1 !! pk = None ∧
  (∀ pk', pk' ≠ pk → decryptedLocations s1 !! pk' = decryptedLocations s !! pk' ∧
    memberStatuses s1 !! pk' = memberStatuses s !! pk') ∧
  (∀ id', id' ≠ id → members s1 !! id' = members s !! id') ∧
  (∀ pk' l, decryptedLocations s2 !! pk' = Some l ↔
    decryptedLocations s !! pk' = Some l ∧ expired now l = false).
Proof.
  intros Hpk. cbn [dispatch]. unfold memberRemoved.
  assert (truthy pk = true) as -> by (unfold truthy; by apply negb_true_iff, String.eqb_neq).
  split_and!; [..|apply map_lookup_filter_Some].
  - intros ms m Hms Hm. cbn in Hms. destruct (members s !! id) as [l|] eqn:E; [|simpl in Hms; congruence].
    cbn in Hms. rewrite lookup_insert_eq in Hms. injection Hms as <-.
    apply elem_of_filter_b in Hm as [_ Hm]. unfold kept in Hm.
    apply negb_true_iff, bool_decide_eq_false in Hm. done.
  - cbn. apply lookup_delete_eq.
  - cbn. apply lookup_delete_eq.
  - intros pk' Hne. cbn. rewrite !lookup_delete_ne by done. by destruct (members s !! id).
  - intros id' Hne. cbn. destruct (members s !! id); [|done]. cbn. by rewrite lookup_insert_ne.
Qed.

(** A removal announced by token reaches nobody whose token this device does not know,
    which is every other member for a user who does not own the circle: the member stays
    listed, and the position stays on the map. *)
Lemma removed_by_token_unseen s id token ms :
  members s !! id = Some ms →
  Forall (λ m, cm_member_token m ≠ Some (Some token)) ms →
  dispatch s (MemberRemoved id None (Some token)) = s.
Proof.
  intros Hms Ht. cbn [dispatch]. unfold memberRemoved. rewrite Hms.
  assert (List.filter (kept None (Some token)) ms = ms) as ->.
  { clear Hms. induction Ht as [|m ms Hm Ht IH]; [done|]. cbn [List.filter]. rewrite IH.
    replace (kept None (Some token) m) with true; [done|]. symmetry. unfold kept, same_token.
    destruct (cm_member_token m) as [[t|]|]; [|done..]. apply negb_true_iff, String.eqb_neq. congruence. }
  unfold set_members. rewrite insert_id by done. by destruct s.
Qed.

(** *** A concrete circle, as a member who does not own it sees it *)

Definition family : Circle :=
  mkCircle "c1" None None None (Some 1%Z) None None None None "2026-01-01" (Some false).
Definition member (pk : string) : CircleMember :=
  mkCircleMember "c1" (Some None) (int 5) "HIGH" "2026-01-01" None (Some ACTIVE) None None (Some pk) None.
Definition here : DecryptedLocation :=
  mkLocation (int 1) (int 36) "2026-01-01" None (Some (int 100)) None None.
Definition together : CirclesState :=
  fold_left dispatch [CircleLoaded family [member "ana"; member "ben"]; LocationReceived "ana" here;
    LocationReceived "ben" here] initialState.

Lemma circles_well_formed_witness : well_formed together.
Proof. apply circles_well_formed. unfold together. cbn [fold_left]. repeat constructor. Defined.

Lemma removed_and_expired_gone_witness :
  decryptedLocations (dispatch together (MemberRemoved "c1" (Some "ana") None)) !! "ana" = None ∧
  decryptedLocations (dispatch together (LocationsPruned (int 100))) !! "ben" = None.
Proof.
  destruct (removed_and_expired_gone together "c1" "ana" (int 100)) as (_ & Hl & _ & _ & _ & Hp).
  - discriminate.
  - split; [exact Hl|]. destruct (decryptedLocations (dispatch together _) !! "ben") eqn:E; [|done].
    apply Hp in E as [E He]. vm_compute in E. injection E as <-. discriminate He.
Defined.

Example removal_by_token :
  dispatch together (MemberRemoved "c1" None (Some "t-ana")) = together ∧
  is_Some (decryptedLocations together !! "ana").
Proof.
  split; [|by eexists]. eapply removed_by_token_unseen; [reflexivity|]. by repeat constructor.
Qed.

End Circles.
