(* ===== verification/ChatSlices.v ===== *)
(** * The chat stores: [store/chatSlice.ts] and [store/dmSlice.ts]

    Both slices keep, per conversation, a list of messages ordered by timestamp and
    id and free of duplicates, and a count of unread messages.  Their two copies of
    [insertSorted] are instances of the one of [MessageList].  A JavaScript object
    used as a map is a [gmap]. *)

From Stdlib Require Import Lia.
From S2P Require Import Prelude JsNumber JsString JsStringFacts JsCollection Nostr.

(** ** Ordered message lists *)

Module MessageList.
Section list.
Context {M : Type} (mid : M → string) (at_ : M → num).

(** [a.created_at - b.created_at || (a.id < b.id ? -1 : 1)] is at most zero; a zero
    or NaN difference falls through to the ids. *)
Definition before (a b : M) : bool :=
  let d := num_sub (at_ a) (at_ b) in
  if num_eqb d (int 0) || bool_decide (d = NaN) then str_lt (mid a) (mid b) else num_lt d (int 0).

Definition has (messages : list M) (m : M) : bool :=
  existsb (λ x, String.eqb (mid x) (mid m)) messages.

Definition insertSorted (messages : list M) (m : M) : list M :=
  if has messages m then messages else js_sort before (messages ++ [m]).

(** Timestamps are integers of a size whose differences are exact. *)
Definition timed (m : M) : Prop := ∃ z, at_ m = int z ∧ (Z.abs z < 2 ^ 52)%Z.

Definition stamp (m : M) : Z := to_Z (at_ m).

Lemma timed_stamp m : timed m → at_ m = int (stamp m) ∧ (Z.abs (stamp m) < 2 ^ 52)%Z.
Proof. intros (z & Hz & Hs). unfold stamp. rewrite Hz, int_to_Z. done. Qed.

Lemma before_spec a b : timed a → timed b →
  before a b = (stamp a <? stamp b)%Z || ((stamp a =? stamp b)%Z && str_lt (mid a) (mid b)).
Proof.
  intros Ha Hb. destruct (timed_stamp a Ha) as [Ha1 Ha2]. destruct (timed_stamp b Hb) as [Hb1 Hb2].
  unfold before. rewrite Ha1, Hb1, int_sub by (unfold safe_Z, max_safe; lia).
  rewrite int_eqb, int_lt.
  rewrite (bool_decide_eq_false_2 (int _ = NaN)) by done. rewrite orb_false_r.
  destruct (Z.eqb_spec (stamp a - stamp b) 0), (Z.ltb_spec (stamp a - stamp b) 0),
    (Z.ltb_spec (stamp a) (stamp b)), (Z.eqb_spec (stamp a) (stamp b)); done || lia.
Qed.

Definition precedes (a b : M) : Prop :=
  (stamp a < stamp b)%Z ∨ stamp a = stamp b ∧ str_lt (mid a) (mid b) = true.

Lemma before_precedes a b : timed a → timed b → before a b = true ↔ precedes a b.
Proof.
  intros Ha Hb. rewrite before_spec by done.
  rewrite orb_true_iff, andb_true_iff, Z.ltb_lt, Z.eqb_eq. done.
Qed.

(** [before], made strict everywhere, to apply the lemmas on sorting. *)
Definition before' (a b : M) : bool :=
  (stamp a <? stamp b)%Z || ((stamp a =? stamp b)%Z && str_lt (mid a) (mid b)).

Lemma before'_precedes a b : before' a b = true ↔ precedes a b.
Proof.
  unfold before', precedes. by rewrite orb_true_iff, andb_true_iff, Z.ltb_lt, Z.eqb_eq.
Qed.

Lemma precedes_trans a b c : precedes a b → precedes b c → precedes a c.
Proof.
  unfold precedes. intros [H1|[H1 H1']] [H2|[H2 H2']]; [left; lia..|].
  right. split; [lia|by eapply str_lt_trans].
Qed.

Lemma precedes_irrefl a : ¬ precedes a a.
Proof. unfold precedes. rewrite str_lt_irrefl. intros [?|[_ ?]]; [lia|done]. Qed.

Lemma precedes_total a b : mid a ≠ mid b → precedes a b ∨ precedes b a.
Proof.
  intros Hne. unfold precedes. destruct (Z.lt_trichotomy (stamp a) (stamp b)) as [H|[H|H]]; [lia| |lia].
  destruct (str_lt_total (mid a) (mid b)) as [?|[?|?]]; [|done|]; naive_solver.
Qed.

(** A conversation: in strict order of timestamp and id, without duplicate ids. *)
Definition ordered (l : list M) : Prop :=
  StronglySorted (λ a b, before' a b = true) l ∧ NoDup (map mid l) ∧ Forall timed l.

Lemma has_spec l m : has l m = true ↔ mid m ∈ map mid l.
Proof.
  unfold has. rewrite existsb_exists. change (map mid) with (fmap (M:=list) mid).
  rewrite list_elem_of_fmap. split.
  - intros (x & Hx & He%String.eqb_eq). exists x. split; [done|]. by apply list_elem_of_In.
  - intros (x & He & Hx). exists x. split; [by apply list_elem_of_In|]. by apply String.eqb_eq.
Qed.

Lemma insertSorted_perm l m : has l m = false → insertSorted l m ≡ₚ m :: l.
Proof.
  unfold insertSorted. intros ->. rewrite js_sort_perm. by rewrite Permutation_app_comm.
Qed.

(** Sorting messages with distinct ids puts them in order. *)
Lemma sort_ordered l : Forall timed l → NoDup (map mid l) → ordered (js_sort before l).
Proof.
  intros Ht Hn. split_and!.
  - rewrite (js_sort_ext before before').
    + apply js_sort_sorted.
      * intros x y z. rewrite !before'_precedes. apply precedes_trans.
      * intros i j x y Hx Hy Hij. rewrite !before'_precedes. apply precedes_total. intros Heq.
        apply Hij. apply (NoDup_lookup _ _ _ (mid x) Hn);
          change (map mid) with (fmap (M:=list) mid); rewrite list_lookup_fmap;
          [by rewrite Hx|by rewrite Hy, Heq].
    + intros x y Hx Hy. rewrite Forall_forall in Ht. apply before_spec; by apply Ht.
  - change (map mid) with (fmap (M:=list) mid) in *. by rewrite js_sort_perm.
  - by rewrite js_sort_perm.
Qed.

Lemma ordered_insert l m : ordered l → timed m → ordered (insertSorted l m).
Proof.
  intros (Hs & Hn & Ht) Hm. unfold insertSorted. destruct (has l m) eqn:Hh; [done|].
  apply sort_ordered; [apply Forall_app; by repeat constructor|].
  change (map mid) with (fmap (M:=list) mid). rewrite fmap_app. apply NoDup_app.
  split_and!; [done| |apply NoDup_singleton].
  intros x Hx Hx'%list_elem_of_singleton. subst. apply has_spec in Hx. congruence.
Qed.

Definition insert_all (l : list M) (ms : list M) : list M := fold_left insertSorted ms l.

Lemma elem_of_insert_sub l m x : x ∈ insertSorted l m → x = m ∨ x ∈ l.
Proof.
  unfold insertSorted. destruct (has l m); [by right|]. rewrite elem_of_js_sort. set_solver.
Qed.

Lemma elem_of_insert_all_sub l ms x : x ∈ insert_all l ms → x ∈ ms ∨ x ∈ l.
Proof.
  revert l. induction ms as [|m ms IH]; intros l Hx; [by right|].
  apply IH in Hx as [?|[->|?]%elem_of_insert_sub]; [left; by right|left; by left|by right].
Qed.

Lemma ordered_insert_all l ms : ordered l → Forall timed ms → ordered (insert_all l ms).
Proof.
  intros Hl Hms. revert l Hl. induction Hms as [|m ms Hm Hms IH]; intros l Hl; [done|].
  simpl. apply IH. by apply ordered_insert.
Qed.

Lemma elem_of_insert_all l ms x :
  NoDup (map mid (l ++ ms)) → x ∈ insert_all l ms ↔ x ∈ l ∨ x ∈ ms.
Proof.
  change (map mid) with (fmap (M:=list) mid).
  revert l. induction ms as [|m ms IH]; intros l Hn; [set_solver|]. simpl.
  assert (has l m = false) as Hh.
  { destruct (has l m) eqn:E; [|done]. apply has_spec in E. exfalso.
    rewrite fmap_app in Hn. apply NoDup_app in Hn as (_ & Hd & _). apply (Hd (mid m) E).
    simpl. by left. }
  rewrite IH; [|by rewrite insertSorted_perm; [simpl; rewrite <-Permutation_middle in Hn|]].
  rewrite insertSorted_perm by done. set_solver.
Qed.

(** The list depends on which messages arrived, not on the order of arrival. *)
Lemma insert_all_perm ms ms' :
  Forall timed ms → NoDup (map mid ms) → ms ≡ₚ ms' → insert_all [] ms = insert_all [] ms'.
Proof.
  intros Ht Hn Hp.
  assert (Forall timed ms') as Ht' by by rewrite <-Hp.
  assert (NoDup (map mid ms')) as Hn'.
  { change (map mid) with (fmap (M:=list) mid) in *. by rewrite <-Hp. }
  assert (ordered []) as H0 by (split_and!; constructor).
  destruct (ordered_insert_all [] ms H0 Ht) as (Hs & Hnd & _).
  destruct (ordered_insert_all [] ms' H0 Ht') as (Hs' & Hnd' & _).
  apply (js_sort_unique before').
  - intros x y z. rewrite !before'_precedes. apply precedes_trans.
  - intros x. destruct (before' x x) eqn:E; [|done].
    apply before'_precedes, precedes_irrefl in E. done.
  - done.
  - done.
  - apply NoDup_Permutation.
    + by apply (NoDup_fmap_1 mid).
    + by apply (NoDup_fmap_1 mid).
    + intros x. rewrite !elem_of_insert_all by done. by rewrite Hp.
Qed.

End list.
End MessageList.

(** ** The part the two slices share

    [messages], [unread] and the id of the conversation on screen, with the reducers
    that the two slices write in the same words. *)

Module MessageLog.

Record Log (M : Type) : Type := mkLog {
  messages : gmap string (list M); unread : gmap string num; active : option string
}.
#[global] Arguments mkLog {M} _ _ _.
#[global] Arguments messages {M} _.
#[global] Arguments unread {M} _.
#[global] Arguments active {M} _.

Section log.
Context {M : Type} (mid : M → string) (at_ : M → num).

Abbreviation insertSorted := (MessageList.insertSorted mid at_).
Abbreviation insert_all := (MessageList.insert_all mid at_).
Abbreviation ordered := (MessageList.ordered mid at_).
Abbreviation timed := (MessageList.timed at_).

Definition empty_log : Log M := mkLog ∅ ∅ None.

(** [state.messages[c] ?? []] and [state.unread[c] ?? 0]. *)
Definition log_of (s : Log M) (c : string) : list M := default [] (messages s !! c).
Definition unread_of (s : Log M) (c : string) : num := default (int 0) (unread s !! c).

Definition receive (c : string) (m : M) (s : Log M) : Log M :=
  let existing := log_of s c in
  let next := insertSorted existing m in
  if negb (Nat.eqb (length next) (length existing))
  then mkLog (<[c := next]> (messages s))
         (if bool_decide (Some c ≠ active s) then <[c := num_add (unread_of s c) (int 1)]> (unread s)
          else unread s)
         (active s)
  else s.

Definition load (c : string) (ms : list M) (s : Log M) : Log M :=
  mkLog (<[c := insert_all (log_of s c) ms]> (messages s)) (unread s) (active s).

Definition clear_unread (c : string) (s : Log M) : Log M :=
  mkLog (messages s) (<[c := int 0]> (unread s)) (active s).

Definition set_active (c : option string) (s : Log M) : Log M :=
  mkLog (messages s) (unread s) c.

(** [if (action.payload)] also refuses the empty string. *)
Definition change_active (c : option string) (s : Log M) : Log M :=
  match c with
  | Some id => if String.eqb id "" then set_active c s else clear_unread id (set_active c s)
  | None => set_active c s
  end.

(** *** What the operations do to one conversation *)

Lemma insertSorted_length l m :
  length (insertSorted l m) = if MessageList.has mid l m then length l else S (length l).
Proof.
  destruct (MessageList.has mid l m) eqn:Hh.
  - unfold MessageList.insertSorted. by rewrite Hh.
  - by rewrite MessageList.insertSorted_perm.
Qed.

Lemma log_of_receive c m s c' :
  log_of (receive c m s) c' =
    if decide (c' = c) then insertSorted (log_of s c) m else log_of s c'.
Proof.
  unfold receive. rewrite insertSorted_length.
  destruct (MessageList.has mid (log_of s c) m) eqn:Hh.
  - rewrite Nat.eqb_refl. simpl. case_decide as Hc; [|done]. subst.
    unfold MessageList.insertSorted. by rewrite Hh.
  - replace (Nat.eqb (S _) _) with false by (symmetry; apply Nat.eqb_neq; lia).
    unfold log_of. simpl. case_decide; subst; by simplify_map_eq.
Qed.

Lemma log_of_load c ms s c' :
  log_of (load c ms s) c' = if decide (c' = c) then insert_all (log_of s c) ms else log_of s c'.
Proof. unfold log_of, load. simpl. case_decide; subst; by simplify_map_eq. Qed.

Lemma log_of_change_active o s c : log_of (change_active o s) c = log_of s c.
Proof. destruct o as [id|]; [|done]. simpl. by case_match. Qed.

Lemma unread_of_receive c m s c' :
  unread_of (receive c m s) c' =
    if decide (c' = c ∧ MessageList.has mid (log_of s c) m = false ∧ active s ≠ Some c)
    then num_add (unread_of s c) (int 1) else unread_of s c'.
Proof.
  unfold receive. rewrite insertSorted_length.
  destruct (MessageList.has mid (log_of s c) m) eqn:Hh.
  - rewrite Nat.eqb_refl. simpl. rewrite decide_False; [done|naive_solver].
  - replace (Nat.eqb (S _) _) with false by (symmetry; apply Nat.eqb_neq; lia). simpl.
    case_bool_decide as Ha; unfold unread_of; simpl.
    + destruct (decide (c' = c)) as [->|Hc].
      * rewrite decide_True by (split_and!; congruence). by simplify_map_eq.
      * rewrite decide_False by naive_solver. by simplify_map_eq.
    + rewrite decide_False; [done|]. intros (-> & _ & Hn). congruence.
Qed.

Lemma unread_of_clear c s c' :
  unread_of (clear_unread c s) c' = if decide (c' = c) then int 0 else unread_of s c'.
Proof. unfold unread_of, clear_unread. simpl. case_decide; subst; by simplify_map_eq. Qed.

(** *** The invariant *)

(** Every conversation is in order and without duplicates, and no more of its
    messages are unread than it has. *)
Definition counted (n : Z) (s : Log M) : Prop :=
  ∀ c, ∃ u, unread_of s c = int u ∧ (0 ≤ u ≤ n)%Z ∧ (u ≤ Z.of_nat (length (log_of s c)))%Z.

Definition log_ok (n : Z) (s : Log M) : Prop :=
  (∀ c, ordered (log_of s c)) ∧ counted n s.

Lemma log_ok_empty : log_ok 0 empty_log.
Proof.
  split; intros c.
  - unfold log_of. simpl. rewrite lookup_empty. split_and!; constructor.
  - exists 0%Z. unfold unread_of, log_of. simpl. rewrite !lookup_empty. simpl. split_and!; done.
Qed.

Lemma log_ok_weaken n n' s : (n ≤ n')%Z → log_ok n s → log_ok n' s.
Proof. intros Hn [Ho Hc]. split; [done|]. intros c. destruct (Hc c) as (u & ? & ? & ?). exists u. split_and!; [done|lia..]. Qed.

Lemma log_ok_receive n c m s :
  (n < max_safe)%Z → timed m → log_ok n s → log_ok (n + 1) (receive c m s).
Proof.
  intros Hn Hm [Ho Hc]. split; intros c'.
  - rewrite log_of_receive. case_decide; [|done]. by apply MessageList.ordered_insert.
  - destruct (Hc c') as (u & Hu & Hb & Hl). rewrite unread_of_receive, log_of_receive. case_decide as Hd.
    + destruct Hd as (-> & Hh & _). exists (u + 1)%Z. rewrite Hu, int_add.
      * rewrite decide_True, insertSorted_length, Hh by done. split_and!; [done|lia..].
      * unfold safe_Z. apply Z.leb_le. lia.
    + exists u. split_and!; [done|lia..|]. case_decide; subst; [|done].
      rewrite insertSorted_length. case_match; lia.
Qed.

Lemma insert_all_length l ms : length l ≤ length (insert_all l ms).
Proof.
  revert l. induction ms as [|m ms IH]; intros l; simpl; [done|].
  etrans; [|apply IH]. rewrite insertSorted_length. case_match; lia.
Qed.

Lemma log_ok_load n c ms s : Forall timed ms → log_ok n s → log_ok n (load c ms s).
Proof.
  intros Hm [Ho Hc]. split; intros c'; rewrite log_of_load.
  - case_decide; [|done]. by apply MessageList.ordered_insert_all.
  - destruct (Hc c') as (u & Hu & Hb & Hl). exists u. split_and!; [done|lia..|].
    case_decide; subst; [|done]. pose proof (insert_all_length (log_of s c) ms). lia.
Qed.

Lemma log_ok_clear n c s : log_ok n s → log_ok n (clear_unread c s).
Proof.
  intros [Ho Hc]. split; [done|]. intros c'. rewrite unread_of_clear.
  destruct (Hc c') as (u & Hu & Hb & Hl). case_decide; [exists 0%Z|exists u]; split_and!; done || lia.
Qed.

Lemma log_ok_set_active n o s : log_ok n s → log_ok n (set_active o s).
Proof. done. Qed.

Lemma log_ok_change_active n o s : log_ok n s → log_ok n (change_active o s).
Proof. intros H. destruct o as [id|]; [|done]. simpl. case_match; [done|by apply log_ok_clear]. Qed.

(** *** Order and repetition of deliveries *)

(** Messages with the same id are the same message. *)
Definition consistent (ms : list M) : Prop :=
  ∀ m m', m ∈ ms → m' ∈ ms → mid m = mid m' → m = m'.

Lemma elem_of_insertSorted l m x :
  consistent (m :: l) → x ∈ insertSorted l m ↔ x = m ∨ x ∈ l.
Proof.
  intros Hc. destruct (MessageList.has mid l m) eqn:Hh.
  - unfold MessageList.insertSorted. rewrite Hh. split; [by right|]. intros [->|?]; [|done].
    apply MessageList.has_spec in Hh. change (map mid) with (fmap (M:=list) mid) in Hh.
    apply list_elem_of_fmap in Hh as (y & Hy & Hin).
    rewrite (Hc m y); [done|by left|by right|done].
  - rewrite MessageList.insertSorted_perm by done. set_solver.
Qed.

Lemma elem_of_insert_all_consistent l ms x :
  consistent (l ++ ms) → x ∈ insert_all l ms ↔ x ∈ l ∨ x ∈ ms.
Proof.
  revert l. induction ms as [|m ms IH]; intros l Hc; [set_solver|]. simpl.
  assert (consistent (m :: l)) as Hm by (intros ????; apply Hc; set_solver).
  rewrite IH.
  - rewrite elem_of_insertSorted by done. set_solver.
  - intros a b Ha Hb. rewrite elem_of_app, elem_of_insertSorted in Ha, Hb by done.
    apply Hc; set_solver.
Qed.

(** The messages of a delivery that are for conversation [c]. *)
Definition for_conversation (c : string) (l : list (string * M)) : list M :=
  map snd (filter (λ p, p.1 = c) l).

Lemma for_conversation_pair c c' ms :
  for_conversation c (map (pair c') ms) = if decide (c = c') then ms else [].
Proof.
  unfold for_conversation. induction ms as [|m ms IH]; [by case_decide|]. cbn [map].
  rewrite filter_cons. cbn [fst]. repeat case_decide; subst; try done; cbn; by f_equal.
Qed.

Lemma Forall_pair {P : M → Prop} (c : string) (ms : list M) :
  Forall (λ p, P p.2) (map (pair c) ms) → Forall P ms.
Proof. induction ms as [|m ms IH]; intros H; [done|]. inversion H; subst. constructor; auto. Qed.

Lemma ordered_nil : ordered [].
Proof. split_and!; constructor. Qed.

Lemma insert_all_set ms ms' :
  Forall timed ms → consistent ms → (∀ m, m ∈ ms ↔ m ∈ ms') →
  insert_all [] ms = insert_all [] ms'.
Proof.
  intros Ht Hc Heq.
  assert (Forall timed ms') as Ht' by (rewrite Forall_forall in *; naive_solver).
  assert (consistent ms') as Hc' by (intros ????; apply Hc; naive_solver).
  destruct (MessageList.ordered_insert_all mid at_ [] ms ordered_nil Ht) as (Hs & Hn & _).
  destruct (MessageList.ordered_insert_all mid at_ [] ms' ordered_nil Ht') as (Hs' & Hn' & _).
  apply (js_sort_unique (MessageList.before' mid at_)).
  - intros x y z. rewrite !MessageList.before'_precedes. apply MessageList.precedes_trans.
  - intros x. destruct (MessageList.before' mid at_ x x) eqn:E; [|done].
    apply MessageList.before'_precedes, MessageList.precedes_irrefl in E. done.
  - done.
  - done.
  - apply NoDup_Permutation; [by apply (NoDup_fmap_1 mid)..|].
    intros x. rewrite !elem_of_insert_all_consistent by done. set_solver.
Qed.

(** *** Sequences of operations *)

Inductive log_action : Type :=
| Receive (c : string) (m : M)
| Load (c : string) (ms : list M)
| ClearUnread (c : string)
| SetActive (c : option string)
| ChangeActive (c : option string)
| Reset
| Nothing.

Definition log_step (s : Log M) (a : log_action) : Log M :=
  match a with
  | Receive c m => receive c m s
  | Load c ms => load c ms s
  | ClearUnread c => clear_unread c s
  | SetActive c => set_active c s
  | ChangeActive c => change_active c s
  | Reset => empty_log
  | Nothing => s
  end.

Definition log_run (acts : list log_action) : Log M := fold_left log_step acts empty_log.

(** The messages an action brings, and those of a sequence for one conversation. *)
Definition brings (a : log_action) : list (string * M) :=
  match a with Receive c m => [(c, m)] | Load c ms => map (pair c) ms | _ => [] end.

Definition delivered (c : string) (acts : list log_action) : list M :=
  flat_map (for_conversation c ∘ brings) acts.

Definition timed_action (a : log_action) : Prop := Forall (λ p, timed p.2) (brings a).

Definition is_reset (a : log_action) : bool := if a is Reset then true else false.

Lemma log_step_ok n s a :
  (0 ≤ n < max_safe)%Z → timed_action a → log_ok n s → log_ok (n + 1) (log_step s a).
Proof.
  intros Hn Ha Hs. assert (log_ok (n + 1) s) as Hs' by (eapply log_ok_weaken, Hs; lia).
  destruct a as [c m|c ms|c|c|c| |]; simpl; try done.
  - apply log_ok_receive; [lia| |done]. by inversion Ha.
  - apply log_ok_load; [|done]. by eapply (Forall_pair (P:=timed)).
  - by apply log_ok_clear.
  - by apply log_ok_change_active.
  - eapply log_ok_weaken, log_ok_empty. lia.
Qed.

Lemma log_run_ok acts :
  (Z.of_nat (length acts) < max_safe)%Z → Forall timed_action acts →
  log_ok (Z.of_nat (length acts)) (log_run acts).
Proof.
  intros Hlen Ha. unfold log_run.
  cut (∀ n s, (0 ≤ n)%Z → (n + Z.of_nat (length acts) < max_safe)%Z → log_ok n s →
    log_ok (n + Z.of_nat (length acts)) (fold_left log_step acts s)).
  { intros H. apply (H 0%Z); [lia..|apply log_ok_empty]. }
  clear Hlen. induction Ha as [|a acts Ha Hacts IH]; intros n s Hn Hlen Hs.
  - by rewrite Z.add_0_r.
  - cbn [fold_left length] in *. rewrite Nat2Z.inj_succ in *.
    replace (n + Z.succ (Z.of_nat (length acts)))%Z with (n + 1 + Z.of_nat (length acts))%Z by lia.
    apply IH; [lia..|]. apply log_step_ok; [lia|done..].
Qed.

Lemma log_of_step c s a :
  is_reset a = false →
  log_of (log_step s a) c = insert_all (log_of s c) (for_conversation c (brings a)).
Proof.
  intros Ha. destruct a as [c' m|c' ms|c'|c'|c'| |]; cbn [log_step brings]; try done.
  - rewrite log_of_receive. change [(c', m)] with (map (pair c') [m]).
    rewrite for_conversation_pair. by destruct (decide (c = c')) as [<-|].
  - rewrite log_of_load, for_conversation_pair. by destruct (decide (c = c')) as [<-|].
  - by rewrite log_of_change_active.
Qed.

(** Without a reset, the log of a conversation is what was delivered to it, inserted
    in the order of arrival ... *)
Lemma log_of_run c acts :
  existsb is_reset acts = false → log_of (log_run acts) c = insert_all [] (delivered c acts).
Proof.
  unfold log_run. intros Hr.
  assert (log_of empty_log c = []) as H0 by (unfold log_of; simpl; by rewrite lookup_empty).
  rewrite <-H0. generalize empty_log. clear H0. revert Hr.
  induction acts as [|a acts IH]; intros Hr s; [done|].
  simpl in Hr. apply orb_false_iff in Hr as [Ha Hr].
  cbn [fold_left delivered flat_map]. rewrite IH, log_of_step by done.
  unfold MessageList.insert_all. by rewrite fold_left_app.
Qed.

(** ... and depends only on the set of the messages delivered. *)
Lemma log_runs_converge c acts acts' :
  existsb is_reset acts = false → existsb is_reset acts' = false →
  Forall timed (delivered c acts) → consistent (delivered c acts) →
  (∀ m, m ∈ delivered c acts ↔ m ∈ delivered c acts') →
  log_of (log_run acts) c = log_of (log_run acts') c.
Proof. intros Hr Hr' Ht Hc Hs. rewrite !log_of_run by done. by apply insert_all_set. Qed.

(** A message that has arrived already changes nothing, the unread count included. *)
Lemma receive_again c m s : receive c m (receive c m s) = receive c m s.
Proof.
  assert (MessageList.has mid (log_of (receive c m s) c) m = true) as Hh.
  { rewrite log_of_receive, decide_True by done.
    destruct (MessageList.has mid (log_of s c) m) eqn:E.
    - unfold MessageList.insertSorted. by rewrite E.
    - apply MessageList.has_spec. rewrite MessageList.insertSorted_perm by done. by left. }
  unfold receive at 1. rewrite insertSorted_length, Hh, Nat.eqb_refl. done.
Qed.

End log.
#[global] Arguments log_action M : clear implicits.
End MessageLog.

(** ** [store/chatSlice.ts] *)

Module Chat.
Import MessageLog.

Record ChatMessage : Type := mkChatMessage {
  id : string; channel_id : string; sender_pubkey : string; created_at : num; content : string
}.

Record ChatChannelState : Type := mkChannel {
  ch_id : string; ch_group_id : string; ch_relay_url : string; ch_name : string;
  ch_about : string; ch_admins : list string; ch_members : list string
}.

(** [messages], [unread] and [activeChannelId] are the fields of [log]. *)
Record ChatState : Type := mkChatState {
  channels : gmap string ChatChannelState; log : Log ChatMessage; synced : gmap string bool
}.

Definition initialState : ChatState := mkChatState ∅ empty_log ∅.

Definition on_log (f : Log ChatMessage → Log ChatMessage) (s : ChatState) : ChatState :=
  mkChatState (channels s) (f (log s)) (synced s).

Definition channelStateLoaded (channel : ChatChannelState) (s : ChatState) : ChatState :=
  mkChatState (<[ch_id channel := channel]> (channels s))
    (set_active (Some (ch_id channel)) (log s)) (synced s).

Definition channelMessageReceived (c : string) (m : ChatMessage) : ChatState → ChatState :=
  on_log (receive id created_at c m).

Definition channelHistoryLoaded (c : string) (ms : list ChatMessage) : ChatState → ChatState :=
  on_log (load id created_at c ms).

Definition channelSynced (c : string) (s : ChatState) : ChatState :=
  mkChatState (channels s) (log s) (<[c := true]> (synced s)).

Definition channelUnreadCleared (c : string) : ChatState → ChatState := on_log (clear_unread c).

Definition activeChannelChanged (c : option string) : ChatState → ChatState :=
  on_log (change_active c).

Definition chatReset (s : ChatState) : ChatState := initialState.

Inductive action : Type :=
| ChannelStateLoaded (channel : ChatChannelState)
| ChannelMessageReceived (c : string) (m : ChatMessage)
| ChannelHistoryLoaded (c : string) (ms : list ChatMessage)
| ChannelSynced (c : string)
| ChannelUnreadCleared (c : string)
| ActiveChannelChanged (c : option string)
| ChatReset.

Definition dispatch (s : ChatState) (a : action) : ChatState :=
  match a with
  | ChannelStateLoaded channel => channelStateLoaded channel s
  | ChannelMessageReceived c m => channelMessageReceived c m s
  | ChannelHistoryLoaded c ms => channelHistoryLoaded c ms s
  | ChannelSynced c => channelSynced c s
  | ChannelUnreadCleared c => channelUnreadCleared c s
  | ActiveChannelChanged c => activeChannelChanged c s
  | ChatReset => chatReset s
  end.

Definition run (acts : list action) : ChatState := fold_left dispatch acts initialState.

(** What an action does to the message log. *)
Definition on_messages (a : action) : log_action ChatMessage :=
  match a with
  | ChannelStateLoaded channel => SetActive (Some (ch_id channel))
  | ChannelMessageReceived c m => Receive c m
  | ChannelHistoryLoaded c ms => Load c ms
  | ChannelSynced _ => Nothing
  | ChannelUnreadCleared c => ClearUnread c
  | ActiveChannelChanged c => ChangeActive c
  | ChatReset => Reset
  end.

Lemma log_dispatch s a : log (dispatch s a) = log_step id created_at (log s) (on_messages a).
Proof. by destruct a. Qed.

Lemma log_run_actions acts : log (run acts) = log_run id created_at (map on_messages acts).
Proof.
  unfold run, log_run. change empty_log with (log initialState). generalize initialState.
  induction acts as [|a acts IH]; intros s; [done|]. simpl. by rewrite IH, log_dispatch.
Qed.

(** After any sequence of chat actions whose messages carry integer timestamps,
    every channel's messages are in strict order of timestamp and id without a
    duplicate id, and its unread count is a number between zero and the number of
    its messages. *)
Theorem channel_logs_ordered acts c :
  (Z.of_nat (length acts) < max_safe)%Z →
  Forall (timed_action created_at ∘ on_messages) acts →
  MessageList.ordered id created_at (log_of (log (run acts)) c) ∧
  ∃ u, unread_of (log (run acts)) c = int u ∧
    (0 ≤ u ≤ Z.of_nat (length (log_of (log (run acts)) c)))%Z.
Proof.
  intros Hlen Ha. rewrite log_run_actions.
  destruct (log_run_ok id created_at (map on_messages acts)) as [Ho Hc].
  - by rewrite length_map.
  - by apply Forall_fmap.
  - split; [done|]. destruct (Hc c) as (u & Hu & Hb & Hl). exists u. split; [done|]. lia.
Qed.

(** C32: The order in which relays deliver messages, and how often, does not matter: two
    sequences of actions without a reset that deliver the same set of messages to a
    channel leave it with the same list of messages. *)
Theorem channel_logs_converge acts acts' c :
  let arrived := delivered c ∘ map on_messages in
  existsb is_reset (map on_messages acts) = false →
  existsb is_reset (map on_messages acts') = false →
  Forall (MessageList.timed created_at) (arrived acts) → consistent id (arrived acts) →
  (∀ m, m ∈ arrived acts ↔ m ∈ arrived acts') →
  log_of (log (run acts)) c = log_of (log (run acts')) c.
Proof. intros arrived. rewrite !log_run_actions. apply log_runs_converge. Qed.

(** *** A concrete channel *)

Definition channel : ChatChannelState :=
  mkChannel "wss://r|g" "g" "wss://r" "Block" "" [] [].
Definition message (id : string) (at_ : Z) : ChatMessage := mkChatMessage id "wss://r|g" "pk" (int at_) "hi".

Definition busy : list action :=
  [ChannelStateLoaded channel; ChannelMessageReceived "wss://r|g" (message "b" 1700000002);
   ActiveChannelChanged None;
   ChannelHistoryLoaded "wss://r|g" [message "a" 1700000001; message "b" 1700000002];
   ChannelMessageReceived "wss://r|g" (message "c" 1700000000);
   ChannelMessageReceived "wss://r|g" (message "c" 1700000000)].
Definition quiet : list action :=
  [ChannelHistoryLoaded "wss://r|g" [message "c" 1700000000; message "b" 1700000002; message "a" 1700000001]].

Example busy_log :
  map id (log_of (log (run busy)) "wss://r|g") = ["c"; "a"; "b"] ∧
  unread_of (log (run busy)) "wss://r|g" = int 1.
Proof. vm_compute. done. Qed.

Lemma message_timed i z : (Z.abs z < 2 ^ 52)%Z → MessageList.timed created_at (message i z).
Proof. intros. by exists z. Qed.

Lemma channel_logs_ordered_witness :
  MessageList.ordered id created_at (log_of (log (run busy)) "wss://r|g") ∧
  ∃ u, unread_of (log (run busy)) "wss://r|g" = int u ∧
    (0 ≤ u ≤ Z.of_nat (length (log_of (log (run busy)) "wss://r|g")))%Z.
Proof.
  apply channel_logs_ordered; [done|].
  repeat constructor; by apply message_timed.
Defined.

Lemma channel_logs_converge_witness :
  log_of (log (run busy)) "wss://r|g" = log_of (log (run quiet)) "wss://r|g".
Proof.
  apply (channel_logs_converge busy quiet "wss://r|g"); [done|done|..].
  - repeat constructor; by apply message_timed.
  - intros m m'. cbn. set_unfold. naive_solver.
  - intros m. cbn. set_solver.
Defined.

End Chat.

(** ** [store/dmSlice.ts] *)

Module Dm.
Import MessageLog.

Inductive DmConversationKind : Type := dm | circle.
#[global] Instance kind_eq_dec : EqDecision DmConversationKind.
Proof. solve_decision. Defined.

Record DmConversation : Type := mkConversation {
  conv_id : string; conv_kind : DmConversationKind; title : string; participants : list string
}.

Record DmMessage : Type := mkDmMessage {
  id : string; conversation_id : string; sender_pubkey : string; created_at : num; content : string
}.

(** [messages], [unread] and [activeConversationId] are the fields of [log]. *)
Record DmState : Type := mkDmState { conversations : gmap string DmConversation; log : Log DmMessage }.

Definition initialState : DmState := mkDmState ∅ empty_log.

Definition on_log (f : Log DmMessage → Log DmMessage) (s : DmState) : DmState :=
  mkDmState (conversations s) (f (log s)).

Definition conversationAdded (c : DmConversation) (s : DmState) : DmState :=
  match conversations s !! conv_id c with
  | Some _ => s
  | None => mkDmState (<[conv_id c := c]> (conversations s)) (log s)
  end.

Definition messageReceived (c : string) (m : DmMessage) : DmState → DmState :=
  on_log (receive id created_at c m).

Definition historyLoaded (c : string) (ms : list DmMessage) : DmState → DmState :=
  on_log (load id created_at c ms).

Definition activeConversationChanged (c : option string) : DmState → DmState :=
  on_log (change_active c).

Definition dmReset (s : DmState) : DmState := initialState.

Inductive action : Type :=
| ConversationAdded (c : DmConversation)
| MessageReceived (c : string) (m : DmMessage)
| HistoryLoaded (c : string) (ms : list DmMessage)
| ActiveConversationChanged (c : option string)
| DmReset.

Definition dispatch (s : DmState) (a : action) : DmState :=
  match a with
  | ConversationAdded c => conversationAdded c s
  | MessageReceived c m => messageReceived c m s
  | HistoryLoaded c ms => historyLoaded c ms s
  | ActiveConversationChanged c => activeConversationChanged c s
  | DmReset => dmReset s
  end.

Definition run (acts : list action) : DmState := fold_left dispatch acts initialState.

Definition on_messages (a : action) : log_action DmMessage :=
  match a with
  | ConversationAdded _ => Nothing
  | MessageReceived c m => Receive c m
  | HistoryLoaded c ms => Load c ms
  | ActiveConversationChanged c => ChangeActive c
  | DmReset => Reset
  end.

Lemma dm_log_dispatch s a : log (dispatch s a) = log_step id created_at (log s) (on_messages a).
Proof.
  destruct a as [c| | | |]; try done. cbn. unfold conversationAdded. by destruct (_ !! _).
Qed.

Lemma dm_log_run_actions acts : log (run acts) = log_run id created_at (map on_messages acts).
Proof.
  unfold run, log_run. change empty_log with (log initialState). generalize initialState.
  induction acts as [|a acts IH]; intros s; [done|]. simpl. by rewrite IH, dm_log_dispatch.
Qed.

Lemma conversation_kept s a i c :
  a ≠ DmReset → conversations s !! i = Some c → conversations (dispatch s a) !! i = Some c.
Proof.
  intros Ha Hc. destruct a as [c'| | | |]; try done. cbn. unfold conversationAdded.
  destruct (conversations s !! conv_id c') eqn:E; [done|]. cbn. by simplify_map_eq.
Qed.

(** A private conversation is fixed by the first action that adds it: until a reset,
    no later action changes its title, kind or participants, and what its log holds
    depends only on the set of messages delivered to it. *)
Theorem conversations_stable acts acts' c conv :
  let arrived := delivered c ∘ map on_messages in
  existsb is_reset (map on_messages (acts ++ acts')) = false →
  conversations (run acts) !! c = Some conv →
  Forall (MessageList.timed created_at) (arrived (acts ++ acts')) →
  consistent id (arrived (acts ++ acts')) →
  conversations (run (acts ++ acts')) !! c = Some conv ∧
  log_of (log (run (acts ++ acts'))) c = log_of (log (run (acts' ++ acts))) c.
Proof.
  intros arrived Hr Hc Ht Hcons. split.
  - unfold run. rewrite fold_left_app. fold (run acts). revert Hc.
    assert (existsb is_reset (map on_messages acts') = false) as Hr'.
    { rewrite map_app, existsb_app in Hr. by apply orb_false_iff in Hr as [_ ?]. }
    generalize (run acts). clear -Hr'. induction acts' as [|a acts' IH]; intros s Hs; [done|].
    simpl in *. apply orb_false_iff in Hr' as [Ha Hr']. apply IH; [done|].
    apply conversation_kept; [|done]. by intros ->.
  - rewrite !dm_log_run_actions. apply log_runs_converge; [done| |done..|].
    + rewrite map_app, existsb_app in *. by rewrite orb_comm.
    + intros m. unfold delivered. rewrite !map_app, !flat_map_app. set_solver.
Qed.

Definition group : DmConversation := mkConversation "dm:0" dm "Ana" ["a"; "b"].
Definition note (i : string) (z : Z) : DmMessage := mkDmMessage i "dm:0" "a" (int z) "hi".
Definition first : list action := [ConversationAdded group; MessageReceived "dm:0" (note "y" 1700000000)].
Definition later : list action :=
  [HistoryLoaded "dm:0" [note "y" 1700000000; note "x" 1700000000];
   ConversationAdded (mkConversation "dm:0" circle "Mallory" ["m"]);
   ActiveConversationChanged (Some "dm:0")].

Example later_unread : unread_of (log (run first)) "dm:0" = int 1 ∧
  unread_of (log (run (first ++ later))) "dm:0" = int 0.
Proof. vm_compute. done. Qed.

Lemma conversations_stable_witness :
  conversations (run (first ++ later)) !! "dm:0" = Some group ∧
  log_of (log (run (first ++ later))) "dm:0" = log_of (log (run (later ++ first))) "dm:0".
Proof.
  apply conversations_stable; [done|done|..].
  - repeat constructor; by exists 1700000000%Z.
  - intros m m'. cbn. set_unfold. naive_solver.
Defined.

End Dm.
