(* ===== verification/Acoustic.v ===== *)
(** * Acoustic threats: [constants/acousticThreats.ts] and [store/acousticSlice.ts]

    The classifier's scores are a [Float32Array], whose elements are numbers; an index
    out of range reads [undefined]. *)

From Stdlib Require Import QArith Lia.
From S2P Require Import Prelude JsNumber JsString JsStringFacts JsCollection Nostr.
Close Scope Q_scope.

Module Acoustic.

Inductive ThreatCategory : Type := SECURITY_INCIDENT | FIRE | CIVIL_UNREST | ACCIDENT.

Definition DETECTION_THRESHOLD : num := lit 80 100.

Record ThreatEntry : Type := mkEntry { e_classIndex : nat; e_label : string; e_category : ThreatCategory }.

Definition YAMNET_THREAT_MAP : list ThreatEntry :=
  [mkEntry 427 "Gunshot" SECURITY_INCIDENT; mkEntry 429 "Explosion" SECURITY_INCIDENT;
   mkEntry 25 "Screaming" SECURITY_INCIDENT; mkEntry 26 "Yell" SECURITY_INCIDENT;
   mkEntry 60 "Glass breaking" SECURITY_INCIDENT; mkEntry 345 "Crowd" CIVIL_UNREST;
   mkEntry 401 "Fire alarm" FIRE; mkEntry 402 "Smoke detector" FIRE;
   mkEntry 504 "Crash" ACCIDENT; mkEntry 505 "Car crash" ACCIDENT].

Record ThreatDetection : Type := mkDetection {
  classIndex : nat; label : string; category : ThreatCategory; confidence : num;
  fingerprint : option string
}.

Definition detection (e : ThreatEntry) (c : num) : ThreatDetection :=
  mkDetection (e_classIndex e) (e_label e) (e_category e) c None.

Definition better (best : option ThreatDetection) (c : num) : bool :=
  match best with None => true | Some b => num_lt (confidence b) c end.

Definition threat_step (scores : list num) (best : option ThreatDetection) (e : ThreatEntry)
    : option ThreatDetection :=
  match scores !! e_classIndex e with
  | Some c =>
      if num_le DETECTION_THRESHOLD c && better best c then Some (detection e c) else best
  | None => best
  end.

Definition getThreatFromScores (scores : list num) : option ThreatDetection :=
  fold_left (threat_step scores) YAMNET_THREAT_MAP None.

(** The quantized scores, each followed by a comma. *)
Definition summary (scores : list num) : string :=
  fold_right (λ x s, num_to_string (num_round (num_mul x (int 100))) +:+ "," +:+ s) "" scores.

Section fingerprint.
Context `{Sha256}.
Definition acousticFingerprint (scores : list num) : string :=
  to_hex (sha256 (utf8_encode (summary scores))).
End fingerprint.

(** ** [acousticSlice.ts] *)

Record AcousticState : Type := mkAcoustic {
  isRunning : bool; currentAlert : option ThreatDetection; lastDetectionAt : option Z
}.

Definition initialState : AcousticState := mkAcoustic false None None.

Definition detectionStarted (s : AcousticState) : AcousticState :=
  mkAcoustic true (currentAlert s) (lastDetectionAt s).
Definition detectionStopped (s : AcousticState) : AcousticState :=
  mkAcoustic false (currentAlert s) (lastDetectionAt s).
(** [now] is [Date.now()]. *)
Definition detectionReceived (d : ThreatDetection) (now : Z) (s : AcousticState) : AcousticState :=
  mkAcoustic (isRunning s) (Some d) (Some now).
Definition alertDismissed (s : AcousticState) : AcousticState :=
  mkAcoustic (isRunning s) None (lastDetectionAt s).

Inductive action : Type :=
| DetectionStarted | DetectionStopped | DetectionReceived (d : ThreatDetection) (now : Z) | AlertDismissed.

Definition dispatch (s : AcousticState) (a : action) : AcousticState :=
  match a with
  | DetectionStarted => detectionStarted s
  | DetectionStopped => detectionStopped s
  | DetectionReceived d now => detectionReceived d now s
  | AlertDismissed => alertDismissed s
  end.

(** ** Facts *)

(** [d] is what entry [e] of the table scores. *)
Definition scored (scores : list num) (e : ThreatEntry) (d : ThreatDetection) : Prop :=
  ∃ c, scores !! e_classIndex e = Some c ∧ num_le DETECTION_THRESHOLD c = true ∧ d = detection e c.

(** Of the entries [es], [best] is one of the highest score. *)
Definition best_of (scores : list num) (es : list ThreatEntry) (best : option ThreatDetection) : Prop :=
  match best with
  | None => ∀ e d, e ∈ es → ¬ scored scores e d
  | Some b =>
      (∃ e, e ∈ es ∧ scored scores e b) ∧
      ∀ e d, e ∈ es → scored scores e d → num_lt (confidence b) (confidence d) = false
  end.

Lemma elem_of_snoc {A} (l : list A) x y : x ∈ l ++ [y] ↔ x ∈ l ∨ x = y.
Proof. set_solver. Qed.

Lemma scored_fun scores e d d' : scored scores e d → scored scores e d' → d = d'.
Proof. intros (c & Hc & _ & ->) (c' & Hc' & _ & ->). by simplify_eq. Qed.

(** An entry that does not beat the best leaves it ... *)
Lemma best_of_keep scores es best e :
  (∀ d, scored scores e d → better best (confidence d) = false) →
  best_of scores es best → best_of scores (es ++ [e]) best.
Proof.
  intros He. destruct best as [b|]; simpl.
  - intros [(e0 & Hin & He0) Hmax]. split; [exists e0; split; [set_solver|done]|].
    intros e' d Hin' Hd. apply elem_of_snoc in Hin' as [Hin'| ->]; [by eapply Hmax|by apply He].
  - intros Hnone e' d Hin' Hd. apply elem_of_snoc in Hin' as [Hin'| ->]; [by eapply Hnone|].
    by apply He in Hd.
Qed.

(** ... and one that does replaces it. *)
Lemma best_of_take scores es best e d :
  scored scores e d → better best (confidence d) = true →
  best_of scores es best → best_of scores (es ++ [e]) (Some d).
Proof.
  intros Hd Hb Hbest. split; [exists e; split; [set_solver|done]|].
  intros e' d' Hin' Hd'. apply elem_of_snoc in Hin' as [Hin'| ->].
  - destruct best as [b|]; simpl in *; [|by destruct (Hbest e' d')].
    destruct (num_lt (confidence d) (confidence d')) eqn:E; [|done].
    destruct Hbest as [_ Hmax]. rewrite <-(Hmax e' d' Hin' Hd'). symmetry. by eapply num_lt_trans.
  - rewrite (scored_fun _ _ _ _ Hd Hd'). apply num_lt_irrefl.
Qed.

Lemma best_of_step scores es best e :
  best_of scores es best → best_of scores (es ++ [e]) (threat_step scores best e).
Proof.
  unfold threat_step. destruct (scores !! e_classIndex e) as [c|] eqn:Hc.
  2: { apply best_of_keep. intros d (c & ? & _). congruence. }
  destruct (num_le DETECTION_THRESHOLD c && better best c) eqn:Hb.
  - apply andb_true_iff in Hb as [Ht Hb]. apply best_of_take; [by exists c|done].
  - apply best_of_keep. intros d (c' & Hc' & Ht & ->). simplify_eq. by rewrite Ht in Hb.
Qed.

(** A window of audio raises an alert exactly when some listed class scores at least
    the threshold, and the alert is a listed class of the highest such score. *)
Theorem threat_is_the_best scores : best_of scores YAMNET_THREAT_MAP (getThreatFromScores scores).
Proof.
  unfold getThreatFromScores.
  cut (∀ es seen best, best_of scores seen best →
    best_of scores (seen ++ es) (fold_left (threat_step scores) es best)).
  { intros H. apply (H _ []). simpl. set_solver. }
  induction es as [|e es IH]; intros seen best Hb; [by rewrite app_nil_r|].
  rewrite cons_middle, app_assoc. apply IH. by apply best_of_step.
Qed.

Example fire_alarm :
  option_map label (getThreatFromScores (<[402 := lit 9 10]> (<[401 := lit 9 10]> (replicate 521 (int 0)))))
    = Some "Fire alarm".
Proof. vm_compute. reflexivity. Qed.

End Acoustic.
