(* ===== verification/SmallSlices.v ===== *)
(** * The smaller stores: [store/reportSlice.ts], [uiSlice.ts], [safetyLogSlice.ts],
    [acousticSlice.ts], [insightsEventsSlice.ts], [communityStatsSlice.ts], and the root
    store of [store/index.ts] *)

From Stdlib Require Import Lia.
From S2P Require Import Prelude JsNumber JsString JsStringFacts JsCollection Json.
From S2P Require Import SharedTypes HomeLocation EventsSlice CirclesSlice ChatSlices.
From S2P Require Import Acoustic.

(** ** [reportSlice.ts] *)

Module Reports.

Record ReportsState : Type := mkReports {
  items : list CommunityReport; initialized : bool; error : option string
}.

Definition initialState : ReportsState := mkReports [] false None.

Definition is_report (id : string) (r : CommunityReport) : bool := String.eqb (rp_id r) id.

(** The report is older than the one stored at [idx]. *)
Definition older (report stored : CommunityReport) : bool :=
  str_lt (rp_updated_at report) (rp_updated_at stored).

(** An update does not move the report; a new one goes first, and the list is cut to
    one hundred. *)
Definition upsert (l : list CommunityReport) (report : CommunityReport) : list CommunityReport :=
  match find_index (is_report (rp_id report)) l with
  | Some idx =>
      match l !! idx with
      | Some stored => if older report stored then l else take 100 (<[idx := report]> l)
      | None => l
      end
  | None => take 100 (report :: l)
  end.

Definition reportReceived (r : CommunityReport) (s : ReportsState) : ReportsState :=
  mkReports (upsert (items s) r) (initialized s) (error s).
Definition reportsHydrated (rs : list CommunityReport) (s : ReportsState) : ReportsState :=
  mkReports (fold_left upsert rs (items s)) true None.
Definition reportsHydrationFailed (msg : string) (s : ReportsState) : ReportsState :=
  mkReports (items s) true (Some msg).

Inductive action : Type :=
| ReportReceived (r : CommunityReport)
| ReportsHydrated (rs : list CommunityReport)
| ReportsHydrationFailed (msg : string).

Definition dispatch (s : ReportsState) (a : action) : ReportsState :=
  match a with
  | ReportReceived r => reportReceived r s
  | ReportsHydrated rs => reportsHydrated rs s
  | ReportsHydrationFailed msg => reportsHydrationFailed msg s
  end.

(** *** Facts *)

Definition stored (l : list CommunityReport) (id : string) : option CommunityReport :=
  List.find (is_report id) l.

Definition report_ids (l : list CommunityReport) : list string := map rp_id l.

Lemma is_report_spec id r : is_report id r = true ↔ rp_id r = id.
Proof. apply String.eqb_eq. Qed.

Lemma upsert_sublist l r :
  ∃ l', upsert l r = take 100 l' ∨ upsert l r = l ∧ l' = l.
Proof.
  unfold upsert. destruct (find_index _ l) as [i|]; [destruct (l !! i) as [x|]; [destruct (older r x)|]|];
    eexists; eauto.
Qed.

Lemma upsert_length l r : length l <= 100 → length (upsert l r) <= 100.
Proof.
  intros Hl. destruct (upsert_sublist l r) as (l' & [->|[-> _]]); [|done]. rewrite length_take. lia.
Qed.

Lemma NoDup_take_map {A B} (f : A → B) n l : NoDup (map f l) → NoDup (map f (take n l)).
Proof.
  intros Hn. rewrite <-(take_drop n l), map_app in Hn. by apply NoDup_app in Hn as [? _].
Qed.

Lemma upsert_NoDup l r : NoDup (report_ids l) → NoDup (report_ids (upsert l r)).
Proof.
  unfold upsert, report_ids. intros Hn. destruct (find_index _ l) as [i|] eqn:E.
  - apply find_index_Some in E as (x & Hx & Hid%is_report_spec & _). rewrite Hx.
    destruct (older r x); [done|]. apply NoDup_take_map.
    change (map rp_id) with (fmap (M:=list) rp_id) in *. rewrite list_fmap_insert.
    rewrite list_insert_id; [done|]. rewrite list_lookup_fmap, Hx. simpl. by rewrite Hid.
  - apply (NoDup_take_map rp_id 100 (r :: l)). cbn [map]. apply NoDup_cons. split; [|done].
    intros (x & Hx & Hin%list_elem_of_In)%list_elem_of_In%in_map_iff.
    rewrite find_index_None in E. specialize (E x Hin). unfold is_report in E.
    by rewrite Hx, String.eqb_refl in E.
Qed.

Definition inv (s : ReportsState) : Prop := NoDup (report_ids (items s)) ∧ length (items s) <= 100.

Lemma inv_dispatch s a : inv s → inv (dispatch s a).
Proof.
  intros [Hn Hl]. destruct a as [r|rs|msg]; [split; [by apply upsert_NoDup|by apply upsert_length]| |done].
  unfold inv. simpl. revert Hn Hl. generalize (items s). induction rs as [|r rs IH]; intros l Hn Hl; [done|].
  simpl. apply IH; [by apply upsert_NoDup|by apply upsert_length].
Qed.

Inductive reachable : ReportsState → Prop :=
| reach_init : reachable initialState
| reach_step s a : reachable s → reachable (dispatch s a).

Lemma reachable_inv s : reachable s → inv s.
Proof. induction 1; [split; [constructor|simpl; lia]|by apply inv_dispatch]. Qed.

(** In every reachable state the reports have distinct ids and are at most one
    hundred, and a report that arrives is either kept out because the stored one is
    newer, in which case nothing changes, or is in the list: at the front when it is
    new, in the place of the old one when it is an update. *)
Theorem reports_well_formed s r :
  reachable s →
  let s' := dispatch s (ReportReceived r) in
  NoDup (report_ids (items s')) ∧ length (items s') <= 100 ∧
  match find_index (is_report (rp_id r)) (items s) with
  | Some i => ∃ x, items s !! i = Some x ∧ rp_id x = rp_id r ∧
      items s' = if older r x then items s else <[i := r]> (items s)
  | None => head (items s') = Some r ∧ (length (items s) < 100 → items s' = r :: items s)
  end.
Proof.
  intros Hr s'. pose proof (reachable_inv s Hr) as Hs.
  destruct (inv_dispatch s (ReportReceived r) Hs) as [Hn Hl]. split_and!; [done..|].
  destruct Hs as [_ Hlen]. unfold s'. simpl. unfold upsert.
  destruct (find_index _ (items s)) as [i|] eqn:E.
  - apply find_index_Some in E as (x & Hx & Hid%is_report_spec & _). exists x. rewrite Hx.
    split_and!; [done..|]. destruct (older r x); [done|]. apply take_ge. by rewrite length_insert.
  - split; [done|]. intros Hlt. apply take_ge. simpl. lia.
Qed.

End Reports.

(** ** [uiSlice.ts] *)

Module Ui.

Inductive TravelMode : Type := walking | driving | cycling.
Inductive IntentName : Type := IntentRoutes | IntentAcoustic | IntentHomeRoute.

(** The [type] of an intent is always ['overlay'] in this store. *)
Record UiIntent : Type := mkIntent { name : option IntentName }.

Record SafeRoute : Type := mkSafeRoute { sr_id : string; sr_coordinates : list (num * num) }.

Record HomeRoute : Type := mkHomeRoute {
  hr_id : string; hr_coordinates : list (num * num); hr_distanceKm : num; hr_durationMin : num;
  hr_warnings : list string; hr_label : string; hr_mode : TravelMode; hr_alertIntersections : num
}.

Record UiState : Type := mkUi {
  uiIntent : UiIntent; safeRoutes : list SafeRoute;
  homeLocation : option HomeLocation.HomeLocation;
  homeRoute : option HomeRoute; homeRoutes : list HomeRoute
}.

Definition initialState : UiState := mkUi (mkIntent None) [] None None [].

Definition setOverlayIntent (n : IntentName) (s : UiState) : UiState :=
  mkUi (mkIntent (Some n)) (safeRoutes s) (homeLocation s) (homeRoute s) (homeRoutes s).
Definition consumeOverlayIntent (s : UiState) : UiState :=
  mkUi (mkIntent None) (safeRoutes s) (homeLocation s) (homeRoute s) (homeRoutes s).
Definition safeRoutesSet (rs : list SafeRoute) (s : UiState) : UiState :=
  mkUi (uiIntent s) rs (homeLocation s) (homeRoute s) (homeRoutes s).
Definition safeRoutesCleared (s : UiState) : UiState :=
  mkUi (uiIntent s) [] (homeLocation s) (homeRoute s) (homeRoutes s).
Definition setHomeLocation (h : HomeLocation.HomeLocation) (s : UiState) : UiState :=
  mkUi (uiIntent s) (safeRoutes s) (Some h) (homeRoute s) (homeRoutes s).
Definition clearHomeLocation (s : UiState) : UiState :=
  mkUi (uiIntent s) (safeRoutes s) None (homeRoute s) (homeRoutes s).
Definition homeRoutesSet (rs : list HomeRoute) (s : UiState) : UiState :=
  mkUi (uiIntent s) (safeRoutes s) (homeLocation s) (head rs) rs.
(** An index that names no route leaves the selection. *)
Definition homeRouteSelect (i : num) (s : UiState) : UiState :=
  let selected := if is_safe_integer i && num_le (int 0) i then homeRoutes s !! Z.to_nat (to_Z i) else None in
  mkUi (uiIntent s) (safeRoutes s) (homeLocation s)
    (match selected with Some r => Some r | None => homeRoute s end) (homeRoutes s).
Definition homeRoutesCleared (s : UiState) : UiState :=
  mkUi (uiIntent s) (safeRoutes s) (homeLocation s) None [].
Definition homeRouteSet (r : HomeRoute) (s : UiState) : UiState :=
  mkUi (uiIntent s) (safeRoutes s) (homeLocation s) (Some r) [r].
Definition homeRouteCleared (s : UiState) : UiState :=
  mkUi (uiIntent s) (safeRoutes s) (homeLocation s) None [].

Inductive action : Type :=
| SetOverlayIntent (n : IntentName) | ConsumeOverlayIntent
| SafeRoutesSet (rs : list SafeRoute) | SafeRoutesCleared
| SetHomeLocation (h : HomeLocation.HomeLocation) | ClearHomeLocation
| HomeRoutesSet (rs : list HomeRoute) | HomeRouteSelect (i : num) | HomeRoutesCleared
| HomeRouteSet (r : HomeRoute) | HomeRouteCleared.

Definition dispatch (s : UiState) (a : action) : UiState :=
  match a with
  | SetOverlayIntent n => setOverlayIntent n s
  | ConsumeOverlayIntent => consumeOverlayIntent s
  | SafeRoutesSet rs => safeRoutesSet rs s
  | SafeRoutesCleared => safeRoutesCleared s
  | SetHomeLocation h => setHomeLocation h s
  | ClearHomeLocation => clearHomeLocation s
  | HomeRoutesSet rs => homeRoutesSet rs s
  | HomeRouteSelect i => homeRouteSelect i s
  | HomeRoutesCleared => homeRoutesCleared s
  | HomeRouteSet r => homeRouteSet r s
  | HomeRouteCleared => homeRouteCleared s
  end.

End Ui.

(** ** [safetyLogSlice.ts] *)

Module SafetyLog.

Inductive EntryType : Type := Proximity | AcousticEntry | RouteEntry.
Record SafetyLogEntry : Type := mkLogEntry { le_type : EntryType; le_label : string; le_timestamp : num }.
Record SafetyLogState : Type := mkSafetyLog { entries : list SafetyLogEntry }.

Definition initialState : SafetyLogState := mkSafetyLog [].

(** [unshift], then [pop] when there are more than one hundred. *)
Definition logSafetyEvent (e : SafetyLogEntry) (s : SafetyLogState) : SafetyLogState :=
  let l := e :: entries s in
  mkSafetyLog (if (100 <? length l)%nat then removelast l else l).

Lemma log_bounded s e : length (entries s) <= 100 → length (entries (logSafetyEvent e s)) <= 100.
Proof.
  intros Hs. unfold logSafetyEvent. cbn [entries].
  destruct (Nat.ltb_spec 100 (length (e :: entries s))) as [Hlt|Hle]; [|done].
  rewrite removelast_firstn_len, List.length_firstn. cbn [length] in *. lia.
Qed.

End SafetyLog.

(** ** [insightsEventsSlice.ts] and [communityStatsSlice.ts]

    Two thunks with the same life cycle: pending, then fulfilled or rejected. *)

Module Fetched.

Record State (P : Type) : Type := mkFetched { value : P; loading : bool; error : option string }.
#[global] Arguments mkFetched {P} _ _ _.
#[global] Arguments value {P} _.
#[global] Arguments loading {P} _.
#[global] Arguments error {P} _.

Inductive action (P : Type) : Type :=
| FetchPending
| FetchFulfilled (payload : P)
| FetchRejected (message : option string).
#[global] Arguments FetchPending {P}.
#[global] Arguments FetchFulfilled {P} _.
#[global] Arguments FetchRejected {P} _.

Definition dispatch {P} (s : State P) (a : action P) : State P :=
  match a with
  | FetchPending => mkFetched (value s) true None
  | FetchFulfilled p => mkFetched p false (error s)
  | FetchRejected m => mkFetched (value s) false (Some (default "Error" m))
  end.

(** What dispatching the thunk does, given what the server answers. *)
Definition thunk {P} (answer : outcome P) (s : State P) : State P :=
  fold_left dispatch
    [FetchPending; match answer with Ok p => FetchFulfilled p | Throw m => FetchRejected (Some m) end] s.

Lemma thunk_settles {P} (answer : outcome P) (s : State P) :
  loading (thunk answer s) = false ∧
  match answer with
  | Ok p => value (thunk answer s) = p ∧ error (thunk answer s) = None
  | Throw m => value (thunk answer s) = value s ∧ error (thunk answer s) = Some m
  end.
Proof. by destruct answer. Qed.

Record BucketedEvent : Type := mkBucket {
  bk_bucket : string; bk_lat : num; bk_lng : num; bk_count : num; bk_eventType : string
}.
Record ReporterStat : Type := mkReporter {
  rs_pubkey : string; rs_reportCount : num; rs_trustScore : num; rs_tier : string
}.
Record CommunityStats : Type := mkStats { reporters : list ReporterStat; totalVerified : num }.

Definition InsightsEventsState : Type := State (list BucketedEvent).
Definition CommunityStatsState : Type := State CommunityStats.
Definition insights_initial : InsightsEventsState := mkFetched [] false None.
Definition stats_initial : CommunityStatsState := mkFetched (mkStats [] (int 0)) false None.

End Fetched.

(** ** The root store: [store/index.ts]

    [configureStore] gives every action to every reducer, and the actions of a slice are
    known to that slice only. *)

Module Root.

Record RootState : Type := mkRoot {
  events : Events.EventsState; acoustic : Acoustic.AcousticState; reports : Reports.ReportsState;
  circles : Circles.CirclesState; ui : Ui.UiState; insightsEvents : Fetched.InsightsEventsState;
  communityStats : Fetched.CommunityStatsState; safetyLog : SafetyLog.SafetyLogState;
  chat : Chat.ChatState; dm : Dm.DmState
}.

Definition initialState : RootState :=
  mkRoot Events.initialState Acoustic.initialState Reports.initialState Circles.initialState
    Ui.initialState Fetched.insights_initial Fetched.stats_initial SafetyLog.initialState
    Chat.initialState Dm.initialState.

Inductive action : Type :=
| EventsAction (a : Events.action) | AcousticAction (a : Acoustic.action)
| ReportsAction (a : Reports.action) | CirclesAction (a : Circles.action)
| UiAction (a : Ui.action) | InsightsAction (a : Fetched.action (list Fetched.BucketedEvent))
| StatsAction (a : Fetched.action Fetched.CommunityStats)
| LogAction (e : SafetyLog.SafetyLogEntry) | ChatAction (a : Chat.action) | DmAction (a : Dm.action).

Definition dispatch (s : RootState) (a : action) : RootState :=
  mkRoot
    (if a is EventsAction a then Events.dispatch (events s) a else events s)
    (if a is AcousticAction a then Acoustic.dispatch (acoustic s) a else acoustic s)
    (if a is ReportsAction a then Reports.dispatch (reports s) a else reports s)
    (if a is CirclesAction a then Circles.dispatch (circles s) a else circles s)
    (if a is UiAction a then Ui.dispatch (ui s) a else ui s)
    (if a is InsightsAction a then Fetched.dispatch (insightsEvents s) a else insightsEvents s)
    (if a is StatsAction a then Fetched.dispatch (communityStats s) a else communityStats s)
    (if a is LogAction e then SafetyLog.logSafetyEvent e (safetyLog s) else safetyLog s)
    (if a is ChatAction a then Chat.dispatch (chat s) a else chat s)
    (if a is DmAction a then Dm.dispatch (dm s) a else dm s).

Inductive reachable : RootState → Prop :=
| reach_init : reachable initialState
| reach_step s a : reachable s → reachable (dispatch s a).

(** The invariants of the slices hold together in every reachable state. *)
Lemma reachable_slices s : reachable s →
  Events.reachable (events s) ∧ Circles.reachable (circles s) ∧ Reports.reachable (reports s) ∧
  length (SafetyLog.entries (safetyLog s)) <= 100.
Proof.
  induction 1 as [|s a Hs (He & Hc & Hr & Hl)].
  - split_and!; [constructor..|]. simpl. lia.
  - destruct a; split_and!; try done; try (by constructor). by apply SafetyLog.log_bounded.
Qed.

End Root.
