(* ===== verification/ChatRules.v ===== *)
(** * The rules of the chat: [services/chat/eventValidation.ts], [conversationId.ts],
    [dmConversation.ts], [circleChat.ts] and [nip29.ts]

    What an inbound event must satisfy, what identifies a conversation, and the
    templates of public (NIP-29) channels. *)

From Stdlib Require Import Lia.
From S2P Require Import Prelude JsNumber JsString JsStringFacts JsCollection Json.
From S2P Require Import JsonFacts Nostr CryptoModel Platform.

Module ChatRules.

(** ** [eventValidation.ts] *)

Definition MAX_EVENT_BYTES : Z := 100000.
Definition MAX_MESSAGE_BYTES : Z := 16384.
Definition MAX_CREATED_AT_SKEW_SECONDS : num := int 172800.
Definition MAX_TAGS : nat := 256.
Definition MAX_ROOM_PARTICIPANTS : nat := 10.

Definition isLowercaseHex64 (value : string) : bool := is_lower_hex64 value.

(** [JSON.stringify([0, pubkey, created_at, kind, tags, content])] *)
Definition serialized (e : Event) : json :=
  JArr [JNum (int 0); JStr (pubkey e); JNum (created_at e); JNum (kind e);
        tags_to_json (tags e); JStr (content e)].

(** The length is in UTF-16 code units. *)
Definition eventSizeBytes (e : Event) : Z := str_length (stringify (serialized e)).

Definition withinEventBounds (e : Event) (now : num) (maxBytes : option Z) (maxSkew : option num)
    : bool :=
  if (default MAX_EVENT_BYTES maxBytes <? eventSizeBytes e)%Z then false
  else if MAX_TAGS <? length (tags e) then false
  else if negb (isLowercaseHex64 (pubkey e)) then false
  else
    let skew := num_abs (num_sub now (created_at e)) in
    negb (num_lt (default MAX_CREATED_AT_SKEW_SECONDS maxSkew) skew).

(** The loop over the tags, with the value found so far: a second tag of the name
    gives [null] only when a value has been found. *)
Fixpoint single_tag_loop (name : string) (found : option string) (ts : list (list string))
    : option string :=
  match ts with
  | [] => found
  | tag :: ts =>
      if bool_decide (tag !! 0 = Some name) then
        match found with
        | Some _ => None
        | None => single_tag_loop name (tag !! 1) ts
        end
      else single_tag_loop name found ts
  end.

Definition singleTag (e : Event) (name : string) : option string :=
  single_tag_loop name None (tags e).

Definition validMessageContent (content : string) : bool :=
  (0 <? str_length content)%Z && (str_length content <=? MAX_MESSAGE_BYTES)%Z.

(** ** [conversationId.ts] *)

Definition VERSION_PREFIX : string := "sentinelmesh:chat:v1".

Definition normalizeParticipants (pubkeys : list string) : list string :=
  sort_strings (set_of (List.filter isLowercaseHex64 (map toLowerCase pubkeys))).

Definition participantKey (pubkeys : list string) : string :=
  VERSION_PREFIX +:+ ":" +:+ str_join "," (normalizeParticipants pubkeys).

Definition channelConversationId (relayUrl groupId : string) : string :=
  VERSION_PREFIX +:+ ":channel:" +:+ relayUrl +:+ ":" +:+ groupId.

(** ** [circleChat.ts] *)

Record CircleChatMember : Type := mkChatMember { cm_pubkey : string; cm_pending : bool }.

Definition MAX_CIRCLE_CHAT_PARTICIPANTS : nat := 10.

Definition circleChatParticipants (ownerPubkey : string) (members : list CircleChatMember)
    : list string :=
  let owner := toLowerCase ownerPubkey in
  let active := List.filter (λ pubkey, negb (String.eqb pubkey owner))
    (map (toLowerCase ∘ cm_pubkey) (List.filter (negb ∘ cm_pending) members)) in
  normalizeParticipants (owner :: active).

Definition circleChatFeasible (participants : list string) : bool :=
  (2 <=? length participants) && (length participants <=? MAX_CIRCLE_CHAT_PARTICIPANTS).

(** ** [dmConversation.ts] *)

Record DirectConversation : Type := mkDirect {
  d_id : string; d_participants : list string; d_title : string
}.

Definition peerParticipants (myPubkey : string) (others : list string) : list string :=
  List.filter (λ p, negb (String.eqb p (toLowerCase myPubkey))) (normalizeParticipants others).

Section ids.
Context `{Sha256}.

Definition conversationIdFor (pubkeys : list string) : string :=
  to_hex (sha256 (utf8_encode (participantKey pubkeys))).

Definition directConversationId (a b : string) : string := conversationIdFor [a; b].

Definition roomConversationId (participants : list string) : string := conversationIdFor participants.

Definition buildDirectConversation (myPubkey recipientPubkey : string) (title : option string)
    : outcome DirectConversation :=
  if negb (isLowercaseHex64 recipientPubkey) then Throw "invalid recipient public key"
  else
    let participants := normalizeParticipants [myPubkey; recipientPubkey] in
    Ok (mkDirect (conversationIdFor participants) participants
          (default (str_slice 0 12 recipientPubkey) title)).
End ids.

(** ** [nip29.ts] *)

Definition NIP29_KIND_MESSAGE : num := int 9.
Definition NIP29_KIND_METADATA : num := int 39000.
Definition NIP29_KIND_ADMINS : num := int 39001.
Definition NIP29_KIND_MEMBERS : num := int 39002.
Definition NIP29_KIND_ROLES : num := int 39003.
Definition NIP29_STATE_KINDS : list num :=
  [NIP29_KIND_METADATA; NIP29_KIND_ADMINS; NIP29_KIND_MEMBERS; NIP29_KIND_ROLES].
Definition NIP29_KIND_REMOVE_USER : num := int 9001.
Definition NIP29_KIND_SET_METADATA : num := int 9002.
Definition NIP29_KIND_DELETE_EVENT : num := int 9005.
Definition NIP29_KIND_CREATE_GROUP : num := int 9007.
Definition NIP29_KIND_PIN : num := int 9010.

Record ChannelMessage : Type := mkChannelMessage { cm_groupId : string; cm_template : EventTemplate }.

Section nip29.
Context `{Sha256, Random, NostrTools}.

Definition clock : prog World num := s ← now_seconds; mret (int s).

Definition buildManagementTemplate (kind : num) (groupId : string) (ts : list (list string))
    (content : string) : prog World EventTemplate :=
  now ← clock; mret (mkTemplate kind now (["h"; groupId] :: ts) content).

Definition newGroupId : prog World string := b ← getRandomValues 16; mret (to_hex b).

Definition createGroupTemplate (groupId : string) : prog World EventTemplate :=
  buildManagementTemplate NIP29_KIND_CREATE_GROUP groupId [] "".

Definition deleteMessageTemplate (groupId eventId : string) : prog World EventTemplate :=
  buildManagementTemplate NIP29_KIND_DELETE_EVENT groupId [["e"; eventId]] "".

Definition removeUserTemplate (groupId pubkey : string) : prog World EventTemplate :=
  buildManagementTemplate NIP29_KIND_REMOVE_USER groupId [["p"; toLowerCase pubkey]] "".

Definition setMetadataTemplate (groupId : string) (metadata : json) : prog World EventTemplate :=
  buildManagementTemplate NIP29_KIND_SET_METADATA groupId [] (stringify metadata).

Definition pinMessageTemplate (groupId eventId : string) : prog World EventTemplate :=
  buildManagementTemplate NIP29_KIND_PIN groupId [["e"; eventId]] "".

Definition createChannelMessage (signerPubkey groupId content : string) : prog World ChannelMessage :=
  _ ← check (validMessageContent content) "invalid message content";
  _ ← check (truthy groupId) "missing group id";
  now ← clock;
  mret (mkChannelMessage groupId (mkTemplate NIP29_KIND_MESSAGE now [["h"; groupId]] content)).

Definition isSignatureValid (e : Event) : bool := verifyEvent e.

Definition validateChannelMessage (e : Event) (groupId : string) (now : num) : bool :=
  num_eqb (kind e) NIP29_KIND_MESSAGE && withinEventBounds e now None None && isSignatureValid e
  && bool_decide (singleTag e "h" = Some groupId) && validMessageContent (content e).

Definition validateGroupStateEvent (e : Event) (groupId : string) (relaySelfPubkey : option string)
    : prog World bool :=
  now ← clock;
  mret (existsb (num_eqb (kind e)) NIP29_STATE_KINDS && withinEventBounds e now None None
    && isSignatureValid e
    && (bool_decide (singleTag e "d" = Some groupId) || bool_decide (singleTag e "h" = Some groupId))
    && match relaySelfPubkey with
       | Some self => negb (truthy self) || String.eqb (pubkey e) self
       | None => true
       end).

Definition signChannelMessage (signer : NostrSigner World) (message : ChannelMessage)
    : prog World Event := s_signEvent signer (cm_template message).

End nip29.

(** ** Participants *)

Lemma elem_of_normalize l x :
  x ∈ normalizeParticipants l ↔ is_lower_hex64 x = true ∧ ∃ y, y ∈ l ∧ toLowerCase y = x.
Proof.
  unfold normalizeParticipants. rewrite elem_of_sort_strings, elem_of_set_of, elem_of_filter_b.
  change (map toLowerCase l) with (toLowerCase <$> l). rewrite list_elem_of_fmap.
  unfold isLowercaseHex64. naive_solver.
Qed.

Lemma NoDup_normalize l : NoDup (normalizeParticipants l).
Proof. apply NoDup_sort_strings, NoDup_set_of. Qed.

Lemma normalize_lower l : Forall (λ x, is_lower_hex64 x = true) (normalizeParticipants l).
Proof. apply Forall_forall. by intros x [? _]%elem_of_normalize. Qed.

(** The normal form depends on the set only. *)
Lemma normalize_set l l' :
  (∀ x, x ∈ normalizeParticipants l ↔ x ∈ normalizeParticipants l') →
  normalizeParticipants l = normalizeParticipants l'.
Proof.
  unfold normalizeParticipants. intros Heq. apply sort_strings_perm.
  apply NoDup_Permutation; [apply NoDup_set_of..|]. intros x. specialize (Heq x).
  by rewrite !elem_of_sort_strings in Heq.
Qed.

Lemma normalize_idemp l : normalizeParticipants (normalizeParticipants l) = normalizeParticipants l.
Proof.
  apply normalize_set. intros x. rewrite !elem_of_normalize. split.
  - intros (Hx & y & (Hy & z & Hz & Hzy)%elem_of_normalize & <-). split; [done|].
    exists z. split; [done|]. by rewrite (lower_hex64_fixed y).
  - intros (Hx & y & Hy & Hyx). split; [done|]. exists x.
    rewrite elem_of_normalize. split_and!; [naive_solver..|by apply lower_hex64_fixed].
Qed.

Lemma str_app_eq_len (s s' t t' : string) :
  String.length s = String.length s' → s +:+ t = s' +:+ t' → s = s' ∧ t = t'.
Proof.
  revert s'. induction s as [|c s IH]; intros [|c' s'] Hl; try done.
  rewrite !str_app_cons. intros [= -> Heq]. apply IH in Heq as [-> ->]; [done|]. by injection Hl.
Qed.

Lemma str_join_cons2 x y l : str_join "," (x :: y :: l) = x +:+ "," +:+ str_join "," (y :: l).
Proof. done. Qed.

Lemma join_hex_inj l l' :
  Forall (λ x, is_lower_hex64 x = true) l → Forall (λ x, is_lower_hex64 x = true) l' →
  str_join "," l = str_join "," l' → l = l'.
Proof.
  intros Hl. revert l'. induction Hl as [|x l Hx Hl IH]; intros l' Hl'.
  - destruct Hl' as [|y [|z l'] Hy]; [done|..]; intros Heq; exfalso;
      apply (f_equal String.length) in Heq; rewrite ?str_join_cons2, ?str_app_len in Heq; cbn in Heq;
      rewrite ?(lower_hex64_length y) in Heq by done; discriminate Heq.
  - apply lower_hex64_length in Hx. destruct Hl' as [|y l' Hy Hl'].
    { intros Heq. exfalso. apply (f_equal String.length) in Heq. destruct l;
      rewrite ?str_join_cons2, ?str_app_len in Heq; cbn in Heq; lia. }
    apply lower_hex64_length in Hy. destruct l as [|x2 l], l' as [|y2 l'];
      rewrite ?str_join_cons2.
    + cbn [str_join]. by intros ->.
    + intros Heq. exfalso. cbn [str_join] in Heq. apply (f_equal String.length) in Heq.
      rewrite !str_app_len in Heq. cbn in Heq. lia.
    + intros Heq. exfalso. cbn [str_join] in Heq. apply (f_equal String.length) in Heq.
      rewrite !str_app_len in Heq. cbn in Heq. lia.
    + intros [-> Heq]%str_app_eq_len; [|congruence]. apply (str_app_inj ",") in Heq.
      f_equal. by apply IH.
Qed.

(** The key of a conversation names its set of participants: two lists of public
    keys have the same key exactly when they have the same members, up to order,
    repetition, letter case and malformed entries. *)
Theorem participant_key_is_the_set l l' :
  participantKey l = participantKey l' ↔
  ∀ x, is_lower_hex64 x = true →
    (∃ y, y ∈ l ∧ toLowerCase y = x) ↔ (∃ y, y ∈ l' ∧ toLowerCase y = x).
Proof.
  transitivity (normalizeParticipants l = normalizeParticipants l').
  - unfold participantKey. split; [|by intros ->].
    intros Heq%str_app_inj%(str_app_inj ":"). eapply join_hex_inj, Heq; apply normalize_lower.
  - split.
    + intros Heq x Hx. pose proof (elem_of_normalize l x). pose proof (elem_of_normalize l' x).
      rewrite Heq in *. naive_solver.
    + intros Heq. apply normalize_set. intros x. rewrite !elem_of_normalize. naive_solver.
Qed.

(** ** The size of an event *)

Lemma print_char_length c r : String.length (print_char c r) <= 6 + String.length r.
Proof. unfold print_char. repeat case_match; cbn [String.length]; lia. Qed.

Lemma print_string_length s r :
  String.length (print_string s r) <= 6 * String.length s + 2 + String.length r.
Proof.
  unfold print_string. cbn [String.length].
  assert (∀ t, String.length (print_chars s t) <= 6 * String.length s + String.length t) as Hs.
  { intros t. induction s as [|c s IH]; cbn [print_chars String.length]; [lia|].
    pose proof (print_char_length c (print_chars s t)). lia. }
  specialize (Hs (String quote r)). cbn [String.length] in Hs. lia.
Qed.

Lemma print_digits_len fuel n s : String.length (print_digits fuel n s) <= fuel + String.length s.
Proof.
  revert n s. induction fuel as [|fuel IH]; intros n s; [done|]. cbn [print_digits].
  case_match; cbn [String.length]; [lia|]. etrans; [apply IH|]. cbn. lia.
Qed.

Lemma num_to_string_length z : (0 <= z < max_safe)%Z → String.length (num_to_string (int z)) <= 54.
Proof.
  intros Hz. unfold num_to_string. rewrite int_safe, int_to_Z.
  replace (safe_Z z) with true by (symmetry; unfold safe_Z; apply Z.leb_le; lia).
  unfold string_of_Z, print_Z. destruct (Z.ltb_spec z 0); [lia|].
  unfold print_nonneg. etrans; [apply print_digits_len|]. unfold digits_fuel. cbn [String.length].
  assert (Z.log2 z < 53)%Z as Hlog; [|lia]. destruct (decide (z = 0)%Z) as [->|]; [done|].
  apply Z.log2_lt_pow2; unfold max_safe in Hz; lia.
Qed.

Lemma string_length_le c r n : String.length r <= n → String.length (String c r) <= S n.
Proof. cbn. lia. Qed.

Lemma print_string_length_le s r n :
  String.length r <= n → String.length (print_string s r) <= 6 * String.length s + 2 + n.
Proof. pose proof (print_string_length s r). lia. Qed.

Lemma app_length_le s r k n :
  String.length s <= k → String.length r <= n → String.length (s +:+ r) <= k + n.
Proof. rewrite str_app_len. lia. Qed.

Lemma channel_event_size e g z :
  is_lower_hex64 (pubkey e) = true → kind e = NIP29_KIND_MESSAGE → created_at e = int z →
  (0 <= z < max_safe)%Z → tags e = [["h"; g]] →
  (eventSizeBytes e <= 6 * str_length (content e) + 6 * str_length g + 600)%Z.
Proof.
  intros Hpk Hk Hc Hz Ht. unfold eventSizeBytes, serialized, stringify, str_length.
  rewrite Hk, Hc, Ht. unfold tags_to_json. cbn [map].
  cbn [print print_elems]. unfold print_num.
  assert (∀ n l, n <= l + (6 * String.length g + 600) → l = 6 * String.length (content e) →
    (Z.of_nat n <= 6 * Z.of_nat (String.length (content e)) + 6 * Z.of_nat (String.length g) + 600)%Z)
    as Hle by lia.
  eapply Hle; [|done]. cbn [is_finite int NIP29_KIND_MESSAGE].
  eapply Nat.le_trans.
  - repeat lazymatch goal with
    | |- String.length (print_string _ _) <= _ => apply print_string_length_le
    | |- String.length (_ +:+ _) <= _ => apply app_length_le
    | |- String.length (num_to_string _) <= _ => by apply num_to_string_length
    | |- String.length (String _ _) <= _ => apply string_length_le
    end. done.
  - rewrite (lower_hex64_length (pubkey e)) by done. cbn [String.length]. lia.
Qed.

(** *** What an honest client sends, honest clients accept *)

Lemma num_abs_int z : num_abs (int z) = int (Z.abs z).
Proof. unfold num_abs, int. by destruct z. Qed.

Section channel.
Context `{Sha256, Random, NostrTools}.

Lemma singleTag_pair e name v : tags e = [[name; v]] → singleTag e name = Some v.
Proof.
  unfold singleTag. intros ->. cbn [single_tag_loop]. by rewrite bool_decide_eq_true_2.
Qed.

(** A channel message that the app creates and signs with a local key passes the
    validation of its own channel, and of no other, at every receiver whose clock is
    within two days of the sender's: in particular the longest message allowed,
    however it is escaped, fits the bound on the size of an event. *)
Theorem own_message_accepted signer g text w m w' i sk e now g' :
  (0 <= now_ms w / 1000 < max_safe)%Z → (0 <= now < max_safe)%Z →
  (Z.abs (now - now_ms w / 1000) <= 172800)%Z → (str_length g <= 150)%Z →
  createChannelMessage signer g text w = (Ok m, w') →
  finalizeEvent i (cm_template m) sk = Some e →
  validateChannelMessage e g' (int now) = bool_decide (g' = g).
Proof.
  intros Hw Hnow Hskew Hg Hrun Hfin. unfold createChannelMessage in Hrun.
  run_inv Hrun. apply check_inv in Hrun0 as [Hv ->].
  run_inv Hrun. apply check_inv in Hrun0 as [_ ->].
  injection Hrun as <- <-. apply finalize_spec in Hfin as (Ht & Hpk & Hver).
  unfold template_of in Ht. simpl in Ht. injection Ht as Hk Hc Hts Hct.
  apply public_key_form in Hpk.
  unfold validateChannelMessage, isSignatureValid.
  rewrite Hver, Hct, Hv, (singleTag_pair e "h" g) by done.
  replace (num_eqb _ _) with true by (by rewrite Hk).
  assert (withinEventBounds e (int now) None None = true) as ->.
  { unfold withinEventBounds. pose proof (channel_event_size e g _ Hpk Hk Hc Hw Hts) as Hs.
    rewrite Hct in Hs. unfold validMessageContent, MAX_MESSAGE_BYTES in Hv. reflect_bools.
    cbn [default]. unfold MAX_EVENT_BYTES. destruct (Z.ltb_spec 100000 (eventSizeBytes e)); [lia|].
    rewrite Hts. unfold isLowercaseHex64. rewrite Hpk, Hc. cbn [length negb Nat.ltb].
    rewrite int_sub by (unfold safe_Z; apply Z.leb_le; lia). rewrite num_abs_int.
    unfold MAX_CREATED_AT_SKEW_SECONDS. rewrite int_lt. cbn.
    apply negb_true_iff, Z.ltb_ge. done. }
  rewrite !andb_true_r. cbn [andb]. apply bool_decide_ext. naive_solver.
Qed.

(** A message that passes was signed by its author, is bound to one channel and is
    within the bounds. *)
Lemma validated_message e g now :
  validateChannelMessage e g now = true →
  verifyEvent e = true ∧ is_lower_hex64 (pubkey e) = true ∧ singleTag e "h" = Some g ∧
  (0 < str_length (content e) <= MAX_MESSAGE_BYTES)%Z ∧ length (tags e) <= MAX_TAGS.
Proof.
  unfold validateChannelMessage, isSignatureValid, validMessageContent, withinEventBounds.
  rewrite !andb_true_iff. intros ((((_ & Hb) & Hs) & Ht) & Hc1 & Hc2).
  apply bool_decide_eq_true_1 in Ht. apply Z.ltb_lt in Hc1. apply Z.leb_le in Hc2.
  destruct (_ <? eventSizeBytes e)%Z; [done|]. destruct (Nat.ltb_spec MAX_TAGS (length (tags e))); [done|].
  unfold isLowercaseHex64 in Hb. destruct (is_lower_hex64 (pubkey e)); [|done]. split_and!; done.
Qed.

End channel.

(** A circle's room holds its owner and active members, each once, whoever lists
    them. *)
Lemma elem_of_circle_room owner members x :
  x ∈ circleChatParticipants owner members ↔
  is_lower_hex64 x = true ∧
  (x = toLowerCase owner ∨
   ∃ m, m ∈ members ∧ cm_pending m = false ∧ x = toLowerCase (cm_pubkey m)).
Proof.
  unfold circleChatParticipants. rewrite elem_of_normalize. apply and_iff_compat_l.
  change (map (toLowerCase ∘ cm_pubkey) ?l) with (toLowerCase ∘ cm_pubkey <$> l).
  split.
  - intros (y & Hy & <-). rewrite elem_of_cons in Hy. destruct Hy as [->|Hy].
    + left. apply toLowerCase_idemp.
    + apply elem_of_filter_b in Hy as [(m & -> & Hm)%list_elem_of_fmap _].
      apply elem_of_filter_b in Hm as [Hm Hp%negb_true_iff]. right. exists m.
      split_and!; [done|done|]. apply toLowerCase_idemp.
  - intros [->|(m & Hm & Hp & ->)].
    + exists (toLowerCase owner). split; [by left|apply toLowerCase_idemp].
    + exists (toLowerCase (cm_pubkey m)). split; [|apply toLowerCase_idemp].
      destruct (String.eqb_spec (toLowerCase (cm_pubkey m)) (toLowerCase owner)) as [->|Hne]; [by left|].
      right. apply elem_of_filter_b. split; [|by apply negb_true_iff, String.eqb_neq].
      apply list_elem_of_fmap. exists m. split; [done|]. apply elem_of_filter_b.
      split; [done|]. simpl. by rewrite Hp.
Qed.

Definition chat_sk : bytes := to_bytes 32 321.
Definition chat_message : outcome ChannelMessage :=
  (createChannelMessage "me" "abcd" (str_of_bytes [chr 10; chr 34]) fresh_world).1.
Definition chat_template : EventTemplate :=
  match chat_message with Ok m => cm_template m | Throw _ => mkTemplate NaN NaN [] "" end.
Definition chat_event : Event :=
  default (mkEvent "" "" NaN NaN [] "" "") (finalizeEvent 0 chat_template chat_sk).

Lemma own_message_accepted_witness :
  validateChannelMessage chat_event "abcd" (int 1767225700) = true ∧
  validateChannelMessage chat_event "other" (int 1767225700) = false.
Proof.
  split.
  - rewrite (own_message_accepted "me" "abcd" (str_of_bytes [chr 10; chr 34]) fresh_world
      (mkChannelMessage "abcd" chat_template) fresh_world 0 chat_sk).
    + reflexivity.
    + vm_compute. split; congruence.
    + vm_compute. split; congruence.
    + vm_compute. congruence.
    + vm_compute. congruence.
    + vm_compute. reflexivity.
    + vm_compute. reflexivity.
  - rewrite (own_message_accepted "me" "abcd" (str_of_bytes [chr 10; chr 34]) fresh_world
      (mkChannelMessage "abcd" chat_template) fresh_world 0 chat_sk).
    + reflexivity.
    + vm_compute. split; congruence.
    + vm_compute. split; congruence.
    + vm_compute. congruence.
    + vm_compute. congruence.
    + vm_compute. reflexivity.
    + vm_compute. reflexivity.
Defined.

End ChatRules.
