(* ===== verification/GiftWrap.v ===== *)
(** * Private messages: [services/chat/nip59.ts], [nip17.ts], [inbox.ts], [dmSend.ts]

    A message is a rumor, sealed by its author for one recipient and wrapped under a
    one-time key.  The signer is the capability record of [services/signerService.ts].
    [key.fill(0)] erases a buffer that nothing reads again, and has no counterpart. *)

From Stdlib Require Import QArith Qabs Lia.
From S2P Require Import Prelude JsNumber JsString JsStringFacts JsCollection Json.
From S2P Require Import JsonFacts Nostr CryptoModel Platform IdentityStore NostrIdentity.
From S2P Require Import Signer ChatRules.
Close Scope Q_scope.
Import ChatRules.

(** [Math.random()], by the number of the draw *)
Class MathRandom : Type := {
  math_random : nat → num;
  math_random_range i : ∃ q, math_random i = Fin q ∧ (0 <= q)%Q ∧ (q < 1)%Q
}.

Module GiftWrap.

(** ** [nip59.ts] *)

Definition NIP59_KIND_SEAL : num := int 13.
Definition NIP59_KIND_GIFT_WRAP : num := int 1059.
Definition TWO_DAYS : num := int 172800.

(** The rumor a message of [createRumor] hashes, before its [id]. *)
Record RumorEvent : Type := mkRumorEvent {
  re_kind : num; re_tags : option (list (list string)); re_content : option string;
  re_created_at : option num
}.

(** ** [nip17.ts] *)

Definition NIP17_DIRECT_KIND : num := int 14.

Record UnwrappedMessage : Type := mkUnwrapped { rumor : Rumor; participants : list string }.

Definition is_p_tag (t : list string) : bool := bool_decide (t !! 0 = Some "p").

(** The [p] values of a rumor, unless one is missing or malformed. *)
Definition p_values (r : Rumor) : option (list string) :=
  mapM (λ t : list string,
    p ← t !! 1; if isLowercaseHex64 p then Some p else None) (List.filter is_p_tag (r_tags r)).

Definition participantSet (r : Rumor) : option (list string) :=
  if negb (num_eqb (r_kind r) NIP17_DIRECT_KIND) then None
  else if MAX_ROOM_PARTICIPANTS <? length (r_tags r) then None
  else
    match p_values r with
    | None => None
    | Some others =>
        if (length others =? 0) || negb (length (set_of others) =? length others) then None
        else Some (normalizeParticipants (r_pubkey r :: others))
    end.

(** ** [inbox.ts] *)

Definition NIP17_INBOX_KIND : num := int 1059.

Record ProcessedInboxMessage : Type := mkProcessed {
  pm_conversationId : string; pm_participants : list string; pm_senderPubkey : string;
  pm_content : string; pm_created_at : num; pm_rumorId : string; pm_wrapId : string
}.

(** ** [dmSend.ts] *)

Record SentMessage : Type := mkSent {
  sm_wraps : list Event; sm_conversationId : string; sm_participants : list string
}.

(** The [Map] from recipient to wrap, in insertion order. *)
Definition wrapsByRecipient (wraps : list Event) : list (string * Event) :=
  fold_left (λ m wrap,
    match List.find is_p_tag (tags wrap) ≫= (λ t, t !! 1) with
    | Some recipient => if truthy recipient then map_set m recipient wrap else m
    | None => m
    end) wraps [].

Section giftwrap.
Context `{Aes, Sha256, Random, NostrTools, UrlParser, Extension, Bunkers, MathRandom}.

(** [Math.floor(Date.now() / 1000 - Math.random() * TWO_DAYS)] *)
Definition randomNow : prog World num :=
  ms ← date_now; i ← draw;
  mret (num_floor (num_sub (num_div (int ms) (int 1000)) (num_mul (math_random i) TWO_DAYS))).

Definition createRumor (senderPubkey : string) (event : RumorEvent) : prog World Rumor :=
  now ← clock;
  let r := mkRumor senderPubkey "" (re_kind event) (default now (re_created_at event))
    (default [] (re_tags event)) (default "" (re_content event)) in
  id ← Signer.lift_option (getEventHash r) "getEventHash";
  mret (mkRumor (r_pubkey r) id (r_kind r) (r_created_at r) (r_tags r) (r_content r)).

Definition createSeal (signer : NostrSigner World) (r : Rumor) (recipientPubkey : string)
    : prog World Event :=
  content ← s_nip44Encrypt signer recipientPubkey (stringify (rumor_to_json r));
  now ← randomNow;
  s_signEvent signer (mkTemplate NIP59_KIND_SEAL now [] content).

Definition createWrap (seal : Event) (recipientPubkey : string) : prog World Event :=
  ephemeral ← new_secret_key;
  key ← Signer.lift_option (getConversationKey ephemeral recipientPubkey) "conversation key";
  i ← draw;
  content ← Signer.lift_option (nip44_encrypt i (stringify (event_to_json seal)) key) "nip44 encrypt";
  now ← randomNow;
  Signer.sign_local (mkTemplate NIP59_KIND_GIFT_WRAP now [["p"; recipientPubkey]] content) ephemeral.

(** The checks on a decrypted seal, and on a decrypted rumor. *)
Definition open_seal (sealRaw : string) : option Event :=
  seal ← parse sealRaw ≫= event_of_json;
  if negb (verifyEvent seal) || negb (num_eqb (kind seal) NIP59_KIND_SEAL)
     || negb (length (tags seal) =? 0) then None
  else Some seal.

Definition open_rumor (seal : Event) (rumorRaw : string) : option Rumor :=
  r ← parse rumorRaw ≫= rumor_of_json;
  if negb (isLowercaseHex64 (r_pubkey r)) || negb (String.eqb (r_pubkey r) (pubkey seal)) then None
  else
    id ← getEventHash r;
    Some (mkRumor (r_pubkey r) id (r_kind r) (r_created_at r) (r_tags r) (r_content r)).

Definition unwrapGiftWrap (signer : NostrSigner World) (wrap : Event)
    : prog World (option Rumor) :=
  try_catch
    (if negb (verifyEvent wrap) || negb (num_eqb (kind wrap) NIP59_KIND_GIFT_WRAP) then mret None
     else
       myPubkey ← s_pubkey signer;
       if negb (bool_decide (singleTag wrap "p" = Some myPubkey)) then mret None
       else
         sealRaw ← s_nip44Decrypt signer (pubkey wrap) (content wrap);
         match open_seal sealRaw with
         | None => mret None
         | Some seal =>
             rumorRaw ← s_nip44Decrypt signer (pubkey seal) (content seal);
             mret (open_rumor seal rumorRaw)
         end)
    (λ _, mret None).

Definition wrap_one (signer : NostrSigner World) (r : Rumor) (wraps : list Event)
    (recipient : string) : prog World (list Event) :=
  seal ← createSeal signer r recipient;
  wrap ← createWrap seal recipient;
  mret (wraps ++ [wrap]).

Definition wrapRumor (signer : NostrSigner World) (r : Rumor) (recipients : list string)
    : prog World (list Event) :=
  for_fold recipients [] (wrap_one signer r).

Definition createDirectMessage (signer : NostrSigner World) (recipientPubkey content : string)
    : prog World (list Event) :=
  _ ← check (validMessageContent content) "invalid message content";
  _ ← check (isLowercaseHex64 recipientPubkey) "invalid recipient public key";
  senderPubkey ← s_pubkey signer;
  _ ← check (negb (String.eqb recipientPubkey (toLowerCase senderPubkey))) "cannot message yourself";
  r ← createRumor senderPubkey
    (mkRumorEvent NIP17_DIRECT_KIND (Some [["p"; toLowerCase recipientPubkey]]) (Some content) None);
  wrapRumor signer r [senderPubkey; toLowerCase recipientPubkey].

Definition createGroupMessage (signer : NostrSigner World) (recipients : list string)
    (content : string) : prog World (list Event) :=
  _ ← check (validMessageContent content) "invalid message content";
  senderPubkey ← s_pubkey signer;
  let ps := normalizeParticipants (senderPubkey :: recipients) in
  _ ← check (length ps <=? MAX_ROOM_PARTICIPANTS) "room has too many participants";
  _ ← check (2 <=? length ps) "room needs at least one other participant";
  r ← createRumor senderPubkey
    (mkRumorEvent NIP17_DIRECT_KIND (Some (map (λ p, ["p"; p]) ps)) (Some content) None);
  wrapRumor signer r ps.

Definition unwrapMessage (signer : NostrSigner World) (wrap : Event)
    : prog World (option UnwrappedMessage) :=
  r ← unwrapGiftWrap signer wrap;
  match r with
  | None => mret None
  | Some r =>
      if negb (validMessageContent (r_content r)) then mret None
      else
        match participantSet r with
        | None => mret None
        | Some ps =>
            myPubkey ← s_pubkey signer;
            mret (if includes ps myPubkey then Some (mkUnwrapped r ps) else None)
        end
  end.

Definition processGiftWrap (signer : NostrSigner World) (wrap : Event)
    (isSeen : string → prog World bool) (markSeen : string → prog World unit)
    : prog World (option ProcessedInboxMessage) :=
  if negb (num_eqb (kind wrap) NIP17_INBOX_KIND) then mret None
  else
    seen ← isSeen (id wrap);
    if seen : bool then mret None
    else
      unwrapped ← unwrapMessage signer wrap;
      match unwrapped with
      | None => mret None
      | Some u =>
          let conversationId := roomConversationId (participants u) in
          _ ← markSeen (id wrap);
          mret (Some (mkProcessed conversationId (participants u) (r_pubkey (rumor u))
            (r_content (rumor u)) (r_created_at (rumor u)) (r_id (rumor u)) (id wrap)))
      end.

Definition sendDirectMessage (signer : NostrSigner World) (recipientPubkey content : string)
    : prog World SentMessage :=
  wraps ← createDirectMessage signer recipientPubkey content;
  myPubkey ← s_pubkey signer;
  mret (mkSent wraps (directConversationId myPubkey recipientPubkey)
    (normalizeParticipants [myPubkey; recipientPubkey])).

Definition sendGroupMessage (signer : NostrSigner World) (recipients : list string)
    (content : string) : prog World SentMessage :=
  wraps ← createGroupMessage signer recipients content;
  myPubkey ← s_pubkey signer;
  let ps := normalizeParticipants (myPubkey :: recipients) in
  mret (mkSent wraps (roomConversationId ps) ps).

(** ** Facts *)

(** A call that draws randomness and changes nothing else. *)
Definition drew (w w' : World) : Prop := ∃ n, w' = set_draws n w.

Lemma drew_refl w : drew w w.
Proof. exists (draws w). by destruct w. Qed.

Lemma drew_trans w1 w2 w3 : drew w1 w2 → drew w2 w3 → drew w1 w3.
Proof. intros [n ->] [m ->]. by exists m. Qed.

Definition clock_ok (w : World) : Prop := (0 <= now_ms w <= 2 ^ 48)%Z.

Lemma drew_clock w w' : drew w w' → clock_ok w → clock_ok w'.
Proof. by intros [n ->]. Qed.

(** The random timestamp of a seal or a wrap is an integer that prints exactly. *)
Lemma wp_randomNow Q E w : clock_ok w →
  (∀ z w', safe_Z z = true → drew w w' → Q (int z) w') → wp randomNow Q E w.
Proof.
  intros Hw HQ. change (wp randomNow Q E w) with (Q (num_floor (num_sub
    (num_div (int (now_ms w)) (int 1000)) (num_mul (math_random (draws w)) TWO_DAYS)))
    (set_draws (S (draws w)) w)).
  destruct (math_random_range (draws w)) as (q & -> & Hq0 & Hq1). unfold clock_ok in Hw.
  change (num_div (int (now_ms w)) (int 1000)) with (rnd (inject_Z (now_ms w) / inject_Z 1000)%Q).
  change (num_mul (Fin q) TWO_DAYS) with (rnd (q * inject_Z 172800)%Q).
  destruct (rnd_bound (inject_Z (now_ms w) / inject_Z 1000)%Q (2 ^ 48)) as (t & -> & Ht); [lia|..].
  { rewrite Qabs_pos; [|unfold Qle, Qdiv, Qmult; simpl; lia].
    unfold Qle, Qdiv, Qmult. simpl. lia. }
  destruct (rnd_bound (q * inject_Z 172800)%Q 172800) as (u & -> & Hu); [lia|..].
  { rewrite Qabs_pos.
    - apply (Qle_trans _ (1 * inject_Z 172800)); [|unfold Qle; simpl; lia].
      apply Qmult_le_compat_r; [by apply Qlt_le_weak|unfold Qle; simpl; lia].
    - apply Qmult_le_0_compat; [done|unfold Qle; simpl; lia]. }
  unfold num_sub, num_add, num_opp.
  destruct (rnd_bound (t + - u)%Q (2 ^ 50)) as (v & -> & Hv); [lia|..].
  { eapply Qle_trans; [apply Qabs_triangle|]. rewrite Qabs_opp.
    eapply Qle_trans; [apply Qplus_le_compat; [exact Ht|exact Hu]|].
    rewrite <-inject_Z_plus, <-Zle_Qle. lia. }
  unfold num_floor. apply HQ; [|by eexists].
  apply floor_bound in Hv. unfold safe_Z, max_safe. apply Z.leb_le. lia.
Qed.

(** The seal of rumor [r], written by [pa] for [pb]. *)
Definition seals (pa pb : string) (r : Rumor) (seal : Event) : Prop :=
  verifyEvent seal = true ∧ kind seal = NIP59_KIND_SEAL ∧ tags seal = [] ∧ pubkey seal = pa ∧
  event_num_ok seal = true ∧
  ∀ skb, getPublicKey skb = Some pb → ∃ k, getConversationKey skb pa = Some k ∧
    nip44_decrypt (content seal) k = Some (stringify (rumor_to_json r)).

Definition is_local (sk : bytes) (pk : string) (s : NostrSigner World) : Prop :=
  getPublicKey sk = Some pk ∧ Signer.createLocalNostrSigner sk (Some pk) = Ok s.

Lemma wp_sign_local t sk Q E w :
  (∀ e w', template_of e = t → getPublicKey sk = Some (pubkey e) → verifyEvent e = true →
    drew w w' → Q e w') → (∀ m w', E m w') → wp (Signer.sign_local t sk) Q E w.
Proof.
  intros HQ HE. unfold Signer.sign_local, draw. unfold wp, mbind, prog_bind, lift_outcome.
  destruct (finalizeEvent _ t sk) as [e|] eqn:Hf; [|by apply HE].
  apply finalize_spec in Hf as (Ht & Hk & Hv). apply HQ; [done..|by eexists].
Qed.

Lemma wp_lift_option {A} (o : option A) msg Q E w :
  (∀ a, o = Some a → Q a w) → (∀ m, E m w) → wp (Signer.lift_option o msg) Q E w.
Proof. intros HQ HE. destruct o; [by apply HQ|apply HE]. Qed.

Lemma wp_draw Q E w : wp draw Q E w ↔ Q (draws w) (set_draws (S (draws w)) w).
Proof. done. Qed.

Lemma wp_createSeal s ska pa pb r w :
  is_local ska pa s → clock_ok w →
  wp (createSeal s r pb) (λ seal w', drew w w' ∧ seals pa pb r seal) (λ _ _, True) w.
Proof.
  intros [Hpa [= <-]] Hw. unfold createSeal. cbn [s_nip44Encrypt s_signEvent].
  rewrite !wp_bind. apply wp_lift_option; [|done]. intros k Hk.
  rewrite wp_bind, wp_draw. apply wp_lift_option; [|done]. intros c Hc.
  rewrite wp_bind. apply wp_randomNow; [done|]. intros z w1 Hz Hd.
  apply wp_sign_local; [|done]. intros e w2 Ht Hpk Hv Hd'. split.
  { eapply drew_trans; [by eexists|]. by eapply drew_trans. }
  unfold template_of in Ht. injection Ht as Hkind Hc' Htags Hct.
  rewrite Hpa in Hpk. injection Hpk as Hpk. split_and!; try done.
  - unfold event_num_ok. rewrite Hkind, Hc'. by rewrite num_ok_int.
  - intros skb Hskb. exists k. rewrite <-(conversation_key_symmetric _ _ _ _ Hpa Hskb). split; [done|].
    rewrite Hct. by eapply nip44_roundtrip.
Qed.

(** The wrap [wrap] opens, with the key of [p], to the rumor [r]. *)
Definition opens (p : string) (r : Rumor) (wrap : Event) : Prop :=
  ∀ sk s w, is_local sk p s → unwrapGiftWrap s wrap w = (Ok (Some r), w).

Definition rumor_ok (r : Rumor) : Prop :=
  rumor_num_ok r = true ∧ is_lower_hex64 (r_pubkey r) = true ∧ getEventHash r = Some (r_id r).

Lemma open_rumor_ok seal r :
  rumor_ok r → pubkey seal = r_pubkey r → open_rumor seal (stringify (rumor_to_json r)) = Some r.
Proof.
  intros (Hn & Hpk & Hid) Hseal. unfold open_rumor, isLowercaseHex64.
  rewrite json_roundtrip by (by apply rumor_json_ok). cbn [mbind option_bind].
  rewrite rumor_of_to_json. cbn [mbind option_bind].
  rewrite Hpk, Hseal, String.eqb_refl. cbn [negb orb]. rewrite Hid. by destruct r.
Qed.

Lemma open_seal_ok pa pb r seal :
  seals pa pb r seal → open_seal (stringify (event_to_json seal)) = Some seal.
Proof.
  intros (Hv & Hk & Ht & _ & Hn & _). unfold open_seal.
  rewrite json_roundtrip by (by apply event_json_ok). cbn [mbind option_bind].
  rewrite event_of_to_json. cbn [mbind option_bind]. by rewrite Hv, Hk, Ht.
Qed.

Lemma wp_createWrap pa pb r seal w :
  seals pa pb r seal → rumor_ok r → r_pubkey r = pa → clock_ok w →
  wp (createWrap seal pb) (λ wrap w', drew w w' ∧ opens pb r wrap) (λ _ _, True) w.
Proof.
  intros Hseal Hr Hpa Hw. unfold createWrap, new_secret_key.
  rewrite !wp_bind, wp_draw, wp_ret. set (eph := generateSecretKey (draws w)).
  rewrite wp_bind. apply wp_lift_option; [|done]. intros k Hk. rewrite wp_bind, wp_draw, wp_bind.
  apply wp_lift_option; [|done]. intros c Hc. rewrite wp_bind.
  apply wp_randomNow; [done|]. intros z w1 Hz Hd.
  apply wp_sign_local; [|done]. intros e w2 Ht Hpk Hv Hd'. split.
  { eapply drew_trans; [by eexists|]. by eapply drew_trans. }
  unfold template_of in Ht. injection Ht as Hkind Hc' Htags Hct.
  intros skb s w3 [Hskb [= <-]].
  destruct Hseal as (Hsv & Hsk & Hst & Hspk & Hsn & Hopen).
  assert (seals pa pb r seal) as Hseal by done.
  destruct (Hopen skb Hskb) as (k' & Hk' & Hdec).
  unfold unwrapGiftWrap. rewrite Hv, Hkind. cbn [negb orb].
  rewrite (num_eqb_refl NIP59_KIND_GIFT_WRAP) by done. cbn [negb].
  unfold try_catch. rewrite (bind_ok _ _ _ pb w3) by done.
  rewrite (singleTag_pair e "p" pb) by done. rewrite bool_decide_eq_true_2 by done. cbn [negb].
  assert (getConversationKey skb (pubkey e) = Some k) as Hkb.
  { by rewrite <-(conversation_key_symmetric _ _ _ _ Hpk Hskb). }
  rewrite (bind_ok _ _ _ (stringify (event_to_json seal)) w3).
  2: { cbn [s_nip44Decrypt]. unfold mbind, prog_bind, Signer.lift_option, lift_outcome. rewrite Hkb, Hct.
       by rewrite (nip44_roundtrip _ _ _ _ Hc). }
  rewrite (open_seal_ok _ _ _ _ Hseal), (bind_ok _ _ _ (stringify (rumor_to_json r)) w3).
  2: { cbn [s_nip44Decrypt]. unfold mbind, prog_bind, Signer.lift_option, lift_outcome. rewrite Hspk, Hk'. by rewrite Hdec. }
  rewrite open_rumor_ok by (done || congruence). done.
Qed.

Lemma wp_wrapRumor s ska pa r ps w :
  is_local ska pa s → rumor_ok r → r_pubkey r = pa → clock_ok w →
  wp (wrapRumor s r ps) (λ wraps w', drew w w' ∧ Forall2 (λ p wrap, opens p r wrap) ps wraps)
    (λ _ _, True) w.
Proof.
  intros Hs Hr Hpa Hw. unfold wrapRumor.
  cut (∀ done_ps wraps w1, drew w w1 → Forall2 (λ p wrap, opens p r wrap) done_ps wraps →
    wp (for_fold ps wraps (wrap_one s r))
      (λ wraps w', drew w w' ∧ Forall2 (λ p wrap, opens p r wrap) (done_ps ++ ps) wraps)
      (λ _ _, True) w1).
  { intros H'. apply (H' [] [] w (drew_refl w)). constructor. }
  induction ps as [|p ps IH]; intros done_ps wraps w1 Hd Hf; cbn [for_fold].
  - rewrite wp_ret, app_nil_r. done.
  - rewrite wp_bind. unfold wrap_one at 1. rewrite wp_bind.
    eapply wp_mono; [eapply wp_createSeal; [done|by eapply drew_clock]| |done].
    intros seal w2 [Hd2 Hseal]. cbn beta. rewrite wp_bind.
    eapply wp_mono; [eapply wp_createWrap; [done..|]| |done].
    { eapply drew_clock; [|done]. by eapply drew_trans. }
    intros wrap w3 [Hd3 Hopen]. rewrite wp_ret.
    rewrite (cons_middle p done_ps ps), app_assoc. apply IH.
    + eapply drew_trans; [done|]. by eapply drew_trans.
    + apply Forall2_app; [done|]. by repeat constructor.
Qed.

Lemma clock_safe w : clock_ok w → safe_Z (now_ms w / 1000) = true.
Proof.
  unfold clock_ok, safe_Z, max_safe. intros Hw. apply Z.leb_le.
  pose proof (Z.div_pos (now_ms w) 1000). pose proof (Z.div_le_upper_bound (now_ms w) 1000 (2 ^ 48)). lia.
Qed.

Lemma wp_createRumor pa ts text w :
  is_lower_hex64 pa = true → clock_ok w →
  wp (createRumor pa (mkRumorEvent NIP17_DIRECT_KIND (Some ts) (Some text) None))
    (λ r w', w' = w ∧ rumor_ok r ∧ r_pubkey r = pa ∧ r_kind r = NIP17_DIRECT_KIND ∧
      r_tags r = ts ∧ r_content r = text) (λ _ _, True) w.
Proof.
  intros Hpa Hw. unfold createRumor, clock, now_seconds.
  rewrite !wp_bind, wp_gets, wp_ret, wp_bind. apply wp_lift_option; [|done]. intros i Hi.
  rewrite wp_ret. cbn [r_pubkey r_kind r_tags r_content re_kind re_tags re_content re_created_at default].
  split_and!; try done. unfold rumor_ok, rumor_num_ok. cbn [r_pubkey r_kind r_created_at r_id].
  rewrite num_ok_int by (by apply clock_safe). split_and!; [done|done|].
  rewrite <-Hi. apply (hash_ignores_id (mkRumor _ "" _ _ _ _)).
Qed.

Lemma p_values_map ps :
  Forall (λ p, is_lower_hex64 p = true) ps →
  mapM (λ t : list string, p ← t !! 1; if isLowercaseHex64 p then Some p else None)
    (List.filter is_p_tag (map (λ p, ["p"; p]) ps)) = Some ps.
Proof.
  induction 1 as [|p ps Hp Hps IH]; [done|]. cbn [map List.filter].
  change (is_p_tag ["p"; p]) with true. cbn [mapM]. unfold isLowercaseHex64 in *.
  cbn [lookup list_lookup mbind option_bind]. rewrite Hp. cbn [mbind option_bind]. by rewrite IH.
Qed.

Lemma participantSet_ok r ps :
  r_kind r = NIP17_DIRECT_KIND → r_tags r = map (λ p, ["p"; p]) ps →
  Forall (λ p, is_lower_hex64 p = true) ps → NoDup ps → ps ≠ [] →
  length ps <= MAX_ROOM_PARTICIPANTS →
  participantSet r = Some (normalizeParticipants (r_pubkey r :: ps)).
Proof.
  intros Hk Ht Hps Hnd Hne Hlen. unfold participantSet, p_values. rewrite Hk, Ht, length_map.
  destruct (Nat.ltb_spec MAX_ROOM_PARTICIPANTS (length ps)); [lia|].
  rewrite (num_eqb_refl NIP17_DIRECT_KIND) by done. rewrite p_values_map by done.
  rewrite set_of_NoDup, Nat.eqb_refl by done. by destruct ps.
Qed.

(** What a participant [p] makes of a wrap: a message not seen before is marked as
    seen, and is the text of its author, in the room of [ps]. *)
Definition received (ps : list string) (author text : string) (p : string) (wrap : Event) : Prop :=
  ∃ at_ rid, ∀ sk s isSeen markSeen w w',
    is_local sk p s → isSeen (id wrap) w = (Ok false, w) → markSeen (id wrap) w = (Ok tt, w') →
    processGiftWrap s wrap isSeen markSeen w =
      (Ok (Some (mkProcessed (conversationIdFor ps) ps author text at_ rid (id wrap))), w').

Lemma opens_kind p r wrap : (∃ sk, getPublicKey sk = Some p) → opens p r wrap →
  num_eqb (kind wrap) NIP17_INBOX_KIND = true.
Proof.
  intros [sk Hsk] Ho. destruct (Signer.createLocalNostrSigner sk (Some p)) as [s|] eqn:Es; [|done].
  specialize (Ho sk s fresh_world (conj Hsk Es)). unfold unwrapGiftWrap in Ho.
  destruct (num_eqb (kind wrap) NIP59_KIND_GIFT_WRAP) eqn:E; [done|].
  rewrite orb_true_r in Ho. discriminate Ho.
Qed.

Lemma opens_received p r wrap ps :
  opens p r wrap → participantSet r = Some ps → p ∈ ps → validMessageContent (r_content r) = true →
  received ps (r_pubkey r) (r_content r) p wrap.
Proof.
  intros Ho Hps Hp Hv. exists (r_created_at r), (r_id r). intros sk s isSeen markSeen w w' Hl Hs Hm.
  unfold processGiftWrap. rewrite (opens_kind p r wrap) by (eauto || (destruct Hl; eauto)). cbn [negb].
  rewrite (bind_ok _ _ _ false w) by done.
  rewrite (bind_ok _ _ _ (Some (mkUnwrapped r ps)) w).
  - cbv beta iota zeta. by rewrite (bind_ok _ _ _ tt w').
  - unfold unwrapMessage. rewrite (bind_ok _ _ _ (Some r) w) by (by eapply Ho).
    rewrite Hv, Hps. cbn [negb]. destruct Hl as [Hl [= <-]].
    rewrite (bind_ok _ _ _ p w) by done.
    by replace (includes ps p) with true by (symmetry; by apply includes_spec).
Qed.

Lemma signer_pubkey sk pk s w : is_local sk pk s → s_pubkey s w = (Ok pk, w).
Proof. by intros [_ [= <-]]. Qed.

Lemma conversation_id_normal ps : conversationIdFor (normalizeParticipants ps) = conversationIdFor ps.
Proof. unfold conversationIdFor, participantKey. by rewrite normalize_idemp. Qed.

Lemma local_lower sk pk s : is_local sk pk s → is_lower_hex64 pk = true.
Proof. intros [Hpk _]. by eapply public_key_form. Qed.

(** The wraps of a rumor about [ps], for the recipients [to]. *)
Lemma wp_send_rumor s ska pa text ps to w :
  is_local ska pa s → clock_ok w → validMessageContent text = true →
  Forall (λ p, is_lower_hex64 p = true) ps → NoDup ps → ps ≠ [] →
  length ps <= MAX_ROOM_PARTICIPANTS →
  Forall (λ p, p ∈ normalizeParticipants (pa :: ps)) to →
  wp (r ← createRumor pa (mkRumorEvent NIP17_DIRECT_KIND (Some (map (λ p, ["p"; p]) ps)) (Some text) None);
      wrapRumor s r to)
    (λ wraps w', drew w w' ∧
      Forall2 (received (normalizeParticipants (pa :: ps)) pa text) to wraps) (λ _ _, True) w.
Proof.
  intros Hs Hw Hv Hps Hnd Hne Hlen Hto. rewrite wp_bind.
  eapply wp_mono; [apply wp_createRumor; [by eapply local_lower|done]| |done].
  intros r w1 (-> & Hr & Hpa & Hk & Ht & Hc). cbn beta.
  eapply wp_mono; [by eapply wp_wrapRumor| |done]. intros wraps w1 [Hd Hf]. split; [done|].
  clear -Hf Hto Hk Ht Hps Hnd Hne Hlen Hpa Hc Hv.
  induction Hf as [|p wrap to wraps Ho Hf IH]; [constructor|].
  inversion Hto as [|?? Hp Hto']; subst. constructor; [|by apply IH].
  apply opens_received; [done| |done|done]. by apply participantSet_ok.
Qed.

(** A group message reaches its room.  When sending to a list of public keys
    succeeds, there is one wrap per participant, the sender included, and every
    participant who opens theirs with their own key gets the text, its author and the
    same conversation as the sender. *)
Theorem group_message_received s ska pa recipients text w sent w' :
  is_local ska pa s → clock_ok w →
  sendGroupMessage s recipients text w = (Ok sent, w') →
  let ps := normalizeParticipants (pa :: recipients) in
  sm_participants sent = ps ∧ sm_conversationId sent = conversationIdFor ps ∧
  2 <= length ps <= MAX_ROOM_PARTICIPANTS ∧
  Forall2 (received ps pa text) ps (sm_wraps sent).
Proof.
  intros Hs Hw Hrun ps. unfold sendGroupMessage, createGroupMessage in Hrun.
  run_inv Hrun. run_inv Hrun0. apply check_inv in Hrun1 as [Hv ->].
  run_inv Hrun0. rewrite (signer_pubkey _ _ _ _ Hs) in Hrun1. injection Hrun1 as <- <-.
  run_inv Hrun0. apply check_inv in Hrun1 as [Hmax%Nat.leb_le ->].
  run_inv Hrun0. apply check_inv in Hrun1 as [Hmin%Nat.leb_le ->].
  run_inv Hrun. rewrite (signer_pubkey _ _ _ _ Hs) in Hrun1. injection Hrun1 as <- <-.
  injection Hrun as <- <-. split_and!; [done..|].
  assert (normalizeParticipants (pa :: ps) = ps) as Hps.
  { transitivity (normalizeParticipants ps); [|apply normalize_idemp]. apply normalize_set. intros x.
    assert (pa ∈ ps) as Hpa.
    { apply elem_of_normalize. pose proof (local_lower _ _ _ Hs) as Hl. split; [done|].
      exists pa. split; [by left|by apply lower_hex64_fixed]. }
    rewrite !elem_of_normalize. split.
    - intros (Hx & y & [->|Hy]%elem_of_cons & <-); (split; [done|]); eauto.
    - intros (Hx & y & Hy & <-). split; [done|]. exists y. split; [by right|done]. }
  assert (ps ≠ []) as Hne.
  { intros E. fold ps in Hmin. rewrite E in Hmin. simpl in Hmin. lia. }
  assert (Forall (λ p, p ∈ normalizeParticipants (pa :: ps)) ps) as Hto.
  { rewrite Hps. by apply Forall_forall. }
  pose proof (wp_ok _ _ _ _ _ _ Hrun0 (wp_send_rumor s ska pa text ps ps w Hs Hw Hv
    (normalize_lower _) (NoDup_normalize _) Hne Hmax Hto)) as [_ Hf].
  by rewrite Hps in Hf.
Qed.

(** A direct message reaches its recipient and the other devices of its sender:
    when sending succeeds there are two wraps, and whoever opens either with their own
    key gets the text, its author and the conversation of the two. *)
Theorem direct_message_received s ska pa pb text w sent w' :
  is_local ska pa s → clock_ok w →
  sendDirectMessage s pb text w = (Ok sent, w') →
  let ps := normalizeParticipants [pa; pb] in
  pa ≠ pb ∧ sm_participants sent = ps ∧ sm_conversationId sent = conversationIdFor ps ∧
  Forall2 (received ps pa text) [pa; pb] (sm_wraps sent).
Proof.
  intros Hs Hw Hrun ps. unfold sendDirectMessage, createDirectMessage in Hrun.
  pose proof (local_lower _ _ _ Hs) as Hl.
  run_inv Hrun. run_inv Hrun0. apply check_inv in Hrun1 as [Hv ->].
  run_inv Hrun0. apply check_inv in Hrun1 as [Hpb ->]. unfold isLowercaseHex64 in Hpb.
  run_inv Hrun0. rewrite (signer_pubkey _ _ _ _ Hs) in Hrun1. injection Hrun1 as <- <-.
  run_inv Hrun0. apply check_inv in Hrun1 as [Hne%negb_true_iff%String.eqb_neq ->].
  rewrite (lower_hex64_fixed pa) in Hne by done. rewrite (lower_hex64_fixed pb) in Hrun0 by done.
  run_inv Hrun. rewrite (signer_pubkey _ _ _ _ Hs) in Hrun1. injection Hrun1 as <- <-.
  injection Hrun as <- <-. split_and!; [congruence|done| |].
  { cbn [sm_conversationId]. unfold directConversationId, ps. by rewrite conversation_id_normal. }
  assert (Forall (λ p, p ∈ ps) [pa; pb]) as Hto.
  { repeat constructor; apply elem_of_normalize; (split; [done|]); eexists;
      (split; [|by apply lower_hex64_fixed]); set_solver. }
  assert (Forall (λ p, is_lower_hex64 p = true) [pb]) as Hlp by by repeat constructor.
  assert (length [pb] <= MAX_ROOM_PARTICIPANTS) as Hlen by (unfold MAX_ROOM_PARTICIPANTS; simpl; lia).
  apply (wp_ok _ _ _ _ _ _ Hrun0 (wp_send_rumor s ska pa text [pb] [pa; pb] w Hs Hw Hv
    Hlp (NoDup_singleton _) ltac:(done) Hlen Hto)).
Qed.

Lemma unwrap_local_inv s sk me wrap w r w' :
  is_local sk me s → unwrapGiftWrap s wrap w = (Ok (Some r), w') →
  w' = w ∧ verifyEvent wrap = true ∧ singleTag wrap "p" = Some me ∧
  ∃ k0 seal k, getConversationKey sk (pubkey wrap) = Some k0 ∧
    (nip44_decrypt (content wrap) k0 ≫= open_seal) = Some seal ∧
    getConversationKey sk (pubkey seal) = Some k ∧
    (nip44_decrypt (content seal) k ≫= open_rumor seal) = Some r.
Proof.
  intros [_ [= <-]]. unfold unwrapGiftWrap, try_catch.
  destruct (verifyEvent wrap); [|done]. destruct (num_eqb (kind wrap) _); [|done].
  cbn [negb orb]. rewrite (bind_ok _ _ w me w) by done.
  destruct (bool_decide _) eqn:Hp; [|done]. apply bool_decide_eq_true_1 in Hp. cbn [negb].
  cbn [s_nip44Decrypt]. unfold mbind, prog_bind, Signer.lift_option, lift_outcome.
  destruct (getConversationKey sk (pubkey wrap)) as [k0|] eqn:Hk0; [|done].
  destruct (nip44_decrypt (content wrap) k0) as [sr|] eqn:Hd0; [|done].
  destruct (open_seal sr) as [seal|] eqn:Hs; [|done].
  destruct (getConversationKey sk (pubkey seal)) as [k|] eqn:Hk; [|done].
  destruct (nip44_decrypt (content seal) k) as [rr|] eqn:Hd; [|done].
  intros [= Hr <-]. split_and!; [done..|]. exists k0, seal, k. by rewrite Hd0, Hd.
Qed.

Lemma open_seal_inv sr seal : open_seal sr = Some seal →
  verifyEvent seal = true ∧ num_eqb (kind seal) NIP59_KIND_SEAL = true ∧ tags seal = [].
Proof.
  unfold open_seal. destruct (parse sr ≫= event_of_json) as [e|]; [|done]. cbn [mbind option_bind].
  destruct (verifyEvent e) eqn:Hv; [|done]. destruct (num_eqb (kind e) _) eqn:Hk; [|done].
  destruct (tags e) eqn:Ht; [|done]. by intros [= <-].
Qed.

Lemma open_rumor_inv seal rr r : open_rumor seal rr = Some r →
  ∃ r', (parse rr ≫= rumor_of_json) = Some r' ∧ pubkey seal = r_pubkey r ∧
    is_lower_hex64 (r_pubkey r) = true ∧ getEventHash r = Some (r_id r) ∧
    r = mkRumor (r_pubkey r') (r_id r) (r_kind r') (r_created_at r') (r_tags r') (r_content r').
Proof.
  unfold open_rumor, isLowercaseHex64. destruct (parse rr ≫= rumor_of_json) as [r'|]; [|done].
  cbn [mbind option_bind]. destruct (is_lower_hex64 (r_pubkey r')) eqn:Hl; [|done].
  destruct (String.eqb_spec (r_pubkey r') (pubkey seal)) as [He|]; [|done]. cbn [negb orb].
  destruct (getEventHash r') as [i|] eqn:Hi; [|done]. intros [= <-].
  exists r'. split_and!; try done. cbn [r_id]. rewrite <-Hi. apply hash_ignores_id.
Qed.

Lemma participantSet_inv r ps : participantSet r = Some ps →
  ∃ others, p_values r = Some others ∧ others ≠ [] ∧ length others <= MAX_ROOM_PARTICIPANTS ∧
    ps = normalizeParticipants (r_pubkey r :: others).
Proof.
  unfold participantSet. destruct (num_eqb _ _); [|done].
  destruct (Nat.ltb_spec MAX_ROOM_PARTICIPANTS (length (r_tags r))) as [|Hlen]; [done|].
  destruct (p_values r) as [others|] eqn:Hp; [|done].
  destruct others as [|o others]; [done|]. cbn [negb length Nat.eqb orb].
  destruct (negb _); [done|]. intros [= <-]. exists (o :: others). split_and!; try done.
  apply length_mapM in Hp. rewrite <-Hp.
  etrans; [|exact Hlen]. apply List.filter_length_le.
Qed.

(** C13: A message that is shown is authentic.  If the app accepts a wrap with the key of
    [me], then the wrap is signed and addressed to [me]; inside is a kind-13 event
    without tags that verifies under the key of the author shown, and whose decryption
    is the message shown; its id is the hash of the message; and [me] and the author
    are among the participants, all of them well-formed public keys. *)
Theorem accepted_message_authentic s sk me wrap w u w' :
  is_local sk me s → unwrapMessage s wrap w = (Ok (Some u), w') →
  let r := rumor u in
  w' = w ∧ verifyEvent wrap = true ∧ singleTag wrap "p" = Some me ∧
  (∃ seal k r', verifyEvent seal = true ∧ num_eqb (kind seal) NIP59_KIND_SEAL = true ∧
    tags seal = [] ∧ pubkey seal = r_pubkey r ∧
    getConversationKey sk (r_pubkey r) = Some k ∧
    ((nip44_decrypt (content seal) k ≫= parse) ≫= rumor_of_json) = Some r' ∧
    r = mkRumor (r_pubkey r') (r_id r) (r_kind r') (r_created_at r') (r_tags r') (r_content r')) ∧
  getEventHash r = Some (r_id r) ∧ validMessageContent (r_content r) = true ∧
  me ∈ participants u ∧ r_pubkey r ∈ participants u ∧
  Forall (λ p, is_lower_hex64 p = true) (participants u).
Proof.
  intros [Hme [= <-]] Hrun. unfold unwrapMessage in Hrun. run_inv Hrun.
  destruct a as [r|]; [|done]. apply (unwrap_local_inv _ sk me) in Hrun0; [|by split].
  destruct Hrun0 as (-> & Hv & Hp & k0 & seal & k & _ & Hs & Hk & Hd).
  destruct (validMessageContent (r_content r)) eqn:Hc; [|done]. cbn [negb] in Hrun.
  destruct (participantSet r) as [ps|] eqn:Hps; [|done].
  rewrite (bind_ok _ _ w me w) in Hrun by done.
  destruct (includes ps me) eqn:Hin; [|done]. injection Hrun as <- <-.
  apply includes_spec in Hin. cbn [rumor participants].
  destruct (nip44_decrypt (content wrap) k0) as [sr|]; [|done]. apply open_seal_inv in Hs as (Hsv & Hsk & Hst).
  destruct (nip44_decrypt (content seal) k) as [rr|] eqn:Hdec; [|done].
  apply open_rumor_inv in Hd as (r' & Hr' & Hpk & Hl & Hh & Heq).
  apply participantSet_inv in Hps as (others & _ & _ & _ & ->).
  split_and!; [done..| | | | | |]; try done.
  - exists seal, k, r'. rewrite <-Hpk, Hdec. split_and!; done.
  - apply elem_of_normalize. split; [done|]. exists (r_pubkey r).
    split; [by left|by apply lower_hex64_fixed].
  - apply normalize_lower.
Qed.

End giftwrap.

(** *** A concrete room *)

#[local] Existing Instances Signer.sample_urls Signer.no_extension Signer.sample_bunker.

#[local] Instance half : MathRandom.
Proof.
  refine {| math_random _ := Fin (1 # 2)%Q |}. intros _. exists (1 # 2)%Q. done.
Defined.

Definition key_of (n : Z) : bytes := to_bytes 32 n.
Definition pub_of (n : Z) : string := default "" (getPublicKey (key_of n)).
Definition signer_of (n : Z) : NostrSigner World :=
  match Signer.createLocalNostrSigner (key_of n) (Some (pub_of n)) with
  | Ok s => s
  | Throw m => mkSigner Local (throw m) (λ _, throw m) (λ _ _, throw m) (λ _ _, throw m)
  end.
Definition nobody : SentMessage := mkSent [] "" [].
Definition room : SentMessage :=
  match (sendGroupMessage (signer_of 7) [pub_of 9; toUpperCase (pub_of 8)] "Hi all" fresh_world).1 with
  | Ok sent => sent | Throw _ => nobody end.
Definition direct : SentMessage :=
  match (sendDirectMessage (signer_of 7) (pub_of 8) "Hi" fresh_world).1 with
  | Ok sent => sent | Throw _ => nobody end.

Lemma signer_of_local n : is_Some (getPublicKey (key_of n)) →
  is_local (key_of n) (pub_of n) (signer_of n).
Proof. intros [pk Hpk]. unfold is_local, signer_of, pub_of. by rewrite Hpk. Qed.

Lemma group_message_received_witness :
  length (sm_wraps room) = 3 ∧
  Forall2 (received (sm_participants room) (pub_of 7) "Hi all") (sm_participants room) (sm_wraps room).
Proof.
  split; [vm_compute; reflexivity|].
  destruct (group_message_received (signer_of 7) (key_of 7) (pub_of 7)
    [pub_of 9; toUpperCase (pub_of 8)] "Hi all" fresh_world room
    (sendGroupMessage (signer_of 7) [pub_of 9; toUpperCase (pub_of 8)] "Hi all" fresh_world).2)
    as (Hps & _ & _ & Hf).
  - apply signer_of_local. eexists. vm_compute. reflexivity.
  - vm_compute. split; congruence.
  - vm_compute. reflexivity.
  - rewrite Hps. exact Hf.
Defined.

Lemma direct_message_received_witness :
  Forall2 (received (sm_participants direct) (pub_of 7) "Hi") [pub_of 7; pub_of 8] (sm_wraps direct).
Proof.
  destruct (direct_message_received (signer_of 7) (key_of 7) (pub_of 7) (pub_of 8) "Hi" fresh_world direct
    (sendDirectMessage (signer_of 7) (pub_of 8) "Hi" fresh_world).2) as (_ & Hps & _ & Hf).
  - apply signer_of_local. eexists. vm_compute. reflexivity.
  - vm_compute. split; congruence.
  - vm_compute. reflexivity.
  - rewrite Hps. exact Hf.
Defined.

Definition direct_wrap : Event := default (mkEvent "" "" NaN NaN [] "" "") (sm_wraps direct !! 1).
Definition shown : UnwrappedMessage :=
  match (unwrapMessage (signer_of 8) direct_wrap fresh_world).1 with
  | Ok (Some u) => u | _ => mkUnwrapped (mkRumor "" "" NaN NaN [] "") [] end.

Lemma accepted_message_authentic_witness :
  verifyEvent direct_wrap = true ∧ pub_of 8 ∈ participants shown ∧
  r_pubkey (rumor shown) ∈ participants shown.
Proof.
  assert (is_local (key_of 8) (pub_of 8) (signer_of 8)) as Hs.
  { apply signer_of_local. eexists. vm_compute. reflexivity. }
  assert (unwrapMessage (signer_of 8) direct_wrap fresh_world = (Ok (Some shown), fresh_world)) as Hrun.
  { vm_compute. reflexivity. }
  pose proof (accepted_message_authentic _ _ _ _ _ _ _ Hs Hrun) as (_ & Hv & _ & _ & _ & _ & Hme & Hau & _).
  exact (conj Hv (conj Hme Hau)).
Defined.

Example shown_text : r_content (rumor shown) = "Hi" ∧ r_pubkey (rumor shown) = pub_of 7.
Proof. vm_compute. split; reflexivity. Qed.

(** An inbound rumor whose tags name ten others makes a room of eleven, although rooms
    are limited to [MAX_ROOM_PARTICIPANTS]. *)
Definition crowded : Rumor :=
  mkRumor (pub_of 1) "" NIP17_DIRECT_KIND (int 0) (map (λ n, ["p"; pub_of n]) (seqZ 2 10)) "hi".

Lemma oversized_room_accepted :
  ∃ ps, participantSet crowded = Some ps ∧ length ps = 11 ∧ MAX_ROOM_PARTICIPANTS < length ps.
Proof. eexists. split; [vm_compute; reflexivity|]. split; [done|]. apply Nat.ltb_lt. done. Qed.

End GiftWrap.
