(* ===== verification/ChatStore.v ===== *)
(** * Durable chat storage: [services/chat/chatStore.ts], [moderation.ts], [outbox.ts]

    Operations on the chat database of the device ([chat_db] of the [World]): every one
    is one or two requests, which may be rejected.  The relay that publishes the outbox
    is the class [Publisher]. *)

From Stdlib Require Import QArith Lia.
From S2P Require Import Prelude JsNumber JsString JsStringFacts JsCollection Json.
From S2P Require Import JsonFacts Nostr CryptoModel Platform IdentityStore.
Close Scope Q_scope.

(** [client.publish(relays, event)] of the relay client, with its results per relay. *)
Class Publisher : Type := {
  publish_results : list string → Event → prog World (list bool);
  (** Publishing does not write to the chat database. *)
  publish_frame relays e w : chat_db (publish_results relays e w).2 = chat_db w
}.

Module ChatStore.

Definition CRYPTO_KEY_ID : string := "local-encryption-key".

(** [getAll] yields the records of a store in the order of their keys. *)
Definition in_key_order {A} (m : gmap string A) : list A :=
  map snd (js_sort (λ a b : string * A, str_le a.1 b.1) (map_to_list m)).

Definition with_conversations f db := mkChatDb (f (db_conversations db)) (db_messages db)
  (db_gift_wraps db) (db_outbox db) (db_sync db) (db_read db) (db_prefs db) (db_crypto db).
Definition with_messages f db := mkChatDb (db_conversations db) (f (db_messages db))
  (db_gift_wraps db) (db_outbox db) (db_sync db) (db_read db) (db_prefs db) (db_crypto db).
Definition with_gift_wraps f db := mkChatDb (db_conversations db) (db_messages db)
  (f (db_gift_wraps db)) (db_outbox db) (db_sync db) (db_read db) (db_prefs db) (db_crypto db).
Definition with_outbox f db := mkChatDb (db_conversations db) (db_messages db)
  (db_gift_wraps db) (f (db_outbox db)) (db_sync db) (db_read db) (db_prefs db) (db_crypto db).
Definition with_sync f db := mkChatDb (db_conversations db) (db_messages db)
  (db_gift_wraps db) (db_outbox db) (f (db_sync db)) (db_read db) (db_prefs db) (db_crypto db).
Definition with_read f db := mkChatDb (db_conversations db) (db_messages db)
  (db_gift_wraps db) (db_outbox db) (db_sync db) (f (db_read db)) (db_prefs db) (db_crypto db).
Definition with_prefs f db := mkChatDb (db_conversations db) (db_messages db)
  (db_gift_wraps db) (db_outbox db) (db_sync db) (db_read db) (f (db_prefs db)) (db_crypto db).
Definition with_crypto f db := mkChatDb (db_conversations db) (db_messages db)
  (db_gift_wraps db) (db_outbox db) (db_sync db) (db_read db) (db_prefs db) (f (db_crypto db)).

(** [put], [get] and [del]: one request each. *)
Definition write (f : ChatDb → ChatDb) : prog World unit := request (modify (set_chat_db f)).
Definition read {A} (f : ChatDb → A) : prog World A := request (gets (f ∘ chat_db)).

(** ** Messages bodies under the device key *)

Definition encode (iv data : bytes) : string := Vault.b64encode (iv ++ data).

Definition decode (b64 : string) : option (bytes * bytes) :=
  match Vault.b64decode b64 with
  | Ok b => if (length b <? 28)%nat then None else Some (take 12 b, drop 12 b)
  | Throw _ => None
  end.

Section crypto.
Context `{Aes, Sha256, Random, NostrTools}.

Definition getOrCreateEncryptionKey : prog World CryptoKey :=
  row ← read (λ db, db_crypto db !! CRYPTO_KEY_ID);
  match row with
  | Some key => mret key
  | None =>
      key ← generateKey false;
      _ ← write (with_crypto <[CRYPTO_KEY_ID := key]>);
      mret key
  end.

Definition encryptLocalPlaintext (plaintext : string) : prog World string :=
  key ← getOrCreateEncryptionKey;
  iv ← getRandomValues 12;
  ciphertext ← subtle_encrypt key iv [] (utf8_encode plaintext);
  mret (encode iv ciphertext).

Definition decryptLocalPlaintext (ciphertextB64 : string) : prog World (option string) :=
  try_catch
    (key ← getOrCreateEncryptionKey;
     match decode ciphertextB64 with
     | None => mret None
     | Some (iv, data) =>
         plain ← subtle_decrypt key iv [] data;
         mret (Some (utf8_decode plain))
     end)
    (λ _, mret None).
End crypto.

(** ** Conversations and messages *)

Definition putConversation (c : StoredConversation) : prog World unit :=
  write (with_conversations <[sc_id c := c]>).

Definition listConversations : prog World (list StoredConversation) :=
  read (λ db, in_key_order (db_conversations db)).

Definition putMessage (m : StoredMessage) : prog World unit := write (with_messages <[sm_id m := m]>).

Definition MIN_SAFE_INTEGER : num := int (- max_safe).
Definition MAX_SAFE_INTEGER : num := int max_safe.

(** The range of the index [by_conversation] that the cursor walks, and its order:
    from the latest timestamp down, ids breaking ties. *)
Definition in_range (conversationId : string) (before : num) (m : StoredMessage) : bool :=
  String.eqb (sm_conversation_id m) conversationId
  && num_le MIN_SAFE_INTEGER (sm_created_at m) && num_le (sm_created_at m) before.

Definition index_order (a b : StoredMessage) : bool :=
  num_lt (sm_created_at b) (sm_created_at a)
  || (num_eqb (sm_created_at a) (sm_created_at b) && str_le (sm_id b) (sm_id a)).

Definition listMessages (conversationId : string) (limit : option nat) (before : option num)
    : prog World (list StoredMessage) :=
  read (λ db, take (default 200 limit) (js_sort index_order
    (List.filter (in_range conversationId (default MAX_SAFE_INTEGER before))
      (in_key_order (db_messages db))))).

Record PublicChannelMessage : Type := mkPublicMessage {
  pc_id : string; pc_channel_id : string; pc_sender_pubkey : string; pc_created_at : num;
  pc_content : string
}.

Definition stored_public (m : PublicChannelMessage) : StoredMessage :=
  mkStoredMessage (pc_id m) (pc_channel_id m) (pc_sender_pubkey m) (pc_created_at m) (int 9)
    (pc_content m) Delivered.

Definition putChannelMessage (m : PublicChannelMessage) : prog World unit :=
  putMessage (stored_public m).

Definition public_of (m : StoredMessage) : PublicChannelMessage :=
  mkPublicMessage (sm_id m) (sm_conversation_id m) (sm_sender_pubkey m) (sm_created_at m)
    (sm_ciphertext m).

Definition listChannelMessages (channelId : string) : prog World (list PublicChannelMessage) :=
  stored ← listMessages channelId None None;
  mret (map public_of stored).

(** ** Gift wraps, sync cursors, read state, preferences *)

Definition hasGiftWrap (outerId : string) : prog World bool :=
  row ← read (λ db, db_gift_wraps db !! outerId); mret (bool_decide (is_Some row)).

Definition markGiftWrapSeen (outerId : string) : prog World bool :=
  existing ← read (λ db, db_gift_wraps db !! outerId);
  match existing with
  | Some _ => mret false
  | None =>
      now ← date_now;
      _ ← write (with_gift_wraps <[outerId := now]>);
      mret true
  end.

Definition putSyncState (s : StoredSyncState) : prog World unit := write (with_sync <[ss_id s := s]>).
Definition getSyncState (id : string) : prog World (option StoredSyncState) :=
  read (λ db, db_sync db !! id).

Definition putReadState (s : StoredReadState) : prog World unit :=
  write (with_read <[rd_conversation_id s := s]>).
Definition getReadState (conversationId : string) : prog World (option StoredReadState) :=
  read (λ db, db_read db !! conversationId).

Definition setPreference (key : string) (value : json) : prog World unit :=
  write (with_prefs <[key := value]>).

(** [row?.value ?? null] *)
Definition getPreference (key : string) : prog World (option json) :=
  row ← read (λ db, db_prefs db !! key);
  mret (v ← row; match v with JNull => None | _ => Some v end).

Definition deleteConversation (conversationId : string) : prog World unit :=
  _ ← write (with_conversations (delete conversationId));
  write (with_read (delete conversationId)).

(** ** [moderation.ts] *)

Definition BLOCKED_KEY : string := "moderation:blocked_pubkeys".
Definition MUTED_KEY : string := "moderation:muted_pubkeys".

Inductive QuarantineDecision : Type := Accept | Quarantine | Block.

(** A preference read as a list of strings; another value is a type error. *)
Definition preference_list (key : string) : prog World (list string) :=
  v ← getPreference key;
  match v with
  | None => mret []
  | Some v => match as_arr v ≫= mapM as_str with
              | Some l => mret l
              | None => throw "TypeError"
              end
  end.

Definition strings_value (l : list string) : json := JArr (map JStr l).

Definition blockedPubkeys : prog World (list string) := preference_list BLOCKED_KEY.
Definition mutedPubkeys : prog World (list string) := preference_list MUTED_KEY.

Definition isBlocked (pubkey : string) : prog World bool :=
  l ← blockedPubkeys; mret (includes l (toLowerCase pubkey)).
Definition isMuted (pubkey : string) : prog World bool :=
  l ← mutedPubkeys; mret (includes l (toLowerCase pubkey)).

Definition blockPubkey (pubkey : string) : prog World unit :=
  l ← blockedPubkeys;
  setPreference BLOCKED_KEY (strings_value (set_add (set_of l) (toLowerCase pubkey))).
Definition unblockPubkey (pubkey : string) : prog World unit :=
  l ← blockedPubkeys;
  setPreference BLOCKED_KEY (strings_value (List.filter (λ p, negb (String.eqb p (toLowerCase pubkey))) l)).
Definition mutePubkey (pubkey : string) : prog World unit :=
  l ← mutedPubkeys;
  setPreference MUTED_KEY (strings_value (set_add (set_of l) (toLowerCase pubkey))).
Definition unmutePubkey (pubkey : string) : prog World unit :=
  l ← mutedPubkeys;
  setPreference MUTED_KEY (strings_value (List.filter (λ p, negb (String.eqb p (toLowerCase pubkey))) l)).

Definition quarantineDecision (isContact isCircleMember isBlocked : bool) : QuarantineDecision :=
  if isBlocked then Block else if isContact || isCircleMember then Accept else Quarantine.

(** ** The outbox *)

Definition putOutboxItem (item : StoredOutboxItem) : prog World unit :=
  write (with_outbox <[ob_id item := item]>).

Definition due (now : num) (i : StoredOutboxItem) : bool :=
  negb (ob_delivered i) && num_le (ob_next_retry_at i) now.

Definition listPendingOutbox (now : num) : prog World (list StoredOutboxItem) :=
  read (λ db, List.filter (due now) (in_key_order (db_outbox db))).

Definition MAX_BACKOFF_MS : num := int 1800000.

Definition enqueueOutbox (recipientPubkey : string) (relays : list string) (wrap : Event)
    : prog World unit :=
  putOutboxItem (mkOutboxItem (id wrap) recipientPubkey relays (stringify (event_to_json wrap))
    (int 0) (int 0) false).

Definition delivered_item (i : StoredOutboxItem) : StoredOutboxItem :=
  mkOutboxItem (ob_id i) (ob_recipient_pubkey i) (ob_relays i) (ob_wrap i) (ob_attempts i)
    (ob_next_retry_at i) true.

(** [2 ** attempts] for a non-negative integer number of attempts. *)
Definition pow2 (x : num) : num := rnd (inject_Z (2 ^ to_Z x)).

Definition backoff (attempts : num) : num := num_min MAX_BACKOFF_MS (num_mul (int 1000) (pow2 attempts)).

Definition retried_item (now : num) (i : StoredOutboxItem) : StoredOutboxItem :=
  let attempts := num_add (ob_attempts i) (int 1) in
  mkOutboxItem (ob_id i) (ob_recipient_pubkey i) (ob_relays i) (ob_wrap i) attempts
    (num_add now (backoff attempts)) (ob_delivered i).

Section outbox.
Context `{Publisher}.

Definition deliver_one (now : num) (counts : nat * nat) (item : StoredOutboxItem)
    : prog World (nat * nat) :=
  let '(delivered, failed) := counts in
  match parse (ob_wrap item) ≫= event_of_json with
  | None => throw "SyntaxError"
  | Some wrap =>
      results ← publish_results (ob_relays item) wrap;
      if existsb (λ ok, ok) results
      then _ ← putOutboxItem (delivered_item item); mret (S delivered, failed)
      else _ ← putOutboxItem (retried_item now item); mret (delivered, S failed)
  end.

Definition deliverPendingOutbox (now : num) : prog World (nat * nat) :=
  pending ← listPendingOutbox now;
  for_fold pending (0, 0) (deliver_one now).

(** *** Facts about the outbox *)

Definition outbox (w : World) : gmap string StoredOutboxItem := db_outbox (chat_db w).

(** A relay of the item acknowledged its wrap. *)
Definition acknowledged (i : StoredOutboxItem) : Prop :=
  ∃ wrap w results, (parse (ob_wrap i) ≫= event_of_json) = Some wrap ∧
    (publish_results (ob_relays i) wrap w).1 = Ok results ∧ true ∈ results.

(** What a delivery attempt makes of an item. *)
Definition settled (now : num) (i i' : StoredOutboxItem) : Prop :=
  (i' = delivered_item i ∧ acknowledged i) ∨ i' = retried_item now i.

Lemma put_outbox_run i w o w' :
  putOutboxItem i w = (o, w') →
  match o with
  | Ok _ => outbox w' = <[ob_id i := i]> (outbox w)
  | Throw _ => outbox w' = outbox w
  end.
Proof.
  unfold putOutboxItem, write, request. destruct (faults w) as [|[] fs]; by intros [= <- <-].
Qed.

Lemma deliver_one_run now c i w o w' :
  deliver_one now c i w = (o, w') →
  match o with
  | Ok c' => c'.1 + c'.2 = S (c.1 + c.2) ∧
      ∃ i', outbox w' = <[ob_id i := i']> (outbox w) ∧ settled now i i'
  | Throw _ => outbox w' = outbox w
  end.
Proof.
  destruct c as [d f]. unfold deliver_one.
  destruct (parse (ob_wrap i) ≫= event_of_json) as [wrap|] eqn:Hp; [|by intros [= <- <-]].
  unfold mbind, prog_bind at 1. pose proof (publish_frame (ob_relays i) wrap w) as Hf.
  destruct (publish_results (ob_relays i) wrap w) as [[results|m] w1] eqn:Hr; simpl in Hf;
    [|intros [= <- <-]; unfold outbox; by rewrite Hf].
  assert (outbox w1 = outbox w) as Hw1 by (unfold outbox; by rewrite Hf).
  destruct (existsb (λ ok, ok) results) eqn:He; unfold prog_bind;
    destruct (putOutboxItem _ w1) as [[[]|m] w2] eqn:Hput; apply put_outbox_run in Hput;
    intros [= <- <-]; rewrite Hput, ?Hw1; try done.
  - split; [done|]. exists (delivered_item i). split; [done|]. left. split; [done|].
    apply existsb_exists in He as ([] & Hin & ?); [|done].
    exists wrap, w, results. rewrite Hr. split_and!; [done..|]. by apply list_elem_of_In.
  - split; [simpl; lia|]. exists (retried_item now i). split; [done|]. by right.
Qed.

(** Records are stored under their own key. *)
Definition keyed_by {A} (key : A → string) (m : gmap string A) : Prop := ∀ k x, m !! k = Some x → key x = k.

Lemma elem_of_in_key_order {A} (m : gmap string A) x : x ∈ in_key_order m ↔ ∃ k, m !! k = Some x.
Proof.
  unfold in_key_order. change (map snd ?l) with (snd <$> l). rewrite list_elem_of_fmap. split.
  - intros ([k y] & -> & Hin%elem_of_js_sort). exists k. by apply elem_of_map_to_list.
  - intros [k Hk]. exists (k, x). split; [done|]. by apply elem_of_js_sort, elem_of_map_to_list.
Qed.

Lemma NoDup_in_key_order {A} (key : A → string) (m : gmap string A) :
  keyed_by key m → NoDup (map key (in_key_order m)).
Proof.
  intros Hk. unfold in_key_order. change (map ?f ?l) with (f <$> l). rewrite <-list_fmap_compose.
  rewrite js_sort_perm. rewrite (list_fmap_ext _ fst); [apply NoDup_fst_map_to_list|].
  intros i [k x] Hx. apply (Hk k). apply elem_of_map_to_list. by eapply list_elem_of_lookup_2.
Qed.

(** The items of [l], and whether the loop over them has settled all of them. *)
Definition after (now : num) (l : list StoredOutboxItem) (finished : bool) (w w' : World) : Prop :=
  (∀ k, k ∉ map ob_id l → outbox w' !! k = outbox w !! k) ∧
  ∀ i, i ∈ l → ∃ i', outbox w' !! ob_id i = Some i' ∧
    (settled now i i' ∨ (i' = i ∧ finished = false)).

Lemma deliver_all_run now l c w o w' :
  NoDup (map ob_id l) → (∀ i, i ∈ l → outbox w !! ob_id i = Some i) →
  for_fold l c (deliver_one now) w = (o, w') →
  match o with
  | Ok c' => c'.1 + c'.2 = c.1 + c.2 + length l ∧ after now l true w w'
  | Throw _ => after now l false w w'
  end.
Proof.
  revert c w. induction l as [|i l IH]; intros c w Hnd Hst; cbn [for_fold].
  - intros [= <- <-]. split; [simpl; lia|]. split; [done|]. set_solver.
  - unfold mbind, prog_bind. destruct (deliver_one now c i w) as [[c1|m] w1] eqn:H1;
      apply deliver_one_run in H1.
    + destruct H1 as (Hc & i' & Hw1 & Hi). cbn [map] in Hnd. apply NoDup_cons in Hnd as [Hni Hnd].
      assert (∀ j, j ∈ l → ob_id j ≠ ob_id i) as Hne.
      { intros j Hj Heq. apply Hni. rewrite <-Heq. change (map ob_id l) with (ob_id <$> l).
        apply list_elem_of_fmap. by exists j. }
      intros H2. apply (IH c1 w1 Hnd) in H2.
      2: { intros j Hj. rewrite Hw1, lookup_insert_ne by (symmetry; auto). apply Hst. by right. }
      assert (∀ b, after now l b w1 w' → after now (i :: l) b w w') as Haft.
      { intros b [Ho Hin]. split.
        - intros k Hk. cbn [map] in Hk. apply not_elem_of_cons in Hk as [Hki Hkl].
          by rewrite Ho, Hw1, lookup_insert_ne.
        - intros j [->|Hj]%elem_of_cons; [|by apply Hin]. exists i'.
          rewrite Ho, Hw1, lookup_insert_eq by done. auto. }
      destruct o as [c'|m]; [|by apply Haft]. destruct H2 as [Hsum Hl]. split; [|by apply Haft].
      cbn [length]. lia.
    + intros [= <- <-]. split; [intros k _; by rewrite H1|]. intros j Hj. exists j.
      rewrite H1, Hst by done. auto.
Qed.

Lemma NoDup_filter_map {A B} (f : A → B) (p : A → bool) l :
  NoDup (map f l) → NoDup (map f (List.filter p l)).
Proof.
  induction l as [|x l IH]; [done|]. cbn [map List.filter]. intros [Hx Hl]%NoDup_cons.
  destruct (p x); [|auto]. cbn [map]. apply NoDup_cons. split; [|auto].
  intros (y & Hy & Hin%list_elem_of_In)%list_elem_of_In%in_map_iff. apply Hx.
  apply elem_of_filter_b in Hin as [Hin _]. apply list_elem_of_In, in_map_iff.
  exists y. by rewrite <-list_elem_of_In.
Qed.

(** C30: A delivery round never loses a message.  Whatever the relays answer and however
    many requests are rejected, an item that is not due stays as it was; a due item is
    still there with the same wrap, and is marked as delivered only if one of its relays
    acknowledged it.  A round that completes has settled every due item, each counted
    once. *)
Theorem outbox_never_loses now w o w' :
  keyed_by ob_id (outbox w) → deliverPendingOutbox now w = (o, w') →
  (∀ k i, outbox w !! k = Some i → ∃ i', outbox w' !! k = Some i' ∧
    ob_wrap i' = ob_wrap i ∧ ob_recipient_pubkey i' = ob_recipient_pubkey i ∧
    ob_relays i' = ob_relays i ∧
    (i' = i ∨ due now i = true ∧ settled now i i')) ∧
  (∀ d f, o = Ok (d, f) →
    d + f = length (List.filter (due now) (in_key_order (outbox w))) ∧
    ∀ k i, outbox w !! k = Some i → due now i = true →
      ∃ i', outbox w' !! k = Some i' ∧ settled now i i').
Proof.
  intros Hk Hrun. set (l := List.filter (due now) (in_key_order (outbox w))).
  assert (∀ k i, outbox w !! k = Some i → due now i = true → i ∈ l) as Hdue.
  { intros k i Hi Hd. apply elem_of_filter_b. split; [|done]. apply elem_of_in_key_order. eauto. }
  assert (∀ i, i ∈ l → outbox w !! ob_id i = Some i ∧ due now i = true) as Hl.
  { intros i [[k Hi]%elem_of_in_key_order Hd]%elem_of_filter_b. by rewrite (Hk k i Hi). }
  assert (∃ b, after now l b w w' ∧ ∀ d f, o = Ok (d, f) → b = true ∧ d + f = length l)
    as (b & [Ho Hin] & Hb).
  { unfold deliverPendingOutbox, listPendingOutbox, read, request in Hrun.
    unfold mbind, prog_bind, gets in Hrun.
    assert (∀ w1, outbox w1 = outbox w → for_fold l (0, 0) (deliver_one now) w1 = (o, w') →
      ∃ b, after now l b w w' ∧ ∀ d f, o = Ok (d, f) → b = true ∧ d + f = length l) as Hgo.
    { intros w1 Hw1 Hfold. apply deliver_all_run in Hfold.
      - assert (∀ b, after now l b w1 w' → after now l b w w') as Haft by
          (intros b [Ho Hi]; split; [by rewrite <-Hw1|done]).
        destruct o as [c'|m]; [destruct Hfold as [Hsum Hfold]|]; eexists; (split; [by apply Haft|]).
        + intros d f [= ->]. by split.
        + done.
      - by apply NoDup_filter_map, NoDup_in_key_order.
      - intros i Hi. rewrite Hw1. by apply Hl. }
    destruct (faults w) as [|[] fs]; [by apply (Hgo w)| |by apply (Hgo (set_faults fs w))].
    injection Hrun as <- <-. exists false. split; [|done]. split; [done|].
    intros i Hi. exists i. split; [by apply Hl|auto]. }
  split.
  - intros k i Hi. pose proof (Hk k i Hi) as <-. destruct (due now i) eqn:Hd.
    + destruct (Hin i) as (i' & Hi' & Hs); [eauto|]. exists i'. split; [done|].
      destruct Hs as [[[-> ?]| ->]|[-> _]]; split_and!; try done; [right|right|by left];
        (split; [done|]); [by left|by right].
    + exists i. split_and!; [|done..|by left]. rewrite Ho; [done|].
      change (map ob_id l) with (ob_id <$> l). intros (j & Hj & Hjl)%list_elem_of_fmap.
      apply Hl in Hjl as [Hjs Hjd]. rewrite <-Hj in Hjs. congruence.
  - intros d f Hok. destruct (Hb d f Hok) as [-> Hlen]. split; [done|].
    intros k i Hi Hd. pose proof (Hk k i Hi) as <-.
    destruct (Hin i) as (i' & Hi' & [Hs|[_ ?]]); [eauto| |done]. by exists i'.
Qed.
End outbox.

(** *** Message bodies *)

Section bodies.
Context `{Aes, Sha256, Random, NostrTools}.

Definition sealed_key (w : World) : Prop :=
  ∀ k, db_crypto (chat_db w) !! CRYPTO_KEY_ID = Some k → extractable k = false.

Lemma wp_encryption_key Q E w :
  (∀ k w', db_crypto (chat_db w') !! CRYPTO_KEY_ID = Some k → (sealed_key w → extractable k = false) →
    Q k w') → (∀ m w', E m w') → wp getOrCreateEncryptionKey Q E w.
Proof.
  intros HQ HE. unfold getOrCreateEncryptionKey, read. rewrite wp_bind.
  apply wp_request; [|intros; apply HE]. intros fs _. rewrite wp_gets. cbn [compose].
  destruct (db_crypto _ !! CRYPTO_KEY_ID) as [k|] eqn:Hk.
  - rewrite wp_ret. apply HQ; [done|]. intros Hs. by apply Hs.
  - rewrite wp_bind. apply wp_generateKey. intros k _ Hext. unfold write. rewrite wp_bind.
    apply wp_request; [|intros; apply HE]. intros fs' _. rewrite wp_modify, wp_ret.
    apply HQ; [|done]. cbn. apply lookup_insert_eq.
Qed.

(** A message body encrypted for the chat database decrypts to the same text as long
    as the device key is in the database, under a key that the browser does not export
    if none exportable was stored there. *)
Theorem local_plaintext_roundtrip text w c w' :
  encryptLocalPlaintext text w = (Ok c, w') →
  ∃ k, db_crypto (chat_db w') !! CRYPTO_KEY_ID = Some k ∧ (sealed_key w → extractable k = false) ∧
  ∀ w2, faults w2 = [] → db_crypto (chat_db w2) !! CRYPTO_KEY_ID = Some k →
    decryptLocalPlaintext c w2 = (Ok (Some text), w2).
Proof.
  intros Hrun. pattern c, w'. apply (wp_ok _ _ (λ _ _, True) _ _ _ Hrun). unfold encryptLocalPlaintext. rewrite wp_bind.
  apply wp_encryption_key; [|done]. intros k w1 Hk Hs.
  unfold getRandomValues, draw, subtle_encrypt, wp, mbind, prog_bind, mret, prog_ret.
  exists k. split_and!; [done..|]. intros w2 Hf Hk2.
  unfold decryptLocalPlaintext, try_catch, getOrCreateEncryptionKey, read.
  rewrite (bind_ok _ _ w2 k w2).
  2: { rewrite (bind_ok _ _ w2 (Some k) w2); [done|]. rewrite request_no_fault by done.
       unfold gets. cbn [compose]. by rewrite Hk2. }
  unfold encode, decode. rewrite Vault.b64decode_encode.
  set (iv := random_bytes (draws w1) 12). set (ct := aes_encrypt (key_raw k) iv [] (utf8_encode text)).
  pose proof (random_length (draws w1) 12 : length iv = 12) as Hiv.
  pose proof (aes_length (key_raw k) iv [] (utf8_encode text)) as Hct. fold ct in Hct.
  rewrite length_app, Hiv, Hct. destruct (Nat.ltb_spec (12 + (length (utf8_encode text) + 16)) 28); [lia|].
  rewrite take_app_length', drop_app_length' by done.
  rewrite (bind_ok _ _ w2 (utf8_encode text) w2).
  - by rewrite utf8_decode_encode.
  - unfold subtle_decrypt, lift_outcome. 
    by rewrite (proj2 (aes_spec (key_raw k) iv [] (utf8_encode text) ct) eq_refl).
Qed.
End bodies.

(** *** The order of a listing *)

Definition timed_message (m : StoredMessage) : Prop :=
  ∃ z, sm_created_at m = int z ∧ (Z.abs z <= max_safe)%Z.

Lemma index_order_timed a b : timed_message a → timed_message b →
  index_order a b = ((to_Z (sm_created_at b) <? to_Z (sm_created_at a))%Z
    || ((to_Z (sm_created_at a) =? to_Z (sm_created_at b))%Z && str_le (sm_id b) (sm_id a))).
Proof.
  intros (x & Hx & _) (y & Hy & _). unfold index_order. rewrite Hx, Hy.
  by rewrite int_lt, int_eqb, !int_to_Z.
Qed.

(** The order of the index, on integer timestamps. *)
Definition newer (a b : StoredMessage) : bool :=
  (to_Z (sm_created_at b) <? to_Z (sm_created_at a))%Z
  || ((to_Z (sm_created_at a) =? to_Z (sm_created_at b))%Z && str_le (sm_id b) (sm_id a)).

Lemma newer_trans a b c : newer a b = true → newer b c = true → newer a c = true.
Proof.
  unfold newer. rewrite !orb_true_iff, !andb_true_iff, !Z.ltb_lt, !Z.eqb_eq.
  intros [?|[? H1]] [?|[? H2]]; [left; lia..|]. right. split; [lia|].
  by eapply str_le_trans.
Qed.

Lemma newer_total a b : newer a b = true ∨ newer b a = true.
Proof.
  unfold newer. rewrite !orb_true_iff, !andb_true_iff, !Z.ltb_lt, !Z.eqb_eq.
  destruct (str_le_total (sm_id a) (sm_id b));
    destruct (Z.lt_trichotomy (to_Z (sm_created_at a)) (to_Z (sm_created_at b))) as [|[|]]; auto.
Qed.

(** Listing a conversation yields its messages from the newest down: exactly the
    stored messages of the conversation not after [before], or the newest [limit] of
    them.  Storing a message changes no other, and it is listed with what was stored. *)
Theorem list_messages_spec c limit before w l :
  faults w = [] →
  map_Forall (λ _ m, timed_message m) (db_messages (chat_db w)) →
  (listMessages c limit before w).1 = Ok l →
  let stored m := (∃ k, db_messages (chat_db w) !! k = Some m) ∧
    in_range c (default MAX_SAFE_INTEGER before) m = true in
  StronglySorted (λ a b, newer a b = true) l ∧ length l <= default 200 limit ∧
  (∀ m, m ∈ l → stored m) ∧
  (∀ m, stored m → m ∉ l → length l = default 200 limit ∧ ∀ m', m' ∈ l → newer m' m = true).
Proof.
  intros Hf Ht Hl stored. unfold listMessages, read in Hl.
  rewrite request_no_fault in Hl by done. unfold gets in Hl. cbn [compose fst] in Hl.
  injection Hl as <-. set (f := List.filter _ _).
  assert (∀ m, m ∈ f ↔ stored m) as Hin.
  { intros m. unfold f, stored. by rewrite elem_of_filter_b, elem_of_in_key_order. }
  rewrite (js_sort_ext _ newer).
  2: { intros x y [[kx Hx] _]%Hin [[ky Hy] _]%Hin. apply index_order_timed; by eapply Ht. }
  assert (StronglySorted (λ a b, newer a b = true) (js_sort newer f)) as Hs.
  { apply js_sort_sorted; [apply newer_trans|]. intros. apply newer_total. }
  assert (∀ m, m ∈ js_sort newer f ↔ stored m) as Hin' by (intros m; by rewrite elem_of_js_sort).
  clear Hin. clearbody f. revert Hs Hin'. generalize (js_sort newer f) as g. intros g Hs Hg.
  set (n := default 200 limit). pose proof (take_drop n g) as Hcut.
  rewrite <-Hcut in Hs, Hg. apply StronglySorted_app in Hs as (Hcross & Hs1 & Hs2).
  split_and!.
  - done.
  - rewrite length_take. lia.
  - intros m Hm. apply Hg. set_solver.
  - intros m Hm Hnot. apply Hg in Hm. assert (m ∈ drop n g) as Hd by set_solver. split.
    + rewrite length_take. destruct (decide (n <= length g)); [lia|].
      rewrite drop_ge in Hd by lia. by apply not_elem_of_nil in Hd.
    + intros m' Hm'. by apply Hcross.
Qed.

(** *** Concrete databases *)

(** Attempt [n] is followed by a pause of [1000 * 2^n] ms, at most half an hour. *)
Lemma backoff_capped n : (0 <= n < 40)%Z → backoff (int n) = int (Z.min 1800000 (1000 * 2 ^ n)).
Proof.
  intros Hn. assert (forallb (λ n, bool_decide (backoff (int n) = int (Z.min 1800000 (1000 * 2 ^ n))))
    (seqZ 0 40) = true) as Hall by (vm_compute; reflexivity).
  rewrite forallb_forall in Hall. specialize (Hall n). rewrite bool_decide_eq_true in Hall.
  apply Hall, list_elem_of_In, elem_of_seqZ. lia.
Qed.

#[local] Instance half_reachable : Publisher.
Proof.
  refine {| publish_results relays _ := mret (map (String.eqb "wss://up") relays) |}.
  done.
Defined.

Definition a_wrap : Event := mkEvent "w1" "pk" (int 1767225600) (int 1059) [["p"; "q"]] "..." "sig".
Definition item (i : string) (relays : list string) (retry : Z) : StoredOutboxItem :=
  mkOutboxItem i "q" relays (stringify (event_to_json a_wrap)) (int 2) (int retry) false.
Definition outbox_world : World :=
  set_chat_db (with_outbox (λ _, {[ "w1" := item "w1" ["wss://down"; "wss://up"] 0;
    "w2" := item "w2" ["wss://down"] 5; "w3" := item "w3" [] 99 ]})) fresh_world.

Example one_round :
  (deliverPendingOutbox (int 10) outbox_world).1 = Ok (1, 1) ∧
  ob_next_retry_at <$> (outbox (deliverPendingOutbox (int 10) outbox_world).2 !! "w2")
    = Some (int 8010).
Proof. vm_compute. split; reflexivity. Qed.

Lemma outbox_never_loses_witness :
  ∃ i', outbox (deliverPendingOutbox (int 10) outbox_world).2 !! "w2" = Some i' ∧
    settled (int 10) (item "w2" ["wss://down"] 5) i'.
Proof.
  assert (keyed_by ob_id (outbox outbox_world)) as Hk.
  { assert (map_Forall (λ k i, ob_id i = k) (outbox outbox_world)) as Hf; [|exact Hf].
    by repeat apply map_Forall_insert_2. }
  destruct (outbox_never_loses (int 10) outbox_world (Ok (1, 1))
    (deliverPendingOutbox (int 10) outbox_world).2 Hk) as [_ Hdone].
  - vm_compute. reflexivity.
  - destruct (Hdone 1 1 eq_refl) as [_ Hs]. apply (Hs "w2"); vm_compute; reflexivity.
Defined.

Definition sealed_body : outcome string * World := encryptLocalPlaintext "See you at 6" fresh_world.
Definition sealed_text : string := match sealed_body.1 with Ok c => c | Throw _ => "" end.

Lemma local_plaintext_roundtrip_witness :
  ∃ k, db_crypto (chat_db sealed_body.2) !! CRYPTO_KEY_ID = Some k ∧ extractable k = false ∧
    decryptLocalPlaintext sealed_text sealed_body.2 = (Ok (Some "See you at 6"), sealed_body.2).
Proof.
  destruct (local_plaintext_roundtrip "See you at 6" fresh_world sealed_text sealed_body.2)
    as (k & Hk & He & Hd).
  - vm_compute. reflexivity.
  - exists k. split_and!; [done|apply He; by intros ?|apply Hd; [vm_compute; reflexivity|done]].
Defined.

Definition body (i : string) (z : Z) : StoredMessage :=
  mkStoredMessage i "room" "pk" (int z) (int 14) "c" Delivered.
Definition history : World :=
  set_chat_db (with_messages (λ _, {[ "a" := body "a" 10; "b" := body "b" 30; "c" := body "c" 20 ]}))
    fresh_world.

Lemma list_messages_spec_witness :
  let l := [body "b" 30; body "c" 20] in
  StronglySorted (λ a b, newer a b = true) l ∧ length l <= 2 ∧
  ∀ m', m' ∈ l → newer m' (body "a" 10) = true.
Proof.
  assert (map_Forall (λ _ m, timed_message m) (db_messages (chat_db history))) as Ht.
  { repeat apply map_Forall_insert_2;
      first [apply map_Forall_empty|by exists 10%Z|by exists 20%Z|by exists 30%Z]. }
  destruct (list_messages_spec "room" (Some 2) None history [body "b" 30; body "c" 20])
    as (Hs & Hl & _ & Hrest).
  - reflexivity.
  - exact Ht.
  - vm_compute. reflexivity.
  - split_and!; [done..|]. apply (Hrest (body "a" 10)).
    + split; [by exists "a"|done].
    + intros Hin. set_unfold in Hin. destruct Hin as [Hin|[Hin|[]]]; discriminate Hin.
Defined.

End ChatStore.
