(* ===== verification/Web.v ===== *)
(** * The page and the network: [fetch], addresses, build flags, dates, the store

    What the services and hooks use of the browser beside its storage: [fetch] and the
    URL constructor are parameters; [Date.prototype.toISOString], [String.prototype.split]
    and [Math] on integers are the language's.  [App] joins the device with the Redux
    store for the code that dispatches actions.  The flags of [config/features.ts] and
    the relays of [config/chat.ts] come from the build's variables. *)

From Stdlib Require Import QArith Qround Lia Ascii.
From S2P Require Import Prelude JsNumber JsString JsStringFacts JsCollection Json.
From S2P Require Import Nostr CryptoModel Platform SmallSlices.
Close Scope Q_scope.

(** ** Requests *)

Record Request : Type := mkRequest {
  rq_url : string; rq_method : string; rq_headers : list (string * string); rq_body : option string
}.

(** [response.json()] may be rejected. *)
Record Response : Type := mkResponse { status : Z; body_json : outcome json }.

Definition response_ok (r : Response) : bool := ((200 <=? status r) && (status r <=? 299))%Z.

(** A request does not write to the chat database. *)
Class Fetch : Type := {
  fetch : Request → prog World Response;
  fetch_frame r w : chat_db (fetch r w).2 = chat_db w
}.

(** [await response.json()] *)
Definition json_of (r : Response) : prog World json := lift_outcome (body_json r).

(** [isRecord]: [typeof value === 'object' && value !== null] *)
Definition isRecord (v : json) : bool := match v with JObj _ | JArr _ => true | _ => false end.

Definition is_null (v : json) : bool := match v with JNull => true | _ => false end.

(** Truthiness of a parsed value. *)
Definition json_truthy (v : json) : bool :=
  match v with
  | JNull | JBool false => false
  | JBool true | JArr _ | JObj _ => true
  | JNum x => negb (num_zero x) && negb (bool_decide (x = NaN))
  | JStr s => truthy s
  end.

(** [typeof v[key] === 'string'] and its like *)
Definition has_str (v : json) (key : string) : bool := bool_decide (is_Some (str_field v key)).
Definition has_num (v : json) (key : string) : bool := bool_decide (is_Some (num_field v key)).

(** ** The page's address and the build's variables *)

Class Page : Type := {
  window_origin : string;
  window_protocol : string;
  window_host : string;
  (** [new URL(reference, base).toString()], [None] when it throws *)
  resolve_url : string → string → option string;
  (** [import.meta.env[name]] *)
  build_env : string → option string
}.

Section config.
Context `{Page}.

Definition API_BASE : string := default "" (build_env "VITE_API_BASE_URL").

(** [value?.toLowerCase() === 'true'] *)
Definition enabled (value : option string) : bool := bool_decide (toLowerCase <$> value = Some "true").

Record ExperimentalFeatures : Type := mkFeatures {
  ft_acoustic : bool; ft_insights : bool; ft_photos : bool; ft_routing : bool
}.

Definition experimentalFeatures : ExperimentalFeatures :=
  mkFeatures (enabled (build_env "VITE_ENABLE_EXPERIMENTAL_ACOUSTIC"))
    (enabled (build_env "VITE_ENABLE_EXPERIMENTAL_INSIGHTS"))
    (enabled (build_env "VITE_ENABLE_EXPERIMENTAL_PHOTOS"))
    (enabled (build_env "VITE_ENABLE_EXPERIMENTAL_ROUTING")).

Definition safeCircleLocationEnabled : bool :=
  enabled (build_env "VITE_ENABLE_SAFE_CIRCLE_LOCATION").

Definition chatEnabled : bool := enabled (build_env "VITE_ENABLE_CHAT").

(** [s.split(sep)] for a separator of one character; [cur] is the field read so far,
    in reverse. *)
Fixpoint split_on (sep : ascii) (cur s : string) : list string :=
  match s with
  | EmptyString => [String.rev cur]
  | String c s =>
      if Ascii.eqb c sep then String.rev cur :: split_on sep "" s
      else split_on sep (String c cur) s
  end.

Definition csv (value : option string) : list string :=
  List.filter truthy (map trim (split_on "," "" (default "" value))).

Record ChatRelays : Type := mkChatRelays {
  cr_inbox : option string; cr_community : option string; cr_discovery : list string
}.

Definition chatRelays : ChatRelays :=
  mkChatRelays (build_env "VITE_CHAT_INBOX_RELAY_URL") (build_env "VITE_CHAT_COMMUNITY_RELAY_URL")
    (csv (build_env "VITE_CHAT_DISCOVERY_RELAYS")).

(** A string that is absent or empty is false. *)
Definition present (s : option string) : bool := match s with Some s => truthy s | None => false end.

Definition hasChatRelays : bool := present (cr_inbox chatRelays) || present (cr_community chatRelays).

(** [new URL(reference, window.location.origin).toString()] *)
Definition absolute_url (reference : string) : outcome string :=
  match resolve_url reference window_origin with Some u => Ok u | None => Throw "Invalid URL" end.
End config.

(** ** Dates *)

(** The civil date of a day number, days since 1970-01-01. *)
Definition civil (days : Z) : Z * Z * Z :=
  (let z := days + 719468 in
   let era := z / 146097 in
   let doe := z - era * 146097 in
   let yoe := (doe - doe / 1460 + doe / 36524 - doe / 146096) / 365 in
   let doy := doe - (365 * yoe + yoe / 4 - yoe / 100) in
   let mp := (5 * doy + 2) / 153 in
   let d := doy - (153 * mp + 2) / 5 + 1 in
   let m := if mp <? 10 then mp + 3 else mp - 9 in
   (yoe + era * 400 + (if m <=? 2 then 1 else 0), m, d))%Z.

Definition padded (width : nat) (n : Z) : string :=
  let ds := string_of_Z n in zeros (width - String.length ds) ds.

Definition year_string (y : Z) : string :=
  if ((0 <=? y) && (y <=? 9999))%Z then padded 4 y
  else if (y <? 0)%Z then "-" +:+ padded 6 (- y) else "+" +:+ padded 6 y.

(** [new Date(ms).toISOString()] *)
Definition iso_string (ms : num) : outcome string :=
  match ms with
  | Fin q =>
      let t := (if Qle_bool 0 q then Qfloor q else Qceiling q) in
      if (Z.abs t <=? 8640000000000000)%Z then
        let days := (t / 86400000)%Z in
        let r := (t mod 86400000)%Z in
        let '(y, m, d) := civil days in
        Ok (year_string y +:+ "-" +:+ padded 2 m +:+ "-" +:+ padded 2 d +:+ "T" +:+
            padded 2 (r / 3600000) +:+ ":" +:+ padded 2 (r / 60000 mod 60) +:+ ":" +:+
            padded 2 (r / 1000 mod 60) +:+ "." +:+ padded 3 (r mod 1000) +:+ "Z")
      else Throw "Invalid time value"
  | _ => Throw "Invalid time value"
  end.

Example iso_epoch : iso_string (int 0) = Ok "1970-01-01T00:00:00.000Z".
Proof. reflexivity. Qed.
Example iso_leap : iso_string (int 1709210096789) = Ok "2024-02-29T12:34:56.789Z".
Proof. reflexivity. Qed.
Example iso_before : iso_string (int (-1)) = Ok "1969-12-31T23:59:59.999Z".
Proof. reflexivity. Qed.

(** ** The page: the device and the store *)

Record App : Type := mkApp { device : World; store : Root.RootState }.

(** A call of a service from a hook or a component. *)
Definition service {A} (m : prog World A) : prog App A := λ a,
  let '(o, w) := m (device a) in (o, mkApp w (store a)).

Definition dispatch (act : Root.action) : prog App unit :=
  modify (λ a, mkApp (device a) (Root.dispatch (store a) act)).

(** [useAppSelector(f)] *)
Definition select {A} (f : Root.RootState → A) : prog App A := gets (f ∘ store).

Lemma wp_service {A} (m : prog World A) Q E a :
  wp (service m) Q E a ↔
  wp m (λ x w, Q x (mkApp w (store a))) (λ e w, E e (mkApp w (store a))) (device a).
Proof. unfold wp, service. by destruct (m (device a)) as [[] ?]. Qed.

Lemma wp_dispatch act Q E a :
  wp (dispatch act) Q E a ↔ Q tt (mkApp (device a) (Root.dispatch (store a) act)).
Proof. done. Qed.

#[export] Hint Rewrite @wp_service @wp_dispatch : wp.

(** A service that resolved ran on the device, beside the store. *)
Lemma service_inv {A} (m : prog World A) a x a' :
  service m a = (Ok x, a') → ∃ w, m (device a) = (Ok x, w) ∧ a' = mkApp w (store a).
Proof. unfold service. destruct (m (device a)) as [o w]. intros [= -> <-]. by eexists. Qed.

(** A service never touches the store. *)
Lemma service_store {A} (m : prog World A) a : store (service m a).2 = store a.
Proof. unfold service. by destruct (m (device a)). Qed.

Lemma service_device {A} (m : prog World A) a : device (service m a).2 = (m (device a)).2.
Proof. unfold service. by destruct (m (device a)). Qed.

(** ** A page with state of its own *)

(** The page of the application, and the React state of a component on it *)
Record Screen (P : Type) : Type := mkScreen { app : App; page : P }.
Arguments mkScreen {P} _ _.
Arguments app {P} _.
Arguments page {P} _.

Section screen.
Context {P : Type}.

Definition on_app {A} (m : prog App A) : prog (Screen P) A := λ s,
  let '(o, a) := m (app s) in (o, mkScreen a (page s)).

(** A call of a service, and a dispatch, from the component *)
Definition call {A} (m : prog World A) : prog (Screen P) A := on_app (service m).
Definition send (act : Root.action) : prog (Screen P) unit := on_app (dispatch act).

(** A state setter of the component *)
Definition update (f : P → P) : prog (Screen P) unit := modify (λ s, mkScreen (app s) (f (page s))).

Lemma wp_call {A} (m : prog World A) Q E (s : Screen P) :
  wp (call m) Q E s ↔
  wp m (λ x w, Q x (mkScreen (mkApp w (store (app s))) (page s)))
       (λ e w, E e (mkScreen (mkApp w (store (app s))) (page s))) (device (app s)).
Proof. unfold wp, call, on_app, service. by destruct (m (device (app s))) as [[] ?]. Qed.

Lemma wp_send act Q E (s : Screen P) :
  wp (send act) Q E s ↔
  Q tt (mkScreen (mkApp (device (app s)) (Root.dispatch (store (app s)) act)) (page s)).
Proof. done. Qed.

Lemma wp_update f Q E (s : Screen P) : wp (update f) Q E s ↔ Q tt (mkScreen (app s) (f (page s))).
Proof. done. Qed.

(** A call that resolves, from the component *)
Lemma call_ok {A} (m : prog World A) x w (s : Screen P) :
  m (device (app s)) = (Ok x, w) → call m s = (Ok x, mkScreen (mkApp w (store (app s))) (page s)).
Proof. unfold call, on_app, service. by intros ->. Qed.

(** Invariants of the component's state *)
Lemma preserves_on_app {A} (I : P → Prop) (m : prog App A) : preserves (λ s, I (page s)) (on_app m).
Proof. intros s Hs. unfold on_app. by destruct (m (app s)). Qed.

Lemma preserves_update (I : P → Prop) f : (∀ p, I p → I (f p)) → preserves (λ s, I (page s)) (update f).
Proof. intros Hf. apply preserves_modify. intros s. apply Hf. Qed.
End screen.

#[export] Hint Rewrite @wp_call @wp_send @wp_update : wp.
#[export] Hint Resolve preserves_on_app : preserves.
