(* ===== verification/Relay.v ===== *)
(** * Relays: [services/relay/*.ts] and [services/chat/dmRelayDiscovery.ts]

    Addresses, capabilities and lists of relays, and the client that publishes and
    queries.  The connection pool of [nostr-tools] is the class [Pool]: what a relay
    answers is arbitrary.  [Relay.publisher] discharges the interface that the outbox of
    [ChatStore.v] is written against. *)

From Stdlib Require Import QArith Lia Ascii.
From S2P Require Import Prelude JsNumber JsString JsStringFacts JsCollection Json.
From S2P Require Import Nostr CryptoModel Platform IdentityStore Signer ChatRules ChatStore Web.
Close Scope Q_scope.

(** [Filter] of [nostr-tools] *)
Record Filter : Type := mkFilter {
  f_kinds : list num; f_authors : option (list string); f_d : option (list string);
  f_h : option (list string); f_p : option (list string);
  f_since : option num; f_until : option num; f_limit : option num
}.

(** [AbstractSimplePool]: the message of each relay, and the events of a query. *)
Class Pool : Type := {
  pool_publish : list string → Event → prog World (list string);
  pool_query : list string → Filter → prog World (list Event);
  (** The pool does not write to the chat database. *)
  pool_publish_frame relays e w : chat_db (pool_publish relays e w).2 = chat_db w;
  pool_query_frame relays f w : chat_db (pool_query relays f w).2 = chat_db w
}.

Module Relay.

(** ** [relayConnection.ts] *)

Definition is_slash (c : ascii) : bool := Ascii.eqb c "/".

Fixpoint drop_slashes (s : string) : string :=
  match s with String c s' => if is_slash c then drop_slashes s' else s | EmptyString => s end.

(** [s.replace(/\/+$/, '')] and [s.replace(/\/$/, '')] *)
Definition strip_slashes (s : string) : string := String.rev (drop_slashes (String.rev s)).
Definition strip_slash (s : string) : string :=
  match String.rev s with
  | String c s' => if is_slash c then String.rev s' else s
  | EmptyString => s
  end.

Section connection.
Context `{UrlParser}.

Definition normalizeRelayUrl (url : string) : outcome string :=
  parsed ← match parse_url (strip_slashes (trim url)) with
           | Some u => Ok u | None => Throw "Invalid URL" end;
  _ ← Signer.outcome_check (negb (truthy (pathname parsed)
                                  && negb (String.eqb (pathname parsed) "/")))
    ("relay URL must not include a path: " +:+ url);
  _ ← Signer.outcome_check (negb (truthy (username parsed) || truthy (password parsed)))
    ("relay URL must not include credentials: " +:+ url);
  Ok (strip_slash (href parsed)).

Definition assertSecureRelayUrl (url : string) (allowInsecure : bool) : outcome unit :=
  normalized ← normalizeRelayUrl url;
  _ ← Signer.outcome_check (negb (starts_with "ws://" normalized && negb allowInsecure))
    ("relay URL must use wss:// outside development: " +:+ url);
  Signer.outcome_check (starts_with "ws://" normalized || starts_with "wss://" normalized)
    ("relay URL must use ws:// or wss://: " +:+ url).

Definition NIP11_ACCEPT_HEADER : string := "application/nostr+json".

(** [s.replace(/^from/, to)] *)
Definition replace_start (from to s : string) : string :=
  if starts_with from s then to +:+ str_drop (String.length from) s else s.

(** The document is what the relay sent: its fields are not checked. *)
Definition fetchRelayInfo `{Fetch} (url : string) : prog World json :=
  normalized ← lift_outcome (normalizeRelayUrl url);
  let httpsUrl := replace_start "wss:" "https:" (replace_start "ws:" "http:" normalized) in
  response ← fetch (mkRequest httpsUrl "GET" [("Accept", NIP11_ACCEPT_HEADER)] None);
  _ ← check (response_ok response)
    ("relay information request failed (" +:+ string_of_Z (status response) +:+ ")");
  json_of response.
End connection.

(** [supported_nips] of a document, unless it has none. *)
Definition supported_nips (info : option json) : option (list json) :=
  i ← info; v ← field i "supported_nips"; as_arr v.

Definition relaySupportsNips (info : option json) (required : list num) : bool :=
  match supported_nips info with
  | None => false
  | Some nips =>
      forallb (λ nip, existsb (λ v, match v with JNum x => num_eqb x nip | _ => false end) nips)
        required
  end.

(** ** [relayDiscovery.ts] *)

Definition RELAY_LIST_KIND : num := int 10002.
Definition DM_RELAY_LIST_KIND : num := int 10050.
Definition GROUP_LIST_KIND : num := int 10009.

Definition tag_is (name : string) (tag : list string) : bool := bool_decide (tag !! 0 = Some name).

(** [tag[1]] when it is not empty. *)
Definition tag_value (tag : list string) : option string :=
  v ← tag !! 1; if truthy v then Some v else None.

Definition parseRelayUrls (e : Event) : list string :=
  omap tag_value (List.filter (tag_is "r") (tags e)).

Record GroupRef : Type := mkGroupRef { gr_relayUrl : string; gr_groupId : string }.

Definition group_ref (tag : list string) : option GroupRef :=
  id ← tag_value tag;
  let relayUrl := default "" (tag !! 2) in
  if truthy relayUrl then Some (mkGroupRef relayUrl id) else None.

Definition parseGroupList (e : Event) : list GroupRef :=
  omap group_ref (List.filter (tag_is "g") (tags e)).

(** ** [relayAuth.ts] *)

Definition NIP42_AUTH_KIND : num := int 22242.

Definition nip42AuthTemplate (relayUrl challenge : string) : prog World EventTemplate :=
  now ← now_seconds;
  mret (mkTemplate NIP42_AUTH_KIND (int now) [["relay"; relayUrl]; ["challenge"; challenge]] "").

Definition signNip42Auth (signer : NostrSigner World) (relayUrl challenge : string)
    : prog World Event :=
  t ← nip42AuthTemplate relayUrl challenge; s_signEvent signer t.

Definition automaticAuth (signer : NostrSigner World) (relayUrl : string) (event : EventTemplate)
    : prog World Event := s_signEvent signer event.

(** ** [relayPool.ts] and [relayClient.ts] *)

Record PublishResult : Type := mkResult { pr_url : string; pr_ok : bool; pr_message : option string }.

Definition accepted (message : option string) : bool :=
  bool_decide (message = Some "success" ∨ message = Some "duplicate").

Section client.
Context `{Pool}.

Definition publish (relays : list string) (event : Event) : prog World (list PublishResult) :=
  results ← pool_publish relays event;
  mret (imap (λ i url, mkResult url (accepted (results !! i)) (results !! i)) relays).

Definition querySync (relays : list string) (filter : Filter) : prog World (list Event) :=
  pool_query relays filter.

(** [RelayPoolAdapter] *)
Definition query (relays : list string) (filter : Filter) : prog World (list Event) :=
  querySync relays filter.

(** The outbox's view of [publish]. *)
Definition publish_oks (relays : list string) (event : Event) : prog World (list bool) :=
  results ← publish relays event; mret (map pr_ok results).

Lemma publish_oks_frame relays e w : chat_db (publish_oks relays e w).2 = chat_db w.
Proof.
  pose proof (pool_publish_frame relays e w) as Hf. unfold publish_oks, publish, mbind, prog_bind.
  by destruct (pool_publish relays e w) as [[] ?].
Qed.

#[global] Instance publisher : Publisher :=
  {| publish_results := publish_oks; publish_frame := publish_oks_frame |}.

(** ** [chat/dmRelayDiscovery.ts] *)

(** [fallbackRelay ? [fallbackRelay] : []] *)
Definition fallback (relay : option string) : list string :=
  match relay with Some r => if truthy r then [r] else [] | None => [] end.

Definition dm_relay_filter (recipientPubkey : string) : Filter :=
  mkFilter [DM_RELAY_LIST_KIND] (Some [toLowerCase recipientPubkey]) None None None None None
    (Some (int 1)).

Definition resolveRecipientRelays (recipientPubkey : string) (discoveryRelays : list string)
    (fallbackRelay : option string) : prog World (list string) :=
  if (length discoveryRelays =? 0)%nat then mret (fallback fallbackRelay)
  else
    events ← try_catch (query discoveryRelays (dm_relay_filter recipientPubkey)) (λ _, mret []);
    match head events with
    | None => mret (fallback fallbackRelay)
    | Some latest =>
        let relays := parseRelayUrls latest in
        mret (if (length relays =? 0)%nat then fallback fallbackRelay else relays)
    end.
End client.

(** ** Facts *)

Lemma bind_Ok {A B} (m : outcome A) (f : A → outcome B) b :
  m ≫= f = Ok b → ∃ a, m = Ok a ∧ f a = Ok b.
Proof. destruct m as [a|]; [by eauto|done]. Qed.

Lemma outcome_check_Ok b msg u : Signer.outcome_check b msg = Ok u → b = true.
Proof. unfold Signer.outcome_check. by destruct b. Qed.

(** A relay accepted by [assertSecureRelayUrl] has no path and no credentials, and is
    reached over TLS unless plain text was allowed. *)
Lemma secure_relay `{UrlParser} url insecure u :
  assertSecureRelayUrl url insecure = Ok u →
  ∃ p, parse_url (strip_slashes (trim url)) = Some p ∧
    normalizeRelayUrl url = Ok (strip_slash (href p)) ∧
    (pathname p = "" ∨ pathname p = "/") ∧ username p = "" ∧ password p = "" ∧
    (starts_with "wss://" (strip_slash (href p)) = true ∨
     insecure = true ∧ starts_with "ws://" (strip_slash (href p)) = true).
Proof.
  unfold assertSecureRelayUrl. intros (n & Hn & Hsec)%bind_Ok.
  apply bind_Ok in Hsec as ([] & H1%outcome_check_Ok & H2%outcome_check_Ok). pose proof Hn as Hn'.
  unfold normalizeRelayUrl in Hn. apply bind_Ok in Hn as (p & Hp & Hn).
  apply bind_Ok in Hn as ([] & Hpath%outcome_check_Ok & Hn).
  apply bind_Ok in Hn as ([] & Hcred%outcome_check_Ok & [= <-]).
  exists p. split; [by destruct (parse_url _); simplify_eq|]. split; [done|].
  unfold truthy in Hpath, Hcred. reflect_bools. rewrite andb_false_iff in Hpath.
  split_and!; [|done..|].
  - destruct Hpath as [Hpath|Hpath]; reflect_bools; auto.
  - destruct (starts_with "ws://" _) eqn:Hws; [right|left; done].
    split; [|done]. by destruct insecure.
Qed.

(** A message goes to the relays of the recipient's own list, or to the fallback. *)
Lemma recipient_relays `{Pool} pk discovery fb Q E w :
  (∀ rs w', rs = fallback fb ∨
     (∃ e, rs = parseRelayUrls e ∧ rs ≠ []) → Q rs w') →
  wp (resolveRecipientRelays pk discovery fb) Q E w.
Proof.
  intros HQ. unfold resolveRecipientRelays. destruct (length discovery =? 0)%nat.
  { apply HQ. by left. }
  rewrite wp_bind, wp_try_catch. unfold wp at 1. destruct (query _ _ w) as [[es|m] w'].
  - destruct (head es) as [e|]; [|apply HQ; by left]. cbv zeta. rewrite wp_ret. apply HQ.
    destruct (Nat.eqb_spec (length (parseRelayUrls e)) 0) as [|Hn]; [by left|right].
    exists e. split; [done|]. intros Hr. by rewrite Hr in Hn.
  - apply HQ. by left.
Qed.

End Relay.
