(* ===== verification/ChatSync.v ===== *)
(** * Synchronising the chat: [services/chat/publicChannel.ts], [chatSync.ts],
    [hooks/useChannelSync.ts], [useInboxSync.ts] and [useUnreadChats.ts]

    Public channels are read from their relay, validated, stored and shown; gift wraps
    from the inbox relay are opened, stored and shown.  The hooks act on the page
    ([App]): the device and the store.  What an effect does after the component is
    unmounted depends on [gone], which tells whether it is at the given await. *)

From Stdlib Require Import QArith Lia.
From S2P Require Import Prelude JsNumber JsString JsStringFacts JsCollection Json.
From S2P Require Import Nostr CryptoModel Platform IdentityStore NostrIdentity Signer ChatRules.
From S2P Require Import CircleLocation GiftWrap ChatStore ChatSlices SmallSlices Web Relay.
Close Scope Q_scope.

Module ChatSync.

(** ** [publicChannel.ts] *)

Record ParsedChannelRef : Type := mkChannelRef { pc_groupId : string; pc_relayUrl : option string }.

Definition parseChannelRef `{Nip19} (input : string) : option ParsedChannelRef :=
  let trimmed := trim input in
  if negb (truthy trimmed) then None
  else if starts_with "naddr1" trimmed then
    match nip19_decode trimmed with
    | Some (Naddr identifier relays) =>
        match identifier with
        | Some id => if truthy id then Some (mkChannelRef id (relays ≫= head)) else None
        | None => None
        end
    | _ => None
    end
  else if (256 <? str_length trimmed)%Z then None
  else Some (mkChannelRef trimmed None).

Record ChannelState : Type := mkChannelState {
  cs_relayUrl : string; cs_groupId : string; cs_name : string; cs_about : string;
  cs_admins : list string; cs_members : list string
}.

(** [xs.filter(p)] for a test that reads the clock. *)
Definition filter_m {A} (p : A → prog World bool) (xs : list A) : prog World (list A) :=
  for_fold xs [] (λ acc x, b ← p x; mret (if b : bool then acc ++ [x] else acc)).

(** A field of a parsed object that is a string and not empty. *)
Definition text_field (v : json) (key : string) : option string :=
  s ← str_field v key; if truthy s then Some s else None.

Definition tagPubkeys (events : list Event) : list string :=
  set_of (omap Relay.tag_value (List.filter (Relay.tag_is "p") (mjoin (map tags events)))).

Section channel.
Context `{Sha256, Random, NostrTools, Pool}.

Definition fetchState (relayUrl groupId : string) (kind : num) (relaySelfPubkey : option string)
    : prog World (list Event) :=
  events ← Relay.query [relayUrl]
    (mkFilter [kind] None (Some [groupId]) None None None None (Some (int 50)));
  filter_m (λ e, ChatRules.validateGroupStateEvent e groupId relaySelfPubkey) events.

(** The metadata event's content, or an empty object; a value that is no object leaves
    the default name. *)
Definition channel_meta (metadata : list Event) : json :=
  default (JObj []) (parse (default "{}" (content <$> head metadata))).

Definition loadChannelState (relayUrl groupId : string) (relaySelfPubkey : option string)
    : prog World ChannelState :=
  metadata ← fetchState relayUrl groupId ChatRules.NIP29_KIND_METADATA relaySelfPubkey;
  admins ← fetchState relayUrl groupId ChatRules.NIP29_KIND_ADMINS relaySelfPubkey;
  members ← fetchState relayUrl groupId ChatRules.NIP29_KIND_MEMBERS relaySelfPubkey;
  let meta := channel_meta metadata in
  mret (mkChannelState relayUrl groupId
    (default (str_slice 0 12 groupId) (text_field meta "name"))
    (default "" (text_field meta "about")) (tagPubkeys admins) (tagPubkeys members)).

Definition publishChannelMessage (relayUrl : string) (event : Event)
    : prog World (list Relay.PublishResult) := Relay.publish [relayUrl] event.

(** ** [chatSync.ts] *)

Definition CHANNEL_HISTORY_LIMIT : num := int 200.
Definition CHANNEL_SYNC_OVERLAP_SECONDS : num := int 60.

(** [if (x) filter.key = x] *)
Definition number_truthy (x : option num) : option num :=
  n ← x; if num_zero n || bool_decide (n = NaN) then None else Some n.

(** [new Map] by id, which keeps the first position and the last value of an id, then
    sorted by timestamp and id. *)
Definition mergeUnique (events : list Event) : list Event :=
  js_sort (MessageList.before id created_at) (map snd (map_of (map (λ e, (id e, e)) events))).

Definition history_filter (groupId : string) (since until limit : option num) : Filter :=
  mkFilter [ChatRules.NIP29_KIND_MESSAGE] None None (Some [groupId]) None (number_truthy since)
    (number_truthy until) (Some (default CHANNEL_HISTORY_LIMIT limit)).

Definition fetchChannelHistory (relayUrl groupId : string) (since until limit : option num)
    : prog World (list Event) :=
  events ← Relay.query [relayUrl] (history_filter groupId since until limit);
  now ← ChatRules.clock;
  mret (mergeUnique (List.filter (λ e, ChatRules.validateChannelMessage e groupId now) events)).

Definition subscription_filter (groupId : string) (since : option num) : Filter :=
  mkFilter [ChatRules.NIP29_KIND_MESSAGE] None None (Some [groupId]) None (number_truthy since) None None.

(** The handler of [subscribeChannel]: it returns the ids seen so far. *)
Definition channel_event {W} (lift : ∀ A, prog World A → prog W A) (groupId : string)
    (onEvent : Event → prog W unit) (seen : list string) (event : Event) : prog W (list string) :=
  now ← lift _ ChatRules.clock;
  if negb (ChatRules.validateChannelMessage event groupId now) then mret seen
  else if includes seen (id event) then mret seen
  else _ ← onEvent event; mret (set_add seen (id event)).

Definition resumeSince (lastCreatedAt : num) : num :=
  num_max (int 0) (num_sub lastCreatedAt CHANNEL_SYNC_OVERLAP_SECONDS).
End channel.

(** ** [useChannelSync.ts] *)

Record ChannelRef : Type := mkRef { cf_relayUrl : string; cf_groupId : string }.

Definition channel_of (ref : ChannelRef) : string :=
  ChatRules.channelConversationId (cf_relayUrl ref) (cf_groupId ref).

Definition toChatMessage (channelId : string) (e : Event) : Chat.ChatMessage :=
  Chat.mkChatMessage (id e) channelId (pubkey e) (created_at e) (content e).

Definition to_stored (channelId : string) (e : Event) : ChatStore.PublicChannelMessage :=
  ChatStore.mkPublicMessage (id e) channelId (pubkey e) (created_at e) (content e).

Definition stored_message (m : ChatStore.PublicChannelMessage) : Chat.ChatMessage :=
  Chat.mkChatMessage (ChatStore.pc_id m) (ChatStore.pc_channel_id m) (ChatStore.pc_sender_pubkey m)
    (ChatStore.pc_created_at m) (ChatStore.pc_content m).

(** [void promise], or [.catch(() => {})]: a rejection stops nothing. *)
Definition ignored {W} (m : prog W unit) : prog W unit := try_catch m (λ _, mret tt).

Definition remember (channelId : string) (e : Event) : prog App unit :=
  ignored (service (ChatStore.putChannelMessage (to_stored channelId e))).

(** [info.pubkey ?? null]: a value that is no string equals no public key, and counts
    as absent only when it is false. *)
Definition self_key (info : json) : option string :=
  match field info "pubkey" with
  | None | Some JNull => None
  | Some (JStr s) => Some s
  | Some v => Some (if json_truthy v then "[object]" else "")
  end.

(** A live subscription: the ids seen, and the time it resumes from. *)
Record Live : Type := mkLive { lv_seen : list string; lv_since : option num }.

Section hook.
Context `{Aes, Sha256, Random, NostrTools, UrlParser, Extension, Bunkers, Pool, Fetch}.
Variable gone : nat → bool.
Variable ref : ChannelRef.

Abbreviation channelId := (channel_of ref).

Definition restore_stored : prog App unit :=
  ignored
    (stored ← service (ChatStore.listChannelMessages channelId);
     if negb (gone 0) && negb (length stored =? 0)
     then dispatch (Root.ChatAction (Chat.ChannelHistoryLoaded channelId (map stored_message stored)))
     else mret tt).

Definition relay_self : prog App (option string) :=
  try_catch (info ← service (Relay.fetchRelayInfo (cf_relayUrl ref)); mret (self_key info))
    (λ _, mret None).

Definition load_state (relaySelfPubkey : option string) : prog App unit :=
  ignored
    (state ← service (loadChannelState (cf_relayUrl ref) (cf_groupId ref) relaySelfPubkey);
     if gone 1 then mret tt
     else dispatch (Root.ChatAction (Chat.ChannelStateLoaded
       (Chat.mkChannel channelId (cf_groupId ref) (cf_relayUrl ref) (cs_name state)
         (cs_about state) (cs_admins state) (cs_members state))))).

(** [last ? resumeSince(last) : undefined] *)
Definition resume_from (history : list Event) : option num :=
  resumeSince <$> number_truthy (created_at <$> last history).

(** Keep and show the history, and subscribe from its end. *)
Definition show_history (history : list Event) : prog App Live :=
  _ ← for_each history (remember channelId);
  _ ← dispatch (Root.ChatAction (Chat.ChannelHistoryLoaded channelId
        (map (toChatMessage channelId) history)));
  mret (mkLive (set_of (map id history)) (resume_from history)).

Definition run : prog App (option Live) :=
  _ ← restore_stored;
  try_catch
    (_ ← service Signer.getNostrSigner;
     self ← relay_self;
     _ ← load_state self;
     history ← service (fetchChannelHistory (cf_relayUrl ref) (cf_groupId ref) None None None);
     if gone 2 then mret None else Some <$> show_history history)
    (λ _, mret None).

(** The handlers of the subscription. *)
Definition on_event (e : Event) : prog App unit :=
  _ ← remember channelId e;
  dispatch (Root.ChatAction (Chat.ChannelMessageReceived channelId (toChatMessage channelId e))).

Definition live_event (l : Live) (e : Event) : prog App Live :=
  seen ← channel_event (λ A, service) (cf_groupId ref) on_event (lv_seen l) e;
  mret (mkLive seen (lv_since l)).

Definition on_eose : prog App unit := dispatch (Root.ChatAction (Chat.ChannelSynced channelId)).
End hook.

(** [useUnreadChats]: the sum over the channels. *)
Definition unread_chats (s : Root.RootState) : num :=
  fold_left (λ sum kv, num_add sum kv.2) (map_to_list (MessageLog.unread (Chat.log (Root.chat s))))
    (int 0).

(** ** Facts *)

(** *** [mergeUnique] *)

Definition by_id (events : list Event) : list (string * Event) := map (λ e, (id e, e)) events.

Lemma map_of_keyed events kv : kv ∈ map_of (by_id events) → kv.1 = id kv.2 ∧ kv.2 ∈ events.
Proof.
  intros Hin. apply CircleLocation.map_of_elem in Hin as [Hin|Hin]; [by apply elem_of_nil in Hin|].
  by apply list_elem_of_fmap in Hin as (e & -> & He).
Qed.

Lemma map_of_ids events : map id (map snd (map_of (by_id events))) = (map_of (by_id events)).*1.
Proof.
  change (map ?f ?l) with (f <$> l). rewrite <-list_fmap_compose.
  apply list_fmap_ext. intros i kv Hkv. simpl.
  by destruct (map_of_keyed events kv (list_elem_of_lookup_2 _ _ _ Hkv)) as [-> _].
Qed.

Lemma elem_of_mergeUnique events e : e ∈ mergeUnique events → e ∈ events.
Proof.
  unfold mergeUnique. rewrite elem_of_js_sort. intros (kv & -> & Hin)%list_elem_of_fmap.
  by apply (map_of_keyed events kv).
Qed.

Abbreviation timed := (MessageList.timed created_at).
Abbreviation consistent := (MessageLog.consistent id).

Lemma merge_ordered events :
  Forall timed events → MessageList.ordered id created_at (mergeUnique events).
Proof.
  intros Ht. apply MessageList.sort_ordered.
  - apply Forall_forall. intros e (kv & -> & Hin)%list_elem_of_fmap. rewrite Forall_forall in Ht.
    apply Ht. by apply (map_of_keyed events kv).
  - fold (by_id events). rewrite map_of_ids. apply map_of_NoDup_keys.
Qed.

Lemma map_of_kept events e : consistent events → e ∈ events → (id e, e) ∈ map_of (by_id events).
Proof.
  intros Hc He. assert (id e ∈ (map_of (by_id events)).*1) as Hk.
  { apply map_of_keys, list_elem_of_fmap. exists (id e, e). split; [done|].
    apply list_elem_of_fmap. by exists e. }
  apply list_elem_of_fmap in Hk as ([k e'] & Hk & Hin). simpl in Hk. subst k.
  destruct (map_of_keyed _ _ Hin) as [Hid He']. simpl in Hid, He'.
  assert (e = e') as -> by (by apply Hc). done.
Qed.

(** The history a relay returns is merged into the order in which the store keeps the
    messages of a channel: deduplicating and sorting at once gives what inserting one
    event after another gives, when events with the same id are the same event and
    timestamps are integers. *)
Theorem merge_unique_is_insertion events :
  Forall timed events → consistent events →
  mergeUnique events = MessageList.insert_all id created_at [] events.
Proof.
  intros Ht Hc. apply (js_sort_unique (MessageList.before' id created_at)).
  - intros x y z. rewrite !MessageList.before'_precedes. apply MessageList.precedes_trans.
  - intros x. destruct (MessageList.before' id created_at x x) eqn:E; [|done].
    apply MessageList.before'_precedes, MessageList.precedes_irrefl in E. done.
  - apply merge_ordered, Ht.
  - apply MessageList.ordered_insert_all; [apply MessageLog.ordered_nil|done].
  - apply NoDup_Permutation.
    + apply (NoDup_fmap_1 id), merge_ordered, Ht.
    + apply (NoDup_fmap_1 id). apply MessageList.ordered_insert_all; [apply MessageLog.ordered_nil|done].
    + intros x. rewrite MessageLog.elem_of_insert_all_consistent by done. split.
      * intros Hx. right. by apply elem_of_mergeUnique.
      * intros [Hx%elem_of_nil|Hx]; [done|]. unfold mergeUnique. rewrite elem_of_js_sort.
        apply list_elem_of_fmap. exists (id x, x). split; [done|]. by apply map_of_kept.
Qed.

(** *** Only authentic messages are shown *)

Section authentic.
Context `{Aes, Sha256, Random, NostrTools, UrlParser, Extension, Bunkers, Pool, Fetch}.
Variable ref : ChannelRef.

Abbreviation channelId := (channel_of ref).

(** A message of the channel that its author signed. *)
Definition authentic (m : Chat.ChatMessage) : Prop :=
  ∃ e, verifyEvent e = true ∧ ChatRules.singleTag e "h" = Some (cf_groupId ref) ∧
    ChatRules.validMessageContent (content e) = true ∧ m = toChatMessage channelId e.

Definition chat_log (s : Root.RootState) (c : string) : list Chat.ChatMessage :=
  MessageLog.log_of (Chat.log (Root.chat s)) c.

(** What the store shows for the channel, and what the device keeps of it. *)
Definition inv (a : App) : Prop :=
  Forall authentic (chat_log (store a) channelId) ∧
  ∀ k m, db_messages (chat_db (device a)) !! k = Some m → sm_conversation_id m = channelId →
    authentic (stored_message (ChatStore.public_of m)).

Inductive call : Type :=
| Mount (gone : nat → bool)
| LiveEvent (l : Live) (e : Event)
| Eose.

Definition exec (c : call) : prog App unit :=
  match c with
  | Mount gone => _ ← run gone ref; mret tt
  | LiveEvent l e => _ ← live_event ref l e; mret tt
  | Eose => on_eose ref
  end.

Lemma inv_service {A} (m : prog World A) :
  (∀ db, preserves (λ w, chat_db w = db) m) → preserves inv (service m).
Proof.
  intros Hm a [Hl Hd]. unfold inv. rewrite service_store, service_device.
  by rewrite (Hm (chat_db (device a))).
Qed.

(** A service that keeps the chat database, and what its result is known to satisfy. *)
Lemma inv_service_bind {A B} (P : A → Prop) (m : prog World A) (f : A → prog App B) :
  (∀ db, preserves (λ w, chat_db w = db) m) →
  (∀ a x w, inv a → m (device a) = (Ok x, w) → P x) →
  (∀ x, P x → preserves inv (f x)) → preserves inv (service m ≫= f).
Proof.
  intros Hm HP Hf a Ha. pose proof (inv_service m Hm a Ha) as Hs. specialize (HP a).
  unfold mbind, prog_bind. unfold service in *. destruct (m (device a)) as [[x|e] w]; [|done].
  apply Hf; [by eapply HP|done].
Qed.

Lemma keeps_request {A} db (m : prog World A) :
  preserves (λ w, chat_db w = db) m → preserves (λ w, chat_db w = db) (request m).
Proof. apply preserves_request. by intros fs w. Qed.

Lemma keeps_read {A} db (f : ChatDb → A) : preserves (λ w, chat_db w = db) (ChatStore.read f).
Proof. apply keeps_request, preserves_gets. Qed.

Lemma keeps_query db rs f : preserves (λ w, chat_db w = db) (Relay.query rs f).
Proof. intros w <-. apply pool_query_frame. Qed.

Lemma keeps_fetch db r : preserves (λ w, chat_db w = db) (fetch r).
Proof. intros w <-. apply fetch_frame. Qed.

Lemma keeps_clock db : preserves (λ w, chat_db w = db) ChatRules.clock.
Proof. apply preserves_bind; [apply preserves_gets|intros ?; apply preserves_ret]. Qed.

#[local] Hint Resolve keeps_request keeps_read keeps_query keeps_fetch keeps_clock : preserves.

Lemma keeps_fetchRelayInfo db url : preserves (λ w, chat_db w = db) (Relay.fetchRelayInfo url).
Proof. unfold Relay.fetchRelayInfo, json_of. preserves_tac. Qed.

Lemma keeps_for_fold {A S} db (xs : list A) (s : S) step :
  (∀ s x, preserves (λ w, chat_db w = db) (step s x)) →
  preserves (λ w, chat_db w = db) (for_fold xs s step).
Proof.
  intros Hs. revert s. induction xs as [|x xs IH]; intros s; simpl; [apply preserves_ret|].
  apply preserves_bind; auto.
Qed.

Lemma keeps_fetchState db url g k self : preserves (λ w, chat_db w = db) (fetchState url g k self).
Proof.
  unfold fetchState. apply preserves_bind; [auto with preserves|]. intros es. apply keeps_for_fold.
  intros s x. unfold ChatRules.validateGroupStateEvent. preserves_tac.
Qed.

Lemma keeps_loadChannelState db url g self :
  preserves (λ w, chat_db w = db) (loadChannelState url g self).
Proof. unfold loadChannelState. pose proof (keeps_fetchState db). preserves_tac. Qed.

Lemma keeps_history db url g s u l :
  preserves (λ w, chat_db w = db) (fetchChannelHistory url g s u l).
Proof. unfold fetchChannelHistory. preserves_tac. Qed.

Lemma keeps_new_key db : preserves (λ w, chat_db w = db) new_secret_key.
Proof. by intros w. Qed.

Lemma keeps_cache db sk : preserves (λ w, chat_db w = db) (NostrIdentity.cache_keypair sk).
Proof.
  unfold NostrIdentity.cache_keypair. preserves_tac.
Qed.

Lemma keeps_getNostrSigner db : preserves (λ w, chat_db w = db) Signer.getNostrSigner.
Proof.
  pose proof (keeps_cache db). pose proof (keeps_new_key db).
  unfold Signer.getNostrSigner, Signer.bunkerNostrSigner, Signer.localNostrSigner,
    Signer.getActiveIdentity, NostrIdentity.getCachedKeypair. preserves_tac.
Qed.

Lemma inv_load ms : Forall authentic ms →
  preserves inv (dispatch (Root.ChatAction (Chat.ChannelHistoryLoaded channelId ms))).
Proof.
  intros Hms. apply preserves_modify. intros a [Hl Hd]. split; [|done]. cbn [store].
  unfold chat_log. rewrite Forall_forall in *. intros m. cbn [Root.dispatch Root.chat Chat.dispatch].
  unfold Chat.channelHistoryLoaded, Chat.on_log. cbn [Chat.log]. rewrite MessageLog.log_of_load.
  case_decide; [|done]. intros [Hm|Hm]%MessageList.elem_of_insert_all_sub; auto.
Qed.

Lemma inv_receive m : authentic m →
  preserves inv (dispatch (Root.ChatAction (Chat.ChannelMessageReceived channelId m))).
Proof.
  intros Hm. apply preserves_modify. intros a [Hl Hd]. split; [|done]. cbn [store].
  unfold chat_log. rewrite Forall_forall in *. intros x. cbn [Root.dispatch Root.chat Chat.dispatch].
  unfold Chat.channelMessageReceived, Chat.on_log. cbn [Chat.log]. rewrite MessageLog.log_of_receive.
  case_decide; [|done]. intros [->|Hx]%MessageList.elem_of_insert_sub; auto.
Qed.

Lemma validated_authentic e now :
  ChatRules.validateChannelMessage e (cf_groupId ref) now = true → authentic (toChatMessage channelId e).
Proof.
  intros Hv. exists e. pose proof (ChatRules.validated_message e _ _ Hv) as (? & _ & ? & _).
  unfold ChatRules.validateChannelMessage in Hv. rewrite !andb_true_iff in Hv. naive_solver.
Qed.

Lemma inv_remember e : authentic (toChatMessage channelId e) → preserves inv (remember channelId e).
Proof.
  intros He. apply preserves_try_catch; [|intros m; apply preserves_ret].
  intros a [Hl Hd]. unfold inv. rewrite service_store, service_device. split; [done|].
  unfold ChatStore.putChannelMessage, ChatStore.putMessage, ChatStore.write, request.
  destruct (faults (device a)) as [|[|] fs]; [|done|];
    intros k m Hk Hc; cbn -[lookup insert] in Hk; apply lookup_insert_Some in Hk as [[<- <-]|[_ Hk]];
    try done; by apply (Hd k m).
Qed.

(** What the device has of the channel is authentic when it is read back. *)
Lemma stored_authentic a stored w :
  inv a → ChatStore.listChannelMessages channelId (device a) = (Ok stored, w) →
  Forall authentic (map stored_message stored).
Proof.
  intros [_ Hd]. unfold ChatStore.listChannelMessages, ChatStore.listMessages, ChatStore.read.
  unfold mbind, prog_bind, request. intros Hrun. apply Forall_forall. intros m Hm.
  assert (∃ ms, stored = map ChatStore.public_of ms ∧ ∀ x, x ∈ ms →
    x ∈ List.filter (ChatStore.in_range channelId ChatStore.MAX_SAFE_INTEGER)
      (ChatStore.in_key_order (db_messages (chat_db (device a))))) as (ms & -> & Hms).
  { destruct (faults (device a)) as [|[|] fs]; [|done|];
      injection Hrun as <- <-; (eexists; split; [done|]);
      intros x Hx%elem_of_take; destruct Hx as (i & Hx & _);
      apply list_elem_of_lookup_2 in Hx; by rewrite elem_of_js_sort in Hx. }
  apply list_elem_of_fmap in Hm as (pm & -> & Hpm). apply list_elem_of_fmap in Hpm as (sm & -> & Hsm).
  apply Hms, elem_of_filter_b in Hsm as [Hsm Hr]. apply ChatStore.elem_of_in_key_order in Hsm as [k Hk].
  apply (Hd k); [done|]. unfold ChatStore.in_range in Hr. by reflect_bools.
Qed.

Lemma history_authentic s u l w es w' :
  fetchChannelHistory (cf_relayUrl ref) (cf_groupId ref) s u l w = (Ok es, w') →
  ∀ e, e ∈ es → authentic (toChatMessage channelId e).
Proof.
  unfold fetchChannelHistory. intros Hrun. run_inv Hrun. run_inv Hrun. injection Hrun as <- <-.
  intros e He%elem_of_mergeUnique. apply elem_of_filter_b in He as [_ He]. by eapply validated_authentic.
Qed.

Lemma inv_load_state gone self : preserves inv (load_state gone ref self).
Proof.
  apply preserves_try_catch; [|intros m; apply preserves_ret].
  apply preserves_bind; [apply inv_service; intros db; apply keeps_loadChannelState|].
  intros st. destruct (gone 1); [apply preserves_ret|]. by apply preserves_modify.
Qed.

Lemma inv_relay_self : preserves inv (relay_self ref).
Proof.
  apply preserves_try_catch; [|intros m; apply preserves_ret].
  apply preserves_bind; [apply inv_service; intros db; apply keeps_fetchRelayInfo|].
  intros i. apply preserves_ret.
Qed.

Lemma inv_restore gone : preserves inv (restore_stored gone ref).
Proof.
  apply preserves_try_catch; [|intros m; apply preserves_ret].
  eapply (inv_service_bind (λ stored, Forall authentic (map stored_message stored))).
  - intros db. unfold ChatStore.listChannelMessages, ChatStore.listMessages. preserves_tac.
  - intros a stored w Ha Hrun. exact (stored_authentic a stored w Ha Hrun).
  - intros stored Hs. destruct (_ && _); [by apply inv_load|apply preserves_ret].
Qed.

Lemma inv_show_history history :
  (∀ e, e ∈ history → authentic (toChatMessage channelId e)) → preserves inv (show_history ref history).
Proof.
  intros Hh. apply preserves_bind.
  { apply preserves_for_each_in. intros e He. by apply inv_remember, Hh. }
  intros _. apply preserves_bind; [|intros _; apply preserves_ret]. apply inv_load.
  apply Forall_forall. intros m (e & -> & He)%list_elem_of_fmap. by apply Hh.
Qed.

Lemma preserves_fmap {W A B} (I : W → Prop) (f : A → B) (m : prog W A) :
  preserves I m → preserves I (f <$> m).
Proof. intros Hm w Hw. specialize (Hm w Hw). unfold fmap, prog_fmap. by destruct (m w) as [[]]. Qed.

Lemma inv_run gone : preserves inv (run gone ref).
Proof.
  apply preserves_bind; [apply inv_restore|]. intros _.
  apply preserves_try_catch; [|intros m; apply preserves_ret].
  apply preserves_bind; [apply inv_service; intros db; apply keeps_getNostrSigner|]. intros _.
  apply preserves_bind; [apply inv_relay_self|]. intros self.
  apply preserves_bind; [apply inv_load_state|]. intros _.
  eapply (inv_service_bind (λ es, ∀ e, e ∈ es → authentic (toChatMessage channelId e))).
  - intros db. apply keeps_history.
  - intros a es w _ Hrun. by eapply history_authentic.
  - intros es Hes. destruct (gone 2); [apply preserves_ret|]. by apply preserves_fmap, inv_show_history.
Qed.

Lemma inv_live_event l e : preserves inv (live_event ref l e).
Proof.
  apply preserves_bind; [|intros seen; apply preserves_ret].
  apply (inv_service_bind (λ _, True)); [intros db; apply keeps_clock|done|]. intros now _.
  destruct (ChatRules.validateChannelMessage e _ now) eqn:Hv; [|apply preserves_ret]. cbn [negb].
  destruct (includes _ _); [apply preserves_ret|].
  apply validated_authentic in Hv.
  apply preserves_bind; [|intros _; apply preserves_ret].
  apply preserves_bind; [by apply inv_remember|]. intros _. by apply inv_receive.
Qed.

(** C21: Whatever relays deliver, in whatever order and interleaving of the effects of the
    hook, every message that the app shows in a public channel, or keeps on the device
    for it, carries a signature of its author over an event bound to that channel. *)
Theorem channel_messages_authentic calls a :
  inv a → inv (fold_left (λ a c, (exec c a).2) calls a).
Proof.
  revert a. induction calls as [|c calls IH]; intros a Ha; [done|]. simpl. apply IH.
  destruct c as [gone|l e|]; simpl; revert a Ha.
  - apply preserves_bind; [apply inv_run|intros _; apply preserves_ret].
  - apply preserves_bind; [apply inv_live_event|intros _; apply preserves_ret].
  - by apply preserves_modify.
Qed.

End authentic.

(** Two channels on different relays can have the same id: the id of a channel joins
    the address and the group with a character that both may contain. *)
Lemma channel_ids_collide :
  channel_of (mkRef "wss://relay.example:7777" "news") = channel_of (mkRef "wss://relay.example" "7777:news").
Proof. reflexivity. Qed.

(** *** A concrete channel: a relay that sends a message and a forgery of it *)

#[local] Existing Instances Signer.sample_urls Signer.no_extension Signer.sample_bunker.

Definition forged : Event :=
  mkEvent (id ChatRules.chat_event) (pubkey ChatRules.chat_event) (created_at ChatRules.chat_event)
    (kind ChatRules.chat_event) (tags ChatRules.chat_event) "send me your key"
    (sig ChatRules.chat_event).

#[local] Program Instance sample_pool : Pool :=
  {| pool_publish relays e := mret (map (λ _, "success") relays);
     pool_query relays f :=
       mret (if bool_decide (f_kinds f = [ChatRules.NIP29_KIND_MESSAGE])
             then [forged; ChatRules.chat_event; ChatRules.chat_event] else []) |}.
Next Obligation. done. Qed.
Next Obligation. done. Qed.

#[local] Program Instance no_network : Fetch := {| fetch r := throw "TypeError: Failed to fetch" |}.
Next Obligation. done. Qed.

Definition lobby : ChannelRef := mkRef "wss://relay.example" "abcd".
Definition opened_page : App := mkApp fresh_world Root.initialState.
Definition lobby_calls : list call :=
  [Mount (λ _, false); LiveEvent (mkLive [] None) forged;
   LiveEvent (mkLive [] None) ChatRules.chat_event; Eose; Mount (λ n, n =? 2)].
Definition lobby_page : App := fold_left (λ a c, (exec lobby c a).2) lobby_calls opened_page.

Lemma channel_messages_authentic_witness :
  map Chat.id (chat_log (store lobby_page) (channel_of lobby)) = [id ChatRules.chat_event] ∧
  inv lobby lobby_page.
Proof.
  split; [vm_compute; reflexivity|]. apply channel_messages_authentic. split; [constructor|].
  intros k m Hk. exfalso. exact (lookup_empty_Some k m Hk).
Defined.

Definition early (n : Z) : Event := mkEvent (string_of_Z n) "" (int n) (int 9) [] "" "".

Lemma merge_unique_is_insertion_witness :
  map id (mergeUnique [early 3; early 1; early 3; early 2]) = ["1"; "2"; "3"] ∧
  mergeUnique [early 3; early 1; early 3; early 2] =
    MessageList.insert_all id created_at [] [early 3; early 1; early 3; early 2].
Proof.
  split; [vm_compute; reflexivity|]. apply merge_unique_is_insertion.
  - repeat constructor; by eexists.
  - intros m m' Hm Hm'. set_unfold in Hm. set_unfold in Hm'. naive_solver.
Defined.

End ChatSync.
