(* ===== verification/InboxSync.v ===== *)
(** * The private inbox: [hooks/useInboxSync.ts]

    A subscription to the user's inbox relay.  Every gift wrap that arrives is opened
    ([GiftWrap.v]), marked as seen, stored under the device key ([ChatStore.v]) and
    shown ([ChatSlices.v]).  The hook's set [seen] is [inbox_seen] of the device. *)

From Stdlib Require Import QArith Lia.
From S2P Require Import Prelude JsNumber JsString JsStringFacts JsCollection Json.
From S2P Require Import Nostr CryptoModel Platform IdentityStore NostrIdentity Signer ChatRules.
From S2P Require Import CircleLocation GiftWrap ChatStore ChatSlices SmallSlices Web Relay ChatSync.
Close Scope Q_scope.

Module InboxSync.

Section inbox.
Context `{Aes, Sha256, Random, NostrTools, UrlParser, Extension, Bunkers, Page}.

(** [inboxFilter] of [services/chat/inbox.ts] *)
Definition inboxFilter (pubkey : string) : Filter :=
  mkFilter [GiftWrap.NIP17_INBOX_KIND] None None None (Some [toLowerCase pubkey]) None None None.

(** [seen.has(id) || (await hasGiftWrap(id))] *)
Definition isSeen (id : string) : prog World bool :=
  seen ← gets inbox_seen;
  if includes seen id then mret true else ChatStore.hasGiftWrap id.

Definition markSeen (id : string) : prog World unit :=
  _ ← modify (set_inbox_seen (λ seen, set_add seen id));
  _ ← ChatStore.markGiftWrapSeen id;
  mret tt.

Definition to_store (p : GiftWrap.ProcessedInboxMessage) (ciphertext : string) : StoredMessage :=
  mkStoredMessage (GiftWrap.pm_rumorId p) (GiftWrap.pm_conversationId p) (GiftWrap.pm_senderPubkey p)
    (GiftWrap.pm_created_at p) (int 14) ciphertext Delivered.

Definition to_conversation (p : GiftWrap.ProcessedInboxMessage) : Dm.DmConversation :=
  Dm.mkConversation (GiftWrap.pm_conversationId p)
    (if length (GiftWrap.pm_participants p) =? 2 then Dm.dm else Dm.circle)
    (str_slice 0 12 (GiftWrap.pm_senderPubkey p)) (GiftWrap.pm_participants p).

Definition to_message (p : GiftWrap.ProcessedInboxMessage) : Dm.DmMessage :=
  Dm.mkDmMessage (GiftWrap.pm_rumorId p) (GiftWrap.pm_conversationId p) (GiftWrap.pm_senderPubkey p)
    (GiftWrap.pm_created_at p) (GiftWrap.pm_content p).

(** The handler of the subscription; [disposed] is read after the wrap is processed. *)
Definition receive_wrap (signer : NostrSigner World) (disposed : bool) (wrap : Event)
    : prog App unit :=
  processed ← service (GiftWrap.processGiftWrap signer wrap isSeen markSeen);
  match processed with
  | None => mret tt
  | Some p =>
      if disposed then mret tt
      else
        encrypted ← service (ChatStore.encryptLocalPlaintext (GiftWrap.pm_content p));
        _ ← service (ChatStore.putMessage (to_store p encrypted));
        _ ← dispatch (Root.DmAction (Dm.ConversationAdded (to_conversation p)));
        dispatch (Root.DmAction (Dm.MessageReceived (GiftWrap.pm_conversationId p) (to_message p)))
  end.

(** The effect: the relay and the filter of the subscription that it opens. *)
Definition run (enabled : bool) : prog App (option (NostrSigner World * string * Filter)) :=
  match cr_inbox chatRelays with
  | Some inbox =>
      if negb enabled || negb (truthy inbox) then mret None
      else
        try_catch
          (signer ← service Signer.getNostrSigner;
           pubkey ← service (s_pubkey signer);
           _ ← service (modify (set_inbox_seen (λ _, [])));
           mret (Some (signer, inbox, inboxFilter pubkey)))
          (λ _, mret None)
  | None => mret None
  end.

(** ** Facts *)

Definition dm_log (s : Root.RootState) (c : string) : list Dm.DmMessage :=
  MessageLog.log_of (Dm.log (Root.dm s)) c.

(** The wrap is neither in the subscription's set nor in the database. *)
Definition unseen (wrap : Event) (w : World) : Prop :=
  (id wrap ∉ inbox_seen w) ∧ db_gift_wraps (chat_db w) !! id wrap = None.

Definition marked (wrap : Event) (w : World) : Prop :=
  id wrap ∈ inbox_seen w ∧ is_Some (db_gift_wraps (chat_db w) !! id wrap).

Lemma isSeen_unseen wrap w : faults w = [] → unseen wrap w → isSeen (id wrap) w = (Ok false, w).
Proof.
  intros Hf [Hs Hd]. unfold isSeen. rewrite (bind_ok _ _ w (inbox_seen w) w) by done.
  replace (includes _ _) with false by (symmetry; apply not_true_iff_false; by rewrite includes_spec).
  unfold ChatStore.hasGiftWrap. rewrite (bind_ok _ _ w None w); [done|].
  unfold ChatStore.read. rewrite request_no_fault by done. unfold gets. simpl. by rewrite Hd.
Qed.

Lemma isSeen_seen wrap w :
  id wrap ∈ inbox_seen w ∨ faults w = [] ∧ is_Some (db_gift_wraps (chat_db w) !! id wrap) →
  isSeen (id wrap) w = (Ok true, w).
Proof.
  intros Hs. unfold isSeen. rewrite (bind_ok _ _ w (inbox_seen w) w) by done.
  destruct (includes (inbox_seen w) (id wrap)) eqn:Hi; [done|].
  destruct Hs as [Hs%includes_spec|[Hf [x Hx]]]; [congruence|].
  unfold ChatStore.hasGiftWrap. rewrite (bind_ok _ _ w (Some x) w); [done|].
  unfold ChatStore.read. rewrite request_no_fault by done. unfold gets. simpl. by rewrite Hx.
Qed.

(** A wrap that was seen is ignored: nothing is stored and nothing is shown. *)
Lemma seen_ignored s wrap disposed a :
  id wrap ∈ inbox_seen (device a) ∨
    faults (device a) = [] ∧ is_Some (db_gift_wraps (chat_db (device a)) !! id wrap) →
  receive_wrap s disposed wrap a = (Ok tt, a).
Proof.
  intros Hs. unfold receive_wrap. rewrite (bind_ok _ _ a None a); [done|].
  unfold service. assert (GiftWrap.processGiftWrap s wrap isSeen markSeen (device a) = (Ok None, device a)) as ->;
    [|by destruct a].
  unfold GiftWrap.processGiftWrap. destruct (negb _); [done|].
  by rewrite (bind_ok _ _ _ true (device a)) by (by apply isSeen_seen).
Qed.

Definition mark (wrap : Event) (w : World) : World :=
  set_chat_db (ChatStore.with_gift_wraps <[id wrap := now_ms w]>)
    (set_inbox_seen (λ seen, set_add seen (id wrap)) w).

Lemma markSeen_unseen wrap w : faults w = [] → unseen wrap w →
  markSeen (id wrap) w = (Ok tt, mark wrap w).
Proof.
  intros Hf [_ Hd]. unfold markSeen.
  set (w1 := set_inbox_seen (λ seen, set_add seen (id wrap)) w).
  rewrite (bind_ok _ _ w tt w1) by done.
  rewrite (bind_ok _ _ w1 true (mark wrap w)); [done|].
  unfold ChatStore.markGiftWrapSeen. rewrite (bind_ok _ _ w1 None w1).
  2: { unfold ChatStore.read. rewrite request_no_fault by done. unfold gets. simpl. by rewrite Hd. }
  rewrite (bind_ok _ _ w1 (now_ms w) w1) by done.
  rewrite (bind_ok _ _ w1 tt (mark wrap w)); [done|].
  unfold ChatStore.write. by rewrite request_no_fault by done.
Qed.

Lemma wp_markSeen wrap w : wp (markSeen (id wrap)) (λ _, marked wrap) (λ _ _, True) w.
Proof.
  assert (∀ l, id wrap ∈ set_add l (id wrap)) as Hin by (intros; apply elem_of_set_add; auto).
  unfold markSeen, ChatStore.markGiftWrapSeen, ChatStore.read, ChatStore.write. wp_run.
  apply wp_request; [|done]. intros fs _. rewrite wp_gets.
  case_match eqn:Hd; [rewrite !wp_ret; split; [apply Hin|by eexists; exact Hd]|].
  unfold date_now. wp_run. apply wp_request; [|done]. intros fs' _. wp_run. split; [apply Hin|].
  eexists. apply lookup_insert_eq.
Qed.

(** A wrap that was processed is marked. *)
Lemma processed_marked s wrap w p w1 :
  GiftWrap.processGiftWrap s wrap isSeen markSeen w = (Ok (Some p), w1) → marked wrap w1.
Proof.
  unfold GiftWrap.processGiftWrap. destruct (negb _); [done|]. intros Hrun.
  run_inv Hrun. destruct a; [done|]. run_inv Hrun. destruct a as [u|]; [|done].
  run_inv Hrun. injection Hrun as <- <-.
  exact (wp_ok _ _ _ _ _ _ Hrun2 (wp_markSeen wrap _)).
Qed.

(** Encrypting a body touches neither the messages nor what was seen. *)
Definition same_inbox (w0 w : World) : Prop :=
  inbox_seen w = inbox_seen w0 ∧ db_messages (chat_db w) = db_messages (chat_db w0) ∧
  db_gift_wraps (chat_db w) = db_gift_wraps (chat_db w0) ∧ (faults w0 = [] → faults w = []).

Lemma same_request {A} w0 (m : prog World A) :
  preserves (same_inbox w0) m → preserves (same_inbox w0) (request m).
Proof.
  intros Hm w (Hs & Hd & Hg & Hf). unfold request. destruct (faults w) as [|[|] fs] eqn:E.
  - apply Hm. split_and!; try done.
  - split_and!; try done. intros E0. specialize (Hf E0). discriminate Hf.
  - apply Hm. split_and!; try done. intros E0. specialize (Hf E0). discriminate Hf.
Qed.

Lemma same_encrypt w0 text : preserves (same_inbox w0) (ChatStore.encryptLocalPlaintext text).
Proof.
  assert (preserves (same_inbox w0) draw) as Hdraw by by intros w.
  assert (∀ n, preserves (same_inbox w0) (getRandomValues n)) as Hrandom.
  { intros n. apply preserves_bind; [done|]. intros i. apply preserves_ret. }
  unfold ChatStore.encryptLocalPlaintext, ChatStore.getOrCreateEncryptionKey, generateKey, subtle_encrypt,
    ChatStore.read, ChatStore.write. preserves_tac.
  - apply same_request. preserves_tac.
  - apply same_request. by apply preserves_modify.
Qed.

Lemma encrypt_total text w : faults w = [] →
  ∃ c w', ChatStore.encryptLocalPlaintext text w = (Ok c, w') ∧ same_inbox w w'.
Proof.
  intros Hf. pose proof (same_encrypt w text w ltac:(by split_and!)) as Hs.
  destruct (ChatStore.encryptLocalPlaintext text w) as [[c|m] w'] eqn:Hrun; [by exists c, w'|].
  exfalso. revert Hrun. unfold ChatStore.encryptLocalPlaintext, ChatStore.getOrCreateEncryptionKey.
  unfold ChatStore.read, ChatStore.write, mbind, prog_bind, request, gets, modify.
  rewrite Hf. cbn [compose]. destruct (db_crypto _ !! _); [done|]. simpl. by rewrite Hf.
Qed.

(** C23: A message is lost when storing it fails.  The wrap is marked as seen before its
    message is stored: if the request that stores the message is rejected, nothing is
    stored or shown, and the wrap is ignored whenever a relay delivers it again, in
    this session or, once the database answers, in a later one. *)
Theorem rejected_put_loses_message s wrap a p w1 ct w2 fs :
  GiftWrap.processGiftWrap s wrap isSeen markSeen (device a) = (Ok (Some p), w1) →
  ChatStore.encryptLocalPlaintext (GiftWrap.pm_content p) w1 = (Ok ct, w2) →
  faults w2 = true :: fs →
  ∃ a', receive_wrap s false wrap a = (Throw storage_error, a') ∧ store a' = store a ∧
    db_messages (chat_db (device a')) = db_messages (chat_db w1) ∧
    (∀ disposed, receive_wrap s disposed wrap a' = (Ok tt, a')) ∧
    ∀ seen disposed, let later := mkApp (set_faults [] (set_inbox_seen (λ _, seen) (device a'))) (store a') in
      receive_wrap s disposed wrap later = (Ok tt, later).
Proof.
  intros Hp Henc Hf. pose proof (processed_marked _ _ _ _ _ Hp) as [Hseen Hdb].
  pose proof (same_encrypt w1 (GiftWrap.pm_content p) w1 ltac:(by split_and!)) as Hs.
  rewrite Henc in Hs. destruct Hs as (Hs1 & Hs2 & Hs3 & _). cbn [snd] in *.
  exists (mkApp (set_faults fs w2) (store a)). split.
  { unfold receive_wrap. rewrite (bind_ok _ _ a (Some p) (mkApp w1 (store a)))
      by (unfold service; by rewrite Hp).
    rewrite (bind_ok _ _ _ ct (mkApp w2 (store a))) by (unfold service; simpl; by rewrite Henc).
    apply bind_err. unfold service, ChatStore.putMessage, ChatStore.write, request. simpl. by rewrite Hf. }
  split_and!; [done|done|..].
  - intros disposed. apply seen_ignored. left. simpl. by rewrite Hs1.
  - intros seen disposed. apply seen_ignored. right. split; [done|]. simpl. by rewrite Hs3.
Qed.

Lemma conversation_exists c s :
  is_Some (Dm.conversations (Dm.conversationAdded c s) !! Dm.conv_id c).
Proof.
  unfold Dm.conversationAdded. destruct (Dm.conversations s !! Dm.conv_id c) as [x|] eqn:E; [by exists x|].
  exists c. apply lookup_insert_eq.
Qed.

(** A private message reaches the screen of its recipient exactly once.  Suppose a wrap
    holds a message of [author] in the room of [ps] for the recipient [me], who has not
    seen it, and no request of the device is rejected.  Then the handler completes: the
    message is stored encrypted, decrypts to its text on this device, and is inserted in
    the conversation of the room, which exists; and the same wrap, delivered again, is
    ignored. *)
Theorem wrap_shown_once s sk me ps author text wrap a :
  GiftWrap.is_local sk me s → GiftWrap.received ps author text me wrap →
  faults (device a) = [] → unseen wrap (device a) →
  ∃ rid at_ ct a',
    receive_wrap s false wrap a = (Ok tt, a') ∧
    db_messages (chat_db (device a')) =
      <[rid := mkStoredMessage rid (ChatRules.conversationIdFor ps) author at_ (int 14) ct Delivered]>
        (db_messages (chat_db (device a))) ∧
    ChatStore.decryptLocalPlaintext ct (device a') = (Ok (Some text), device a') ∧
    is_Some (Dm.conversations (Root.dm (store a')) !! ChatRules.conversationIdFor ps) ∧
    dm_log (store a') (ChatRules.conversationIdFor ps) =
      MessageList.insertSorted Dm.id Dm.created_at
        (dm_log (store a) (ChatRules.conversationIdFor ps))
        (Dm.mkDmMessage rid (ChatRules.conversationIdFor ps) author at_ text) ∧
    ∀ disposed, receive_wrap s disposed wrap a' = (Ok tt, a').
Proof.
  intros Hl (at_ & rid & Hr) Hf Hu. set (conv := ChatRules.conversationIdFor ps) in *.
  set (p := GiftWrap.mkProcessed conv ps author text at_ rid (id wrap)) in *.
  pose proof (Hr sk s isSeen markSeen (device a) (mark wrap (device a)) Hl
    (isSeen_unseen _ _ Hf Hu) (markSeen_unseen _ _ Hf Hu)) as Hp.
  destruct (encrypt_total text (mark wrap (device a)) Hf) as (ct & w2 & Henc & Hs1 & Hs2 & Hs3 & Hs4).
  specialize (Hs4 Hf).
  set (w3 := set_chat_db (ChatStore.with_messages <[rid := to_store p ct]>) w2).
  exists rid, at_, ct, (mkApp w3 (Root.dispatch (Root.dispatch (store a)
    (Root.DmAction (Dm.ConversationAdded (to_conversation p))))
    (Root.DmAction (Dm.MessageReceived conv (to_message p))))).
  split.
  { unfold receive_wrap. rewrite (bind_ok _ _ a (Some p) (mkApp (mark wrap (device a)) (store a)))
      by (unfold service; by rewrite Hp).
    rewrite (bind_ok _ _ _ ct (mkApp w2 (store a))) by (unfold service; simpl; by rewrite Henc).
    rewrite (bind_ok _ _ _ tt (mkApp w3 (store a))); [done|].
    unfold service, ChatStore.putMessage, ChatStore.write, request. simpl. by rewrite Hs4. }
  split_and!.
  - simpl. by rewrite Hs2.
  - destruct (ChatStore.local_plaintext_roundtrip text _ _ _ Henc) as (k & Hk & _ & Hd). by apply Hd.
  - apply (conversation_exists (to_conversation p)).
  - unfold dm_log. simpl. unfold Dm.messageReceived, Dm.on_log. cbn [Dm.log].
    rewrite MessageLog.log_of_receive. rewrite decide_True by done. f_equal.
    unfold Dm.conversationAdded. simpl. by case_match.
  - intros disposed. apply seen_ignored. left. simpl. rewrite Hs1. simpl. apply elem_of_set_add. auto.
Qed.

End inbox.

(** *** A concrete inbox: user 8 receives a message of user 7 *)

#[local] Existing Instances Signer.sample_urls Signer.no_extension Signer.sample_bunker GiftWrap.half.

Lemma direct_wrap_received : GiftWrap.received (GiftWrap.sm_participants GiftWrap.direct)
  (GiftWrap.pub_of 7) "Hi" (GiftWrap.pub_of 8) GiftWrap.direct_wrap.
Proof.
  pose proof GiftWrap.direct_message_received_witness as Hf.
  apply (Forall2_lookup_l _ _ _ 1 (GiftWrap.pub_of 8)) in Hf as (wrap & Hw & Hr); [|done].
  unfold GiftWrap.direct_wrap. by rewrite Hw.
Qed.

Definition inbox_page : App := mkApp fresh_world Root.initialState.

Lemma wrap_shown_once_witness :
  ∃ rid at_ ct a',
    receive_wrap (GiftWrap.signer_of 8) false GiftWrap.direct_wrap inbox_page = (Ok tt, a') ∧
    ChatStore.decryptLocalPlaintext ct (device a') = (Ok (Some "Hi"), device a') ∧
    dm_log (store a') (GiftWrap.sm_conversationId GiftWrap.direct) =
      [Dm.mkDmMessage rid (GiftWrap.sm_conversationId GiftWrap.direct) (GiftWrap.pub_of 7) at_ "Hi"].
Proof.
  destruct (wrap_shown_once (GiftWrap.signer_of 8) (GiftWrap.key_of 8) (GiftWrap.pub_of 8)
    (GiftWrap.sm_participants GiftWrap.direct) (GiftWrap.pub_of 7) "Hi" GiftWrap.direct_wrap inbox_page)
    as (rid & at_ & ct & a' & Hrun & _ & Hd & _ & Hlog & _).
  - apply GiftWrap.signer_of_local. eexists. vm_compute. reflexivity.
  - exact direct_wrap_received.
  - reflexivity.
  - split; [apply not_elem_of_nil|reflexivity].
  - exists rid, at_, ct, a'. split; [done|]. split; [done|].
    assert (ChatRules.conversationIdFor (GiftWrap.sm_participants GiftWrap.direct)
      = GiftWrap.sm_conversationId GiftWrap.direct) as He by (vm_compute; reflexivity).
    rewrite He in Hlog. exact Hlog.
Defined.

Definition full_page : App :=
  mkApp (set_faults [false; false; false; false; false; true] fresh_world) Root.initialState.
Definition processed :
    outcome (option GiftWrap.ProcessedInboxMessage) * World :=
  GiftWrap.processGiftWrap (GiftWrap.signer_of 8) GiftWrap.direct_wrap isSeen markSeen (device full_page).
Definition processed_message : GiftWrap.ProcessedInboxMessage :=
  match processed.1 with Ok (Some p) => p | _ => GiftWrap.mkProcessed "" [] "" "" NaN "" "" end.
Definition encrypted : outcome string * World :=
  ChatStore.encryptLocalPlaintext (GiftWrap.pm_content processed_message) processed.2.

Lemma rejected_put_loses_message_witness :
  ∃ a', receive_wrap (GiftWrap.signer_of 8) false GiftWrap.direct_wrap full_page
      = (Throw storage_error, a') ∧
    db_messages (chat_db (device a')) = ∅ ∧
    receive_wrap (GiftWrap.signer_of 8) false GiftWrap.direct_wrap a' = (Ok tt, a').
Proof.
  destruct (rejected_put_loses_message (GiftWrap.signer_of 8) GiftWrap.direct_wrap full_page
    processed_message processed.2 (match encrypted.1 with Ok c => c | Throw _ => "" end) encrypted.2 [])
    as (a' & Hrun & _ & Hdb & Hagain & _).
  - vm_compute. reflexivity.
  - vm_compute. reflexivity.
  - vm_compute. reflexivity.
  - exists a'. split; [exact Hrun|]. split; [exact Hdb|]. apply Hagain.
Defined.

End InboxSync.
