(* ===== verification/Api.v ===== *)
(** * The gateway's clients: [services/safetyDataApi.ts], [mapApiService.ts],
    [geocodingService.ts], [nip05Service.ts], [vouchService.ts], [reportAutoSubmit.ts],
    [acousticSignalSubmit.ts], [photoService.ts] (upload) and [apiOrigin.ts]

    What is sent to the gateway, and what of its answers is let in.  A response is any
    JSON value.  Where the code casts a value to a type, an optional field that is not of
    its declared type is read as absent.  An error is its message; one whose message
    starts with [AbortError] stands for an aborted request. *)

From Stdlib Require Import QArith Lia.
From S2P Require Import Prelude JsNumber JsString JsStringFacts JsCollection Json JsonFacts.
From S2P Require Import SharedTypes Nostr CryptoModel Platform IdentityStore NostrIdentity.
From S2P Require Import BunkerStore Signer CircleLocation NostrAuth EventsSlice SmallSlices Acoustic Web.
Close Scope Q_scope.

(** ** [safetyDataApi.ts] *)

Module SafetyApi.

(** A property declared [p?: T | null]. *)
Definition nullable {A} (f : json → option A) (v : json) (key : string) : option (option A) :=
  match field v key with
  | None => None
  | Some JNull => Some None
  | Some x => match f x with Some a => Some (Some a) | None => None end
  end.

Definition trust_of (s : string) : TrustState :=
  if String.eqb s "confirmed" then confirmed
  else if String.eqb s "corroborating" then corroborating else heuristic.

Definition parseEvent (value : json) : option SafetyEvent :=
  id ← str_field value "id";
  event_type ← str_field value "event_type"; severity ← str_field value "severity";
  title ← str_field value "title"; lat ← num_field value "lat"; lng ← num_field value "lng";
  started_at ← str_field value "started_at";
  let state := default "ACTIVE" (str_field value "state") in
  let trust := default "heuristic" (toLowerCase <$> str_field value "trust_state") in
  let is_active := default (negb (String.eqb state "RESOLVED") && negb (String.eqb state "EXPIRED"))
                     (field value "is_active" ≫= as_bool) in
  Some (mkSafetyEvent id event_type severity title
    (nullable as_str value "summary") lat lng (nullable as_str value "place_name")
    (nullable as_str value "county") is_active state started_at
    (default started_at (str_field value "created_at")) (str_field value "updated_at")
    (nullable as_num value "radius_meters") (nullable as_num value "confidence")
    (nullable as_num value "source_count") (nullable Some value "source_breakdown")
    (nullable as_str value "nostr_event_id") (Some (trust_of trust))
    (str_field value "origin_class")).

Definition parseReport (value : json) : option CommunityReport :=
  id ← str_field value "id";
  report_type ← str_field value "report_type"; status ← str_field value "status";
  lat ← num_field value "lat"; lng ← num_field value "lng";
  tier ← str_field value "reporter_tier"; score ← num_field value "consensus_score";
  confirmations ← num_field value "confirmation_count"; denials ← num_field value "denial_count";
  created ← str_field value "created_at"; updated ← str_field value "updated_at";
  Some (mkCommunityReport id report_type (str_field value "description") lat lng
    (str_field value "place_name") tier score status confirmations denials
    (str_field value "photo_ipfs_cid") (str_field value "linked_event_id") created updated).

Definition status_text (r : Response) : string := string_of_Z (status r).

Section fetching.
Context `{Fetch, Page}.

Definition getJson (path : string) : prog World json :=
  response ← fetch (mkRequest (API_BASE +:+ path) "GET" [] None);
  _ ← check (response_ok response) ("request failed with status " +:+ status_text response);
  json_of response.

(** [!isRecord(body) || !Array.isArray(body[key])] *)
Definition array_field (body : json) (key : string) : option (list json) :=
  if isRecord body then field body key ≫= as_arr else None.

Definition fetch_list {A} (path key msg : string) (parse : json → option A) : prog World (list A) :=
  body ← getJson path;
  match array_field body key with
  | None => throw msg
  | Some values => mret (omap parse values)
  end.

Definition fetchInitialEvents : prog World (list SafetyEvent) :=
  fetch_list "/api/events?limit=200" "events" "invalid events response" parseEvent.

Definition fetchInitialReports : prog World (list CommunityReport) :=
  fetch_list "/api/reports?limit=100" "reports" "invalid reports response" parseReport.

(** ** [hooks/useSafetyDataSync.ts] *)

(** [String(error)] of an [Error] *)
Definition error_string (m : string) : string := "Error: " +:+ m.

(** One of the two requests of the effect, with its handlers. *)
Definition hydrate {A} (fetching : prog World A) (hydrated : A → Root.action)
    (failed : string → Root.action) (aborted : bool) : prog App unit :=
  try_catch (values ← service fetching; dispatch (hydrated values))
    (λ m, if aborted then mret tt else dispatch (failed (error_string m))).

Definition sync_events (aborted : bool) : prog App unit :=
  hydrate fetchInitialEvents (λ es, Root.EventsAction (Events.EventsHydrated es))
    (λ m, Root.EventsAction (Events.EventsHydrationFailed m)) aborted.

Definition sync_reports (aborted : bool) : prog App unit :=
  hydrate fetchInitialReports (λ rs, Root.ReportsAction (Reports.ReportsHydrated rs))
    (λ m, Root.ReportsAction (Reports.ReportsHydrationFailed m)) aborted.
End fetching.

End SafetyApi.

(** ** Requests signed by the active identity (NIP-98) *)

Module SignedRequest.
Section signed.
Context `{Aes, Sha256, Random, NostrTools, UrlParser, Extension, Bunkers}.

Definition json_type : string * string := ("Content-Type", "application/json").
Definition auth_header (auth : Event) : string * string :=
  ("X-Nostr-Auth", stringify (event_to_json auth)).

(** The body is hashed before the event is signed, and sent as it was hashed. *)
Definition signed (url method : string) (body : option string) : prog World Request :=
  auth ← NostrAuth.signNip98AuthEvent url method (NostrAuth.sha256Hex <$> body);
  mret (mkRequest url method
    ((if body is Some _ then [json_type] else []) ++ [auth_header auth]) body).

(** *** Facts *)

(** The request carries the authorisation of its own method, address and body. *)
Definition authorised (w : World) (rq : Request) : Prop :=
  ∃ e nonce w', ("X-Nostr-Auth", stringify (event_to_json e)) ∈ rq_headers rq ∧
    verifyEvent e = true ∧ num_eqb (kind e) NostrAuth.auth_kind = true ∧
    tags e = NostrAuth.nip98_tags (rq_url rq) (rq_method rq) nonce
               (NostrAuth.sha256Hex <$> rq_body rq) ∧
    match ai_mode (identity w) with
    | Local => ∃ kp, keypair w' = Some kp ∧ (∀ kp0, keypair w = Some kp0 → kp = kp0) ∧
        getPublicKey (secretKey kp) = Some (pubkey e)
    | _ => pubkey e = ai_pubkey (identity w)
    end.

Lemma wp_signed url method body w :
  wp (signed url method body)
    (λ rq _, rq_url rq = url ∧ rq_method rq = method ∧ rq_body rq = body ∧ authorised w rq)
    (λ _ _, True) w.
Proof.
  unfold signed, NostrAuth.signNip98AuthEvent, randomUUID, draw, now_seconds.
  rewrite !wp_bind. unfold wp at 1. cbn.
  eapply wp_mono; [apply Signer.wp_sign_active; done| |done].
  intros e w1 [(Hv & Hk & _ & _ & Ht) Hid]. unfold wp. cbn. split_and!; [done..|].
  exists e, (random_uuid (draws w)), w1. cbn. split_and!; try done.
  apply elem_of_app. right. by left.
Qed.

(** C24: A signed request authorises exactly what it sends.  Whatever an extension or a
    bunker answered, the header of the request holds an event that verifies, that the
    active identity signed, and whose tags name the address, the method, a nonce and the
    hash of the body of this very request. *)
Theorem signed_request_bound url method body w rq w' :
  signed url method body w = (Ok rq, w') →
  rq_url rq = url ∧ rq_method rq = method ∧ rq_body rq = body ∧ authorised w rq.
Proof. intros Hrun. exact (wp_ok _ _ _ _ _ _ Hrun (wp_signed url method body w)). Qed.
End signed.

(** *** A concrete request *)

#[local] Existing Instances Signer.sample_urls Signer.no_extension Signer.sample_bunker.

Definition no_request : Request := mkRequest "" "" [] None.
Definition sample_request : Request :=
  match (signed "https://gateway.example/api/identity/nip05" "PUT" (Some "{}") fresh_world).1 with
  | Ok rq => rq | Throw _ => no_request end.

Lemma signed_request_bound_witness :
  rq_body sample_request = Some "{}" ∧ authorised fresh_world sample_request.
Proof.
  destruct (signed_request_bound "https://gateway.example/api/identity/nip05" "PUT" (Some "{}")
    fresh_world sample_request
    (signed "https://gateway.example/api/identity/nip05" "PUT" (Some "{}") fresh_world).2)
    as (_ & _ & Hb & Ha); [vm_compute; reflexivity|]. exact (conj Hb Ha).
Defined.

End SignedRequest.

(** ** [nip05Service.ts] *)

Module Nip05.

Record Nip05Status : Type := mkStatus {
  identifier : string; verified : bool; verified_at : string; valid_until : string
}.

(** A status, the absence of one, or an invalid response. *)
Definition parse_status (v : json) : option Nip05Status :=
  i ← str_field v "identifier"; b ← field v "verified" ≫= as_bool;
  at_ ← str_field v "verified_at"; until ← str_field v "valid_until";
  Some (mkStatus i b at_ until).

Definition parseResponse (value : json) : outcome (option Nip05Status) :=
  if negb (isRecord value) then Throw "Invalid identity response"
  else
    match field value "nip05" with
    | Some JNull => Ok None
    | Some v =>
        match parse_status v with
        | Some s => Ok (Some s)
        | None => Throw "Invalid identity response"
        end
    | None => Throw "Invalid identity response"
    end.

Section requests.
Context `{Aes, Sha256, Random, NostrTools, UrlParser, Extension, Bunkers, Fetch, Page}.

(** [import.meta.env['VITE_API_BASE_URL'] || window.location.origin] *)
Definition api_origin : string := if truthy API_BASE then API_BASE else window_origin.

Definition endpoint : outcome string :=
  match resolve_url "/api/identity/nip05" api_origin with
  | Some u => Ok u | None => Throw "Invalid URL" end.

Definition request (method : string) (body : option string) : prog World Response :=
  url ← lift_outcome endpoint;
  rq ← SignedRequest.signed url method body;
  fetch rq.

(** [value.message] of a value that is not null; reading it of [null] is caught. *)
Definition errorMessage (r : Response) : string :=
  let fallback := "Identity request failed (" +:+ SafetyApi.status_text r +:+ ")" in
  match body_json r with
  | Ok v => default fallback (str_field v "message")
  | Throw _ => fallback
  end.

Definition getNip05Identity : prog World (option Nip05Status) :=
  response ← request "GET" None;
  _ ← check (response_ok response) (errorMessage response);
  value ← json_of response;
  lift_outcome (parseResponse value).

Definition verifyNip05Identity (identifier : string) : prog World Nip05Status :=
  response ← request "PUT" (Some (stringify (JObj [("identifier", JStr identifier)])));
  _ ← check (response_ok response) (errorMessage response);
  value ← json_of response;
  status ← lift_outcome (parseResponse value);
  match status with Some s => mret s | None => throw "Invalid identity response" end.

Definition removeNip05Identity : prog World unit :=
  response ← request "DELETE" None;
  check (response_ok response) (errorMessage response).
End requests.
End Nip05.

(** ** [vouchService.ts], [reportAutoSubmit.ts], [acousticSignalSubmit.ts], [photoService.ts] *)

Module Submissions.
Section submissions.
Context `{Aes, Sha256, Random, NostrTools, UrlParser, Extension, Bunkers, Fetch, Page}.

Definition post (url method : string) (body : json) : prog World Response :=
  fetch (mkRequest url method [SignedRequest.json_type] (Some (stringify body))).

Definition issueVouch (voucheePubkey : string) : prog World bool :=
  event ← NostrAuth.signBoundEvent (NostrAuth.vouchBindingContent voucheePubkey);
  res ← post (API_BASE +:+ "/api/vouches") "POST"
    (JObj [("voucher_pubkey", JStr (pubkey event)); ("vouchee_pubkey", JStr voucheePubkey);
           ("nostr_event", event_to_json event)]);
  mret (response_ok res).

Definition revokeVouch (voucheePubkey : string) : prog World bool :=
  event ← NostrAuth.signBoundEvent (NostrAuth.vouchRevokeBindingContent voucheePubkey);
  res ← post (API_BASE +:+ "/api/vouches/" +:+ voucheePubkey) "DELETE"
    (JObj [("voucher_pubkey", JStr (pubkey event)); ("nostr_event", event_to_json event)]);
  mret (response_ok res).

(** The dash of the last sentence is written in UTF-8. *)
Definition auto_description (d : Acoustic.ThreatDetection) : string :=
  "[acoustic detection] " +:+ Acoustic.label d +:+ " detected in browser (confidence: " +:+
  num_to_string (num_round (num_mul (Acoustic.confidence d) (int 100))) +:+
  "%). Auto-submitted for community verification — please confirm if you are nearby.".

Definition category_name (c : Acoustic.ThreatCategory) : string :=
  match c with
  | Acoustic.SECURITY_INCIDENT => "SECURITY_INCIDENT" | Acoustic.FIRE => "FIRE"
  | Acoustic.CIVIL_UNREST => "CIVIL_UNREST" | Acoustic.ACCIDENT => "ACCIDENT"
  end.

(** Nothing is thrown, whatever the gateway answers. *)
Definition autoSubmitAcousticReport (d : Acoustic.ThreatDetection) (lat lng : num) : prog World unit :=
  try_catch
    (now ← date_now;
     _ ← post (API_BASE +:+ "/api/reports") "POST"
       (JObj [("type", JStr (category_name (Acoustic.category d)));
              ("description", JStr (auto_description d)); ("lat", JNum lat); ("lng", JNum lng);
              ("timestamp", JNum (int now))]);
     mret tt)
    (λ _, mret tt).

Definition signal_payload (client_id : string) (d : Acoustic.ThreatDetection) (lat lng : num) : json :=
  JObj [("client_id", JStr client_id); ("threat_class", JStr (Acoustic.label d));
        ("confidence", JNum (Acoustic.confidence d)); ("lat", JNum lat); ("lng", JNum lng);
        ("model_version", JStr "yamnet-tfjs-1"); ("threshold_profile", JStr "default-v1");
        ("inference_backend", JStr "webgl"); ("dropped_frames", JNum (int 0));
        ("signal_fingerprint", match Acoustic.fingerprint d with Some f => JStr f | None => JNull end)].

Definition submitAcousticSignal (d : Acoustic.ThreatDetection) (lat lng : num) : prog World unit :=
  signalsUrl ← lift_outcome (absolute_url "/api/acoustic/signals");
  client_id ← randomUUID;
  rq ← SignedRequest.signed signalsUrl "POST"
         (Some (stringify (signal_payload client_id d lat lng)));
  response ← fetch rq;
  check (response_ok response)
    ("acoustic signal submission failed: " +:+ SafetyApi.status_text response).

(** The upload of a photo: [blob] stands for its bytes. *)
Definition uploadToIPFS (blob : string) : prog World (option string) :=
  try_catch
    (url ← lift_outcome (match resolve_url "/api/photos/pin" Nip05.api_origin with
                         | Some u => Ok u | None => Throw "Invalid URL" end);
     auth ← NostrAuth.signNip98AuthEvent url "POST" None;
     res ← fetch (mkRequest url "POST"
       [("Content-Type", "image/jpeg"); SignedRequest.auth_header auth] (Some blob));
     if negb (response_ok res) then mret None
     else
       data ← json_of res;
       if is_null data then throw "TypeError"
       else mret (str_field data "cid"))
    (λ _, mret None).
End submissions.
End Submissions.

(** ** [mapApiService.ts] and [geocodingService.ts] *)

Module MapApi.

Record LatLng : Type := mkLatLng { lat : num; lng : num }.
#[export] Instance LatLng_eq_dec : EqDecision LatLng.
Proof. solve_decision. Defined.

Record RouteResult : Type := mkRoute {
  rt_id : string; rt_coordinates : list (num * num); rt_distance_m : num; rt_duration_s : num;
  rt_warnings : list json; rt_degraded : bool; rt_distance : num; rt_duration : num
}.

Definition mode_name (m : Ui.TravelMode) : string :=
  match m with Ui.walking => "walking" | Ui.driving => "driving" | Ui.cycling => "cycling" end.

Definition latlng_json (p : LatLng) : json := JObj [("lat", JNum (lat p)); ("lng", JNum (lng p))].

Definition isAbortError (m : string) : bool := starts_with "AbortError" m.

(** A failure other than an abort becomes [msg]. *)
Definition or_unavailable {A} (m : prog World A) (msg : string) : prog World A :=
  try_catch m (λ e, if isAbortError e then throw e else throw msg).

Definition finite_field (v : json) (key : string) : option num :=
  x ← num_field v key; if is_finite x then Some x else None.

Definition point_of (v : json) : option (num * num) :=
  match v with
  | JArr [JNum x; JNum y] => if is_finite x && is_finite y then Some (x, y) else None
  | _ => None
  end.

(** A route that passes the checks, with the aliases of its length and duration. *)
Definition route_of (v : json) : option RouteResult :=
  id ← str_field v "id";
  _ ← (if truthy id then Some tt else None);
  coordinates ← (field v "coordinates" ≫= as_arr) ≫= mapM point_of;
  distance ← finite_field v "distance_m"; duration ← finite_field v "duration_s";
  warnings ← field v "warnings" ≫= as_arr; degraded ← field v "degraded" ≫= as_bool;
  Some (mkRoute id coordinates distance duration warnings degraded distance duration).

Definition routes_of (data : json) : option (list RouteResult) :=
  (field data "routes" ≫= as_arr) ≫= mapM route_of.

Section requests.
Context `{Fetch}.
(** [new URLSearchParams(...).toString()] *)
Variable encode_params : list (string * string) → string.

Definition search_params (query : string) (proximity : option LatLng) : list (string * string) :=
  [("q", trim query); ("limit", "5")] ++
  match proximity with
  | Some p => [("lat", num_to_string (lat p)); ("lng", num_to_string (lng p))]
  | None => []
  end.

(** The suggestions are passed on as the gateway sent them. *)
Definition searchAddress (query : string) (proximity : option LatLng) : prog World (option json) :=
  res ← or_unavailable
    (fetch (mkRequest ("/api/maps/search?" +:+ encode_params (search_params query proximity)) "GET" [] None))
    "Map search is unavailable";
  _ ← check (response_ok res) ("Map search failed (" +:+ SafetyApi.status_text res +:+ ")");
  or_unavailable
    (data ← json_of res;
     if is_null data then throw "TypeError" else mret (field data "results"))
    "Map search is unavailable".

Definition geocodeAddress (query : string) (proximity : option LatLng) : prog World (option json) :=
  searchAddress query proximity.

Definition route_request (from to : LatLng) (mode : Ui.TravelMode) : Request :=
  mkRequest "/api/maps/route" "POST" [SignedRequest.json_type]
    (Some (stringify (JObj [("from", latlng_json from); ("to", latlng_json to);
                            ("mode", JStr (mode_name mode)); ("alternatives", JBool true)]))).

Definition getRoute (from to : LatLng) (mode : Ui.TravelMode) : prog World (list RouteResult) :=
  res ← or_unavailable (fetch (route_request from to mode)) "Route provider is unavailable";
  _ ← check (response_ok res) ("Route request failed (" +:+ SafetyApi.status_text res +:+ ")");
  or_unavailable
    (data ← json_of res;
     match routes_of data with
     | Some routes => mret routes
     | None => throw "Route provider returned an invalid response"
     end)
    "Route provider returned an invalid response".

Definition reverseGeocode (lat lng : num) : prog World (option string) :=
  try_catch
    (res ← fetch (mkRequest ("/api/maps/reverse?" +:+
        encode_params [("lat", num_to_string lat); ("lng", num_to_string lng)]) "GET" [] None);
     if negb (response_ok res) then mret None
     else
       data ← json_of res;
       if is_null data then throw "TypeError"
       else mret (field data "result" ≫= λ r, str_field r "label"))
    (λ _, mret None).

(** *** Facts *)

(** A route fit to be shown: named, with finite coordinates and measures. *)
Definition usable_route (r : RouteResult) : Prop :=
  rt_id r ≠ "" ∧ Forall (λ p, is_finite p.1 = true ∧ is_finite p.2 = true) (rt_coordinates r) ∧
  is_finite (rt_distance_m r) = true ∧ is_finite (rt_duration_s r) = true ∧
  rt_distance r = rt_distance_m r ∧ rt_duration r = rt_duration_s r.

Lemma point_of_finite v p : point_of v = Some p → is_finite p.1 = true ∧ is_finite p.2 = true.
Proof.
  unfold point_of. destruct v as [| | | |l|]; try done.
  destruct l as [|[| |x| | |] [|[| |y| | |] [|]]]; try done. case_match eqn:E; [|done].
  intros [= <-]. by apply andb_true_iff.
Qed.

Lemma finite_field_spec v k x : finite_field v k = Some x → is_finite x = true.
Proof.
  unfold finite_field. destruct (num_field v k) as [y|]; [|done]. simpl.
  case_match eqn:E; [|done]. by intros [= <-].
Qed.

Lemma route_of_usable v r : route_of v = Some r → usable_route r.
Proof.
  unfold route_of. intros (i & _ & Hr)%bind_Some.
  apply bind_Some in Hr as ([] & Hi & Hr). apply bind_Some in Hr as (coords & Hc & Hr).
  apply bind_Some in Hr as (d & Hd & Hr). apply bind_Some in Hr as (t & Ht & Hr).
  apply bind_Some in Hr as (ws & _ & Hr). apply bind_Some in Hr as (b & _ & [= <-]).
  apply finite_field_spec in Hd, Ht. apply bind_Some in Hc as (pts & _ & Hc%mapM_Some).
  split_and!; try done.
  - simpl. unfold truthy in Hi. destruct (String.eqb_spec i ""); done.
  - simpl. rewrite Forall_forall. intros p Hp. apply list_elem_of_lookup in Hp as [j Hj].
    destruct (Forall2_lookup_r _ _ _ _ _ Hc Hj) as (x & _ & Hx). by eapply point_of_finite.
Qed.

Lemma routes_of_usable v rs : routes_of v = Some rs → Forall usable_route rs.
Proof.
  unfold routes_of. destruct (field v "routes" ≫= as_arr) as [l|]; [|done]. cbn [mbind option_bind].
  intros Hm%mapM_Some. rewrite Forall_forall. intros r Hr. apply list_elem_of_lookup in Hr as [j Hj].
  destruct (Forall2_lookup_r _ _ _ _ _ Hm Hj) as (x & _ & Hx). by eapply route_of_usable.
Qed.

Lemma wp_or_unavailable {A} (m : prog World A) msg Q E w :
  wp m Q (λ _ _, True) w → (∀ e w', isAbortError e = true ∨ e = msg → E e w') →
  wp (or_unavailable m msg) Q E w.
Proof.
  intros Hm HE. unfold or_unavailable. rewrite wp_try_catch. eapply wp_mono; [exact Hm|done|].
  intros e w' _. cbn beta. destruct (isAbortError e) eqn:Ha; rewrite wp_throw; apply HE; auto.
Qed.

(** A route request either yields routes that are all fit to be shown, or fails: with the
    abort that the caller asked for, or with one of the three messages that tell the
    gateway was unreachable, refused, or answered with anything malformed. *)
Theorem get_route_usable_or_error from to mode w :
  wp (getRoute from to mode) (λ rs _, Forall usable_route rs)
    (λ m _, isAbortError m = true ∨ m = "Route provider is unavailable" ∨
       m = "Route provider returned an invalid response" ∨
       ∃ r : Response, response_ok r = false ∧
         m = "Route request failed (" +:+ SafetyApi.status_text r +:+ ")") w.
Proof.
  unfold getRoute. rewrite wp_bind. apply wp_or_unavailable; [|naive_solver].
  eapply wp_mono; [|intros res w1 _|intros ? ? He; exact He].
  - unfold wp. instantiate (1 := λ _ _, True). by destruct (fetch _ w) as [[] ?].
  - cbn beta. rewrite wp_bind, wp_check. destruct (response_ok res) eqn:Hok.
    + apply wp_or_unavailable; [|naive_solver]. unfold json_of. rewrite wp_bind, wp_lift_outcome.
      destruct (body_json res) as [v|m]; [|done].
      destruct (routes_of v) as [rs|] eqn:Hr; [|done]. rewrite wp_ret. by apply routes_of_usable in Hr.
    + right; right; right. by exists res.
Qed.
End requests.

(** *** A concrete gateway *)

Definition sample_answer : json :=
  JObj [("routes", JArr [JObj [("id", JStr "r1");
    ("coordinates", JArr [JArr [JNum (int 36); JNum (int (-1))]; JArr [JNum (int 37); JNum (int (-1))]]);
    ("distance_m", JNum (int 1200)); ("duration_s", JNum (int 900)); ("warnings", JArr []);
    ("degraded", JBool false)]])].

#[local] Program Instance gateway : Fetch := {| fetch r := mret (mkResponse 200 (Ok sample_answer)) |}.
Next Obligation. done. Qed.

Definition here : LatLng := mkLatLng (int (-1)) (int 36).
Definition there : LatLng := mkLatLng (int (-1)) (int 37).
Definition sample_routes : list RouteResult := default [] (routes_of sample_answer).

Lemma get_route_usable_or_error_witness :
  map rt_id sample_routes = ["r1"] ∧ Forall usable_route sample_routes.
Proof.
  split; [reflexivity|].
  assert (getRoute here there Ui.walking fresh_world = (Ok sample_routes, fresh_world)) as Hrun by reflexivity.
  exact (wp_ok _ _ _ _ _ _ Hrun (get_route_usable_or_error here there Ui.walking fresh_world)).
Defined.

End MapApi.
