(* ===== verification/Sockets.v ===== *)
(** * The map's sockets: [services/websocket.ts], [services/apiOrigin.ts] and
    [hooks/useViewportWs.ts]

    A connection is a state and its handlers.  [SafetySocket] turns the messages of the
    global feed into actions; [ViewportSocket] keeps the server informed of the bounds
    on screen.  Both reconnect with the same randomised exponential delay.
    [Math.random()] is the class of [GiftWrap.v]. *)

From Stdlib Require Import QArith Qabs Lia.
From S2P Require Import Prelude JsNumber JsString JsStringFacts JsCollection Json.
From S2P Require Import SharedTypes Nostr Platform Signer EventsSlice SmallSlices GiftWrap ChatStore Web Api.
Close Scope Q_scope.

(** ** [apiOrigin.ts] *)

Module ApiOrigin.
Section origin.
Context `{UrlParser, Page}.

(** [user[:password]@] of an address *)
Definition userinfo (u : Url) : string :=
  if truthy (username u) || truthy (password u)
  then username u +:+ (if truthy (password u) then ":" +:+ password u else "") +:+ "@" else "".

(** The address without path, search and hash.  The protocols are http and https, for
    which the assignment of [base.protocol] is accepted. *)
Definition websocketBaseUrl : outcome string :=
  match resolve_url (if truthy API_BASE then API_BASE else window_origin) window_origin ≫= parse_url with
  | None => Throw "Invalid URL"
  | Some base =>
      Ok ((if String.eqb (protocol base) "https:" then "wss:" else "ws:") +:+ "//" +:+
          userinfo base +:+ hostname base +:+
          (if truthy (port base) then ":" +:+ port base else ""))
  end.
End origin.
End ApiOrigin.

(** ** Delays between attempts *)

Module Backoff.

Definition BACKOFF_BASE_MS : num := int 1000.
Definition BACKOFF_CAP_MS : num := int 30000.
Definition BACKOFF_JITTER : num := lit 2 10.

Definition exponential (attempt : num) : num :=
  num_min (num_mul BACKOFF_BASE_MS (ChatStore.pow2 attempt)) BACKOFF_CAP_MS.

(** [r] is [Math.random()]. *)
Definition backoffDelay (attempt r : num) : num :=
  let exp := exponential attempt in
  let jitter := num_mul (num_mul exp BACKOFF_JITTER) (num_sub (num_mul r (int 2)) (int 1)) in
  num_round (num_add exp jitter).

(** *** Facts *)

Definition exp_ms (n : nat) : Z := Z.min (1000 * 2 ^ Z.of_nat n) 30000.

Lemma exp_ms_range n : (1000 <= exp_ms n <= 30000)%Z.
Proof.
  unfold exp_ms. assert (0 < 2 ^ Z.of_nat n)%Z by (apply Z.pow_pos_nonneg; lia). lia.
Qed.

(** From the fifth retry on the delay is the cap, also where the power overflows. *)
Lemma exponential_capped n : 5 <= n → exponential (int (Z.of_nat n)) = BACKOFF_CAP_MS.
Proof.
  intros Hn. unfold exponential, ChatStore.pow2. rewrite int_to_Z.
  assert (inject_Z 32 <= inject_Z (2 ^ Z.of_nat n))%Q as Hp.
  { rewrite <-Zle_Qle. change 32%Z with (2 ^ 5)%Z. apply Z.pow_le_mono_r; lia. }
  destruct (rnd_lower _ 32 ltac:(done) ltac:(done) Hp) as [->|(r & -> & Hr)]; [reflexivity|].
  unfold BACKOFF_BASE_MS, int, num_mul.
  assert (inject_Z 32000 <= inject_Z 1000 * r)%Q as Hm.
  { change (inject_Z 32000) with (inject_Z 1000 * inject_Z 32)%Q. apply Qmult_le_l; [reflexivity|exact Hr]. }
  destruct (rnd_lower _ 32000 ltac:(done) ltac:(done) Hm) as [->|(r' & -> & Hr')]; [reflexivity|].
  unfold num_min, BACKOFF_CAP_MS. assert (num_lt (int 30000) (Fin r') = true) as ->; [|done].
  apply num_lt_fin. eapply Qlt_le_trans; [|exact Hr']. reflexivity.
Qed.

Lemma exponential_spec n : exponential (int (Z.of_nat n)) = int (exp_ms n).
Proof.
  destruct (decide (n < 5)) as [Hn|Hn]; [do 5 (destruct n as [|n]; [vm_compute; reflexivity|]); lia|].
  rewrite exponential_capped by lia. unfold exp_ms, BACKOFF_CAP_MS. f_equal. f_equal.
  assert (2 ^ 5 <= 2 ^ Z.of_nat n)%Z by (apply Z.pow_le_mono_r; lia). lia.
Qed.

Lemma exp_ms_values n : exp_ms n ∈ [1000; 2000; 4000; 8000; 16000; 30000]%Z.
Proof.
  destruct (decide (n < 5)) as [Hn|Hn].
  - do 5 (destruct n as [|n]; [set_solver|]). lia.
  - assert (exp_ms n = 30000%Z) as ->; [|set_solver]. unfold exp_ms.
    assert (2 ^ 5 <= 2 ^ Z.of_nat n)%Z by (apply Z.pow_le_mono_r; lia). lia.
Qed.

Lemma jitter_base n : num_mul (int (exp_ms n)) BACKOFF_JITTER = int (exp_ms n / 5).
Proof.
  pose proof (exp_ms_values n) as Hv. revert Hv. generalize (exp_ms n). apply Forall_forall.
  repeat constructor.
Qed.

(** The delay before attempt [n] is within a fifth of the exponential delay, which
    doubles from one second up to thirty. *)
Theorem backoff_within_a_fifth n r q :
  r = Fin q → (0 <= q)%Q → (q < 1)%Q →
  ∃ z, backoffDelay (int (Z.of_nat n)) r = int z ∧
    let e := Z.min (1000 * 2 ^ Z.of_nat n) 30000 in
    (4 * (e / 5) <= z <= 6 * (e / 5))%Z ∧ (800 <= z <= 36000)%Z.
Proof.
  intros -> Hq0 Hq1. unfold backoffDelay. rewrite exponential_spec, jitter_base. fold (exp_ms n).
  set (f := (exp_ms n / 5)%Z).
  assert (exp_ms n = 5 * f ∧ 200 <= f <= 6000)%Z as [He Hf].
  { subst f. pose proof (exp_ms_values n) as Hv. revert Hv. generalize (exp_ms n). apply Forall_forall.
    repeat constructor; try discriminate. }
  assert (moderate (-1) 1 ∧ moderate 0 2) as [Hm1 Hm2] by (split; split_and!; done).
  assert (num_between (-1) 1 (num_sub (num_mul (Fin q) (int 2)) (int 1))) as Hs.
  { apply (between_add 0 2 (-1) (-1)); [done| |apply (between_opp 1 1), between_int].
    apply rnd_between; [done|..].
    - by apply Qmult_le_0_compat.
    - rewrite <-(Qmult_1_l (inject_Z 2)). apply Qmult_le_compat_r; [by apply Qlt_le_weak|done]. }
  apply (between_scale f 1) in Hs; [|lia|unfold moderate; lia].
  apply (between_add (exp_ms n) (exp_ms n) _ _ (int (exp_ms n))) in Hs; [|unfold moderate; lia|apply between_int].
  apply between_round in Hs as (z & Hz & Hzb). exists z. split; [exact Hz|]. lia.
Qed.

Lemma backoff_within_a_fifth_witness :
  ∃ z, backoffDelay (int 3) (Fin (3 # 4)) = int z ∧ (6400 <= z <= 9600)%Z ∧ (800 <= z <= 36000)%Z.
Proof. apply (backoff_within_a_fifth 3 (Fin (3 # 4)) (3 # 4)); done. Defined.

End Backoff.

(** ** [websocket.ts] *)

Module SafetySocket.

(** The refs of the hook: attempts since the last open connection, and the pending
    reconnection. *)
Record Conn : Type := mkConn { retryCount : nat; reconnectTimer : option num }.
Definition fresh_conn : Conn := mkConn 0 None.

(** What a message of the feed dispatches, if anything. *)
Definition message_action (data : string) : option Root.action :=
  msg ← parse data;
  type ← str_field msg "type";
  if String.eqb type "NEW_EVENT" || String.eqb type "EVENT_UPDATED" then
    e ← field msg "payload" ≫= SafetyApi.parseEvent;
    Some (Root.EventsAction (Events.EventReceived e))
  else if String.eqb type "EVENT_RESOLVED" then
    id ← field msg "payload" ≫= λ payload, str_field payload "id";
    Some (Root.EventsAction (Events.EventResolved id))
  else if String.eqb type "NEW_REPORT" || String.eqb type "REPORT_UPDATED" then
    r ← field msg "payload" ≫= SafetyApi.parseReport;
    Some (Root.ReportsAction (Reports.ReportReceived r))
  else None.

Definition on_message (data : string) : prog App unit :=
  match message_action data with Some a => dispatch a | None => mret tt end.

Definition on_open (c : Conn) : prog App Conn :=
  _ ← dispatch (Root.EventsAction (Events.SetConnected true));
  mret (mkConn 0 (reconnectTimer c)).

(** [r] is [Math.random()]. *)
Definition on_close (code : Z) (r : num) (c : Conn) : prog App Conn :=
  _ ← dispatch (Root.EventsAction (Events.SetConnected false));
  mret (if (code =? 1000)%Z then mkConn 0 (reconnectTimer c)
        else mkConn (S (retryCount c))
               (Some (Backoff.backoffDelay (int (Z.of_nat (retryCount c))) r))).

End SafetySocket.

(** ** [useViewportWs.ts] *)

Module ViewportSocket.

Record ViewportBounds : Type := mkBounds { north : num; south : num; east : num; west : num }.

Record WsEvent : Type := mkWsEvent {
  we_id : string; we_event_type : string; we_severity : string; we_state : string;
  we_trust_state : option string; we_title : string; we_lat : num; we_lng : num;
  we_started_at : string
}.

Definition normalizeTrustState (s : option string) : TrustState :=
  let s := toLowerCase (default "" s) in
  if String.eqb s "heuristic" then heuristic
  else if String.eqb s "corroborating" then corroborating
  else if String.eqb s "confirmed" then confirmed else heuristic.

Definition toSafetyEvent (e : WsEvent) : SafetyEvent :=
  mkSafetyEvent (we_id e) (we_event_type e) (we_severity e) (we_title e) None (we_lat e) (we_lng e)
    None None (negb (String.eqb (we_state e) "RESOLVED") && negb (String.eqb (we_state e) "EXPIRED"))
    (we_state e) (we_started_at e) (we_started_at e) None None None None None None
    (Some (normalizeTrustState (we_trust_state e))) None.

Inductive ViewportServerMsg : Type :=
| INITIAL_BATCH (events : list WsEvent)
| SNAPSHOT (events : list WsEvent)
| DIFF_PATCH (added : list WsEvent) (removed : list string) (updated : list WsEvent).

(** The message that the server sent, for one whose fields have their declared types. *)
Definition ws_event_of (v : json) : option WsEvent :=
  id ← str_field v "id"; event_type ← str_field v "event_type"; severity ← str_field v "severity";
  state ← str_field v "state"; title ← str_field v "title"; lat ← num_field v "lat";
  lng ← num_field v "lng"; started_at ← str_field v "started_at";
  Some (mkWsEvent id event_type severity state (str_field v "trust_state") title lat lng started_at).

Definition list_field {A} (f : json → option A) (v : json) (key : string) : option (list A) :=
  (field v key ≫= as_arr) ≫= mapM f.

Definition server_msg (v : json) : option ViewportServerMsg :=
  type ← str_field v "type";
  if String.eqb type "INITIAL_BATCH" then INITIAL_BATCH <$> list_field ws_event_of v "events"
  else if String.eqb type "SNAPSHOT" then SNAPSHOT <$> list_field ws_event_of v "events"
  else if String.eqb type "DIFF_PATCH" then
    added ← list_field ws_event_of v "added"; removed ← list_field as_str v "removed";
    updated ← list_field ws_event_of v "updated"; Some (DIFF_PATCH added removed updated)
  else None.

Definition message_action (m : ViewportServerMsg) : Events.action :=
  match m with
  | INITIAL_BATCH es | SNAPSHOT es => Events.ViewportEventsSet (map toSafetyEvent es)
  | DIFF_PATCH added removed updated =>
      Events.ViewportEventsBatchApply (map toSafetyEvent added) removed (map toSafetyEvent updated)
  end.

Definition on_message (data : string) : prog App unit :=
  match parse data ≫= server_msg with
  | Some m => dispatch (Root.EventsAction (message_action m))
  | None => mret tt
  end.

(** *** What the client sends *)

Inductive ClientMsg : Type :=
| SUBSCRIBE (bounds : ViewportBounds) (zoom : num)
| VIEWPORT_CHANGED (bounds : ViewportBounds) (zoom : num).

Definition bounds_json (b : ViewportBounds) : json :=
  JObj [("north", JNum (north b)); ("south", JNum (south b)); ("east", JNum (east b));
        ("west", JNum (west b))].
Definition client_json (m : ClientMsg) : json :=
  match m with
  | SUBSCRIBE b z => JObj [("type", JStr "SUBSCRIBE"); ("bounds", bounds_json b); ("zoom", JNum z)]
  | VIEWPORT_CHANGED b z =>
      JObj [("type", JStr "VIEWPORT_CHANGED"); ("bounds", bounds_json b); ("zoom", JNum z)]
  end.

(** The socket of [wsRef] with what was sent on it, oldest first, and the hook's refs. *)
Record Socket : Type := mkSocket { is_open : bool; sent : list ClientMsg }.
Record Hook : Type := mkHook {
  ws : option Socket; subscribed : bool; bounds : option ViewportBounds; zoom : num;
  retryCount : nat; reconnectTimer : option num
}.

Definition mounted (b : option ViewportBounds) (z : num) : Hook := mkHook None false b z 0 None.

(** [ws.send(JSON.stringify(m))] *)
Definition send (m : ClientMsg) (s : Socket) : Socket := mkSocket (is_open s) (sent s ++ [m]).

(** The effect of a change of the bounds or the zoom. *)
Definition viewport_changed (b : option ViewportBounds) (z : num) (h : Hook) : Hook :=
  match ws h, b with
  | Some s, Some b' =>
      if negb (is_open s) then mkHook (ws h) (subscribed h) b z (retryCount h) (reconnectTimer h)
      else if subscribed h
      then mkHook (Some (send (VIEWPORT_CHANGED b' z) s)) true b z (retryCount h) (reconnectTimer h)
      else mkHook (Some (send (SUBSCRIBE b' z) s)) true b z (retryCount h) (reconnectTimer h)
  | _, _ => mkHook (ws h) (subscribed h) b z (retryCount h) (reconnectTimer h)
  end.

Definition connect (h : Hook) : Hook :=
  mkHook (Some (mkSocket false [])) false (bounds h) (zoom h) (retryCount h) (reconnectTimer h).

Definition on_open (h : Hook) : Hook :=
  match ws h with
  | Some s =>
      let s := mkSocket true (sent s) in
      match bounds h with
      | Some b => mkHook (Some (send (SUBSCRIBE b (zoom h)) s)) true (bounds h) (zoom h) 0 (reconnectTimer h)
      | None => mkHook (Some s) (subscribed h) (bounds h) (zoom h) 0 (reconnectTimer h)
      end
  | None => h
  end.

(** The socket stops accepting data, before its close event. *)
Definition closing (h : Hook) : Hook :=
  mkHook (match ws h with Some s => Some (mkSocket false (sent s)) | None => None end)
    (subscribed h) (bounds h) (zoom h) (retryCount h) (reconnectTimer h).

Definition on_close (code : Z) (r : num) (h : Hook) : Hook :=
  let s := match ws h with Some s => Some (mkSocket false (sent s)) | None => None end in
  if (code =? 1000)%Z then mkHook s false (bounds h) (zoom h) 0 (reconnectTimer h)
  else mkHook s false (bounds h) (zoom h) (S (retryCount h))
         (Some (Backoff.backoffDelay (int (Z.of_nat (retryCount h))) r)).

(** The browser opens a socket once. *)
Inductive step : Hook → Hook → Prop :=
| step_viewport h b z : step h (viewport_changed b z h)
| step_connect h : step h (connect h)
| step_open h s : ws h = Some s → is_open s = false → sent s = [] → step h (on_open h)
| step_closing h : step h (closing h)
| step_close h code r : step h (on_close code r h).

Inductive reachable : Hook → Prop :=
| reach_mounted b z : reachable (mounted b z)
| reach_step h h' : reachable h → step h h' → reachable h'.

(** *** Facts *)

Definition is_update (m : ClientMsg) : Prop := if m is VIEWPORT_CHANGED _ _ then True else False.

(** One subscription, then updates only. *)
Definition protocol (l : list ClientMsg) : Prop :=
  match l with [] => True | SUBSCRIBE _ _ :: us => Forall is_update us | _ => False end.

Definition told (m : ClientMsg) : ViewportBounds * num :=
  match m with SUBSCRIBE b z | VIEWPORT_CHANGED b z => (b, z) end.

Definition sync_inv (h : Hook) : Prop :=
  match ws h with
  | None => True
  | Some s =>
      protocol (sent s) ∧ (sent s = [] → subscribed h = false) ∧
      (is_open s = true → sent s ≠ [] → subscribed h = true) ∧
      (is_open s = true → ∀ b, bounds h = Some b → told <$> last (sent s) = Some (b, zoom h))
  end.

Lemma protocol_update l b z : protocol l → l ≠ [] → protocol (l ++ [VIEWPORT_CHANGED b z]).
Proof.
  destruct l as [|[]]; try done. intros Hl _. simpl. apply Forall_app. by repeat constructor.
Qed.

Lemma told_last l m : told <$> last (l ++ [m]) = Some (told m).
Proof. by rewrite last_snoc. Qed.

Lemma sync_viewport b z h : sync_inv h → sync_inv (viewport_changed b z h).
Proof.
  unfold sync_inv, viewport_changed. destruct (ws h) as [s|] eqn:Hs; [|by destruct b].
  intros (Hp & He & Ho & Hb). destruct b as [b|]; [|by split_and!].
  destruct (is_open s) eqn:Hopen; cbn [negb]; [|cbn; rewrite Hopen; by split_and!].
  destruct (subscribed h) eqn:Hsub; cbn -[last].
  - assert (sent s ≠ []) as Hne by (intros E; specialize (He E); congruence).
    split_and!; [by apply protocol_update|by intros []%app_nil|done|].
    intros _ b' [= <-]. apply told_last.
  - assert (sent s = []) as -> by (destruct (sent s); [done|by specialize (Ho eq_refl ltac:(done))]).
    split_and!; [by constructor|done|done|]. by intros _ b' [= <-].
Qed.

Lemma sync_step h h' : sync_inv h → step h h' → sync_inv h'.
Proof.
  intros Hi Hstep. destruct Hstep as [h b z|h|h s Hs Hopen Hsent|h|h code r].
  - by apply sync_viewport.
  - by unfold sync_inv.
  - unfold sync_inv, on_open in *. rewrite Hs in *. destruct Hi as (_ & He & _).
    destruct (bounds h) as [b|] eqn:Hb; cbn; rewrite Hsent; cbn.
    + split_and!; [constructor|done|done|]. by intros _ b' [= <-].
    + split_and!; [constructor|by intros _; apply He|done|done].
  - unfold sync_inv, closing in *. destruct (ws h) as [s|]; [|done]. by destruct Hi as (? & ? & _).
  - unfold sync_inv, on_close in *. destruct (ws h) as [s|]; [|by destruct (_ =? _)%Z].
    destruct Hi as (? & _). by destruct (_ =? _)%Z.
Qed.

(** C29: The server always knows what is on screen.  In every state the hook can reach, what
    was sent on its socket is one subscription followed by updates, and while the socket
    is open and the map has bounds, the last message told the server these bounds and
    this zoom. *)
Theorem viewport_in_sync h s :
  reachable h → ws h = Some s →
  protocol (sent s) ∧
  (is_open s = true → ∀ b, bounds h = Some b → told <$> last (sent s) = Some (b, zoom h)).
Proof.
  intros Hr Hs. assert (sync_inv h) as Hi.
  { clear Hs. induction Hr as [b z|h h' _ IH Hstep]; [done|by eapply sync_step]. }
  unfold sync_inv in Hi. rewrite Hs in Hi. naive_solver.
Qed.

Definition nairobi : ViewportBounds := mkBounds (int (-1)) (int (-2)) (int 37) (int 36).
Definition kisumu : ViewportBounds := mkBounds (int 1) (int (-1)) (int 35) (int 34).
Definition session : Hook :=
  viewport_changed (Some kisumu) (int 9) (on_open (connect
    (on_close 1006 (Fin 0) (on_open (connect (viewport_changed (Some nairobi) (int 11) (mounted None (int 2)))))))).

Lemma viewport_in_sync_witness :
  protocol [SUBSCRIBE nairobi (int 11); VIEWPORT_CHANGED kisumu (int 9)] ∧
  told <$> last [SUBSCRIBE nairobi (int 11); VIEWPORT_CHANGED kisumu (int 9)] = Some (kisumu, int 9).
Proof.
  assert (reachable session) as Hr.
  { do 6 (eapply reach_step; [|first [apply step_viewport|apply step_connect|apply step_close
      |eapply step_open; reflexivity]]). apply reach_mounted. }
  destruct (viewport_in_sync session
    (mkSocket true [SUBSCRIBE nairobi (int 11); VIEWPORT_CHANGED kisumu (int 9)]) Hr eq_refl) as [Hp Hs].
  split; [exact Hp|]. apply (Hs eq_refl kisumu eq_refl).
Defined.

(** The two feeds agree: an event of the map's socket, had it come through the gateway's
    API instead, would be read as the same event. *)
Definition ws_event_json (e : WsEvent) : json :=
  JObj ([("id", JStr (we_id e)); ("event_type", JStr (we_event_type e));
         ("severity", JStr (we_severity e)); ("state", JStr (we_state e))] ++
        match we_trust_state e with Some t => [("trust_state", JStr t)] | None => [] end ++
        [("title", JStr (we_title e)); ("lat", JNum (we_lat e)); ("lng", JNum (we_lng e));
         ("started_at", JStr (we_started_at e))]).

Theorem feeds_agree e : SafetyApi.parseEvent (ws_event_json e) = Some (toSafetyEvent e).
Proof.
  destruct e as [i ty sev st tr ti la ln at_]. unfold ws_event_json, toSafetyEvent, SafetyApi.parseEvent.
  cbn [we_id we_event_type we_severity we_state we_trust_state we_title we_lat we_lng we_started_at].
  assert (SafetyApi.trust_of (default "heuristic" (toLowerCase <$> tr)) = normalizeTrustState tr) as <-.
  { unfold SafetyApi.trust_of, normalizeTrustState. destruct tr as [t|]; [|reflexivity]. simpl.
    destruct (String.eqb_spec (toLowerCase t) "confirmed") as [->|]; [done|].
    destruct (String.eqb_spec (toLowerCase t) "corroborating") as [->|]; [done|].
    by destruct (String.eqb_spec (toLowerCase t) "heuristic"). }
  by destruct tr.
Qed.

End ViewportSocket.
