(* ===== verification/CircleSocket.v ===== *)
(** * Sharing locations in a circle: [services/locationPublisher.ts] and
    [services/circleWebSocket.ts]

    The publisher signs, encrypts and posts the position of the device when the user asks
    for it; the socket of the other members receives the envelope, decrypts it against the
    roster and shows it.  The position of the device is the class [Geolocation]. *)

From Stdlib Require Import QArith Lia.
From S2P Require Import Prelude JsNumber JsString JsStringFacts JsCollection Json JsonFacts.
From S2P Require Import SharedTypes Nostr CryptoModel Platform IdentityStore NostrIdentity CircleKeys.
From S2P Require Import BunkerStore Signer CircleLocation NostrAuth CirclesSlice SmallSlices GiftWrap.
From S2P Require Import ChatStore Web Api.
Close Scope Q_scope.

(** The browser's position: latitude, longitude, accuracy. *)
Record Position : Type := mkPosition { p_latitude : num; p_longitude : num; p_accuracy : num }.
Class Geolocation : Type := { getCurrentPosition : prog World Position }.

(** ** [locationPublisher.ts] *)

Module LocationPublisher.

Record Options : Type := mkOptions {
  o_circleId : string; o_keyEpoch : num; o_precision : CircleLocation.LocationPrecision;
  o_endpoint : option string; o_enabled : option bool
}.

(** The variables of a publisher. *)
Record Publisher : Type := mkPublisher { stopped : bool; inFlight : bool }.
Definition fresh_publisher : Publisher := mkPublisher false false.

Definition State : Type := World * Publisher.

Definition on_world {A} (m : prog World A) : prog State A := λ s,
  let '(o, w) := m s.1 in (o, (w, s.2)).
Definition set_stopped : prog State unit := modify (λ s, (s.1, mkPublisher true (inFlight s.2))).
Definition set_inFlight (b : bool) : prog State unit := modify (λ s, (s.1, mkPublisher (stopped s.2) b)).

(** [stopped = true; throw new Error(msg)] *)
Definition stop_with {A} (msg : string) : prog State A := _ ← set_stopped; throw msg.

Definition buildLocationEnvelopeBody (keyEpoch : num) (ciphertext : string) (expiresAt : num)
    : outcome string :=
  iso ← iso_string (num_mul expiresAt (int 1000));
  Ok (stringify (JObj [("version", JNum (int 1)); ("key_epoch", JNum keyEpoch);
                       ("ciphertext", JStr ciphertext); ("expires_at", JStr iso)])).

Section publisher.
Context `{Aes, Sha256, Random, NostrTools, UrlParser, Extension, Bunkers, MathLib}.
Context `{Fetch, Page, Geolocation}.
Variable options : Options.

(** What [publish] does before its first await. *)
Definition enter : prog State unit :=
  st ← gets snd;
  if stopped st then throw "Location publisher is stopped"
  else if negb (default safeCircleLocationEnabled (o_enabled options))
  then stop_with "Safe circle location is disabled"
  else if inFlight st then throw "Location publish already in progress"
  else if negb (is_safe_integer (o_keyEpoch options)) || num_lt (o_keyEpoch options) (int 1)
  then stop_with "Circle epoch is unavailable"
  else set_inFlight true.

(** The encrypted location and the request that carries it. *)
Definition envelope (key : CryptoKey) (position : Position) : prog World (string * num) :=
  now ← now_seconds;
  let expiresAt := int (now + 300) in
  ciphertext ← CircleLocation.encryptCircleLocationV1 key (o_circleId options) (o_keyEpoch options)
    (p_latitude position) (p_longitude position) (p_accuracy position) (Some (int now))
    (o_precision options) expiresAt;
  mret (ciphertext, expiresAt).

Definition relativeUrl : string :=
  default ("/api/circles/" +:+ o_circleId options +:+ "/location") (o_endpoint options).

Definition location_request (ciphertext : string) (expiresAt : num) : prog World Request :=
  body ← lift_outcome (buildLocationEnvelopeBody (o_keyEpoch options) ciphertext expiresAt);
  authUrl ← lift_outcome (absolute_url relativeUrl);
  rq ← SignedRequest.signed authUrl "POST" (Some body);
  mret (mkRequest relativeUrl (rq_method rq) (rq_headers rq) (rq_body rq)).

Definition refused (status : Z) : bool := ((status =? 409) || (status =? 422) || (status =? 503))%Z.

Definition publish_body : prog State unit :=
  key ← on_world (CircleKeys.loadCircleKey (o_circleId options) (o_keyEpoch options));
  match key with
  | None => stop_with "Circle key is unavailable"
  | Some key =>
      position ← try_catch (on_world getCurrentPosition)
        (λ _, stop_with "Location permission or acquisition failed");
      '(ciphertext, expiresAt) ← on_world (envelope key position);
      rq ← on_world (location_request ciphertext expiresAt);
      response ← on_world (fetch rq);
      if refused (status response)
      then stop_with "Circle epoch or location protocol is not ready"
      else check (response_ok response)
             ("Location publish failed (" +:+ SafetyApi.status_text response +:+ ")")
  end.

Definition publish : prog State unit :=
  _ ← enter;
  try_finally publish_body (set_inFlight false).

Definition stop : prog State unit := set_stopped.

(** *** Overlapping calls

    A call of [publish] either is refused by [enter] or runs its body, during which other
    calls may be made; [running] counts the bodies under way. *)

Record Running : Type := mkRunning { pub : Publisher; running : nat }.

Inductive step : Running → Running → Prop :=
| step_call w o w' p' s : enter (w, pub s) = (o, (w', p')) →
    step s (mkRunning p' (match o with Ok _ => S (running s) | Throw _ => running s end))
| step_body_stops s : 0 < running s →
    step s (mkRunning (mkPublisher true (inFlight (pub s))) (running s))
| step_return s n : running s = S n → step s (mkRunning (mkPublisher (stopped (pub s)) false) n)
| step_stop s : step s (mkRunning (mkPublisher true (inFlight (pub s))) (running s)).

Inductive reachable : Running → Prop :=
| reach_fresh : reachable (mkRunning fresh_publisher 0)
| reach_step s s' : reachable s → step s s' → reachable s'.

Lemma enter_spec w p o w' p' : enter (w, p) = (o, (w', p')) →
  w' = w ∧
  match o with
  | Ok _ => stopped p = false ∧ inFlight p = false ∧ p' = mkPublisher false true
  | Throw _ => inFlight p' = inFlight p ∧ (stopped p = true → p' = p)
  end.
Proof.
  destruct p as [s f]. unfold enter, mbind, prog_bind, gets. cbn.
  destruct s; [by intros [= <- <- <-]|].
  destruct (negb (default _ _)); [by intros [= <- <- <-]|].
  destruct f; [by intros [= <- <- <-]|]. destruct (_ || _); by intros [= <- <- <-].
Qed.

Definition single (s : Running) : Prop :=
  running s = (if inFlight (pub s) then 1 else 0).

Lemma single_reachable s : reachable s → single s.
Proof.
  induction 1 as [|s s' _ IH Hstep]; [done|]. unfold single in *.
  destruct Hstep as [w o w' p' s Henter|s Hn|s n Hn|s]; cbn; [|done| |done].
  - apply enter_spec in Henter as [_ Ho]. destruct o as [u|m].
    + destruct Ho as (_ & Hf & ->). rewrite Hf in IH. cbn. by rewrite IH.
    + destruct Ho as [-> _]. done.
  - rewrite Hn in IH. destruct (inFlight (pub s)); [by injection IH|discriminate IH].
Qed.

(** A publisher never sends two locations at once, and stops for good: at most one body
    runs, however calls overlap; and once stopped, by the caller or by an error, every
    later call is refused and leaves it stopped. *)
Theorem publisher_exclusive s :
  reachable s → running s <= 1 ∧
  (stopped (pub s) = true → ∀ s', step s s' → stopped (pub s') = true ∧ running s' <= running s).
Proof.
  intros Hr. split; [apply single_reachable in Hr; unfold single in Hr; destruct (inFlight (pub s)); lia|].
  intros Hst s' Hstep. destruct Hstep as [w o w' p' s Henter|s Hn|s n Hn|s]; cbn; [|split; [done|lia]..].
  apply enter_spec in Henter as [_ Ho]. destruct o as [u|m]; [destruct Ho; congruence|].
  destruct Ho as [_ Hp]. rewrite Hp by done. split; [done|lia].
Qed.

(** A body that is under way does not ask whether its publisher was stopped meanwhile: it does
    what it would have done, its request included, and has the same outcome. *)
Lemma body_ignores_stop w f :
  let '(o, (w', p')) := publish_body (w, mkPublisher false f) in
  publish_body (w, mkPublisher true f) = (o, (w', mkPublisher true f)) ∧ inFlight p' = f.
Proof.
  unfold publish_body, on_world, try_catch, stop_with, set_stopped, modify, mbind, prog_bind. cbn [fst snd].
  destruct (CircleKeys.loadCircleKey _ _ w) as [[[key|]|e] w1]; cbn [fst snd]; [|by split..].
  destruct (getCurrentPosition w1) as [[pos|e] w2]; cbn [fst snd]; [|by split].
  destruct (envelope key pos w2) as [[[ct x]|e] w3]; cbn [fst snd]; [|by split].
  destruct (location_request ct x w3) as [[rq|e] w4]; cbn [fst snd]; [|by split].
  destruct (fetch rq w4) as [[r|e] w5]; cbn [fst snd]; [|by split].
  destruct (refused _); [by split|]. unfold check. destruct (response_ok r); by split.
Qed.

End publisher.

(** [startLocationPublisher] *)
Definition disabled_publish : prog State unit := throw "Continuous location sharing is disabled".

#[local] Instance sample_page : Page := {|
  window_origin := "https://sentinel.example"; window_protocol := "https:";
  window_host := "sentinel.example"; resolve_url r b := Some (b +:+ r); build_env _ := Some "true" |}.
Definition sharing : Options := mkOptions "c1" (int 1) CircleLocation.Exact None (Some true).
Definition two_calls : Running := mkRunning (mkPublisher true true) 1.

(** A publish is under way, a second one is refused, the caller stops it. *)
Lemma publisher_exclusive_witness :
  running two_calls <= 1 ∧
  (stopped (pub two_calls) = true → ∀ s', step sharing two_calls s' →
     stopped (pub s') = true ∧ running s' <= running two_calls).
Proof.
  apply (publisher_exclusive sharing two_calls).
  apply (reach_step sharing (mkRunning (mkPublisher false true) 1)); [|apply step_stop].
  apply (reach_step sharing (mkRunning (mkPublisher false true) 1)).
  - apply (reach_step sharing (mkRunning fresh_publisher 0)); [apply reach_fresh|].
    apply (step_call sharing fresh_world (Ok tt) fresh_world (mkPublisher false true)
      (mkRunning fresh_publisher 0)). reflexivity.
  - apply (step_call sharing fresh_world (Throw "Location publish already in progress") fresh_world
      (mkPublisher false true) (mkRunning (mkPublisher false true) 1)). reflexivity.
Defined.

End LocationPublisher.

(** ** [circleWebSocket.ts] *)

Module CircleSocket.
Import Circles.

Record Roster : Type := mkRoster { pubkeys : list string; epoch : Z; selfToken : option string }.

Record LastSeen : Type := mkLastSeen { seen_event_id : string; seen_captured_at : num }.

(** The page and the hook's [seenRef]. *)
Definition State : Type := App * gmap string LastSeen.

Definition on_page {A} (m : prog App A) : prog State A := λ s,
  let '(o, a) := m s.1 in (o, (a, s.2)).

(** [rosterRef.current], from the store. *)
Definition active_pubkey (m : CircleMember) : option string :=
  pk ← cm_pubkey m;
  if truthy pk && negb (bool_decide (cm_membership_state m = Some PENDING))
  then Some (toLowerCase pk) else None.

Definition find_circle (id : string) (s : CirclesState) : option Circle :=
  List.find (is_circle id) (circles s).

Definition roster_of (circleId : option string) (s : CirclesState) : Roster :=
  match circleId with
  | Some id =>
      if truthy id then
        mkRoster (set_of (omap active_pubkey (default [] (members s !! id))))
          (match epochs s !! id with
           | Some e => key_epoch e
           | None => default 1%Z (find_circle id s ≫= ci_key_epoch)
           end)
          (find_circle id s ≫= ci_self_token)
      else mkRoster [] 1 None
  | None => mkRoster [] 1 None
  end.

Definition precision_of (p : CircleLocation.LocationPrecision) : Precision :=
  match p with CircleLocation.Exact => exact | CircleLocation.Approximate => approximate end.

(** The payload of [locationReceived]. *)
Definition to_location (v : CircleLocation.VerifiedCircleLocationV1) (ts : string)
    : DecryptedLocation :=
  let c := CircleLocation.vl_content v in
  mkLocation (CircleLocation.lc_lat c) (CircleLocation.lc_lng c) ts
    (Some (CircleLocation.vl_event_id v)) (Some (CircleLocation.vl_expires_at v))
    (Some (CircleLocation.lc_accuracy_m c)) (Some (precision_of (CircleLocation.lc_precision c))).

(** [last && (last.event_id === loc.event_id || loc.captured_at < last.captured_at)] *)
Definition duplicate_or_older (last : option LastSeen) (v : CircleLocation.VerifiedCircleLocationV1)
    : bool :=
  match last with
  | Some l =>
      String.eqb (seen_event_id l) (CircleLocation.vl_event_id v)
      || num_lt (CircleLocation.lc_captured_at (CircleLocation.vl_content v)) (seen_captured_at l)
  | None => false
  end.

Abbreviation captured := (λ v, CircleLocation.lc_captured_at (CircleLocation.vl_content v)).
Abbreviation signer := (λ v, toLowerCase (CircleLocation.vl_pubkey v)).

Section socket.
Context `{Aes, Sha256, Random, NostrTools, UrlParser, Extension, Bunkers, MathRandom, Page}.

Definition dispatch_circles (a : Circles.action) : prog State unit :=
  on_page (Web.dispatch (Root.CirclesAction a)).

(** What is done with a location that was decrypted and is signed by an active member. *)
Definition show_location (v : CircleLocation.VerifiedCircleLocationV1) : prog State unit :=
  let pubkey := toLowerCase (CircleLocation.vl_pubkey v) in
  let captured_at := CircleLocation.lc_captured_at (CircleLocation.vl_content v) in
  last ← gets (λ s : State, s.2 !! pubkey);
  if duplicate_or_older last v then mret tt
  else
    _ ← modify (λ s : State, (s.1, <[pubkey := mkLastSeen (CircleLocation.vl_event_id v) captured_at]> s.2));
    ts ← lift_outcome (iso_string (num_mul captured_at (int 1000)));
    dispatch_circles (LocationReceived pubkey (to_location v ts)).

Definition handleEnvelope (roster : Roster) (env : CircleLocationEnvelopeV1) : prog State unit :=
  if negb (env_key_epoch env =? epoch roster)%Z then mret tt
  else
    key ← on_page (service (CircleKeys.loadCircleKey (env_circle_id env) (int (env_key_epoch env))));
    match key with
    | None => dispatch_circles (CircleDecryptError "circle key unavailable")
    | Some key =>
        now ← on_page (service now_seconds);
        match CircleLocation.decryptCircleLocationV1 key (env_ciphertext env) (env_circle_id env)
                (int (env_key_epoch env)) (pubkeys roster) (int now) with
        | None => mret tt
        | Some v => show_location v
        end
    end.

(** [void handleEnvelope(env)] *)
Definition receive (roster : Roster) (env : CircleLocationEnvelopeV1) : prog State unit :=
  try_catch (handleEnvelope roster env) (λ _, mret tt).

(** A message of the socket; the result tells whether the socket was closed for good. *)
Definition onmessage (circleId : option string) (msg : CircleWsMessage) : prog State bool :=
  roster ← gets (λ s : State, roster_of circleId (Root.circles (store s.1)));
  match msg with
  | CIRCLE_LOCATION_SNAPSHOT payload => _ ← for_each payload (receive roster); mret false
  | CIRCLE_LOCATION_ENVELOPE payload => _ ← receive roster payload; mret false
  | CIRCLE_EPOCH_CHANGED payload =>
      _ ← dispatch_circles (CircleEpochChanged (ec_circle_id payload)
        (mkEpoch (ec_key_epoch payload) (ec_rekey_required payload)));
      mret false
  | CIRCLE_MEMBER_REMOVED payload =>
      if bool_decide (selfToken roster = Some (mr_token payload))
      then _ ← dispatch_circles CircleLeft; mret true
      else
        _ ← dispatch_circles (MemberRemoved (mr_circle_id payload) None (Some (mr_token payload)));
        mret false
  end.

(** The delay before reconnecting, and none after a refusal; [i] is the draw of
    [Math.random()]. *)
Definition reconnect_delay (code : Z) (attempt : nat) (i : nat) : option num :=
  if ((code =? 4001) || (code =? 4003))%Z then None
  else
    let base := num_mul (int 1000) (ChatStore.pow2 (num_min (int (Z.of_nat (S attempt))) (int 5))) in
    Some (num_add (num_min base (int 30000)) (num_floor (num_mul (math_random i) (int 1000)))).

Definition socket_url : string :=
  (if String.eqb window_protocol "https:" then "wss" else "ws") +:+ "://" +:+ window_host +:+ "/ws/circles".

(** The first message on the socket, unless the identity does not sign: then nothing
    connects. *)
Definition connect (circleId : string) : prog World (option json) :=
  if negb (truthy circleId) || negb safeCircleLocationEnabled then mret None
  else
    try_catch
      (now ← now_seconds;
       nonce ← randomUUID;
       auth ← NostrAuth.signEventAsync (mkTemplate NostrAuth.auth_kind (int now)
         [["u"; socket_url]; ["method"; "GET"]; ["circle"; circleId]; ["nonce"; nonce]] "");
       mret (Some (JObj [("type", JStr "join_circle"); ("circle_id", JStr circleId);
                         ("nostr_auth_event", event_to_json auth)])))
      (λ _, mret None).

(** *** Facts *)

(** What an envelope does to the page: nothing to the store; or an error that is shown;
    or the location it holds, unless it repeats or precedes what was seen. *)
Definition envelope_effect (roster : Roster) (env : CircleLocationEnvelopeV1) (s s' : State) : Prop :=
  (s'.2 = s.2 ∧ (store s'.1 = store s.1 ∨
     store s'.1 = Root.dispatch (store s.1) (Root.CirclesAction (CircleDecryptError "circle key unavailable")))) ∨
  ∃ key now v,
    env_key_epoch env = epoch roster ∧
    CircleLocation.decryptCircleLocationV1 key (env_ciphertext env) (env_circle_id env)
      (int (env_key_epoch env)) (pubkeys roster) (int now) = Some v ∧
    signer v ∈ pubkeys roster ∧ duplicate_or_older (s.2 !! signer v) v = false ∧
    s'.2 = <[signer v := mkLastSeen (CircleLocation.vl_event_id v) (captured v)]> s.2 ∧
    (store s'.1 = store s.1 ∨
     ∃ ts, iso_string (num_mul (captured v) (int 1000)) = Ok ts ∧
       store s'.1 = Root.dispatch (store s.1)
         (Root.CirclesAction (LocationReceived (signer v) (to_location v ts)))).

Lemma wp_on_page {A} (m : prog App A) Q E s :
  wp (on_page m) Q E s ↔ wp m (λ x a, Q x (a, s.2)) (λ e a, E e (a, s.2)) s.1.
Proof. unfold wp, on_page. by destruct (m s.1) as [[] ?]. Qed.

Lemma wp_any {W A} (m : prog W A) (w : W) : wp m (λ _ _, True) (λ _ _, True) w.
Proof. unfold wp. by destruct (m w) as [[] ?]. Qed.

Lemma envelope_effect_holds roster env s :
  wp (handleEnvelope roster env) (λ _, envelope_effect roster env s)
    (λ _, envelope_effect roster env s) s.
Proof.
  unfold handleEnvelope. destruct (Z.eqb_spec (env_key_epoch env) (epoch roster)) as [He|]; cbn [negb].
  2: { left. split; [done|by left]. }
  rewrite wp_bind, wp_on_page, wp_service.
  eapply wp_mono; [apply wp_any| |]; [|intros m w _; left; split; [done|by left]].
  intros [key|] w _; cbn beta; [|left; split; [done|by right]].
  rewrite wp_bind, wp_on_page, wp_service. unfold now_seconds. rewrite wp_gets. cbn [fst snd store device].
  destruct (CircleLocation.decryptCircleLocationV1 _ _ _ _ _ _) as [v|] eqn:Hd;
    [|left; split; [done|by left]].
  pose proof (CircleLocation.decrypted_member _ _ _ _ _ _ _ Hd) as [Hroster _].
  unfold show_location. rewrite wp_bind, wp_gets. cbn [snd].
  destruct (duplicate_or_older _ v) eqn:Hdup; [left; split; [done|by left]|].
  rewrite wp_bind, wp_modify, wp_bind, wp_lift_outcome.
  destruct (iso_string _) as [ts|m] eqn:Hts.
  - right. exists key, (now_ms w / 1000)%Z, v. split_and!; [done|exact Hd|done|done|done|]. right. by exists ts.
  - right. exists key, (now_ms w / 1000)%Z, v. split_and!; [done|exact Hd|done|done|done|by left].
Qed.

(** What was seen has a time that can be compared. *)
Definition seen_ok (m : gmap string LastSeen) : Prop :=
  map_Forall (λ _ l, is_finite (seen_captured_at l) = true) m.

Definition later (m m' : gmap string LastSeen) : Prop := ∀ pk l, m !! pk = Some l →
  ∃ l', m' !! pk = Some l' ∧ num_le (seen_captured_at l) (seen_captured_at l') = true.

Lemma later_refl m : seen_ok m → later m m.
Proof. intros Hm pk l Hl. exists l. split; [done|]. by apply num_le_refl, (Hm pk). Qed.

Lemma later_trans m1 m2 m3 : seen_ok m1 → seen_ok m2 → seen_ok m3 → later m1 m2 → later m2 m3 → later m1 m3.
Proof.
  intros H1' H2' H3' H12 H23 pk l Hl. destruct (H12 pk l Hl) as (l2 & Hl2 & Hle).
  destruct (H23 pk l2 Hl2) as (l3 & Hl3 & Hle3). exists l3. split; [done|].
  eapply num_le_trans; [by eapply H1'|by eapply H2'|by eapply H3'|done..].
Qed.

Lemma effect_later roster env s s' :
  seen_ok s.2 → envelope_effect roster env s s' → seen_ok s'.2 ∧ later s.2 s'.2.
Proof.
  intros Hok [[-> _]|(key & now & v & _ & Hd & _ & Hdup & -> & _)]; [by split; [|apply later_refl]|].
  apply CircleLocation.decrypted_member in Hd as [_ Hcap%safe_integer_finite]. split.
  - by apply map_Forall_insert_2.
  - intros pk l Hl. destruct (decide (pk = signer v)) as [->|Hne].
    + rewrite lookup_insert_eq. eexists. split; [done|]. cbn [seen_captured_at].
      rewrite Hl in Hdup. cbn in Hdup. apply orb_false_iff in Hdup as [_ Hlt].
      apply num_not_lt; [done|by eapply Hok|done].
    + rewrite lookup_insert_ne by done. by apply (later_refl s.2).
Qed.

(** Only a location that an active member signed for this circle's current epoch is
    shown, and only if it is neither a repetition of the last one shown for its signer
    nor older. *)
Theorem shown_location_is_fresh roster env s o s' :
  handleEnvelope roster env s = (o, s') → store s'.1 ≠ store s.1 →
  store s'.1 = Root.dispatch (store s.1) (Root.CirclesAction (CircleDecryptError "circle key unavailable")) ∨
  ∃ key now v ts,
    env_key_epoch env = epoch roster ∧
    CircleLocation.decryptCircleLocationV1 key (env_ciphertext env) (env_circle_id env)
      (int (env_key_epoch env)) (pubkeys roster) (int now) = Some v ∧
    toLowerCase (CircleLocation.vl_pubkey v) ∈ pubkeys roster ∧
    duplicate_or_older (s.2 !! toLowerCase (CircleLocation.vl_pubkey v)) v = false ∧
    store s'.1 = Root.dispatch (store s.1)
      (Root.CirclesAction (LocationReceived (toLowerCase (CircleLocation.vl_pubkey v)) (to_location v ts))).
Proof.
  intros Hrun Hne. assert (envelope_effect roster env s s') as He.
  { pose proof (envelope_effect_holds roster env s) as Hw. unfold wp in Hw. rewrite Hrun in Hw.
    by destruct o. }
  destruct He as [[_ [?|He]]|(key & now & v & ? & ? & ? & ? & _ & [?|(ts & _ & ?)])]; [done|by left| |];
    [done|]. right. by exists key, now, v, ts.
Qed.

Lemma receive_effect roster env s : envelope_effect roster env s (receive roster env s).2.
Proof.
  unfold receive, try_catch. pose proof (envelope_effect_holds roster env s) as Hw. unfold wp in Hw.
  by destruct (handleEnvelope roster env s) as [[[]|m] s1].
Qed.

(** The page between two envelopes: any other code may run. *)
Definition arrivals : Type := list ((App → App) * Roster * CircleLocationEnvelopeV1).
Definition run (xs : arrivals) (s : State) : State :=
  fold_left (λ s x, (receive x.1.2 x.2 (x.1.1 s.1, s.2)).2) xs s.

(** The position that the page shows for the sender of [v] is the one of [v]. *)
Definition shows (a : App) (v : CircleLocation.VerifiedCircleLocationV1) : Prop :=
  ∃ ts, iso_string (num_mul (captured v) (int 1000)) = Ok ts ∧
    decryptedLocations (Root.circles (store a)) !! signer v = Some (to_location v ts).

(** The hook has seen [v], or a later location of its sender. *)
Definition seen_since (v : CircleLocation.VerifiedCircleLocationV1) (m : gmap string LastSeen) : Prop :=
  is_finite (captured v) = true ∧ ∃ l, m !! signer v = Some l ∧ num_le (captured v) (seen_captured_at l) = true.

(** Code other than the hook adds no position: it may remove some. *)
Definition adds_no_position (f : App → App) : Prop := ∀ a pk loc,
  decryptedLocations (Root.circles (store (f a))) !! pk = Some loc →
  decryptedLocations (Root.circles (store a)) !! pk = Some loc.

Lemma dispatch_adds_no_position act a :
  (∀ pk l, act ≠ LocationReceived pk l) →
  adds_no_position (λ x, mkApp (device a) (Root.dispatch (store x) (Root.CirclesAction act))).
Proof.
  intros Hact x pk loc. cbn. destruct act; cbn; try done.
  - unfold circleEpochChanged. by case_match.
  - by destruct (Hact pubkey location).
  - unfold memberRemoved. destruct (_ !! id), pubkey as [p|]; try done; case_match; try done; cbn;
      by intros [_ ?]%lookup_delete_Some.
  - unfold memberAccepted. by case_match.
  - by intros [? _]%map_lookup_filter_Some.
  - unfold proximityAlertAdded. by case_match.
Qed.

(** One envelope: the position of [v] stays, goes, or makes room for a later one. *)
Lemma effect_forward roster env s s' v :
  seen_ok s.2 → seen_since v s.2 → envelope_effect roster env s s' →
  seen_since v s'.2 ∧
  (decryptedLocations (Root.circles (store s'.1)) !! signer v =
     decryptedLocations (Root.circles (store s.1)) !! signer v ∨
   ∃ v', signer v' = signer v ∧ shows s'.1 v' ∧ seen_since v' s'.2 ∧
     num_le (captured v) (captured v') = true).
Proof.
  intros Hok Hs He. split.
  { destruct Hs as (Hfin & l & Hl & Hle). destruct (effect_later _ _ _ _ Hok He) as [Hok' Hlater].
    destruct (Hlater _ _ Hl) as (l' & Hl' & Hle'). split; [done|].
    exists l'. split; [done|]. eapply num_le_trans; [done|by eapply (Hok _ _ Hl)|by eapply (Hok' _ _ Hl')|done..]. }
  destruct He as [[_ [->| ->]]|(key & now & v' & _ & Hd & _ & Hdup & Hseen & [->|(ts & Hts & Hst)])];
    [by left..|]. rewrite Hst. cbn.
  destruct (decide (signer v' = signer v)) as [Heq|Hne]; [|left; by rewrite lookup_insert_ne].
  right. exists v'. split; [done|]. apply CircleLocation.decrypted_member in Hd as [_ Hcap%safe_integer_finite].
  split_and!.
  - exists ts. split; [done|]. rewrite Hst. apply lookup_insert_eq.
  - split; [done|]. rewrite Hseen. eexists. rewrite lookup_insert_eq. split; [done|]. by apply num_le_refl.
  - destruct Hs as (Hfin & l & Hl & Hle). rewrite Heq, Hl in Hdup. cbn in Hdup.
    apply orb_false_iff in Hdup as [_ Hlt]. eapply num_le_trans; [| | |exact Hle|].
    + done.
    + by eapply (Hok _ _ Hl).
    + done.
    + apply num_not_lt; [done|by eapply (Hok _ _ Hl)|done].
Qed.

(** C16: Positions only move forward while the hook is mounted.  Once the page shows for a
    member the position of a location that the hook has seen, then however envelopes are
    delayed, repeated or reordered, and whatever other code does to the device and the
    store, adding no position of its own, a position that the page shows for the member is
    that one or one captured no earlier. *)
Theorem locations_move_forward xs s v :
  seen_ok s.2 → shows s.1 v → seen_since v s.2 → Forall (λ x, adds_no_position x.1.1) xs →
  is_Some (decryptedLocations (Root.circles (store (run xs s).1)) !! signer v) →
  ∃ v', signer v' = signer v ∧ shows (run xs s).1 v' ∧ seen_since v' (run xs s).2 ∧
    num_le (captured v) (captured v') = true.
Proof.
  intros Hok Hsh Hsee. revert s v Hok Hsh Hsee.
  enough (∀ s v, seen_ok s.2 → seen_since v s.2 →
    (∀ loc, decryptedLocations (Root.circles (store s.1)) !! signer v = Some loc → shows s.1 v) →
    Forall (λ x, adds_no_position x.1.1) xs →
    is_Some (decryptedLocations (Root.circles (store (run xs s).1)) !! signer v) →
    ∃ v', signer v' = signer v ∧ shows (run xs s).1 v' ∧ seen_since v' (run xs s).2 ∧
    num_le (captured v) (captured v') = true) as Hgen.
  { intros s v Hok Hsh Hsee. by apply Hgen. }
  induction xs as [|[[f roster] env] xs IH]; intros s v Hok Hsee Hsh Hxs [loc Hloc].
  { exists v. split_and!; [done|by eapply Hsh|done|]. by apply num_le_refl, Hsee. }
  apply Forall_cons in Hxs as [Hf Hxs]. cbn [run fold_left fst snd] in Hloc |- *. fold (run xs).
  pose proof (receive_effect roster env (f s.1, s.2)) as He.
  set (s1 := (receive roster env (f s.1, s.2)).2) in *.
  destruct (effect_later _ _ (f s.1, s.2) _ Hok He) as [Hok1 _].
  destruct (effect_forward _ _ (f s.1, s.2) _ v Hok Hsee He) as [Hsee1 [Hsame|(v' & Heq & Hsh' & Hsee' & Hle)]].
  - apply IH; [done|done| |done|by eexists]. intros loc' Hl'. rewrite Hsame in Hl'. cbn [fst store] in Hl'.
    pose proof (Hf _ _ _ Hl') as Hl0. cbn [fst] in Hl0.
    destruct (Hsh _ Hl0) as (ts & Hts & Hst). exists ts. split; [done|].
    rewrite Hsame. cbn [fst]. by rewrite Hl', <-Hst, Hl0.
  - destruct (IH s1 v') as (v'' & Heq' & Hsh'' & Hsee'' & Hle'); [done|done|by intros|done|rewrite Heq; by eexists|].
    exists v''. split_and!; [congruence|done|done|].
    eapply num_le_trans; [apply Hsee|apply Hsee'|apply Hsee''|exact Hle|exact Hle'].
Qed.

Lemma iso_string_int m : (0 <= m <= 8640000000000000)%Z → ∃ ts, iso_string (int m) = Ok ts.
Proof.
  intros Hm. unfold iso_string, int.
  assert (Qle_bool 0 (inject_Z m) = true) as -> by (apply Qle_bool_iff; rewrite <-(Zle_Qle 0); lia).
  rewrite Qround.Qfloor_Z. destruct (Z.leb_spec (Z.abs m) 8640000000000000); [|lia].
  destruct (civil _) as [[y mo] d]. by eexists.
Qed.

Context `{MathLib}.

Lemma show_location_old v s :
  duplicate_or_older (s.2 !! signer v) v = true → show_location v s = (Ok tt, s).
Proof.
  intros Hd. unfold show_location. rewrite (bind_ok _ _ s (s.2 !! signer v) s) by done. by rewrite Hd.
Qed.

Lemma show_location_new v s ts :
  iso_string (num_mul (captured v) (int 1000)) = Ok ts → duplicate_or_older (s.2 !! signer v) v = false →
  show_location v s = (Ok tt, (mkApp (device s.1) (Root.dispatch (store s.1)
    (Root.CirclesAction (LocationReceived (signer v) (to_location v ts)))),
    <[signer v := mkLastSeen (CircleLocation.vl_event_id v) (captured v)]> s.2)).
Proof.
  intros Hts Hd. unfold show_location. rewrite (bind_ok _ _ s (s.2 !! signer v) s) by done. rewrite Hd.
  erewrite bind_ok by reflexivity. rewrite Hts. by destruct s as [[] ?].
Qed.

Lemma show_location_ok v s ts :
  iso_string (num_mul (captured v) (int 1000)) = Ok ts → show_location v s = (Ok tt, (show_location v s).2).
Proof.
  intros Hts. destruct (duplicate_or_older (s.2 !! signer v) v) eqn:Hd.
  - by rewrite show_location_old.
  - by rewrite (show_location_new _ _ ts).
Qed.

(** C15: A shared position arrives.  When the publisher of a member, with a local identity and
    the exact precision, makes an envelope, every other device that holds the circle's
    key, whose storage answers, that lists the sender as an active member at this epoch
    and receives the envelope within its five minutes (and thirty seconds of clock skew)
    decrypts it to this very position and time.  If it saw neither this event from the
    sender nor one captured later, it shows the sender there, online, and remembers the
    event; otherwise it changes nothing. *)
Theorem shared_location_shown options key position w ct expiresAt w' kp e roster env s key' :
  ai_mode (identity w) = Local → keypair w = Some kp →
  getPublicKey (secretKey kp) = Some (publicKey kp) →
  LocationPublisher.o_precision options = CircleLocation.Exact →
  LocationPublisher.o_keyEpoch options = int e →
  num_ok (p_latitude position) = true → num_ok (p_longitude position) = true →
  num_ok (p_accuracy position) = true →
  LocationPublisher.envelope options key position w = (Ok (ct, expiresAt), w') →
  env_circle_id env = LocationPublisher.o_circleId options → env_key_epoch env = e →
  env_ciphertext env = ct →
  epoch roster = e → publicKey kp ∈ pubkeys roster →
  faults (device s.1) = [] →
  circle_db (device s.1) !! CircleKeys.keyId (LocationPublisher.o_circleId options) (int e) = Some key' →
  key_raw key' = key_raw key →
  (0 <= now_ms w <= 8639999999000000)%Z → (0 <= now_ms (device s.1))%Z →
  (now_ms w / 1000 - 30 <= now_ms (device s.1) / 1000 < now_ms w / 1000 + 300)%Z →
  let t := (now_ms w / 1000)%Z in
  ∃ v s', CircleLocation.decryptCircleLocationV1 key' ct (env_circle_id env) (int e) (pubkeys roster)
      (int (now_ms (device s.1) / 1000)) = Some v ∧
    CircleLocation.vl_pubkey v = publicKey kp ∧ captured v = int t ∧
    handleEnvelope roster env s = (Ok tt, s') ∧
    ((∀ l, s.2 !! publicKey kp = Some l →
        seen_event_id l ≠ CircleLocation.vl_event_id v ∧ num_lt (int t) (seen_captured_at l) = false) →
     ∃ loc, decryptedLocations (Root.circles (store s'.1)) !! publicKey kp = Some loc ∧
      memberStatuses (Root.circles (store s'.1)) !! publicKey kp = Some ONLINE ∧
      lat loc = p_latitude position ∧ lng loc = p_longitude position ∧
      accuracy_m loc = Some (p_accuracy position) ∧ expires_at loc = Some expiresAt ∧
      shows s'.1 v ∧
      s'.2 = <[publicKey kp := mkLastSeen (CircleLocation.vl_event_id v) (int t)]> s.2) ∧
    (∀ l, s.2 !! publicKey kp = Some l →
      seen_event_id l = CircleLocation.vl_event_id v ∨ num_lt (int t) (seen_captured_at l) = true →
      s' = s).
Proof.
  intros Hm Hk Hpk Hprec Hep Hlat Hlng Hacc Hrun Hec Hee Hect Hre Hroster Hf Hdb Hraw Hw Hd Htime t.
  unfold LocationPublisher.envelope in Hrun. run_inv Hrun. injection Hrun0 as <- <-.
  run_inv Hrun. injection Hrun as <- <- <-. rewrite Hprec, Hep in Hrun0.
  fold t in Hrun0, Htime. set (n := (now_ms (device s.1) / 1000)%Z) in *.
  assert (0 <= t <= 8639999999000)%Z as Ht by (subst t; Z.to_euclidean_division_equations; lia).
  assert (0 <= n)%Z as Hn by (subst n; apply Z.div_pos; lia).
  destruct (CircleLocation.location_roundtrip _ _ _ _ _ _ _ _ _ _ _ kp (pubkeys roster) n Hm Hk Hpk
    Hroster Hlat Hlng Hacc (proj1 Ht) Hn Htime ltac:(lia) ltac:(unfold safe_Z, max_safe; lia) Hrun0)
    as [eid Hdec].
  set (v := CircleLocation.mkVerified (CircleLocation.mkContent
      (p_latitude position) (p_longitude position) (p_accuracy position) (int t) CircleLocation.Exact)
      (publicKey kp) eid (int (t + 300))) in Hdec.
  assert (CircleLocation.decryptCircleLocationV1 key' a (env_circle_id env) (int e)
    (pubkeys roster) (int n) = Some v) as Hdec'.
  { rewrite Hec, <-Hdec. unfold CircleLocation.decryptCircleLocationV1. by rewrite Hraw. }
  destruct (iso_string_int (t * 1000)) as [ts Hts]; [lia|].
  assert (iso_string (num_mul (captured v) (int 1000)) = Ok ts) as Hiso.
  { rewrite <-Hts, <-(int_mul t 1000) by (unfold safe_Z, max_safe; lia). done. }
  assert (signer v = publicKey kp) as Hsigner by (by eapply lower_hex64_fixed, public_key_form).
  exists v, (show_location v s).2. split_and!; [done..| | |].
  - transitivity (show_location v s).
    + unfold handleEnvelope. rewrite Hre, Hee, Z.eqb_refl. cbn [negb].
      rewrite (bind_ok _ _ s (Some key') s).
      2: { unfold on_page, service. rewrite Hec, (CircleKeys.loadCircleKey_stored _ _ key') by done. by destruct s as [[] ?]. }
      rewrite (bind_ok _ _ s n s) by by destruct s as [[] ?].
      by rewrite Hect, Hdec'.
    + by apply (show_location_ok v s ts).
  - intros Hseen. exists (to_location v ts).
    rewrite (show_location_new v s ts).
    + rewrite Hsigner. cbn. split_and!; [by rewrite lookup_insert_eq|by rewrite lookup_insert_eq|done|done|done|done| |done].
      exists ts. split; [done|]. rewrite Hsigner. cbn. by rewrite lookup_insert_eq.
    + done.
    + rewrite Hsigner. destruct (s.2 !! publicKey kp) as [l|]; [|done].
      destruct (Hseen l eq_refl) as [Hid Hlt]. apply orb_false_iff. split; [by apply String.eqb_neq|exact Hlt].
  - intros l Hl Hold. rewrite show_location_old; [done|]. rewrite Hsigner, Hl.
    apply orb_true_iff. destruct Hold as [Hid|Hlt]; [left; by apply String.eqb_eq|by right].
Qed.
End socket.

(** ** Witnesses *)

#[local] Existing Instances Signer.sample_urls Signer.no_extension Signer.sample_bunker GiftWrap.half.
#[local] Existing Instances CircleLocation.flat_earth.

Definition here : Position := mkPosition (lit (-129) 100) (lit 3682 100) (int 25).
Definition options : LocationPublisher.Options :=
  LocationPublisher.mkOptions "c1" (int 1) CircleLocation.Exact None None.
Definition sent : outcome (string * num) * World :=
  LocationPublisher.envelope options CircleLocation.circle_key here CircleKeys.owner_world.
Definition sent_text : string := match sent.1 with Ok (ct, _) => ct | Throw _ => "" end.
Definition sent_expiry : num := match sent.1 with Ok (_, x) => x | Throw _ => NaN end.
Definition received : CircleLocationEnvelopeV1 :=
  mkEnvelope "e1" "c1" 1 sent_text "2026-01-01T00:00:00.000Z" "2026-01-01T00:05:00.000Z".
Definition roster : Roster := mkRoster CircleLocation.members 1 None.
Definition ben_device : World :=
  set_circle_db <[CircleKeys.keyId "c1" (int 1) := CircleLocation.circle_key]> CircleKeys.owner_world.
Definition ben : State := (mkApp ben_device SmallSlices.Root.initialState, ∅).

Lemma shared_location_shown_witness :
  ∃ v s', CircleLocation.vl_pubkey v = publicKey CircleKeys.owner ∧
    handleEnvelope roster received ben = (Ok tt, s') ∧ shows s'.1 v ∧
    memberStatuses (Root.circles (store s'.1)) !! publicKey CircleKeys.owner = Some ONLINE.
Proof.
  destruct (shared_location_shown options CircleLocation.circle_key here CircleKeys.owner_world sent_text
    sent_expiry sent.2 CircleKeys.owner 1 roster received ben CircleLocation.circle_key)
    as (v & s' & _ & Hpk & _ & Hrun & Hshown & _).
  all: lazymatch goal with |- ex _ => idtac | _ =>
    first [left | split; vm_compute; congruence | vm_compute; reflexivity | vm_compute; congruence] end.
  exists v, s'. destruct Hshown as (loc & _ & Hon & _ & _ & _ & _ & Hsh & _); [by intros l|].
  exact (conj Hpk (conj Hrun (conj Hsh Hon))).
Defined.

(** Ben's page after the owner's position was shown, and an earlier position of the owner's *)
Definition v_owner (captured : Z) : CircleLocation.VerifiedCircleLocationV1 :=
  CircleLocation.mkVerified (CircleLocation.mkContent (lit (-129) 100) (lit 3682 100) (int 25)
    (int captured) CircleLocation.Exact) (publicKey CircleKeys.owner) "earlier" (int (captured + 300)).
Definition showing (captured : Z) (s : State) : State := (show_location (v_owner captured) s).2.

(** An earlier position was shown; the envelope arrives twice, and another member's circle
    is pruned between. *)
Definition prune (now : Z) (a : App) : App :=
  mkApp (device a) (Root.dispatch (store a) (Root.CirclesAction (LocationsPruned (int now)))).

Lemma locations_move_forward_witness :
  ∃ v', shows (run [(λ a, a, roster, received); (prune 0, roster, received)] (showing 1767225000 ben)).1 v' ∧
    num_le (int 1767225000) (captured v') = true.
Proof.
  destruct (locations_move_forward [(λ a, a, roster, received); (prune 0, roster, received)]
    (showing 1767225000 ben) (v_owner 1767225000)) as (v' & _ & Hsh & _ & Hle).
  - apply map_Forall_insert_2; [reflexivity|apply map_Forall_empty].
  - eexists. split; [vm_compute; reflexivity|vm_compute; reflexivity].
  - split; [reflexivity|]. eexists. split; [vm_compute; reflexivity|reflexivity].
  - constructor; [by intros a pk loc|]. constructor; [|constructor].
    intros a. by apply (dispatch_adds_no_position (LocationsPruned (int 0)) a).
  - vm_compute. by eexists.
  - exists v'. exact (conj Hsh Hle).
Defined.

(** What was seen belongs to one mount of the hook, what is shown to the store: mounted
    again, the hook shows a position that is older than the one on the page. *)
Example new_mount_goes_back :
  let later := showing 1767225700 ben in
  let again : State := (receive roster received (later.1, ∅)).2 in
  shows later.1 (v_owner 1767225700) ∧
  option_map ts (decryptedLocations (Root.circles (store later.1)) !! publicKey CircleKeys.owner) =
    Some "2026-01-01T00:01:40.000Z" ∧
  option_map ts (decryptedLocations (Root.circles (store again.1)) !! publicKey CircleKeys.owner) =
    Some "2026-01-01T00:00:00.000Z".
Proof. split_and!; [eexists; split|..]; by vm_compute. Qed.

Definition ben_after : outcome unit * State := handleEnvelope roster received ben.

Lemma shown_location_is_fresh_witness :
  store ben_after.2.1 = Root.dispatch (store ben.1) (Root.CirclesAction (CircleDecryptError "circle key unavailable")) ∨
  ∃ key now v ts,
    env_key_epoch received = epoch roster ∧
    CircleLocation.decryptCircleLocationV1 key (env_ciphertext received) (env_circle_id received)
      (int (env_key_epoch received)) (pubkeys roster) (int now) = Some v ∧
    toLowerCase (CircleLocation.vl_pubkey v) ∈ pubkeys roster ∧
    duplicate_or_older (ben.2 !! toLowerCase (CircleLocation.vl_pubkey v)) v = false ∧
    store ben_after.2.1 = Root.dispatch (store ben.1)
      (Root.CirclesAction (LocationReceived (toLowerCase (CircleLocation.vl_pubkey v)) (to_location v ts))).
Proof.
  apply (shown_location_is_fresh roster received ben ben_after.1 ben_after.2).
  - apply surjective_pairing.
  - intros He. apply (f_equal (λ r, memberStatuses (Root.circles r) !! publicKey CircleKeys.owner)) in He.
    vm_compute in He. discriminate He.
Defined.

End CircleSocket.
