(* ===== verification/Invite.v ===== *)
(** * Invites to a circle: the invite strings of [components/FamilyCircleDashboard.tsx]

    An invite names a circle, its owner's public key and the circle's name; the owner
    sends it out of band and the invited person pastes it.  [encodeURIComponent] and
    [decodeURIComponent] are the language's; a code point above U+00FF decodes to ["?"]
    as in [JsString.utf8_decode]. *)

From Stdlib Require Import QArith Lia Ascii.
From S2P Require Import Prelude JsNumber JsString JsStringFacts JsCollection Json JsonFacts.
From S2P Require Import Nostr CryptoModel Platform LocalLists Web.
Close Scope Q_scope.
Local Open Scope Z_scope.

Module Invite.

(** ** [encodeURIComponent] and [decodeURIComponent] *)

Definition uri_unreserved (c : ascii) : bool :=
  is_digit c || between 65 90 c || between 97 122 c
  || bool_decide (c ∈ String.list_ascii_of_string "-_.!~*'()").

Definition upper_hex_digit (n : Z) : ascii := if n <? 10 then chr (48 + n) else chr (55 + n).

(** ["%XX"], followed by [s] *)
Definition percent (n : Z) (s : string) : string :=
  String "%" (String (upper_hex_digit (n / 16)) (String (upper_hex_digit (n mod 16)) s)).

Fixpoint encodeURIComponent (s : string) : string :=
  match s with
  | EmptyString => EmptyString
  | String c s =>
      if uri_unreserved c then String c (encodeURIComponent s)
      else if code c <? 128 then percent (code c) (encodeURIComponent s)
      else percent (192 + code c / 64) (percent (128 + code c mod 64) (encodeURIComponent s))
  end.

Definition hex_value (c : ascii) : option Z :=
  if is_digit c then Some (code c - 48)
  else if between 97 102 c then Some (code c - 87)
  else if between 65 70 c then Some (code c - 55)
  else None.

(** The characters of an escaped string: code units that stand for themselves and
    octets; [None] when a percent sign is not followed by two digits. *)
Fixpoint uri_units (s : string) : option (list (ascii + Z)) :=
  match s with
  | EmptyString => Some []
  | String c s =>
      if Ascii.eqb c "%" then
        match s with
        | String a (String b s) =>
            x ← hex_value a; y ← hex_value b; rest ← uri_units s; Some (inr (x * 16 + y) :: rest)
        | _ => None
        end
      else rest ← uri_units s; Some (inl c :: rest)
  end.

Definition within (lo hi x : Z) : bool := (lo <=? x) && (x <=? hi).

(** The code units of a sequence of characters and octets; [None] (a [URIError]) when
    the octets are not UTF-8. *)
Fixpoint uri_decode (us : list (ascii + Z)) : option string :=
  match us with
  | [] => Some ""
  | inl c :: us => String c <$> uri_decode us
  | inr x :: us =>
      if x <? 128 then String (chr x) <$> uri_decode us
      else
        match us with
        | inr y :: us =>
            if within 194 223 x && within 128 191 y then
              String (if x <? 196 then chr ((x - 192) * 64 + (y - 128)) else "?") <$> uri_decode us
            else
              match us with
              | inr z :: us =>
                  if within 224 239 x && within (if x =? 224 then 160 else 128) (if x =? 237 then 159 else 191) y
                     && within 128 191 z
                  then String "?" <$> uri_decode us
                  else
                    match us with
                    | inr v :: us =>
                        if within 240 244 x && within (if x =? 240 then 144 else 128) (if x =? 244 then 143 else 191) y
                           && within 128 191 z && within 128 191 v
                        then (λ s, String "?" (String "?" s)) <$> uri_decode us
                        else None
                    | _ => None
                    end
              | _ => None
              end
        | _ => None
        end
  end.

Definition decodeURIComponent (s : string) : option string := uri_units s ≫= uri_decode.

Example decode_space : decodeURIComponent "Family%20%C3%A9" = Some (String.append "Family " (String (chr 233) "")).
Proof. reflexivity. Qed.
Example decode_bad : decodeURIComponent "%C3" = None ∧ decodeURIComponent "100%" = None.
Proof. split; reflexivity. Qed.

(** ** The invite *)

Record ParsedInvite : Type := mkInvite { circleId : string; ownerPubkey : string; circleName : string }.

Definition INVITE_PREFIX : string := "sm:circle:".

Definition buildInviteString (circleId ownerPubkey circleName : string) : string :=
  INVITE_PREFIX +:+ circleId +:+ ":" +:+ ownerPubkey +:+ ":" +:+ encodeURIComponent circleName.

(** [[0-9a-f-]{36}] *)
Definition is_circle_id (s : string) : bool :=
  Nat.eqb (String.length s) 36 && str_forallb (λ c, is_hex_lower c || (code c =? 45)) s.

(** The characters that [.] matches. *)
Definition not_line_end (c : ascii) : bool := negb (code c =? 10) && negb (code c =? 13).

(** [trimmed.match(/^sm:circle:([0-9a-f-]{36}):([0-9a-f]{64}):(.+)$/)] *)
Definition match_invite (s : string) : option (string * string * string) :=
  if starts_with INVITE_PREFIX s then
    let s := str_drop 10 s in
    let id := str_take 36 s in
    let s := str_drop 36 s in
    if is_circle_id id && starts_with ":" s then
      let s := str_drop 1 s in
      let owner := str_take 64 s in
      let s := str_drop 64 s in
      if is_lower_hex64 owner && starts_with ":" s then
        let name := str_drop 1 s in
        if truthy name && str_forallb not_line_end name then Some (id, owner, name) else None
      else None
    else None
  else None.

Definition parseInviteString (raw : string) : option ParsedInvite :=
  '(id, owner, name) ← match_invite (trim raw);
  name ← decodeURIComponent name;
  Some (mkInvite id owner name).

(** The button "Track this circle". *)
Definition trackInvite (invite : ParsedInvite) : prog World unit :=
  _ ← LocalLists.addCircleId (circleId invite);
  if truthy (ownerPubkey invite)
  then LocalLists.saveCircleOwnerKey (circleId invite) (ownerPubkey invite)
  else mret tt.

(** ** Facts *)

Lemma hex_value_digit n : 0 <= n < 16 → hex_value (upper_hex_digit n) = Some n.
Proof.
  intros Hn. unfold hex_value, upper_hex_digit. destruct (Z.ltb_spec n 10);
    unfold is_digit, between; rewrite !code_chr by lia; btests; try lia; f_equal; lia.
Qed.

Lemma units_percent n s : 0 <= n < 256 → uri_units (percent n s) = cons (inr n) <$> uri_units s.
Proof.
  intros Hn. unfold percent. cbn [uri_units]. rewrite Ascii.eqb_refl.
  rewrite !hex_value_digit by (Z.to_euclidean_division_equations; lia).
  unfold mbind, option_bind. destruct (uri_units s); [|done]. simpl. do 2 f_equal. f_equal.
  Z.to_euclidean_division_equations; lia.
Qed.

Lemma unreserved_not_percent c : uri_unreserved c = true → Ascii.eqb c "%" = false.
Proof. intros Hc. destruct (Ascii.eqb_spec c "%"); [|done]. by subst. Qed.

Lemma decode_encode_uri s : decodeURIComponent (encodeURIComponent s) = Some s.
Proof.
  assert (∃ us, uri_units (encodeURIComponent s) = Some us ∧ uri_decode us = Some s)
    as (us & Hus & Hd); [|unfold decodeURIComponent; by rewrite Hus].
  induction s as [|c s (us & Hus & Hd)]; [by exists []|]. cbn [encodeURIComponent].
  pose proof (code_range c). destruct (uri_unreserved c) eqn:Hc; [|destruct (Z.ltb_spec (code c) 128)].
  - exists (inl c :: us). cbn [uri_units uri_decode].
    by rewrite (unreserved_not_percent c Hc), Hus, Hd.
  - exists (inr (code c) :: us). rewrite units_percent, Hus by lia. cbn [uri_decode].
    destruct (Z.ltb_spec (code c) 128); [|lia]. by rewrite Hd, chr_code.
  - assert (2 <= code c / 64 <= 3 ∧ 0 <= code c mod 64 < 64) as [] by (Z.to_euclidean_division_equations; lia).
    exists (inr (192 + code c / 64) :: inr (128 + code c mod 64) :: us).
    rewrite !units_percent, Hus by lia. split; [done|]. cbn [uri_decode].
    destruct (Z.ltb_spec (192 + code c / 64) 128); [lia|].
    unfold within. repeat match goal with
      | |- context [?a <=? ?b] => destruct (Z.leb_spec a b); [|lia]
      | |- context [?a <? ?b] => destruct (Z.ltb_spec a b); [|lia] end. cbn [andb].
    rewrite Hd. cbn. do 2 f_equal. rewrite <-(chr_code c) at 3. f_equal.
    Z.to_euclidean_division_equations; lia.
Qed.

(** *** Trimming *)

Lemma str_forallb_app p a b : str_forallb p (a +:+ b) = str_forallb p a && str_forallb p b.
Proof. induction a as [|c a IH]; [done|]. simpl. rewrite IH. apply andb_assoc. Qed.

Lemma trim_start_app a s : str_forallb is_space a = true → trim_start (a +:+ s) = trim_start s.
Proof. induction a as [|c a IH]; [done|]. simpl. by destruct (is_space c); [apply IH|]. Qed.

Lemma rev_app_eq a b c : String.rev_app (a +:+ b) c = String.rev_app b (String.rev_app a c).
Proof. revert c. induction a as [|x a IH]; intros c; [done|]. apply (IH (String x c)). Qed.

Lemma rev_app_tail a b : String.rev_app a b = String.rev a +:+ b.
Proof.
  revert b. induction a as [|c a IH]; intros b; [done|]. unfold String.rev. cbn [String.rev_app].
  rewrite (IH (String c b)), (IH (String c "")). generalize (String.rev a). intros r.
  induction r as [|x r IHr]; [done|]. change (String x (r +:+ String c b) = String x ((r +:+ String c "") +:+ b)).
  by rewrite IHr.
Qed.

Lemma rev_app_forallb p a b : str_forallb p (String.rev_app a b) = str_forallb p a && str_forallb p b.
Proof.
  revert b. induction a as [|c a IH]; intros b; [done|]. cbn [String.rev_app]. rewrite IH. simpl.
  rewrite andb_assoc. f_equal. apply andb_comm.
Qed.

(** White space pasted around a string that has none is trimmed. *)
Lemma trim_pasted a s b :
  str_forallb is_space a = true → str_forallb is_space b = true →
  no_space s = true → s ≠ "" → trim (a +:+ s +:+ b) = s.
Proof.
  intros Ha Hb Hs Hne. unfold trim. rewrite trim_start_app by done.
  assert (trim_start (s +:+ b) = s +:+ b) as ->.
  { destruct s as [|c s]; [done|]. unfold no_space in Hs. cbn in Hs. simpl. unfold compose in Hs.
    by destruct (is_space c). }
  unfold String.rev at 2. rewrite rev_app_eq, (rev_app_tail b), trim_start_app.
  2: { unfold String.rev. by rewrite rev_app_forallb, Hb. }
  rewrite trim_start_no_space by by rewrite rev_app_no_space, Hs.
  unfold String.rev. by rewrite rev_app_involutive.
Qed.

(** *** The string that is built is the one that is recognised *)

Lemma str_take_len n p s : String.length p = n → str_take n (p +:+ s) = p.
Proof. intros <-. induction p as [|c p IH]; [by destruct s|]. simpl. f_equal. apply IH. Qed.

Lemma str_drop_len n p s : String.length p = n → str_drop n (p +:+ s) = s.
Proof. intros <-. apply str_drop_app. Qed.

Lemma is_circle_id_length s : is_circle_id s = true → String.length s = 36%nat.
Proof. unfold is_circle_id. intros [H _]%andb_true_iff. by apply Nat.eqb_eq. Qed.

Lemma match_invite_built id owner name :
  is_circle_id id = true → is_lower_hex64 owner = true → name ≠ "" →
  str_forallb not_line_end name = true →
  match_invite (INVITE_PREFIX +:+ id +:+ ":" +:+ owner +:+ ":" +:+ name) = Some (id, owner, name).
Proof.
  intros Hid Ho Hn Hl. unfold match_invite. rewrite starts_with_app.
  pose proof (is_circle_id_length id Hid) as Hil. pose proof (lower_hex64_length owner Ho) as Hol.
  rewrite !(str_drop_len 10 INVITE_PREFIX) by done.
  rewrite (str_take_len 36), (str_drop_len 36), Hid, starts_with_app by done. cbn [andb].
  rewrite !(str_drop_len 1 ":") by done.
  rewrite (str_take_len 64), (str_drop_len 64), Ho, starts_with_app by done. cbn [andb].
  rewrite !(str_drop_len 1 ":"), Hl, andb_true_r by done.
  unfold truthy. by destruct (String.eqb_spec name "").
Qed.

Definition plain (c : ascii) : bool := negb (is_space c) && not_line_end c.

Lemma plain_digit n : 0 <= n < 16 → plain (upper_hex_digit n) = true.
Proof.
  intros Hn. unfold plain, not_line_end, upper_hex_digit. destruct (Z.ltb_spec n 10);
    unfold is_space, between; rewrite !code_chr by lia; btests; lia || done.
Qed.

Lemma plain_unreserved c : uri_unreserved c = true → plain c = true.
Proof.
  intros Hc. destruct (plain c) eqn:Hp; [done|]. exfalso. revert Hc Hp.
  destruct c as [[] [] [] [] [] [] [] []]; vm_compute; done.
Qed.

(** The characters of an encoded text: unreserved ones, digits of [%XX], and the sign *)
Lemma encoded_forallb p s : (∀ c, uri_unreserved c = true → p c = true) →
  (∀ n, 0 <= n < 16 → p (upper_hex_digit n) = true) → p "%"%char = true → str_forallb p (encodeURIComponent s) = true.
Proof.
  intros Hu Hd Hp. induction s as [|c s IH]; [done|]. cbn [encodeURIComponent]. pose proof (code_range c).
  destruct (uri_unreserved c) eqn:Hc; [|destruct (Z.ltb_spec (code c) 128)];
    unfold percent; cbn [str_forallb]; rewrite ?IH, ?Hp, ?Hd
      by (Z.to_euclidean_division_equations; lia); [by rewrite Hu|done|done].
Qed.

Lemma encoded_plain s : str_forallb plain (encodeURIComponent s) = true.
Proof. apply encoded_forallb; [apply plain_unreserved|apply plain_digit|done]. Qed.

Lemma encoded_nonempty s : s ≠ "" → encodeURIComponent s ≠ "".
Proof.
  destruct s as [|c s]; [done|]. intros _. cbn [encodeURIComponent].
  destruct (uri_unreserved c); [done|]. by destruct (code c <? 128).
Qed.

(** C25: An invite survives being pasted: the string that the owner's device builds for a
    circle is recognised by the device of the invited person, whatever white space was
    pasted around it and whatever characters the circle's name has, and names the same
    circle, owner and name. *)
Theorem invite_roundtrip before after id owner name :
  str_forallb is_space before = true → str_forallb is_space after = true →
  is_circle_id id = true → is_lower_hex64 owner = true → name ≠ "" →
  parseInviteString (before +:+ buildInviteString id owner name +:+ after)
    = Some (mkInvite id owner name).
Proof.
  intros Hb Ha Hid Ho Hn. pose proof (encoded_plain name) as He.
  unfold parseInviteString, buildInviteString. rewrite trim_pasted; [|done|done| |done].
  2: { unfold no_space. rewrite !str_forallb_app. rewrite !andb_true_iff. split_and!; try done.
    - apply andb_true_iff in Hid as [_ Hid]. eapply str_forallb_impl; [|exact Hid].
      intros c. destruct c as [[] [] [] [] [] [] [] []]; vm_compute; done.
    - apply hex_no_space. by apply andb_true_iff in Ho as [_ Ho].
    - eapply str_forallb_impl; [|exact He]. unfold plain. intros c [Hc _]%andb_true_iff. done. }
  rewrite match_invite_built; [|done|done|by apply encoded_nonempty|].
  2: { eapply str_forallb_impl; [|exact He]. unfold plain. by intros c [_ Hc]%andb_true_iff. }
  unfold mbind, option_bind. by rewrite decode_encode_uri.
Qed.

Lemma parsed_owner raw i : parseInviteString raw = Some i → is_lower_hex64 (ownerPubkey i) = true.
Proof.
  unfold parseInviteString, mbind, option_bind, match_invite.
  repeat (case_match; try done); intros; simplify_eq; reflect_bools; done.
Qed.

(** *** Tracking the circle of an invite *)

Lemma other_item key v key' w w' :
  has_local_storage w = true → local_setItem key v w = (Ok tt, w') → key ≠ key' →
  local_getItem key' w' = local_getItem key' w ∧ has_local_storage w' = true.
Proof.
  intros Hls Hrun Hne. split; [by rewrite (LocalLists.local_get_set _ _ key' _ _ Hls Hrun), decide_False|].
  unfold local_setItem, request, modify in Hrun. unfold has_local_storage in *.
  apply bool_decide_eq_true in Hls as [m Hm].
  destruct (faults w) as [|[|] fs]; simplify_eq; simpl; rewrite Hm; by apply bool_decide_eq_true_2.
Qed.

Lemma tracked w w' i :
  has_local_storage w = true → LocalLists.owner_slot_ok w → is_lower_hex64 (ownerPubkey i) = true →
  trackInvite i w = (Ok tt, w') →
  circleId i ∈ LocalLists.getCircleIds w' ∧
  (∀ id, id ∈ LocalLists.getCircleIds w → id ∈ LocalLists.getCircleIds w') ∧
  LocalLists.getCircleOwnerKey (circleId i) w' = Some (ownerPubkey i) ∧
  (∀ id, id ≠ circleId i → LocalLists.getCircleOwnerKey id w' = LocalLists.getCircleOwnerKey id w).
Proof.
  intros Hls Hslot Ho Hrun. unfold trackInvite in Hrun. apply bind_inv in Hrun as ([] & w1 & Hadd & Hrun).
  rewrite lower_hex64_truthy in Hrun by done.
  unfold LocalLists.addCircleId in Hadd. rewrite LocalLists.with_storage_run in Hadd by done.
  rewrite (bind_ok _ _ w (LocalLists.getCircleIds w) w) in Hadd by done.
  destruct (other_item _ _ LocalLists.OWNER_KEYS_KEY _ _ Hls Hadd) as [Hown Hls1]; [done|].
  assert (LocalLists.owner_values w1 = LocalLists.owner_values w) as Hov
    by (unfold LocalLists.owner_values; by rewrite Hown).
  assert (∀ id, LocalLists.getCircleOwnerKey id w1 = LocalLists.getCircleOwnerKey id w) as Hkeys
    by (intros id; unfold LocalLists.getCircleOwnerKey; by rewrite Hov).
  pose proof (LocalLists.read_write_list _ _ _ _ LocalLists.CIRCLE_IDS Hls Hadd) as Hids.
  rewrite decide_True in Hids by done.
  destruct (LocalLists.owner_key_roundtrip _ _ _ _ Hls1 ltac:(unfold LocalLists.owner_slot_ok in *; by rewrite Hov)
    (lower_hex64_hex64 _ Ho) Hrun) as (_ & Hkey & Hother).
  assert (LocalLists.getCircleIds w' = LocalLists.getCircleIds w1) as Hsame.
  { unfold LocalLists.getCircleIds, LocalLists.read_list. unfold LocalLists.saveCircleOwnerKey in Hrun.
    rewrite LocalLists.with_storage_run in Hrun by done.
    apply bind_inv in Hrun as (vs & wa & Ha & Hrun). injection Ha as <- <-.
    apply bind_inv in Hrun as (vs & wa & Ha & Hrun). injection Ha as Ha <-.
    by destruct (other_item _ _ LocalLists.CIRCLE_IDS _ _ Hls1 Hrun) as [-> _]. }
  unfold LocalLists.getCircleIds in Hsame at 2. rewrite Hsame, Hids, Hkey, lower_hex64_fixed by done.
  split_and!; [apply elem_of_set_add; by right| |done|].
  - intros id Hid. apply elem_of_set_add. left. by apply elem_of_set_of.
  - intros id Hne. by rewrite Hother, Hkeys.
Qed.

(** Tracking an invite makes its owner the one trusted for the circle: whatever was
    pasted, if it is recognised and the button does not fail, the circle is listed beside
    those listed before, envelopes for it are accepted from this owner's key alone, and
    the owners of the other circles are as they were. *)
Theorem tracked_invite_trusts_owner raw i w w' :
  has_local_storage w = true → LocalLists.owner_slot_ok w →
  parseInviteString raw = Some i → trackInvite i w = (Ok tt, w') →
  circleId i ∈ LocalLists.getCircleIds w' ∧
  (∀ id, id ∈ LocalLists.getCircleIds w → id ∈ LocalLists.getCircleIds w') ∧
  LocalLists.getCircleOwnerKey (circleId i) w' = Some (ownerPubkey i) ∧
  (∀ id, id ≠ circleId i → LocalLists.getCircleOwnerKey id w' = LocalLists.getCircleOwnerKey id w).
Proof. intros Hls Hslot Hi. apply tracked; [done..|]. by eapply parsed_owner. Qed.

(** *** A concrete invite *)

Definition sample_id : string := "5f0c2a9e-7b1d-4c3a-9e8f-0123456789ab".
Definition sample_name : string := "Ana & Ben: 100% family" +:+ String (chr 233) "".
Definition pasted : string :=
  "  " +:+ buildInviteString sample_id LocalLists.sample_owner sample_name +:+ String (chr 10) "".

Lemma invite_roundtrip_witness :
  parseInviteString pasted = Some (mkInvite sample_id LocalLists.sample_owner sample_name).
Proof.
  apply (invite_roundtrip "  " (String (chr 10) "") sample_id LocalLists.sample_owner sample_name);
    try reflexivity; vm_compute; congruence.
Defined.

Lemma tracked_invite_trusts_owner_witness :
  LocalLists.getCircleOwnerKey sample_id
    (trackInvite (mkInvite sample_id LocalLists.sample_owner sample_name) fresh_world).2
  = Some LocalLists.sample_owner.
Proof.
  destruct (tracked_invite_trusts_owner pasted (mkInvite sample_id LocalLists.sample_owner sample_name)
    fresh_world (trackInvite (mkInvite sample_id LocalLists.sample_owner sample_name) fresh_world).2)
    as (_ & _ & Hk & _).
  - reflexivity.
  - exists []. split_and!; [vm_compute; reflexivity|constructor|constructor].
  - vm_compute. reflexivity.
  - vm_compute. reflexivity.
  - exact Hk.
Defined.

End Invite.
