(* ===== verification/CircleSync.v ===== *)
(** * Loading the circles: [hooks/useCircles.ts]

    The hook asks the gateway for the circles that the device tracks, opens the key
    envelope of a circle whose key the device lacks, decrypts the circle's name and the
    labels of its members, and puts them in the store.  A response is a JSON value that
    the source casts: a field of another type than the declared one reads as absent. *)

From Stdlib Require Import QArith Lia.
From S2P Require Import Prelude JsNumber JsString JsStringFacts JsCollection Json JsonFacts.
From S2P Require Import SharedTypes Nostr CryptoModel Platform IdentityStore LocalLists NostrIdentity.
From S2P Require Import CircleKeys BunkerStore Signer CircleLocation NostrAuth CirclesSlice SmallSlices.
From S2P Require Import Web Api.
Close Scope Q_scope.

Module CircleSync.

(** ** The gateway's records *)

Record RawCircle : Type := mkRawCircle {
  rc_id : string; rc_name : option (option string); rc_name_ciphertext : option (option string);
  rc_name_version : option Z; rc_key_epoch : option Z; rc_location_protocol_version : option Z;
  rc_rekey_required : option bool; rc_membership_revision : option Z; rc_self_token : option string;
  rc_created_at : string; rc_is_owner : option bool
}.

Record RawMember : Type := mkRawMember {
  rm_circle_id : string; rm_member_token : option string;
  rm_member_label_ciphertext : option (option string); rm_alert_radius_km : option num;
  rm_alert_severity : option string; rm_membership_state : option MembershipState;
  rm_accepted_at : option string; rm_key_wrap_epoch : option Z; rm_joined_at : string
}.

Record RawKeyWrap : Type := mkKeyWrap {
  kw_version : option Z; kw_epoch : option Z; kw_event : option json; kw_ciphertext : option string
}.

Record RawCircleDetail : Type := mkDetail {
  rd_circle : RawCircle; rd_members : list RawMember; rd_my_key_wrap : option RawKeyWrap
}.

(** An integer field: the gateway sends 32-bit integers. *)
Definition int_field (v : json) (key : string) : option Z :=
  x ← num_field v key; if num_eqb (int (to_Z x)) x then Some (to_Z x) else None.

Definition state_of (s : string) : MembershipState := if String.eqb s "PENDING" then PENDING else ACTIVE.

Definition raw_circle (v : json) : option RawCircle :=
  id ← str_field v "id"; created_at ← str_field v "created_at";
  Some (mkRawCircle id (SafetyApi.nullable as_str v "name") (SafetyApi.nullable as_str v "name_ciphertext")
    (int_field v "name_version") (int_field v "key_epoch") (int_field v "location_protocol_version")
    (field v "rekey_required" ≫= as_bool) (int_field v "membership_revision")
    (str_field v "self_token") created_at (field v "is_owner" ≫= as_bool)).

Definition raw_member (v : json) : option RawMember :=
  id ← str_field v "circle_id"; joined_at ← str_field v "joined_at";
  Some (mkRawMember id (str_field v "member_token") (SafetyApi.nullable as_str v "member_label_ciphertext")
    (num_field v "alert_radius_km") (str_field v "alert_severity")
    (state_of <$> str_field v "membership_state") (str_field v "accepted_at")
    (int_field v "key_wrap_epoch") joined_at).

Definition raw_key_wrap (v : json) : option RawKeyWrap :=
  if is_null v then None
  else Some (mkKeyWrap (int_field v "version") (int_field v "epoch") (field v "event") (str_field v "ciphertext")).

Definition raw_detail (v : json) : option RawCircleDetail :=
  c ← raw_circle v; ms ← field v "members" ≫= as_arr; ms ← mapM raw_member ms;
  Some (mkDetail c ms (field v "my_key_wrap" ≫= raw_key_wrap)).

(** ** [toCircleAndMembers] *)

Section sync.
Context `{Aes, Sha256, Random, NostrTools}.

Definition epoch_of (detail : RawCircleDetail) : Z := default 1%Z (rc_key_epoch (rd_circle detail)).

(** Open the device's key envelope; an error leaves the circle locked. *)
Definition open_key_wrap (id owner : string) (kw : RawKeyWrap) : prog World unit :=
  try_catch
    (if bool_decide (kw_version kw = Some 2%Z) && from_option json_truthy false (kw_event kw) then
       event ← CircleKeys.from_option_or (kw_event kw ≫= event_of_json) "Invalid circle key envelope";
       _ ← CircleKeys.unwrapNip44CircleKey id owner event; mret tt
     else
       match kw_ciphertext kw with
       | Some ct => if truthy ct then CircleKeys.unwrapLegacyCircleKey id owner ct else mret tt
       | None => mret tt
       end)
    (λ _, mret tt).

Definition circle_key (detail : RawCircleDetail) : prog World (option CryptoKey) :=
  let id := rc_id (rd_circle detail) in
  let keyEpoch := int (epoch_of detail) in
  key ← CircleKeys.loadCircleKey id keyEpoch;
  match key, rd_my_key_wrap detail with
  | None, Some kw =>
      owner ← gets (LocalLists.getCircleOwnerKey id);
      match owner with
      | Some owner => _ ← open_key_wrap id owner kw; CircleKeys.loadCircleKey id keyEpoch
      | None => mret None
      end
  | _, _ => mret key
  end.

(** [s && ...] of a string that may be [null] or absent. *)
Definition some_text (s : option (option string)) : option string :=
  t ← mjoin s; if truthy t then Some t else None.

Definition display_name (key : option CryptoKey) (c : RawCircle) : option string :=
  match key, some_text (rc_name_ciphertext c) with
  | Some key, Some ct =>
      if bool_decide (rc_name_version c = Some 1%Z)
      then Some (default "(locked)" (CircleKeys.decryptString key ct))
      else Some (default "(unnamed)" (mjoin (rc_name c)))
  | _, _ => Some (default "(unnamed)" (mjoin (rc_name c)))
  end.

Definition to_circle (detail : RawCircleDetail) (displayName : option string) : Circle :=
  let c := rd_circle detail in
  mkCircle (rc_id c) (Some displayName) (rc_name_ciphertext c) (rc_name_version c)
    (Some (epoch_of detail)) (rc_location_protocol_version c) (rc_rekey_required c)
    (rc_membership_revision c) (rc_self_token c) (rc_created_at c)
    (Some (default false (rc_is_owner c))).

(** A member without its label. *)
Definition bare_member (m : RawMember) : CircleMember :=
  mkCircleMember (rm_circle_id m) (Some (rm_member_token m)) (default (int 5) (rm_alert_radius_km m))
    (default "MEDIUM" (rm_alert_severity m)) (rm_joined_at m) (rm_member_label_ciphertext m)
    (Some (default ACTIVE (rm_membership_state m))) (Some (rm_accepted_at m)) (Some (rm_key_wrap_epoch m))
    None None.

Definition with_label (m : CircleMember) (pubkey label : option string) : CircleMember :=
  mkCircleMember (cm_circle_id m) (cm_member_token m) (cm_alert_radius_km m) (cm_alert_severity m)
    (cm_joined_at m) (cm_member_label_ciphertext m) (cm_membership_state m) (cm_accepted_at m)
    (cm_key_wrap_epoch m) pubkey label.

(** The label of a member: [null] has no properties to read. *)
Definition read_label (decoded : string) : option (option string * option string) :=
  if truthy decoded then
    match parse decoded with
    | None | Some JNull => None
    | Some v => Some (str_field v "pubkey", str_field v "name")
    end
  else None.

Definition to_member (key : option CryptoKey) (m : RawMember) : CircleMember :=
  let member := bare_member m in
  let label :=
    key ← key; ct ← some_text (rm_member_label_ciphertext m);
    decoded ← CircleKeys.decryptString key ct; read_label decoded in
  match label with Some (pubkey, name) => with_label member pubkey name | None => member end.

Definition toCircleAndMembers (detail : RawCircleDetail) : prog World (Circle * list CircleMember) :=
  key ← circle_key detail;
  mret (to_circle detail (display_name key (rd_circle detail)), map (to_member key) (rd_members detail)).

(** ** [load] *)

Context `{Fetch, Page}.

(** A request authorised by the local identity; [makeAuthHeaders] of
    [components/FamilyCircleDashboard.tsx] is the same function. *)
Definition local_request (url method : string) (body : option string) : prog World Request :=
  absoluteUrl ← lift_outcome (absolute_url url);
  auth ← NostrAuth.signLocalNip98AuthEvent absoluteUrl method (NostrAuth.sha256Hex <$> body);
  mret (mkRequest url method [SignedRequest.json_type; SignedRequest.auth_header auth] body).

Definition send (url method : string) (body : option string) : prog World Response :=
  rq ← local_request url method body; fetch rq.

Definition circle_url (id : string) : string := API_BASE +:+ "/api/circles/" +:+ id.

Definition circle_ids (v : json) : list string := omap (λ c, str_field c "id") (default [] (as_arr v)).

(** The ids of the circles the gateway knows; [None] when the hook gives up. *)
Definition list_circles (ids : list string) : prog World (option (list string)) :=
  try_catch
    (res ← send (API_BASE +:+ "/api/circles?ids=" +:+ str_join "," ids) "GET" None;
     if response_ok res then Some ∘ circle_ids <$> json_of res else mret None)
    (λ _, mret None).

(** Replace a plaintext name of the first version by its ciphertext. *)
Definition migrate_name (detail : RawCircleDetail) (circle : Circle) : prog World unit :=
  let c := rd_circle detail in
  match rc_is_owner c, some_text (rc_name c) with
  | Some true, Some name =>
      if bool_decide (rc_name_version c = Some 0%Z) then
        migKey ← CircleKeys.loadCircleKey (rc_id c) (int (default 1%Z (ci_key_epoch circle)));
        match migKey with
        | Some migKey =>
            nameCiphertext ← CircleKeys.encryptString migKey name;
            rq ← local_request (circle_url (rc_id c) +:+ "/encryption") "PUT"
              (Some (stringify (JObj [("name_ciphertext", JStr nameCiphertext); ("member_labels", JArr [])])));
            try_catch (_ ← fetch rq; mret tt) (λ _, mret tt)
        | None => mret tt
        end
      else mret tt
  | _, _ => mret tt
  end.

Definition load_circle (aborted : bool) (id : string) : prog App unit :=
  try_catch
    (res ← service (send (circle_url id) "GET" None);
     if negb (response_ok res) then mret tt
     else
       v ← service (json_of res);
       detail ← lift_outcome (match raw_detail v with Some d => Ok d | None => Throw "TypeError" end);
       '(circle, members) ← service (toCircleAndMembers detail);
       _ ← service (migrate_name detail circle);
       if aborted then mret tt
       else
         _ ← dispatch (Root.CirclesAction (Circles.CircleLoaded circle members));
         dispatch (Root.CirclesAction (Circles.CircleEpochChanged (ci_circle_id circle)
           (Circles.mkEpoch (default 1%Z (ci_key_epoch circle)) (default true (ci_rekey_required circle))))))
    (λ _, mret tt).

(** The effect of the hook; [aborted] tells for which circles it was cleaned up before
    their details were in. *)
Definition load (aborted : string → bool) : prog App unit :=
  mode ← service (gets (λ w, ai_mode (identity w)));
  if negb (bool_decide (mode = Local)) then mret tt
  else
    ids ← service (gets LocalLists.getCircleIds);
    match ids with
    | [] => mret tt
    | _ =>
        circles ← service (list_circles ids);
        for_each (default [] circles) (λ id, load_circle (aborted id) id)
    end.

(** ** The requests are signed *)

(** The request carries an authorisation that verifies and is of this key. *)
Definition signed_as (pk : string) (rq : Request) : Prop :=
  ∃ e, rq_headers rq = [SignedRequest.json_type; SignedRequest.auth_header e] ∧ verifyEvent e = true ∧ pubkey e = pk.

(** A key pair that was derived from its secret key signs everything. *)
Lemma sign_local_total t kp w : NostrIdentity.keypair_of (secretKey kp) = Ok kp →
  is_finite (t_kind t) = true → is_finite (t_created_at t) = true →
  ∃ e, Signer.sign_local t (secretKey kp) w = (Ok e, set_draws (S (draws w)) w) ∧
    verifyEvent e = true ∧ pubkey e = publicKey kp.
Proof.
  unfold NostrIdentity.keypair_of. destruct (getPublicKey (secretKey kp)) as [pk|] eqn:Hpk; [|done].
  intros [= Heq] Hk Hc. destruct (finalize_total (draws w) t _ pk Hpk Hk Hc) as [e He].
  destruct (finalize_spec _ _ _ _ He) as (_ & Hpe & Hv). exists e. split_and!; [|done|].
  - unfold Signer.sign_local, draw, mbind, prog_bind, lift_outcome. by rewrite He.
  - rewrite <-Heq. cbn. congruence.
Qed.

(** A request signed with the key that [getCachedKeypair] gives after the nonce was drawn *)
Lemma local_request_signed url method body absolute kp w w1 : absolute_url url = Ok absolute →
  NostrIdentity.keypair_of (secretKey kp) = Ok kp →
  NostrIdentity.getCachedKeypair (set_draws (S (draws w)) w) = (Ok kp, w1) →
  ∃ rq, local_request url method body w = (Ok rq, set_draws (S (draws w1)) w1) ∧ signed_as (publicKey kp) rq ∧
    rq_url rq = url ∧ rq_method rq = method ∧ rq_body rq = body.
Proof.
  intros Hu Hkp Hk. unfold local_request, NostrAuth.signLocalNip98AuthEvent, randomUUID, draw, now_seconds.
  unfold mbind, prog_bind, lift_outcome, gets. rewrite Hu. cbn [mret prog_ret].
  rewrite Hk.
  match goal with |- context [Signer.sign_local ?t _ ?w1] => destruct (sign_local_total t kp w1 Hkp) as (e & -> & Hv & Hp) end;
    [done..|].
  eexists. split; [reflexivity|]. split_and!; [by exists e|done..].
Qed.

(** ** An invited member reads the circle *)

(** [ct] was made from [text] under a key of these bytes, on any device. *)
Definition encrypted_under (raw : bytes) (ct text : string) : Prop :=
  ∃ k w w', key_raw k = raw ∧ CircleKeys.encryptString k text w = (Ok ct, w').

Lemma decrypt_encrypted raw ct text k :
  encrypted_under raw ct text → key_raw k = raw →
  CircleKeys.decryptString k ct = Some text ∧ truthy ct = true.
Proof.
  intros (k' & w & w' & Hk' & Hrun) Hk. unfold CircleKeys.encryptString in Hrun.
  run_inv Hrun. injection Hrun0 as <- <-. run_inv Hrun. injection Hrun0 as <- <-. injection Hrun as <- _.
  set (iv := random_bytes (draws w) 12). set (data := aes_encrypt _ _ _ _).
  assert (CircleKeys.decodeB64 (CircleKeys.encodeB64 iv data) = Some (iv, data)) as Hdec.
  { apply CircleLocation.decodeB64_encode; [apply random_length|]. unfold data. rewrite aes_length. lia. }
  split.
  - unfold CircleKeys.decryptString. rewrite Hdec. unfold mbind, option_bind, data.
    rewrite Hk', <-Hk, (proj2 (aes_spec _ _ _ _ _) eq_refl). by rewrite utf8_decode_encode.
  - unfold truthy. destruct (String.eqb_spec (CircleKeys.encodeB64 iv data) "") as [He|]; [|done].
    by rewrite He in Hdec.
Qed.

(** The label that the owner's device writes for a member. *)
Definition label_text (pubkey name : string) : string :=
  stringify (JObj [("pubkey", JStr pubkey); ("name", JStr name)]).

Lemma read_label_text pubkey name : read_label (label_text pubkey name) = Some (Some pubkey, Some name).
Proof.
  unfold read_label, label_text. assert (json_ok (JObj [("pubkey", JStr pubkey); ("name", JStr name)]) = true)
    as Hok by reflexivity.
  rewrite LocalLists.print_nonempty, json_roundtrip by done. reflexivity.
Qed.

(** A circle whose envelope for this device is the one its owner made. *)
Definition wrapped_for (detail : RawCircleDetail) (c : string) (e : Z) (ev : Event) : Prop :=
  rc_id (rd_circle detail) = c ∧ epoch_of detail = e ∧
  ∃ kw, rd_my_key_wrap detail = Some kw ∧ kw_version kw = Some 2%Z ∧ kw_event kw = Some (event_to_json ev).

Lemma circle_key_opened detail c e raw owner member wo ev wo' wm v :
  keypair wo = Some owner → keypair wm = Some member →
  getPublicKey (secretKey owner) = Some (publicKey owner) →
  getPublicKey (secretKey member) = Some (publicKey member) →
  Vault.loadVaultCircleKey c (Some (int e)) wo = (Ok (Some raw), wo) → length raw = 32 →
  safe_Z (now_ms wo / 1000) = true →
  CircleKeys.createNip44CircleKeyEvent c (publicKey member) (int e) wo = (Ok ev, wo') →
  NostrIdentity.device_ok wm → faults wm = [] → Vault.read_vault (identity_db wm) = Some v →
  LocalLists.getCircleOwnerKey c wm = Some (publicKey owner) →
  CircleKeys.loadCircleKey c (int e) wm = (Ok None, wm) → wrapped_for detail c e ev →
  ∃ wm' v', circle_key detail wm = (Ok (Some (mkKey raw false)), wm') ∧
    CircleKeys.loadCircleKey c (int e) wm' = (Ok (Some (mkKey raw false)), wm') ∧
    Vault.read_vault (identity_db wm') = Some v' ∧ Vault.upserted v v' c raw (int e).
Proof.
  intros Ho Hm Hpo Hpm Hraw Hlen Hnow Hcreate Hd Hf Hv Howner Hnone (Hc & He & kw & Hkw & Hver & Hev).
  destruct (CircleKeys.key_event_roundtrip c e raw owner member wo ev wo' wm v)
    as (wm' & v' & Hun & Hload & Hv' & Hup); [done..|].
  exists wm', v'. split_and!; try done. unfold circle_key. rewrite Hc, He.
  rewrite (bind_ok _ _ _ _ _ Hnone), Hkw. rewrite (bind_ok _ _ wm (Some (publicKey owner)) wm)
    by (unfold gets; by rewrite Howner).
  rewrite (bind_ok _ _ wm tt wm'); [done|]. unfold open_key_wrap, try_catch.
  rewrite Hver, Hev, bool_decide_eq_true_2 by done. cbn [from_option andb json_truthy event_to_json].
  rewrite (bind_ok _ _ wm ev wm) by (cbn [mbind option_bind]; by rewrite event_of_to_json).
  by rewrite (bind_ok _ _ _ _ _ Hun).
Qed.

(** C17: An invited member reads the circle.  The owner's device wraps the circle's key for
    a member; the member's device, whose storage answers and which trusts that owner, does not hold
    the key yet and receives the envelope from the gateway, shows the circle's name and
    every label as the owner's device encrypted them, and from then on holds the same key,
    sealed, with a copy in its vault beside what was there. *)
Theorem invited_member_reads_circle detail c e raw owner member wo ev wo' wm v nct name :
  keypair wo = Some owner → keypair wm = Some member →
  getPublicKey (secretKey owner) = Some (publicKey owner) →
  getPublicKey (secretKey member) = Some (publicKey member) →
  Vault.loadVaultCircleKey c (Some (int e)) wo = (Ok (Some raw), wo) → length raw = 32 →
  safe_Z (now_ms wo / 1000) = true →
  CircleKeys.createNip44CircleKeyEvent c (publicKey member) (int e) wo = (Ok ev, wo') →
  NostrIdentity.device_ok wm → faults wm = [] → Vault.read_vault (identity_db wm) = Some v →
  LocalLists.getCircleOwnerKey c wm = Some (publicKey owner) →
  CircleKeys.loadCircleKey c (int e) wm = (Ok None, wm) → wrapped_for detail c e ev →
  rc_name_version (rd_circle detail) = Some 1%Z →
  rc_name_ciphertext (rd_circle detail) = Some (Some nct) → encrypted_under raw nct name →
  ∃ circle ms wm' v', toCircleAndMembers detail wm = (Ok (circle, ms), wm') ∧
    ci_name circle = Some (Some name) ∧ length ms = length (rd_members detail) ∧
    (∀ i m ct pk label, rd_members detail !! i = Some m →
       rm_member_label_ciphertext m = Some (Some ct) → encrypted_under raw ct (label_text pk label) →
       ∃ m', ms !! i = Some m' ∧ cm_pubkey m' = Some pk ∧ cm_label m' = Some label) ∧
    CircleKeys.loadCircleKey c (int e) wm' = (Ok (Some (mkKey raw false)), wm') ∧
    Vault.read_vault (identity_db wm') = Some v' ∧ Vault.upserted v v' c raw (int e).
Proof.
  intros Ho Hm Hpo Hpm Hraw Hlen Hnow Hcreate Hd Hf Hv Howner Hnone Hwrap Hnv Hnct Henc.
  destruct (circle_key_opened detail c e raw owner member wo ev wo' wm v)
    as (wm' & v' & Hkey & Hload & Hv' & Hup); [done..|].
  destruct (decrypt_encrypted raw nct name (mkKey raw false) Henc eq_refl) as [Hname Htr].
  eexists _, _, wm', v'. split_and!; [by unfold toCircleAndMembers; rewrite (bind_ok _ _ _ _ _ Hkey)| | | |done..].
  - unfold display_name, some_text. cbn [ci_name to_circle]. rewrite Hnct. cbn.
    rewrite Htr, Hnv, bool_decide_eq_true_2 by done. by rewrite Hname.
  - apply length_map.
  - intros i m ct pk label Hi Hct Hm'.
    destruct (decrypt_encrypted raw ct _ (mkKey raw false) Hm' eq_refl) as [Hdec Htr'].
    eexists. split; [by rewrite list_lookup_fmap, Hi|]. unfold to_member, some_text, mbind, option_bind.
    rewrite Hct. cbn [mjoin option_join]. by rewrite Htr', Hdec, read_label_text.
Qed.

End sync.

(** ** A concrete circle: its name and one label under the owner's key *)

Definition family_key : CryptoKey := mkKey (to_bytes 32 5) true.
Definition encrypted (text : string) : string :=
  match (CircleKeys.encryptString family_key text CircleKeys.owner_world).1 with Ok ct => ct | Throw _ => "" end.
Definition invited_world : World :=
  (LocalLists.saveCircleOwnerKey "c1" (publicKey CircleKeys.owner) CircleKeys.member_world).2.
Definition sample_raw_member : RawMember :=
  mkRawMember "c1" (Some "t1") (Some (Some (encrypted (label_text (publicKey CircleKeys.member) "Ben"))))
    None None (Some PENDING) None (Some 1%Z) "2026-01-01T00:00:00.000Z".
Definition sample_detail : RawCircleDetail :=
  mkDetail (mkRawCircle "c1" None (Some (Some (encrypted "Family"))) (Some 1%Z) (Some 1%Z) None None None
      (Some "t1") "2026-01-01T00:00:00.000Z" (Some false))
    [sample_raw_member] (Some (mkKeyWrap (Some 2%Z) (Some 1%Z) (Some (event_to_json CircleKeys.key_event)) None)).

Lemma encrypted_sample text :
  encrypted_under (to_bytes 32 5) (encrypted text) text.
Proof.
  exists family_key, CircleKeys.owner_world.
  exists (CircleKeys.encryptString family_key text CircleKeys.owner_world).2.
  split; [reflexivity|]. apply surjective_pairing.
Qed.

Lemma invited_member_reads_circle_witness :
  ∃ circle ms wm' m, toCircleAndMembers sample_detail invited_world = (Ok (circle, ms), wm') ∧
    ci_name circle = Some (Some "Family") ∧
    ms !! 0 = Some m ∧ cm_pubkey m = Some (publicKey CircleKeys.member) ∧ cm_label m = Some "Ben".
Proof.
  destruct (invited_member_reads_circle sample_detail "c1" 1 (to_bytes 32 5) CircleKeys.owner CircleKeys.member
    CircleKeys.owner_world CircleKeys.key_event CircleKeys.created.2 invited_world
    (Vault.normalize CircleKeys.member_vault) (encrypted "Family") "Family")
    as (circle & ms & wm' & v' & Hrun & Hname & _ & Hms & _).
  - reflexivity.
  - vm_compute. reflexivity.
  - vm_compute. reflexivity.
  - vm_compute. reflexivity.
  - vm_compute. reflexivity.
  - reflexivity.
  - reflexivity.
  - vm_compute. reflexivity.
  - split; [vm_compute; reflexivity|]. intros v.
    replace (Vault.read_vault (identity_db invited_world))
      with (Some (Vault.normalize CircleKeys.member_vault)) by (vm_compute; reflexivity).
    intros [= <-]. vm_compute. reflexivity.
  - vm_compute. reflexivity.
  - vm_compute. reflexivity.
  - vm_compute. reflexivity.
  - vm_compute. reflexivity.
  - split_and!; [reflexivity|reflexivity|]. eexists. split_and!; reflexivity.
  - reflexivity.
  - reflexivity.
  - apply encrypted_sample.
  - destruct (Hms 0 sample_raw_member (encrypted (label_text (publicKey CircleKeys.member) "Ben"))
      (publicKey CircleKeys.member) "Ben" eq_refl eq_refl (encrypted_sample _)) as (m & Hm & Hpk & Hl).
    exists circle, ms, wm', m. exact (conj Hrun (conj Hname (conj Hm (conj Hpk Hl)))).
Defined.

End CircleSync.
