(* ===== verification/CircleDashboard.v ===== *)
(** * The circle dashboard: the handlers of [components/FamilyCircleDashboard.tsx]

    Creating a circle, inviting, adding and accepting a member, starting a new key epoch,
    and sharing the position.  A handler returns what it sets as its error, if anything;
    the markup is not modelled.  The circle and the members that a handler works on are
    those of the store when it starts. *)

From Stdlib Require Import QArith Lia.
From S2P Require Import Prelude JsNumber JsString JsStringFacts JsCollection Json JsonFacts.
From S2P Require Import SharedTypes Nostr CryptoModel Platform IdentityStore LocalLists NostrIdentity.
From S2P Require Import CircleKeys BunkerStore Signer CircleLocation NostrAuth CirclesSlice SmallSlices.
From S2P Require Import Web Api Invite CircleSync CircleSocket.
Close Scope Q_scope.

Module CircleDashboard.
Import CircleSync.

(** [toCircle], [toMember] *)
Definition toCircle (raw : RawCircle) (displayName : option string) : Circle :=
  mkCircle (rc_id raw) (Some (Some (default "(locked)" displayName))) (rc_name_ciphertext raw)
    (rc_name_version raw) (Some (default 1%Z (rc_key_epoch raw))) None None None None
    (rc_created_at raw) (Some (default false (rc_is_owner raw))).

Definition toMember (raw : RawMember) : CircleMember :=
  mkCircleMember (rm_circle_id raw) (Some (rm_member_token raw)) (default (int 5) (rm_alert_radius_km raw))
    (default "MEDIUM" (rm_alert_severity raw)) (rm_joined_at raw) None
    (Some (default ACTIVE (rm_membership_state raw))) (Some (rm_accepted_at raw))
    (Some (rm_key_wrap_epoch raw)) None None.

(** What the component selects from the store. *)
Definition active_id (s : Circles.CirclesState) : option string :=
  id ← Circles.activeCircleId s; if truthy id then Some id else None.

Definition active_circle (s : Circles.CirclesState) : option Circle :=
  id ← Circles.activeCircleId s; CircleSocket.find_circle id s.

Definition active_members (s : Circles.CirclesState) : list CircleMember :=
  match active_id s with Some id => default [] (Circles.members s !! id) | None => [] end.

Definition current_epoch (c : option Circle) : Z := default 1%Z (c ≫= ci_key_epoch).

Section handlers.
Context `{Aes, Sha256, Random, NostrTools, Nip19, Fetch, Page}.

Definition circles_state : prog App Circles.CirclesState := select Root.circles.
Definition dispatch_circles (a : Circles.action) : prog App unit := dispatch (Root.CirclesAction a).

(** A response of the declared shape. *)
Definition decoded {A} (parse : json → option A) (res : Response) : prog World A :=
  v ← json_of res; lift_outcome (match parse v with Some a => Ok a | None => Throw "TypeError" end).

Definition status_text (res : Response) : string := string_of_Z (status res).

(** ** Creating a circle *)

(** The members that the gateway lists for a new circle, none when it does not answer. *)
Definition created_members (id : string) : prog World (list CircleMember) :=
  try_catch
    (res ← send (circle_url id) "GET" None;
     if response_ok res then
       detail ← decoded (λ v, ms ← field v "members" ≫= as_arr; mapM raw_member ms) res;
       mret (map toMember detail)
     else mret [])
    (λ _, mret []).

Definition network_error : string := "Network error — check your connection".

Definition handleCreate (effectiveCircleName : string) : prog App (option string) :=
  if negb (truthy effectiveCircleName) then mret None
  else
    try_catch
      (circleKey ← service CircleKeys.generateCircleKey;
       nameCiphertext ← service (CircleKeys.encryptString circleKey effectiveCircleName);
       res ← service (send (API_BASE +:+ "/api/circles") "POST"
               (Some (stringify (JObj [("name_ciphertext", JStr nameCiphertext)]))));
       if negb (response_ok res) then mret (Some ("Server error (" +:+ status_text res +:+ ")"))
       else
         raw ← service (decoded raw_circle res);
         rawCircleKey ← service (exportKey circleKey);
         _ ← service (CircleKeys.saveCircleKeyWithBackup (rc_id raw) rawCircleKey (int 1));
         _ ← service (LocalLists.addCircleId (rc_id raw));
         members ← service (created_members (rc_id raw));
         _ ← dispatch_circles (Circles.CircleLoaded (toCircle raw (Some effectiveCircleName)) members);
         mret None)
      (λ _, mret (Some network_error)).

(** ** Members *)

(** The invite that the dialog shows. *)
Definition handleInvite : prog App (option string) :=
  st ← circles_state;
  match active_id st, active_circle st with
  | Some id, Some circle =>
      keypair ← service NostrIdentity.getCachedKeypair;
      mret (Some (Invite.buildInviteString id (publicKey keypair) (default "(circle)" (mjoin (ci_name circle)))))
  | _, _ => mret None
  end.

Definition handleLeave (confirmed : bool) : prog App unit :=
  if confirmed then dispatch_circles Circles.CircleLeft else mret tt.

(** [JSON.stringify({ pubkey, name })] *)
Definition member_label (pubkey : string) (name : option string) : string :=
  label_text pubkey (default (str_slice 0 8 pubkey) name).

Definition member_body (hex labelCiphertext : string) (epoch : Z) (keyWrapEvent : Event) : string :=
  stringify (JObj [("member_pubkey", JStr hex); ("member_label_ciphertext", JStr labelCiphertext);
    ("key_wrap_epoch", JNum (int epoch)); ("key_wrap_event", event_to_json keyWrapEvent)]).

(** [error.message || 'Network error'] *)
Definition message_of (m : string) : string := if truthy m then m else "Network error".

Definition add_member (id hex : string) (epoch : Z) (labelCiphertext : string) (circle : option Circle)
    (members : list CircleMember) : prog App (option string) :=
  try_catch
    (keyWrapEvent ← service (CircleKeys.createNip44CircleKeyEvent id hex (int epoch));
     res ← service (send (circle_url id +:+ "/members") "POST"
             (Some (member_body hex labelCiphertext epoch keyWrapEvent)));
     if (status res =? 403)%Z then mret (Some "Only the circle owner can add members")
     else if negb (response_ok res) then mret (Some ("Server error (" +:+ status_text res +:+ ")"))
     else
       raw ← service (decoded raw_member res);
       circle ← lift_outcome (match circle with Some c => Ok c | None => Throw "TypeError" end);
       _ ← dispatch_circles (Circles.CircleLoaded circle (members ++ [toMember raw]));
       mret None)
    (λ m, mret (Some (message_of m))).

Definition handleAddMember (npubOrHex : string) : prog App (option string) :=
  st ← circles_state;
  match NostrIdentity.hexFromNpubOrHex npubOrHex, active_id st with
  | Some hex, Some id =>
      if negb (truthy hex) then mret (Some "Invalid key format")
      else
        let epoch := current_epoch (active_circle st) in
        key ← service (CircleKeys.loadCircleKey id (int epoch));
        match key with
        | None => mret (Some "Circle key not found — cannot encrypt member label")
        | Some key =>
            vaultKey ← service (Vault.loadVaultCircleKey id (Some (int epoch)));
            match vaultKey with
            | None => mret (Some "This legacy circle key cannot be distributed safely. Restore a backup containing the circle key or create a new circle.")
            | Some _ =>
                labelCiphertext ← service (CircleKeys.encryptString key (member_label hex None));
                add_member id hex epoch labelCiphertext (active_circle st) (active_members st)
            end
        end
  | _, _ => mret (Some "Invalid key format")
  end.

(** The error that is shown, if one is. *)
Definition handleAcceptInvite : prog App (option string) :=
  st ← circles_state;
  kp ← service NostrIdentity.getCachedKeypair;
  match active_id st with
  | None => mret None
  | Some id =>
      res ← service (send (circle_url id +:+ "/accept") "POST" None);
      if negb (response_ok res) then mret (Some ("Acceptance failed (" +:+ status_text res +:+ ")"))
      else _ ← dispatch_circles (Circles.MemberAccepted id (publicKey kp)); mret None
  end.

(** ** A new key epoch *)

Record RekeyPart : Type := mkPart { pt_token : string; pt_label_ciphertext : string; pt_key_wrap_event : Event }.

Definition pending (m : CircleMember) : bool := bool_decide (cm_membership_state m = Some PENDING).

(** [!m.member_token || !m.pubkey] *)
Definition known_member (m : CircleMember) : option (string * string) :=
  token ← some_text (cm_member_token m); pubkey ← some_text (Some (cm_pubkey m)); Some (token, pubkey).

(** The loop over the members; [None] when it returns early. *)
Fixpoint rekey_parts (id : string) (nextEpoch : Z) (freshKey : CryptoKey) (members : list CircleMember)
    (parts : list RekeyPart) : prog World (option (list RekeyPart)) :=
  match members with
  | [] => mret (Some parts)
  | m :: members =>
      if pending m then rekey_parts id nextEpoch freshKey members parts
      else
        match known_member m with
        | None => mret None
        | Some (token, pubkey) =>
            labelCiphertext ← CircleKeys.encryptString freshKey (member_label pubkey (cm_label m));
            wrapEvent ← CircleKeys.createNip44CircleKeyEvent id pubkey (int nextEpoch);
            rekey_parts id nextEpoch freshKey members (parts ++ [mkPart token labelCiphertext wrapEvent])
        end
  end.

Definition epoch_body (revision nextEpoch : Z) (nameCiphertext : string) (parts : list RekeyPart) : string :=
  stringify (JObj [("expected_revision", JNum (int revision)); ("next_epoch", JNum (int nextEpoch));
    ("name_ciphertext", JStr nameCiphertext);
    ("member_labels", JArr (map (λ p, JObj [("member_token", JStr (pt_token p));
        ("label_ciphertext", JStr (pt_label_ciphertext p))]) parts));
    ("member_wraps", JArr (map (λ p, JObj [("member_token", JStr (pt_token p));
        ("key_wrap_event", event_to_json (pt_key_wrap_event p))]) parts))]).

(** Everything before the gateway is asked: a fresh key, stored at the next epoch, the
    name and the labels under it, and its envelopes. *)
Definition rekey (id : string) (circle : Circle) (members : list CircleMember)
    : prog World (option (string * list RekeyPart)) :=
  let nextEpoch := (current_epoch (Some circle) + 1)%Z in
  freshKey ← CircleKeys.rotateCircleKey id (int nextEpoch);
  nameCiphertext ← CircleKeys.encryptString freshKey (default "(circle)" (mjoin (ci_name circle)));
  parts ← rekey_parts id nextEpoch freshKey members [];
  mret (pair nameCiphertext <$> parts).

(** [None] when the handler does nothing, [Some e] when it sets the error to [e]. *)
Definition handleActivateLocation : prog App (option (option string)) :=
  st ← circles_state;
  match active_id st, active_circle st with
  | Some id, Some circle =>
      if negb (default false (ci_is_owner circle)) then mret None
      else
        let nextEpoch := (current_epoch (Some circle) + 1)%Z in
        parts ← service (rekey id circle (active_members st));
        match parts with
        | None => mret (Some (Some "Every active member must have a known public key to activate location."))
        | Some (nameCiphertext, parts) =>
            res ← service (send (circle_url id +:+ "/epoch") "POST"
                    (Some (epoch_body (default 0%Z (ci_membership_revision circle)) nextEpoch nameCiphertext parts)));
            if negb (response_ok res)
            then mret (Some (Some ("Location activation failed (" +:+ status_text res +:+ ")")))
            else
              _ ← dispatch_circles (Circles.CircleEpochChanged id (Circles.mkEpoch nextEpoch false));
              mret (Some None)
        end
  | _, _ => mret None
  end.

(** ** Facts about a new epoch *)

(** The device of the owner [owner], whose vault holds [raw] for the circle and epoch. *)
Definition holds (id : string) (e : num) (raw : bytes) (owner : NostrKeypair) (w : World) : Prop :=
  keypair w = Some owner ∧ faults w = [] ∧
  ∃ v, Vault.read_vault (identity_db w) = Some v ∧
    Vault.find_circle_key (Vault.circles v) id (Some e) = Some raw.

Lemma holds_draws id e raw owner w n : holds id e raw owner w → holds id e raw owner (set_draws n w).
Proof. done. Qed.

Lemma holds_load id e raw owner w :
  holds id e raw owner w → Vault.loadVaultCircleKey id (Some e) w = (Ok (Some raw), w).
Proof.
  intros (_ & Hf & v & Hv & Hfind). unfold Vault.loadVaultCircleKey.
  rewrite (bind_ok _ _ _ _ _ (Vault.loadVault_ok w Hf)), Hv. by rewrite Hfind.
Qed.

(** Making an envelope only draws. *)
Lemma create_event_draws id pk e raw owner w o w' :
  holds id e raw owner w → CircleKeys.createNip44CircleKeyEvent id pk e w = (o, w') →
  ∃ n, w' = set_draws n w.
Proof.
  intros Hh. pose proof (holds_load _ _ _ _ _ Hh) as Hload. destruct Hh as [Hk _].
  assert (w = set_draws (draws w) w) as Hw by by destruct w.
  unfold CircleKeys.createNip44CircleKeyEvent, check.
  destruct (is_hex64 pk); [|intros [= _ <-]; by exists (draws w)].
  destruct (is_safe_integer e && _); [|intros [= _ <-]; by exists (draws w)].
  rewrite !(bind_ok _ _ w tt w) by done. rewrite (bind_ok _ _ _ _ _ Hload).
  rewrite (bind_ok _ _ w raw w) by done.
  rewrite (bind_ok _ _ _ _ _ (CircleKeys.getCachedKeypair_cached owner w Hk)).
  rewrite (bind_ok _ _ w (now_ms w / 1000)%Z w) by done.
  unfold CircleKeys.from_option_or, mbind, prog_bind, lift_outcome, draw.
  destruct (getConversationKey _ _); [|intros [= _ <-]; by exists (draws w)].
  destruct (nip44_encrypt _ _ _); [|intros [= _ <-]; by eexists].
  intros [= _ <-]. by eexists.
Qed.

(** The package of a key fits an envelope: the circle's id is not tens of thousands of
    characters long. *)
Definition package_fits (id : string) (e : Z) (raw : bytes) (now : Z) : Prop :=
  (1 <= Z.of_nat (length (utf8_encode (stringify
     (CircleKeys.package_to_json id (int e) (CircleKeys.rawB64 raw) now)))) <= 65535)%Z.

(** An envelope can be made for whoever has a key pair. *)
Lemma create_event_ok id e raw owner member w :
  holds id (int e) raw owner w → getPublicKey (secretKey owner) = Some (publicKey owner) →
  getPublicKey (secretKey member) = Some (publicKey member) →
  (1 <= e)%Z → safe_Z e = true → package_fits id e raw (now_ms w / 1000) →
  ∃ ev n, CircleKeys.createNip44CircleKeyEvent id (publicKey member) (int e) w = (Ok ev, set_draws n w).
Proof.
  intros Hh Ho Hm Hge Hsafe Hfits. pose proof (holds_load _ _ _ _ _ Hh) as Hload. destruct Hh as [Hk _].
  destruct (conversation_key_total _ _ _ _ Ho Hm) as [ck Hck].
  unfold CircleKeys.createNip44CircleKeyEvent.
  rewrite (bind_ok _ _ w tt w) by (by rewrite (lower_hex64_hex64 _ (public_key_form _ _ Hm))).
  rewrite (bind_ok _ _ w tt w).
  2: { rewrite int_safe, Hsafe, int_lt. by rewrite (proj2 (Z.ltb_ge _ _) Hge). }
  rewrite (bind_ok _ _ _ _ _ Hload). rewrite (bind_ok _ _ w raw w) by done.
  rewrite (bind_ok _ _ _ _ _ (CircleKeys.getCachedKeypair_cached owner w Hk)).
  rewrite (bind_ok _ _ w (now_ms w / 1000)%Z w) by done.
  unfold CircleKeys.from_option_or, mbind, prog_bind, lift_outcome, draw. rewrite Hck.
  destruct (nip44_total (draws w) _ ck Hfits) as [ct ->].
  match goal with |- context [finalizeEvent ?j ?t _] =>
    destruct (finalize_total j t _ _ Ho) as [ev ->]; [done..|] end.
  by eexists _, _.
Qed.

(** A fresh key is stored sealed, and in the vault if the device has one. *)
Lemma rotate_run c e w :
  NostrIdentity.device_ok w → faults w = [] → num_ok e = true →
  let raw := random_bytes (draws w) 32 in
  ∃ w', CircleKeys.rotateCircleKey c e w = (Ok (mkKey raw true), w') ∧ faults w' = [] ∧
    keypair w' = keypair w ∧ circle_db w' = <[CircleKeys.keyId c e := mkKey raw false]> (circle_db w) ∧
    match Vault.read_vault (identity_db w) with
    | Some v => ∃ v', Vault.read_vault (identity_db w') = Some v' ∧ Vault.upserted v v' c raw e
    | None => Vault.read_vault (identity_db w') = None
    end.
Proof.
  intros Hd Hf He raw.
  destruct (CircleKeys.saveWithBackup_ok c raw e (set_draws (S (draws w)) w))
    as (w' & Hrun & Hf' & _ & Hk & Hdb & _ & Hv); [done|done|done| |].
  { unfold aes_key_length, raw. by rewrite random_length. }
  exists w'. split_and!; try done. unfold CircleKeys.rotateCircleKey.
  rewrite (bind_ok _ _ w (mkKey raw true) (set_draws (S (draws w)) w)) by done.
  rewrite (bind_ok _ _ _ raw (set_draws (S (draws w)) w)) by done.
  by rewrite (bind_ok _ _ _ tt w').
Qed.

(** What the loop makes for a member, on a device that holds [raw]. *)
Definition part_for (id : string) (e : Z) (raw : bytes) (owner : NostrKeypair) (w : World)
    (m : CircleMember) (p : RekeyPart) : Prop :=
  cm_member_token m = Some (Some (pt_token p)) ∧
  ∃ pk n w', cm_pubkey m = Some pk ∧
    encrypted_under raw (pt_label_ciphertext p) (member_label pk (cm_label m)) ∧
    CircleKeys.createNip44CircleKeyEvent id pk (int e) (set_draws n w) = (Ok (pt_key_wrap_event p), w').

Lemma known_member_inv m token pk :
  known_member m = Some (token, pk) → cm_member_token m = Some (Some token) ∧ cm_pubkey m = Some pk.
Proof.
  unfold known_member, some_text. destruct (cm_member_token m) as [[t|]|]; cbn; [|done..].
  destruct (truthy t); [|done]. cbn. destruct (cm_pubkey m) as [q|]; [|done]. cbn.
  destruct (truthy q); [|done]. by intros [= <- <-].
Qed.

Definition active (m : CircleMember) : bool := negb (pending m).

Lemma rekey_parts_run id e raw owner fresh ms w : ∀ parts n o w',
  holds id (int e) raw owner w → key_raw fresh = raw →
  rekey_parts id e fresh ms parts (set_draws n w) = (o, w') →
  (∃ n', w' = set_draws n' w) ∧
  ∀ ps, o = Ok (Some ps) → ∃ new, ps = parts ++ new ∧
    Forall2 (part_for id e raw owner w) (List.filter active ms) new.
Proof.
  induction ms as [|m ms IH]; intros parts n o w' Hh Hraw; cbn [rekey_parts List.filter].
  { intros [= <- <-]. split; [by exists n|]. intros ps [= <-]. exists []. by rewrite app_nil_r. }
  unfold active at 1. destruct (pending m); [by apply IH|]. cbn [negb].
  destruct (known_member m) as [[token pk]|] eqn:Hm; [|intros [= <- <-]; by split; [exists n|]].
  apply known_member_inv in Hm as [Htok Hpk].
  destruct (CircleKeys.encryptString fresh (member_label pk (cm_label m)) (set_draws n w)) as [oc w1] eqn:Henc.
  assert (∃ ct, oc = Ok ct ∧ w1 = set_draws (S n) w) as (ct & -> & ->).
  { unfold CircleKeys.encryptString, getRandomValues, draw, subtle_encrypt in Henc. cbn in Henc.
    injection Henc as <- <-. by eexists. }
  rewrite (bind_ok _ _ _ _ _ Henc).
  destruct (CircleKeys.createNip44CircleKeyEvent id pk (int e) (set_draws (S n) w)) as [ov w2] eqn:Hev.
  destruct (create_event_draws id pk (int e) raw owner (set_draws (S n) w) ov w2 Hh Hev) as [n2 ->].
  change (set_draws n2 (set_draws (S n) w)) with (set_draws n2 w) in *.
  destruct ov as [ev|msg]; [rewrite (bind_ok _ _ _ _ _ Hev)|rewrite (bind_err _ _ _ _ _ Hev)];
    [|intros [= <- <-]; by split; [exists n2|]].
  intros Hrun. destruct (IH _ _ _ _ Hh Hraw Hrun) as [Hw Hps]. split; [done|]. intros ps Ho.
  destruct (Hps ps Ho) as (new & -> & Hnew). exists (mkPart token ct ev :: new).
  split; [by rewrite <-app_assoc|]. constructor; [|done]. split; [done|].
  exists pk, (S n), (set_draws n2 w). split_and!; [done|by exists fresh, (set_draws n w), (set_draws (S n) w)|done].
Qed.

(** The gateway knows the member under a token, and the member has a key pair. *)
Definition reachable_member (m : CircleMember) : Prop :=
  ∃ token member, cm_member_token m = Some (Some token) ∧ truthy token = true ∧
    cm_pubkey m = Some (publicKey member) ∧ getPublicKey (secretKey member) = Some (publicKey member).

Lemma known_reachable m token member :
  cm_member_token m = Some (Some token) → truthy token = true → cm_pubkey m = Some (publicKey member) →
  getPublicKey (secretKey member) = Some (publicKey member) → known_member m = Some (token, publicKey member).
Proof.
  intros Ht Htt Hp Hk. unfold known_member, some_text. rewrite Ht, Hp. cbn. rewrite Htt. cbn.
  pose proof (lower_hex64_length _ (public_key_form _ _ Hk)) as Hl. by destruct (publicKey member).
Qed.

Lemma rekey_parts_ok id e raw owner fresh ms w : ∀ parts n,
  holds id (int e) raw owner w → getPublicKey (secretKey owner) = Some (publicKey owner) →
  (1 <= e)%Z → safe_Z e = true → package_fits id e raw (now_ms w / 1000) →
  Forall reachable_member (List.filter active ms) →
  ∃ ps n', rekey_parts id e fresh ms parts (set_draws n w) = (Ok (Some ps), set_draws n' w).
Proof.
  induction ms as [|m ms IH]; intros parts n Hh Ho Hge Hs Hfits Hms; cbn [rekey_parts]; [by eexists _, n|].
  cbn [List.filter] in Hms. unfold active at 1 in Hms. destruct (pending m); [by apply IH|].
  cbn [negb] in Hms. apply Forall_cons in Hms as [(token & member & Ht & Htt & Hp & Hk) Hms].
  rewrite (known_reachable m token member) by done.
  erewrite bind_ok by reflexivity.
  match goal with |- context [CircleKeys.createNip44CircleKeyEvent _ _ _ ≫= _] =>
    destruct (create_event_ok id e raw owner member (set_draws (S n) w)) as (ev & n2 & Hev) end; [done..|].
  rewrite (bind_ok _ _ _ _ _ Hev). by apply IH.
Qed.

(** What does not depend on the vault, the schedule, the draws and the cached keys. *)
Definition apart (I : World → Prop) : Prop :=
  Vault.beside_vault I ∧ ∀ w k, I w → I (set_keypair k w).

Lemma apart_circle_db db : apart (λ w, circle_db w = db).
Proof. split; [intros w f fs n Hw; by split_and!|by intros w k]. Qed.

Lemma apart_now t : apart (λ w, now_ms w = t).
Proof. split; [intros w f fs n Hw; by split_and!|by intros w k]. Qed.

Lemma apart_create I id pk e : apart I → preserves I (CircleKeys.createNip44CircleKeyEvent id pk e).
Proof.
  intros [Hb Hk]. pose proof (Vault.beside_draw I Hb). pose proof (Vault.beside_loadVaultCircleKey I Hb).
  pose proof (Vault.beside_new_secret_key I Hb).
  assert (preserves I NostrIdentity.getCachedKeypair).
  { unfold NostrIdentity.getCachedKeypair, NostrIdentity.cache_keypair. preserves_tac.
    apply preserves_modify. intros w. apply Hk. }
  unfold CircleKeys.createNip44CircleKeyEvent, CircleKeys.from_option_or, now_seconds. preserves_tac.
Qed.

Lemma apart_encrypt I k text : apart I → preserves I (CircleKeys.encryptString k text).
Proof.
  intros [Hb _]. pose proof (Vault.beside_draw I Hb).
  unfold CircleKeys.encryptString, getRandomValues, subtle_encrypt. preserves_tac.
Qed.

Lemma apart_parts I id e k ms parts : apart I → preserves I (rekey_parts id e k ms parts).
Proof.
  intros HI. revert parts. induction ms as [|m ms IH]; intros parts; cbn [rekey_parts]; [apply preserves_ret|].
  pose proof (apart_encrypt I k) as He. pose proof (apart_create I id) as Hc.
  destruct (pending m); [apply IH|]. destruct (known_member m) as [[token pk]|]; [|apply preserves_ret].
  preserves_tac; auto.
Qed.

Lemma rotate_now t c e : preserves (λ w, now_ms w = t) (CircleKeys.rotateCircleKey c e).
Proof.
  destruct (apart_now t) as [Hb _]. pose proof (Vault.beside_draw _ Hb). pose proof (Vault.beside_upsert _ Hb).
  unfold CircleKeys.rotateCircleKey, CircleKeys.generateCircleKey, generateKey, getRandomValues, exportKey,
    CircleKeys.saveCircleKeyWithBackup, importKey, CircleKeys.idbPut, local_removeItem.
  preserves_tac; try (by apply preserves_modify). apply preserves_request; [done|by apply preserves_modify].
Qed.

(** Starting an epoch up to asking the gateway. *)
Lemma rekey_run id circle ms w o w' :
  let e := (current_epoch (Some circle) + 1)%Z in
  let raw := random_bytes (draws w) 32 in
  NostrIdentity.device_ok w → faults w = [] → safe_Z e = true →
  rekey id circle ms w = (o, w') →
  circle_db w' !! CircleKeys.keyId id (int e) = Some (mkKey raw false) ∧
  ∀ owner v, keypair w = Some owner → Vault.read_vault (identity_db w) = Some v →
    ∀ nct parts, o = Ok (Some (nct, parts)) →
      encrypted_under raw nct (default "(circle)" (mjoin (ci_name circle))) ∧
      ∃ w1, holds id (int e) raw owner w1 ∧ now_ms w1 = now_ms w ∧
        Forall2 (part_for id e raw owner w1) (List.filter active ms) parts.
Proof.
  intros e raw Hd Hf He Hrun.
  destruct (rotate_run id (int e) w Hd Hf ltac:(by apply num_ok_int)) as (w1 & Hrot & Hf1 & Hk1 & Hdb1 & Hv1).
  fold raw in Hrot, Hdb1, Hv1. unfold rekey in Hrun. cbv zeta in Hrun. fold e in Hrun.
  rewrite (bind_ok _ _ _ _ _ Hrot) in Hrun.
  set (name := default "(circle)" (mjoin (ci_name circle))) in *.
  destruct (CircleKeys.encryptString (mkKey raw true) name w1) as [oc w2] eqn:Henc.
  assert (∃ ct, oc = Ok ct ∧ w2 = set_draws (S (draws w1)) w1) as (ct & -> & Hw2).
  { unfold CircleKeys.encryptString, getRandomValues, draw, subtle_encrypt in Henc. cbn in Henc.
    injection Henc as <- <-. by eexists. }
  rewrite (bind_ok _ _ _ _ _ Henc) in Hrun.
  destruct (rekey_parts id e (mkKey raw true) ms [] w2) as [op w3] eqn:Hparts.
  assert (w' = w3) as ->.
  { destruct op; [rewrite (bind_ok _ _ _ _ _ Hparts) in Hrun|rewrite (bind_err _ _ _ _ _ Hparts) in Hrun];
      by injection Hrun. }
  split.
  - pose proof (preserves_run _ _ _ _ _ (apart_parts _ id e (mkKey raw true) ms [] (apart_circle_db (circle_db w2)))
      Hparts eq_refl) as ->. rewrite Hw2. cbn. by rewrite Hdb1, lookup_insert_eq.
  - intros owner v Hown Hv nct parts ->. rewrite Hv in Hv1. destruct Hv1 as (v' & Hv' & _ & Hfind & _).
    assert (holds id (int e) raw owner w1) as Hh by (split_and!; [congruence|done|by eauto]).
    destruct op as [r|m]; [rewrite (bind_ok _ _ _ _ _ Hparts) in Hrun|by rewrite (bind_err _ _ _ _ _ Hparts) in Hrun].
    destruct r as [ps|]; [|by injection Hrun]. injection Hrun as <- <-.
    split; [by exists (mkKey raw true), w1, w2|]. exists w1. split_and!; [done| |].
    + exact (preserves_run _ _ _ _ _ (rotate_now (now_ms w) id (int e)) Hrot eq_refl).
    + rewrite Hw2 in Hparts.
      by destruct (rekey_parts_run id e raw owner (mkKey raw true) ms w1 [] _ _ _ Hh eq_refl Hparts)
        as [_ Hps]; destruct (Hps ps eq_refl) as (new & -> & Hnew).
Qed.

(** The envelope and the label of a member, under the key [raw] of an epoch. *)
Definition reaches (id : string) (e : Z) (raw : bytes) (owner : NostrKeypair)
    (m : CircleMember) (p : RekeyPart) : Prop :=
  cm_member_token m = Some (Some (pt_token p)) ∧
  ∃ pk, cm_pubkey m = Some pk ∧
    encrypted_under raw (pt_label_ciphertext p) (member_label pk (cm_label m)) ∧
    ∀ member wm vm, publicKey member = pk → keypair wm = Some member →
      getPublicKey (secretKey member) = Some (publicKey member) →
      NostrIdentity.device_ok wm → faults wm = [] → Vault.read_vault (identity_db wm) = Some vm →
      ∃ wm', CircleKeys.unwrapNip44CircleKey id (publicKey owner) (pt_key_wrap_event p) wm = (Ok (int e), wm') ∧
        CircleKeys.loadCircleKey id (int e) wm' = (Ok (Some (mkKey raw false)), wm').

(** When every active member can be reached, there is an envelope and a label for each. *)
Lemma rekey_ok id circle ms w owner v :
  let e := (current_epoch (Some circle) + 1)%Z in
  let raw := random_bytes (draws w) 32 in
  NostrIdentity.device_ok w → faults w = [] → (1 <= e)%Z → safe_Z e = true →
  keypair w = Some owner → getPublicKey (secretKey owner) = Some (publicKey owner) →
  Vault.read_vault (identity_db w) = Some v → package_fits id e raw (now_ms w / 1000) →
  Forall reachable_member (List.filter active ms) →
  ∃ nct parts w', rekey id circle ms w = (Ok (Some (nct, parts)), w') ∧ keypair w' = Some owner.
Proof.
  intros e raw Hd Hf Hge He Ho Hpo Hv Hfits Hms.
  destruct (rotate_run id (int e) w Hd Hf ltac:(by apply num_ok_int)) as (w1 & Hrot & Hf1 & Hk1 & _ & Hv1).
  fold raw in Hrot, Hv1. rewrite Hv in Hv1. destruct Hv1 as (v' & Hv' & _ & Hfind & _).
  assert (holds id (int e) raw owner w1) as Hh by (split_and!; [congruence|done|by eauto]).
  assert (now_ms w1 = now_ms w) as Hnow
    by exact (preserves_run _ _ _ _ _ (rotate_now (now_ms w) id (int e)) Hrot eq_refl).
  destruct (rekey_parts_ok id e raw owner (mkKey raw true) ms w1 [] (S (draws w1)))
    as (ps & n & Hps); [done..|by rewrite Hnow|done|].
  eexists _, ps, (set_draws n w1). split; [|cbn; congruence].
  unfold rekey. cbv zeta. fold e. rewrite (bind_ok _ _ _ _ _ Hrot). erewrite bind_ok by reflexivity.
  by rewrite (bind_ok _ _ _ _ _ Hps).
Qed.

Lemma rekey_reaches id circle ms w nct parts w' owner v :
  let e := (current_epoch (Some circle) + 1)%Z in
  let raw := random_bytes (draws w) 32 in
  NostrIdentity.device_ok w → faults w = [] → safe_Z e = true → safe_Z (now_ms w / 1000) = true →
  keypair w = Some owner → getPublicKey (secretKey owner) = Some (publicKey owner) →
  Vault.read_vault (identity_db w) = Some v →
  rekey id circle ms w = (Ok (Some (nct, parts)), w') →
  encrypted_under raw nct (default "(circle)" (mjoin (ci_name circle))) ∧
  Forall2 (reaches id e raw owner) (List.filter active ms) parts ∧
  Forall (λ p, event_num_ok (pt_key_wrap_event p) = true) parts.
Proof.
  intros e raw Hd Hf He Hnow Ho Hpo Hv Hrun.
  destruct (rekey_run id circle ms w _ _ Hd Hf He Hrun) as [_ Hparts].
  destruct (Hparts owner v Ho Hv nct parts eq_refl) as (Hname & w1 & Hh & Ht & Hall).
  split_and!; [exact Hname| |].
  - eapply Forall2_impl; [exact Hall|].
    intros m p (Htok & pk & n & w2 & Hpk & Hlabel & Hev). split; [done|]. exists pk. split_and!; [done..|].
    intros member wm vm <- Hm Hpm Hdm Hfm Hvm.
    destruct (CircleKeys.key_event_roundtrip id e raw owner member (set_draws n w1) (pt_key_wrap_event p) w2 wm vm)
      as (wm' & v' & Hun & Hload & _); try done.
    + by destruct Hh.
    + exact (holds_load _ _ _ owner (set_draws n w1) Hh).
    + apply random_length.
    + cbn. by rewrite Ht.
    + by exists wm'.
  - eapply Forall2_Forall_r; [exact Hall|]. apply Forall_true.
    intros m p (_ & pk & n & w2 & _ & _ & Hev).
    destruct (CircleKeys.createKeyEvent_inv _ _ _ raw owner (set_draws n w1) _ _
      ltac:(by destruct Hh) (holds_load _ _ _ owner (set_draws n w1) Hh) Hev) as (_ & _ & ck & i & ct & _ & _ & Htm & _).
    destruct (pt_key_wrap_event p). unfold template_of in Htm. cbn in Htm. injection Htm as -> -> _ _.
    unfold event_num_ok. cbn. rewrite Ht. apply andb_true_iff. split; [reflexivity|by apply num_ok_int].
Qed.

(** The body of the request, as the gateway parses it *)
Lemma epoch_body_parsed revision e nct parts :
  safe_Z revision = true → safe_Z e = true → Forall (λ p, event_num_ok (pt_key_wrap_event p) = true) parts →
  parse (epoch_body revision e nct parts) = Some (JObj [("expected_revision", JNum (int revision));
    ("next_epoch", JNum (int e)); ("name_ciphertext", JStr nct);
    ("member_labels", JArr (map (λ p, JObj [("member_token", JStr (pt_token p));
        ("label_ciphertext", JStr (pt_label_ciphertext p))]) parts));
    ("member_wraps", JArr (map (λ p, JObj [("member_token", JStr (pt_token p));
        ("key_wrap_event", event_to_json (pt_key_wrap_event p))]) parts))]).
Proof.
  intros Hr He Hp. unfold epoch_body. apply json_roundtrip. cbn [json_ok].
  apply andb_true_iff. split; [reflexivity|]. cbn [forallb snd]. rewrite !andb_true_iff. split_and!.
  - by apply num_ok_int.
  - by apply num_ok_int.
  - done.
  - clear Hp. cbn [json_ok]. induction parts; [done|]. cbn [map forallb]. by rewrite IHparts.
  - cbn [json_ok]. rewrite forallb_forall. intros j (p & <- & Hin)%in_map_iff. cbn [json_ok].
    apply andb_true_iff. split; [reflexivity|]. cbn [forallb snd].
    rewrite Forall_forall in Hp. rewrite event_json_ok by (apply Hp; by apply list_elem_of_In). reflexivity.
  - done.
Qed.

(** C18: A new epoch reaches exactly the active members.  When the owner, whose storage
    answers, starts an epoch of the active circle, and every active member has a token and
    the public key of a key pair, the handler makes one signed request to the circle's
    [epoch].  Its body says the revision and the next epoch; it carries the circle's name
    under the fresh key and, for each active member in order and for nobody else, the
    label under that key and an envelope that the member's device opens to this very key.
    Then the circle is at the next epoch if the gateway accepts, and as before if not. *)
Theorem new_epoch_reaches_active_members a id circle owner v absolute :
  let e := (current_epoch (Some circle) + 1)%Z in
  let raw := random_bytes (draws (device a)) 32 in
  let revision := default 0%Z (ci_membership_revision circle) in
  let members := List.filter active (active_members (Root.circles (store a))) in
  active_id (Root.circles (store a)) = Some id → active_circle (Root.circles (store a)) = Some circle →
  ci_is_owner circle = Some true → (1 <= e)%Z → safe_Z e = true → safe_Z revision = true →
  safe_Z (now_ms (device a) / 1000) = true → package_fits id e raw (now_ms (device a) / 1000) →
  NostrIdentity.device_ok (device a) → faults (device a) = [] →
  keypair (device a) = Some owner → NostrIdentity.keypair_of (secretKey owner) = Ok owner →
  Vault.read_vault (identity_db (device a)) = Some v →
  absolute_url (circle_url id +:+ "/epoch") = Ok absolute →
  Forall reachable_member members →
  ∃ rq w1 body nct parts,
    handleActivateLocation a =
      (match fetch rq w1 with
       | (Ok res, w2) =>
           if response_ok res
           then (Ok (Some None), mkApp w2 (Root.dispatch (store a)
                  (Root.CirclesAction (Circles.CircleEpochChanged id (Circles.mkEpoch e false)))))
           else (Ok (Some (Some ("Location activation failed (" +:+ status_text res +:+ ")"))), mkApp w2 (store a))
       | (Throw m, w2) => (Throw m, mkApp w2 (store a))
       end) ∧
    rq_url rq = circle_url id +:+ "/epoch" ∧ rq_method rq = "POST" ∧ signed_as (publicKey owner) rq ∧
    rq_body rq = Some body ∧
    parse body = Some (JObj [("expected_revision", JNum (int revision));
      ("next_epoch", JNum (int e)); ("name_ciphertext", JStr nct);
      ("member_labels", JArr (map (λ p, JObj [("member_token", JStr (pt_token p));
          ("label_ciphertext", JStr (pt_label_ciphertext p))]) parts));
      ("member_wraps", JArr (map (λ p, JObj [("member_token", JStr (pt_token p));
          ("key_wrap_event", event_to_json (pt_key_wrap_event p))]) parts))]) ∧
    encrypted_under raw nct (default "(circle)" (mjoin (ci_name circle))) ∧
    Forall2 (reaches id e raw owner) members parts.
Proof.
  intros e raw revision members Hid Hc Hown Hge He Hrev Hnow Hfits Hd Hf Ho Hkp Hv Hu Hms.
  assert (getPublicKey (secretKey owner) = Some (publicKey owner)) as Hpo.
  { revert Hkp. unfold NostrIdentity.keypair_of. destruct (getPublicKey _) as [pk|]; [|done]. by intros [= <-]. }
  destruct (rekey_ok id circle (active_members (Root.circles (store a))) (device a) owner v)
    as (nct & parts & w' & Hrk & Hk'); [done..|].
  destruct (rekey_reaches id circle (active_members (Root.circles (store a))) (device a) nct parts w' owner v)
    as (Hname & Hall & Hnums); [done..|].
  destruct (local_request_signed (circle_url id +:+ "/epoch") "POST" (Some (epoch_body revision e nct parts))
    absolute owner w' (set_draws (S (draws w')) w') Hu Hkp) as (rq & Hrq & Hsig & Hurl & Hmet & Hbody).
  { by apply CircleKeys.getCachedKeypair_cached. }
  match type of Hrq with _ = (_, ?x) => exists rq, x end.
  exists (epoch_body revision e nct parts), nct, parts. split_and!; try done; [|by apply epoch_body_parsed].
  unfold handleActivateLocation, circles_state. rewrite (bind_ok _ _ a (Root.circles (store a)) a) by done.
  rewrite Hid, Hc, Hown. change (negb (default false (Some true))) with false. cbv zeta iota. fold e revision.
  rewrite (bind_ok _ _ a (Some (nct, parts)) (mkApp w' (store a))) by (unfold service; by rewrite Hrk).
  unfold send, service, mbind, prog_bind. cbn [device store]. rewrite Hrq.
  destruct (fetch rq _) as [[res|m] w2]; [|done]. by destruct (response_ok res).
Qed.

(** ** An activation that fails has replaced the key all the same *)

Hypothesis fetch_keys : ∀ r w, circle_db (fetch r w).2 = circle_db w.

Lemma keys_send db url method body : preserves (λ w, circle_db w = db) (send url method body).
Proof.
  destruct (apart_circle_db db) as [Hb Hk]. pose proof (Vault.beside_draw _ Hb).
  pose proof (Vault.beside_new_secret_key _ Hb).
  assert (preserves (λ w, circle_db w = db) NostrIdentity.getCachedKeypair).
  { unfold NostrIdentity.getCachedKeypair, NostrIdentity.cache_keypair. preserves_tac. }
  assert (∀ r, preserves (λ w, circle_db w = db) (fetch r)) by (intros r w <-; apply fetch_keys).
  unfold send, local_request, NostrAuth.signLocalNip98AuthEvent, randomUUID, now_seconds, Signer.sign_local.
  preserves_tac; auto.
Qed.

(** C19: Starting an epoch is not safe to retry.  The fresh key replaces whatever key the
    device held for the next epoch before the gateway is asked; and when the handler does
    not succeed the circle stays at its epoch, so that the next attempt is for the same
    epoch and replaces the key again, although envelopes with the earlier key may have
    reached the gateway. *)
Theorem activation_replaces_key a o a' id circle :
  let e := (current_epoch (Some circle) + 1)%Z in
  active_id (Root.circles (store a)) = Some id → active_circle (Root.circles (store a)) = Some circle →
  ci_is_owner circle = Some true → safe_Z e = true →
  NostrIdentity.device_ok (device a) → faults (device a) = [] →
  handleActivateLocation a = (o, a') →
  circle_db (device a') !! CircleKeys.keyId id (int e)
    = Some (mkKey (random_bytes (draws (device a)) 32) false) ∧
  (o ≠ Ok (Some None) → store a' = store a).
Proof.
  intros e Hid Hc Hown He Hd Hf Hrun. unfold handleActivateLocation, circles_state in Hrun.
  rewrite (bind_ok _ _ a (Root.circles (store a)) a) in Hrun by done.
  rewrite Hid, Hc, Hown in Hrun. change (negb (default false (Some true))) with false in Hrun. cbv zeta in Hrun.
  fold e in Hrun. set (ms := active_members (Root.circles (store a))) in Hrun.
  unfold mbind, prog_bind, service in Hrun.
  destruct (rekey id circle ms (device a)) as [or w1] eqn:Hrk.
  apply rekey_run in Hrk as [Hkey _]; [|done..]. fold e in Hkey.
  destruct or as [[[nct parts]|]|m]; [|injection Hrun as <- <-; done..].
  cbn [device store] in Hrun.
  match goal with H : context [send ?u ?m ?b w1] |- _ => pose proof (keys_send (circle_db w1) u m b w1 eq_refl) as Hs;
    destruct (send u m b w1) as [[res|msg] w2] end; cbn in Hs; [|injection Hrun as <- <-; cbn; by rewrite Hs].
  destruct (negb (response_ok res)); injection Hrun as <- <-; cbn; by rewrite Hs.
Qed.

End handlers.

(** ** A concrete circle of an owner, a member and an invited person *)

#[local] Existing Instance LocationPublisher.sample_page.
#[local] Program Instance offline : Fetch := {| fetch r := throw "TypeError: Failed to fetch" |}.
Next Obligation. done. Qed.

Definition family : Circle :=
  mkCircle "c1" (Some (Some "Family")) None (Some 1%Z) (Some 1%Z) None (Some true) (Some 4%Z) None
    "2026-01-01T00:00:00.000Z" (Some true).
Definition person (token pubkey : string) (state : MembershipState) : CircleMember :=
  mkCircleMember "c1" (Some (Some token)) (int 5) "MEDIUM" "2026-01-01T00:00:00.000Z" None (Some state)
    None None (Some pubkey) None.
Definition family_members : list CircleMember :=
  [person "t1" (publicKey CircleKeys.member) ACTIVE; person "t2" (to_hex (to_bytes 32 600)) PENDING].

Lemma owner_device_ok : NostrIdentity.device_ok CircleKeys.owner_world.
Proof.
  split; [vm_compute; reflexivity|]. intros v.
  replace (Vault.read_vault (identity_db CircleKeys.owner_world))
    with (Some (Vault.normalize Vault.sample_payload)) by (vm_compute; reflexivity).
  intros [= <-]. vm_compute. reflexivity.
Qed.

(** The owner's page, offline: the answer to the first attempt is lost. *)
Definition owner_page : App :=
  mkApp CircleKeys.owner_world
    (Root.dispatch Root.initialState (Root.CirclesAction (Circles.CircleLoaded family family_members))).
Definition attempted : App := (handleActivateLocation owner_page).2.

Lemma new_epoch_reaches_active_members_witness :
  ∃ rq w1 body nct parts, handleActivateLocation owner_page = (Throw "TypeError: Failed to fetch", mkApp w1 (store owner_page)) ∧
    rq_url rq = circle_url "c1" +:+ "/epoch" ∧ rq_body rq = Some body ∧
    str_field (default JNull (parse body)) "name_ciphertext" = Some nct ∧
    Forall2 (reaches "c1" 2 (random_bytes (draws CircleKeys.owner_world) 32) CircleKeys.owner)
      [person "t1" (publicKey CircleKeys.member) ACTIVE] parts.
Proof.
  destruct (new_epoch_reaches_active_members owner_page "c1" family CircleKeys.owner
    (Vault.normalize Vault.sample_payload) (window_origin +:+ circle_url "c1" +:+ "/epoch"))
    as (rq & w1 & body & nct & parts & Hrun & Hurl & _ & _ & Hbody & Hparse & _ & Hall).
  - vm_compute. reflexivity.
  - vm_compute. reflexivity.
  - reflexivity.
  - vm_compute. discriminate.
  - reflexivity.
  - reflexivity.
  - vm_compute. reflexivity.
  - vm_compute. split; discriminate.
  - exact owner_device_ok.
  - reflexivity.
  - reflexivity.
  - vm_compute. reflexivity.
  - vm_compute. reflexivity.
  - vm_compute. reflexivity.
  - constructor; [|constructor]. exists "t1", CircleKeys.member. split_and!; vm_compute; reflexivity.
  - exists rq, w1, body, nct, parts. split; [exact Hrun|]. split; [exact Hurl|]. split; [exact Hbody|].
    split; [rewrite Hparse; reflexivity|]. exact Hall.
Defined.

Lemma activation_replaces_key_witness :
  circle_db (device attempted) !! CircleKeys.keyId "c1" (int 2)
    = Some (mkKey (random_bytes (draws CircleKeys.owner_world) 32) false) ∧
  store attempted = store owner_page.
Proof.
  assert (∀ r w, circle_db (fetch r w).2 = circle_db w) as Hfetch by done.
  destruct (activation_replaces_key Hfetch owner_page (handleActivateLocation owner_page).1 attempted
    "c1" family) as [Hk Hs].
  - vm_compute. reflexivity.
  - vm_compute. reflexivity.
  - reflexivity.
  - reflexivity.
  - exact owner_device_ok.
  - vm_compute. reflexivity.
  - apply surjective_pairing.
  - split; [exact Hk|]. apply Hs. vm_compute. discriminate.
Defined.

(** The second attempt leaves the owner with another key for the same epoch than the one
    in the envelopes of the first. *)
Lemma retry_strands_members :
  circle_db (device (handleActivateLocation attempted).2) !! CircleKeys.keyId "c1" (int 2)
    ≠ circle_db (device attempted) !! CircleKeys.keyId "c1" (int 2).
Proof. vm_compute. discriminate. Qed.

End CircleDashboard.
