(* ===== verification/Sharing.v ===== *)
(** * Sharing the position: the controls of [components/FamilyCircleDashboard.tsx]

    [startSharing] makes a publisher, publishes at once and every thirty seconds, and
    stops after the chosen time; an error of any publish stops it too.  The timers of the
    browser, the publishers and the publishes under way are part of the state: a publisher,
    its interval and its timer share a number. *)

From Stdlib Require Import QArith Lia.
From S2P Require Import Prelude JsNumber JsString JsCollection Json SharedTypes Nostr Platform.
From S2P Require Import CircleKeys CircleLocation CirclesSlice Web CircleSocket CircleDashboard.
Close Scope Q_scope.

Module Sharing.

(** The publishers that were made; the bodies of [publish] under way, each with the number
    of its publisher and whether it has made its request; the publishers of the calls that
    were rejected and whose [catch] has not run yet; and, in order, the publishers of the
    requests that were made. *)
Record Work : Type := mkWork {
  publishers : list (LocationPublisher.Options * LocationPublisher.Publisher);
  bodies : list (nat * bool);
  rejections : list nat;
  posts : list nat
}.

(** The active circle, as the store has it, beside the component's own state, its refs
    and the live timers. *)
Record Panel : Type := mkPanel {
  circle : option Circle;
  sharing : bool; precision : CircleLocation.LocationPrecision; shareMinutes : num;
  shareError : option string;
  publisherRef : option nat; intervalRef : option nat; durationRef : option nat;
  intervals : gset nat; durations : gset nat;
  work : Work;
  mounted : bool
}.

Definition initial (c : option Circle) : Panel :=
  mkPanel c false CircleLocation.Approximate (int 15) None None None None ∅ ∅ (mkWork [] [] [] []) true.

Definition set_work (f : Work → Work) (s : Panel) : Panel :=
  mkPanel (circle s) (sharing s) (precision s) (shareMinutes s) (shareError s) (publisherRef s)
    (intervalRef s) (durationRef s) (intervals s) (durations s) (f (work s)) (mounted s).

(** ** The publishes *)

(** [publisher.stop()] *)
Definition stopped_one (p : LocationPublisher.Publisher) : LocationPublisher.Publisher :=
  LocationPublisher.mkPublisher true (LocationPublisher.inFlight p).
Definition stop_publisher (ref : option nat) (w : Work) : Work :=
  match ref with
  | Some n => mkWork (alter (λ p, (p.1, stopped_one p.2)) n (publishers w)) (bodies w) (rejections w) (posts w)
  | None => w
  end.

(** The request of a body *)
Definition post (i n : nat) (w : Work) : Work :=
  mkWork (publishers w) (<[i := (n, true)]> (bodies w)) (rejections w) (posts w ++ [n]).

(** A body ends: its publisher is not in flight any more, [stops] says whether it stopped
    itself, and [rejected] whether the call is rejected. *)
Definition settle (i n : nat) (rejected stops : bool) (w : Work) : Work :=
  mkWork (alter (λ p, (p.1, LocationPublisher.mkPublisher (LocationPublisher.stopped p.2 || stops) false)) n
      (publishers w))
    (delete i (bodies w)) (if rejected then rejections w ++ [n] else rejections w) (posts w).

(** The [catch] of one rejected call *)
Definition handled (i : nat) (w : Work) : Work :=
  mkWork (publishers w) (bodies w) (delete i (rejections w)) (posts w).

Section sharing.
Context `{Page}.

(** A call of [publish]: refused at its entry, or its body begins.  [enter] does not look at
    the device. *)
Definition publishOnce (n : nat) (w : Work) : Work :=
  match publishers w !! n with
  | None => w
  | Some (options, p) =>
      let '(o, (_, p')) := LocationPublisher.enter options (fresh_world, p) in
      mkWork (<[n := (options, p')]> (publishers w))
        (match o with Ok _ => bodies w ++ [(n, false)] | Throw _ => bodies w end)
        (match o with Ok _ => rejections w | Throw _ => rejections w ++ [n] end) (posts w)
  end.

(** ** The controls *)

(** [epochReady] *)
Definition epochReady (c : option Circle) : bool :=
  negb (default false (c ≫= ci_rekey_required))
  && bool_decide (default 0%Z (c ≫= ci_location_protocol_version) = 1%Z).

Definition rekey_required (c : option Circle) : bool := default false (c ≫= ci_rekey_required).

Definition clear (ref : option nat) (timers : gset nat) : gset nat :=
  match ref with Some n => timers ∖ {[n]} | None => timers end.

Definition stopSharing (s : Panel) : Panel :=
  mkPanel (circle s) false (precision s) (shareMinutes s) (shareError s) None None None
    (clear (intervalRef s) (intervals s)) (clear (durationRef s) (durations s))
    (stop_publisher (publisherRef s) (work s)) (mounted s).

(** [setTimeout(stopSharing, ...)] fires after this delay. *)
Definition duration_ms (s : Panel) : num := num_mul (num_max (int 1) (shareMinutes s)) (int 60000).

(** [createLocationPublisher(...)] *)
Definition create (options : LocationPublisher.Options) (w : Work) : Work :=
  mkWork (publishers w ++ [(options, LocationPublisher.fresh_publisher)]) (bodies w) (rejections w) (posts w).

Definition startSharing (s : Panel) : Panel :=
  match circle s with
  | None => s
  | Some c =>
      if negb (truthy (ci_circle_id c)) then s
      else if negb (epochReady (circle s)) || rekey_required (circle s) then
        mkPanel (circle s) (sharing s) (precision s) (shareMinutes s)
          (Some "This circle is not ready for location sharing.") (publisherRef s) (intervalRef s)
          (durationRef s) (intervals s) (durations s) (work s) (mounted s)
      else
        let n := length (publishers (work s)) in
        let publisher := LocationPublisher.mkOptions (ci_circle_id c)
          (int (CircleDashboard.current_epoch (circle s))) (precision s) None None in
        mkPanel (circle s) true (precision s) (shareMinutes s) None (Some n) (Some n) (Some n)
          ({[n]} ∪ intervals s) ({[n]} ∪ durations s)
          (publishOnce n (create publisher (work s))) (mounted s)
  end.

(** The effect that follows the circle. *)
Definition circle_changed (c : option Circle) (s : Panel) : Panel :=
  let s := mkPanel c (sharing s) (precision s) (shareMinutes s) (shareError s) (publisherRef s)
    (intervalRef s) (durationRef s) (intervals s) (durations s) (work s) (mounted s) in
  if sharing s && (negb (epochReady c) || rekey_required c) then stopSharing s else s.

(** The selects, disabled while sharing. *)
Definition choose (p : CircleLocation.LocationPrecision) (minutes : num) (s : Panel) : Panel :=
  if sharing s then s
  else mkPanel (circle s) (sharing s) p minutes (shareError s) (publisherRef s) (intervalRef s)
    (durationRef s) (intervals s) (durations s) (work s) (mounted s).

(** The button, disabled when it could do nothing. *)
Definition click (s : Panel) : Panel :=
  if sharing s then stopSharing s else if epochReady (circle s) then startSharing s else s.

(** A timeout fires once. *)
Definition duration_fired (n : nat) (s : Panel) : Panel :=
  stopSharing (mkPanel (circle s) (sharing s) (precision s) (shareMinutes s) (shareError s) (publisherRef s)
    (intervalRef s) (durationRef s) (intervals s) (durations s ∖ {[n]}) (work s) (mounted s)).

(** The clean-up when the component goes away: the refs keep their values. *)
Definition unmount (s : Panel) : Panel :=
  mkPanel (circle s) (sharing s) (precision s) (shareMinutes s) (shareError s) (publisherRef s)
    (intervalRef s) (durationRef s) (clear (intervalRef s) (intervals s))
    (clear (durationRef s) (durations s)) (stop_publisher (publisherRef s) (work s)) false.

(** A body under way may make its request, once, and end, in any way; that its publisher was
    stopped meanwhile does not matter to it ([LocationPublisher.body_ignores_stop]).  The
    [catch] of a rejected call stops sharing, whoever shares by then. *)
Inductive step : Panel → Panel → Prop :=
| step_click s : mounted s = true → step s (click s)
| step_choose s p m : mounted s = true → step s (choose p m s)
| step_circle s c : mounted s = true → step s (circle_changed c s)
| step_tick s n : n ∈ intervals s → step s (set_work (publishOnce n) s)
| step_post s i n : bodies (work s) !! i = Some (n, false) → step s (set_work (post i n) s)
| step_fulfilled s i n : bodies (work s) !! i = Some (n, true) → step s (set_work (settle i n false false) s)
| step_failed s i n b stops :
    bodies (work s) !! i = Some (n, b) → step s (set_work (settle i n true stops) s)
| step_rejected s i n : rejections (work s) !! i = Some n → step s (stopSharing (set_work (handled i) s))
| step_duration s n : n ∈ durations s → step s (duration_fired n s)
| step_unmount s : mounted s = true → step s (unmount s).

Inductive reachable : Panel → Prop :=
| reach_initial c : reachable (initial c)
| reach_step s s' : reachable s → step s s' → reachable s'.

(** ** What is shared is what the button says *)

Definition of_ref (r : option nat) : gset nat := match r with Some n => {[n]} | None => ∅ end.

(** The publisher [n] is not stopped. *)
Definition live (w : Work) (n : nat) : Prop :=
  ∃ o p, publishers w !! n = Some (o, p) ∧ LocationPublisher.stopped p = false.

(** The bodies that have not made their request *)
Definition unposted (w : Work) : list nat := (filter (λ b, b.2 = false) (bodies w)).*1.

(** At most one body is under way for a publisher, which is what its [inFlight] says. *)
Definition single (w : Work) : Prop :=
  NoDup (bodies w).*1 ∧
  ∀ n, n ∈ (bodies w).*1 ↔ ∃ o p, publishers w !! n = Some (o, p) ∧ LocationPublisher.inFlight p = true.

(** A change of the publishes that starts no publisher, and stops one only with a rejection
    under way *)
Definition quiet (w w' : Work) : Prop :=
  (∀ k, live w' k → live w k) ∧ (∀ k, live w k → live w' k ∨ k ∈ rejections w') ∧
  (∀ k, k ∈ rejections w → k ∈ rejections w').

Lemma live_insert n o p p' w bs rs ps k :
  publishers w !! n = Some (o, p) →
  live (mkWork (<[n := (o, p')]> (publishers w)) bs rs ps) k ↔
  (if decide (k = n) then LocationPublisher.stopped p' = false else live w k).
Proof.
  intros Hn. unfold live. cbn. destruct (decide (k = n)) as [->|Hne].
  - rewrite list_lookup_insert_eq by (by eapply lookup_lt_Some). naive_solver.
  - by rewrite list_lookup_insert_ne by done.
Qed.

Lemma live_lookup w n o p : publishers w !! n = Some (o, p) → live w n ↔ LocationPublisher.stopped p = false.
Proof. intros Hn. unfold live. rewrite Hn. naive_solver. Qed.

Lemma alter_insert {A} (f : A → A) n (l : list A) x : l !! n = Some x → alter f n l = <[n := f x]> l.
Proof.
  revert n. induction l as [|y l IH]; intros [|n]; cbn; try done; [by intros [= ->]|].
  intros Hx. f_equal. by apply IH.
Qed.

Lemma alter_none {A} (f : A → A) n (l : list A) : l !! n = None → alter f n l = l.
Proof.
  revert n. induction l as [|y l IH]; intros [|n]; cbn; try done. intros Hx. f_equal. by apply IH.
Qed.

Lemma quiet_publish n w : quiet w (publishOnce n w).
Proof.
  unfold publishOnce. destruct (publishers w !! n) as [[o p]|] eqn:Hn; [|split_and!; naive_solver].
  destruct (LocationPublisher.enter o (fresh_world, p)) as [r [w' p']] eqn:He.
  apply LocationPublisher.enter_spec in He as [_ Hr]. unfold quiet. setoid_rewrite (live_insert n o p p' w _ _ _ _ Hn).
  split_and!; intros k; cbn.
  - destruct (decide _) as [->|]; [|done]. rewrite (live_lookup _ _ _ _ Hn).
    destruct r as [u|m]; [by destruct Hr as (? & _ & _)|]. destruct Hr as [_ Hp].
    destruct (LocationPublisher.stopped p) eqn:E; [|done]. rewrite Hp by done. congruence.
  - destruct (decide _) as [->|]; [|by left]. rewrite (live_lookup _ _ _ _ Hn). intros Hl.
    destruct r as [u|m]; [left; by destruct Hr as (_ & _ & ->)|right]. apply elem_of_app. right.
    by apply list_elem_of_singleton.
  - destruct r; [done|]. intros Hk. apply elem_of_app. by left.
Qed.

Lemma quiet_post i n w : quiet w (post i n w).
Proof. unfold quiet, live. cbn. naive_solver. Qed.

Lemma quiet_settle i n b rejected stops w : single w → bodies w !! i = Some (n, b) →
  (stops = true → rejected = true) → quiet w (settle i n rejected stops w).
Proof.
  intros [_ Hs] Hi Hstops. destruct (proj1 (Hs n)) as (o & p & Hn & _).
  { apply list_elem_of_fmap. exists (n, b). split; [done|]. by eapply list_elem_of_lookup_2. }
  unfold quiet, settle. setoid_rewrite (alter_insert _ _ _ _ Hn).
  setoid_rewrite (live_insert n o p _ w _ _ _ _ Hn). split_and!; intros k; cbn.
  - destruct (decide _) as [->|]; [|done]. rewrite (live_lookup _ _ _ _ Hn). by intros [? _]%orb_false_iff.
  - destruct (decide _) as [->|]; [|by left]. rewrite (live_lookup _ _ _ _ Hn). intros ->.
    destruct stops; [right|by left]. rewrite Hstops by done. apply elem_of_app. right.
    by apply list_elem_of_singleton.
  - destruct rejected; [|done]. intros Hk. apply elem_of_app. by left.
Qed.

Lemma live_stop_publisher ref w k : live (stop_publisher ref w) k ↔ live w k ∧ ref ≠ Some k.
Proof.
  destruct ref as [r|]; cbn; [|naive_solver]. unfold live. cbn. rewrite list_lookup_alter.
  destruct (decide (r = k)) as [->|Hne].
  - destruct (publishers w !! k) as [[o p]|]; naive_solver.
  - naive_solver.
Qed.

Lemma live_create o w k : live (create o w) k ↔ live w k ∨ k = length (publishers w).
Proof.
  unfold live, create. cbn. split.
  - intros (o' & p & [[_ Hl]|[<- _]]%lookup_snoc_Some & Hp); [left; eauto|by right].
  - intros [(o' & p & Hl & Hp)| ->].
    + exists o', p. split; [|done]. by apply lookup_app_l_Some.
    + exists o, LocationPublisher.fresh_publisher. by rewrite lookup_app_r, Nat.sub_diag by lia.
Qed.

(** *** One body per publisher *)

Lemma inFlight_same n o p p' w k : publishers w !! n = Some (o, p) →
  LocationPublisher.inFlight p' = LocationPublisher.inFlight p →
  (∃ o2 p2, <[n := (o, p')]> (publishers w) !! k = Some (o2, p2) ∧ LocationPublisher.inFlight p2 = true) ↔
  (∃ o2 p2, publishers w !! k = Some (o2, p2) ∧ LocationPublisher.inFlight p2 = true).
Proof.
  intros Hn Hp. destruct (decide (n = k)) as [->|Hne]; [|by setoid_rewrite list_lookup_insert_ne].
  setoid_rewrite list_lookup_insert_eq; [|by eapply lookup_lt_Some]. rewrite Hn.
  split; intros (o2 & p2 & [= <- <-] & Hq); eexists _, _; (split; [done|congruence]).
Qed.

Lemma single_publish n w : single w → single (publishOnce n w).
Proof.
  intros [Hnd Hs]. unfold publishOnce. destruct (publishers w !! n) as [[o p]|] eqn:Hn; [|done].
  destruct (LocationPublisher.enter o (fresh_world, p)) as [r [w' p']] eqn:He.
  apply LocationPublisher.enter_spec in He as [_ Hr]. destruct r as [u|m]; split; cbn.
  - destruct Hr as (_ & Hf & _). rewrite fmap_app. apply NoDup_app. split_and!; [done| |by apply NoDup_singleton].
    intros k Hk Hk2. apply list_elem_of_singleton in Hk2. cbn in Hk2. subst k. apply Hs in Hk as (o' & q & Hq & Hq').
    rewrite Hn in Hq. injection Hq as _ ->. congruence.
  - destruct Hr as (_ & Hf & ->). intros k. rewrite fmap_app, elem_of_app, Hs. cbn.
    rewrite list_elem_of_singleton. destruct (decide (n = k)) as [->|Hne].
    + rewrite list_lookup_insert_eq by (by eapply lookup_lt_Some). naive_solver.
    + rewrite list_lookup_insert_ne by done. naive_solver.
  - done.
  - destruct Hr as [Hf _]. intros k. rewrite Hs. symmetry. by apply (inFlight_same n o p p').
Qed.

Lemma single_post i n w : bodies w !! i = Some (n, false) → single w → single (post i n w).
Proof.
  intros Hi [Hnd Hs]. unfold single, post. cbn. rewrite list_fmap_insert. cbn.
  rewrite (list_insert_id (bodies w).*1 i n) by (by rewrite list_lookup_fmap, Hi). done.
Qed.

Lemma single_settle i n b rejected stops w : bodies w !! i = Some (n, b) → single w →
  single (settle i n rejected stops w).
Proof.
  intros Hi [Hnd Hs].
  assert ((bodies w).*1 ≡ₚ n :: (delete i (bodies w)).*1) as Hperm.
  { by rewrite (delete_Permutation (bodies w) i (n, b) Hi) at 1. }
  destruct (proj1 (Hs n)) as (o & p & Hn & Hf); [rewrite Hperm; left|].
  unfold single, settle. cbn. rewrite Hperm in Hnd. apply NoDup_cons in Hnd as [Hnot Hnd].
  split; [done|]. intros k. rewrite (alter_insert _ _ _ _ Hn). destruct (decide (n = k)) as [->|Hne].
  - rewrite list_lookup_insert_eq by (by eapply lookup_lt_Some). naive_solver.
  - rewrite list_lookup_insert_ne by done. rewrite <-Hs, Hperm, elem_of_cons. naive_solver.
Qed.

Lemma single_stop ref w : single w → single (stop_publisher ref w).
Proof.
  destruct ref as [r|]; [|done]. intros [Hnd Hs]. split; [done|]. intros k. cbn. rewrite Hs.
  destruct (publishers w !! r) as [[o p]|] eqn:Hr.
  - rewrite (alter_insert _ _ _ _ Hr). symmetry. by apply (inFlight_same r o p).
  - by rewrite alter_none.
Qed.

Lemma single_create o w : single w → single (create o w).
Proof.
  intros [Hnd Hs]. split; [done|]. intros k. cbn. rewrite Hs. split.
  - intros (o' & p & Hl & Hp). exists o', p. split; [by apply lookup_app_l_Some|done].
  - intros (o' & p & [[_ Hl]|[_ [= <- <-]]]%lookup_snoc_Some & Hp); [eauto|done].
Qed.

(** *** The controls *)

Definition running (s : Panel) : nat → Prop := live (work s).

Definition controls (s : Panel) : Prop :=
  if mounted s then
    intervalRef s = publisherRef s ∧ durationRef s = publisherRef s ∧
    sharing s = bool_decide (is_Some (publisherRef s)) ∧
    intervals s = of_ref (publisherRef s) ∧ durations s = of_ref (publisherRef s) ∧
    (∀ n, running s n → publisherRef s = Some n) ∧
    (∀ n, publisherRef s = Some n → running s n ∨ n ∈ rejections (work s))
  else intervals s = ∅ ∧ durations s = ∅ ∧ ∀ n, ¬ running s n.

Lemma clear_ref r : clear r (of_ref r) = ∅.
Proof. destruct r; cbn; set_solver. Qed.

Lemma clear_empty r : clear r ∅ = ∅.
Proof. destruct r; cbn; set_solver. Qed.

Lemma controls_stop_with f s : (∀ k, live (f (work s)) k → live (work s) k) →
  controls s → controls (stopSharing (set_work f s)).
Proof.
  intros Hf. unfold controls, running. cbn. destruct (mounted s).
  - intros (Hi & Hd & Hsh & Hint & Hdur & Hrun & _). split_and!; try done.
    + by rewrite Hi, Hint, clear_ref.
    + by rewrite Hd, Hdur, clear_ref.
    + intros n [Hl Hne]%live_stop_publisher. by destruct Hne; apply Hrun, Hf.
  - intros (-> & -> & Hrun). rewrite !clear_empty. split_and!; [done..|].
    intros n [Hl _]%live_stop_publisher. by apply (Hrun n), Hf.
Qed.

Lemma controls_stop s : controls s → controls (stopSharing s).
Proof. intros Hc. apply (controls_stop_with (λ w, w)) in Hc; [|done]. by destruct s as [????????????]. Qed.

Lemma controls_quiet f s : quiet (work s) (f (work s)) → controls s → controls (set_work f s).
Proof.
  intros (Hl & Hl' & Hr). unfold controls, running. cbn. destruct (mounted s).
  - intros (Hi & Hd & Hsh & Hint & Hdur & Hrun & Hlive). split_and!; try done.
    + intros n Hn. by apply Hrun, Hl.
    + intros n Hn. destruct (Hlive n Hn) as [Hx|Hx]; [by apply Hl'|right; by apply Hr].
  - intros (Hi & Hd & Hrun). split_and!; [done..|]. intros n Hn. by apply (Hrun n), Hl.
Qed.

Lemma controls_start s : mounted s = true → sharing s = false → controls s → controls (startSharing s).
Proof.
  intros Hm Hs Hinv. unfold startSharing. destruct (circle s) as [c|]; [|done].
  destruct (negb (truthy _)); [done|]. destruct (_ || _); [done|].
  unfold controls, running in *. cbn [mounted intervalRef publisherRef durationRef sharing intervals durations work].
  rewrite Hm in *. destruct Hinv as (Hi & Hd & Hsh & Hint & Hdur & Hrun & _).
  rewrite Hs in Hsh. symmetry in Hsh. apply bool_decide_eq_false in Hsh.
  destruct (publisherRef s) as [r|]; [by destruct Hsh; eexists|].
  match goal with |- context [create ?o (work s)] => set (w1 := create o (work s)) end.
  destruct (quiet_publish (length (publishers (work s))) w1) as (Hl & Hl' & _).
  split_and!; [done|done|done|rewrite Hint; set_solver|rewrite Hdur; set_solver| |].
  - intros n Hn%Hl. apply live_create in Hn as [Hn| ->]; [|done]. discriminate (Hrun n Hn).
  - intros n [= <-]. apply Hl'. apply live_create. by right.
Qed.

Definition inv (s : Panel) : Prop := single (work s) ∧ controls s.

Lemma controls_duration n s : n ∈ durations s → controls s → controls (duration_fired n s).
Proof.
  intros Hn Hc. unfold duration_fired, controls, running in *. cbn. destruct (mounted s).
  - destruct Hc as (Hi & Hd & Hsh & Hint & Hdur & Hrun & _). split_and!; try done.
    + by rewrite Hi, Hint, clear_ref.
    + rewrite Hd, Hdur. rewrite Hdur in Hn. destruct (publisherRef s); cbn in *; set_solver.
    + intros k [Hk Hne]%live_stop_publisher. by destruct Hne; apply Hrun.
  - destruct Hc as (_ & Hdur & _). rewrite Hdur in Hn. set_solver.
Qed.

Lemma controls_unmount s : mounted s = true → controls s → controls (unmount s).
Proof.
  intros Hm Hc. unfold controls, running in *. cbn. rewrite Hm in Hc.
  destruct Hc as (Hi & Hd & Hsh & Hint & Hdur & Hrun & _).
  rewrite Hi, Hd, Hint, Hdur, clear_ref. split_and!; [done..|].
  intros n [Hn Hne]%live_stop_publisher. by apply Hne, Hrun.
Qed.

Lemma single_start s : single (work s) → single (work (startSharing s)).
Proof.
  intros Hs. unfold startSharing. repeat case_match; try done. by apply single_publish, single_create.
Qed.

Lemma inv_step s s' : inv s → step s s' → inv s'.
Proof.
  intros [Hw Hc] Hstep.
  destruct Hstep as [s Hm|s p m Hm|s c Hm|s n Hn|s i n Hn|s i n Hn|s i n b stops Hn|s i n Hn|s n Hn|s Hm].
  - unfold click. destruct (sharing s) eqn:Hs; [by split; [apply single_stop|apply controls_stop]|].
    destruct (epochReady _); [|done]. by split; [apply single_start|apply controls_start].
  - unfold choose. destruct (sharing s) eqn:Hs; [done|]. split; [done|].
    unfold controls, running in *. cbn. by rewrite Hs in Hc.
  - unfold circle_changed. cbv zeta. cbn [sharing]. destruct (_ && _); [|done].
    split; [by apply single_stop|]. by apply controls_stop.
  - split; [by apply single_publish|]. apply controls_quiet; [apply quiet_publish|done].
  - split; [by apply single_post|]. apply controls_quiet; [apply quiet_post|done].
  - split; [by eapply single_settle|]. apply controls_quiet; [by eapply quiet_settle|done].
  - split; [by eapply single_settle|]. apply controls_quiet; [by eapply quiet_settle|done].
  - split; [by apply (single_stop _ (handled i (work s)))|]. by apply controls_stop_with.
  - split; [by apply single_stop|]. by apply controls_duration.
  - split; [by apply single_stop|]. by apply controls_unmount.
Qed.

Lemma inv_reachable s : reachable s → inv s.
Proof.
  induction 1 as [c|s s' _ IH Hstep]; [|by eapply inv_step]. split.
  - split; [constructor|]. intros n. cbn. split; [by intros Hn%elem_of_nil|naive_solver].
  - unfold controls, running, live. cbn. split_and!; naive_solver.
Qed.

(** *** Publishes that were under way *)

Definition off (s : Panel) : Prop := mounted s = false ∨ sharing s = false.

(** A step after which sharing is still off *)
Definition idle_step (s s' : Panel) : Prop := step s s' ∧ off s'.

Lemma unposted_post i n w : bodies w !! i = Some (n, false) → unposted w ≡ₚ n :: unposted (post i n w).
Proof.
  intros Hi. unfold unposted, post. cbn. rewrite insert_take_drop by (by eapply lookup_lt_Some).
  rewrite <-(take_drop_middle _ _ _ Hi) at 1. rewrite !filter_app, !fmap_app. cbn.
  by rewrite Permutation_middle.
Qed.

Lemma unposted_settle i n r b x w : bodies w !! i = Some x → unposted (settle i n r b w) ⊆+ unposted w.
Proof.
  intros Hi. unfold unposted. cbn. rewrite (delete_Permutation _ _ _ Hi) at 2. rewrite filter_cons.
  case_decide; [|done]. by apply submseteq_cons.
Qed.

Lemma off_no_timers s : inv s → off s → intervals s = ∅ ∧ durations s = ∅ ∧ ∀ k, ¬ running s k.
Proof.
  intros [_ Hc] Hoff. unfold controls in Hc. destruct (mounted s) eqn:Hm; [|done].
  destruct Hoff as [|Hs]; [congruence|]. destruct Hc as (_ & _ & Hsh & Hint & Hdur & Hrun & _).
  rewrite Hs in Hsh. symmetry in Hsh. apply bool_decide_eq_false in Hsh.
  destruct (publisherRef s) as [r|]; [by destruct Hsh; eexists|].
  split_and!; [done..|]. intros k Hk. by apply Hrun in Hk.
Qed.

Lemma idle_step_posts s s' : inv s → off s → idle_step s s' →
  ∃ new, posts (work s') = posts (work s) ++ new ∧ new ++ unposted (work s') ⊆+ unposted (work s).
Proof.
  intros Hinv Hoff [Hstep Hoff']. destruct (off_no_timers s Hinv Hoff) as (Hint & Hdur & _).
  assert (∀ w, posts w = posts (work s) → unposted w ⊆+ unposted (work s) →
    ∃ new, posts w = posts (work s) ++ new ∧ new ++ unposted w ⊆+ unposted (work s)) as Hsame.
  { intros w Hp Hu. exists []. by rewrite app_nil_r. }
  assert (∀ ref w, posts (stop_publisher ref w) = posts w ∧ unposted (stop_publisher ref w) = unposted w) as Hstop
    by (by intros [r|] w).
  destruct Hstep as [s Hm|s p m Hm|s c Hm|s n Hn|s i n Hn|s i n Hn|s i n b stops Hn|s i n Hn|s n Hn|s Hm].
  - destruct Hoff as [|Hs]; [congruence|]. unfold click in *. rewrite Hs in *.
    destruct (epochReady (circle s)); [|by apply Hsame]. unfold startSharing in *.
    destruct (circle s) as [c|]; [|by apply Hsame]. destruct (negb (truthy _)); [by apply Hsame|].
    destruct (_ || _); [by apply Hsame|]. destruct Hoff' as [Hx|Hx]; cbn in Hx; [congruence|done].
  - unfold choose. destruct (sharing s); by apply Hsame.
  - unfold circle_changed. cbv zeta. cbn [sharing]. destruct (_ && _); [|by apply Hsame].
    cbn. destruct (Hstop (publisherRef s) (work s)) as [Hp Hu]. apply Hsame; [done|by rewrite Hu].
  - rewrite Hint in Hn. set_solver.
  - exists [n]. split; [done|]. cbn. by rewrite (unposted_post i n _ Hn).
  - apply Hsame; [done|]. by eapply unposted_settle.
  - apply Hsame; [done|]. by eapply unposted_settle.
  - cbn. destruct (Hstop (publisherRef s) (handled i (work s))) as [Hp Hu]. apply Hsame; [done|by rewrite Hu].
  - rewrite Hdur in Hn. set_solver.
  - cbn. destruct (Hstop (publisherRef s) (work s)) as [Hp Hu]. apply Hsame; [done|by rewrite Hu].
Qed.

Lemma idle_posts s s' : inv s → off s → rtc idle_step s s' →
  ∃ new, posts (work s') = posts (work s) ++ new ∧ new ++ unposted (work s') ⊆+ unposted (work s).
Proof.
  intros Hinv Hoff Hrun. revert Hinv Hoff. induction Hrun as [s|s s1 s' Hs _ IH]; intros Hinv Hoff.
  { exists []. by rewrite app_nil_r. }
  destruct (idle_step_posts s s1 Hinv Hoff Hs) as (new & Hp & Hu). destruct Hs as [Hs Hoff1].
  destruct (IH (inv_step _ _ Hinv Hs) Hoff1) as (new' & Hp' & Hu'). exists (new ++ new').
  split; [by rewrite Hp', Hp, app_assoc|]. rewrite <-app_assoc. etrans; [|exact Hu]. by apply submseteq_app.
Qed.

(** C20: What the button says about sharing.  However the user, the timers, the publishes and
    changes of the circle interleave: while sharing is on, there is one interval, and one
    timer that will end it, and no publisher runs but theirs, which runs unless it stopped
    itself and the rejection that will end sharing is under way.  Once sharing is off, or
    the component is gone, no interval or timer is left and every publisher is stopped: as
    long as it stays off nothing starts to publish, and of the publishes that were under
    way, at most one for each publisher, each makes its request at most once. *)
Theorem sharing_is_what_is_shown s :
  reachable s →
  (mounted s = true → sharing s = true →
     ∃ n, intervals s = {[n]} ∧ durations s = {[n]} ∧ (∀ k, running s k → k = n) ∧
       (running s n ∨ n ∈ rejections (work s))) ∧
  (off s → intervals s = ∅ ∧ durations s = ∅ ∧ (∀ k, ¬ running s k) ∧
     ∀ s', rtc idle_step s s' →
       ∃ new, posts (work s') = posts (work s) ++ new ∧ new ⊆+ unposted (work s)) ∧
  NoDup (bodies (work s)).*1.
Proof.
  intros Hr%inv_reachable. split_and!; [| |apply Hr].
  - intros Hm Hs. destruct Hr as [_ Hc]. unfold controls in Hc. rewrite Hm in Hc.
    destruct Hc as (_ & _ & Hsh & Hint & Hdur & Hrun & Hlive).
    rewrite Hs in Hsh. symmetry in Hsh. apply bool_decide_eq_true in Hsh as [n Hn].
    rewrite Hn in *. exists n. split_and!; [done..| |by apply Hlive]. intros k Hk. apply Hrun in Hk. congruence.
  - intros Hoff. destruct (off_no_timers s Hr Hoff) as (Hint & Hdur & Hrun). split_and!; [done..|].
    intros s' Hs'. destruct (idle_posts s s' Hr Hoff Hs') as (new & Hp & Hu). exists new. split; [done|].
    etrans; [|exact Hu]. by apply submseteq_inserts_r.
Qed.
End sharing.

(** *** A concrete panel *)

#[local] Existing Instance LocationPublisher.sample_page.

Definition ready_circle (epoch : Z) : Circle :=
  mkCircle "c1" (Some (Some "Family")) None (Some 1%Z) (Some epoch) (Some 1%Z) (Some false) None None
    "2026-01-01T00:00:00.000Z" (Some true).
Definition shared : Panel := click (initial (Some (ready_circle 1))).
Definition stopped : Panel := click shared.

Lemma shared_reachable : reachable shared.
Proof. eapply reach_step; [apply reach_initial|by apply step_click]. Qed.

Lemma stopped_reachable : reachable stopped.
Proof. eapply reach_step; [apply shared_reachable|by apply step_click]. Qed.

Lemma sharing_is_what_is_shown_witness :
  (∃ n, intervals shared = {[n]} ∧ durations shared = {[n]} ∧ ∀ k, running shared k → k = n) ∧
  intervals stopped = ∅ ∧ ∀ k, ¬ running stopped k.
Proof.
  split.
  - destruct (proj1 (sharing_is_what_is_shown shared shared_reachable)) as (n & Hi & Hd & Hk & _); [done..|].
    exists n. exact (conj Hi (conj Hd Hk)).
  - destruct (sharing_is_what_is_shown stopped stopped_reachable) as (_ & Hoff & _).
    destruct (Hoff (or_intror eq_refl)) as (Hi & _ & Hk & _). exact (conj Hi Hk).
Defined.

(** Stop does not recall the publish under way: the position is sent after the page says that
    sharing is off. *)
Example stopped_still_posts :
  sharing stopped = false ∧ posts (work stopped) = [] ∧
  ∃ s, idle_step stopped s ∧ posts (work s) = [0].
Proof.
  split_and!; [by vm_compute..|]. exists (set_work (post 0 0) stopped). split; [|by vm_compute].
  split; [by apply step_post|by right].
Qed.

(** The rejection of a publish of the former publisher ends the sharing that was started
    since. *)
Example former_rejection_stops :
  let again := set_work (settle 0 0 true false) (click stopped) in
  reachable again ∧ sharing again = true ∧ running again 1 ∧
  ∃ s, step again s ∧ sharing s = false ∧ ¬ running s 1.
Proof.
  cbv zeta. split_and!.
  - eapply reach_step; [|by eapply (step_failed _ 0 0 false)].
    eapply reach_step; [apply stopped_reachable|by apply step_click].
  - reflexivity.
  - by eexists _, _.
  - eexists. split; [by apply (step_rejected _ 0 0)|]. split; [reflexivity|].
    intros (o & p & Hp & Hs). vm_compute in Hp. injection Hp as _ <-. discriminate Hs.
Qed.

(** The effect that should stop sharing when the epoch changes looks only at whether the
    circle is ready: when the next epoch arrives ready, the publisher of the former epoch
    goes on. *)
Lemma epoch_change_keeps_sharing :
  let s := circle_changed (Some (ready_circle 2)) shared in
  reachable s ∧ sharing s = true ∧ CircleDashboard.current_epoch (circle s) = 2%Z ∧
  ∃ p, publishers (work s) !! 0 = Some (p, LocationPublisher.mkPublisher false true) ∧
    LocationPublisher.o_keyEpoch p = int 1.
Proof.
  cbv zeta. split_and!; [|reflexivity|reflexivity|by eexists].
  eapply reach_step; [apply shared_reachable|by apply step_circle].
Qed.

End Sharing.
