(* ===== verification/Geo.v ===== *)
(** * Distances, threats nearby and routes: [utils/geo.ts], [hooks/useNearestThreat.ts],
    [hooks/useProximityAlerts.ts] and [services/routingService.ts]

    The functions of [Math] that the standard leaves to the implementation are the class
    [Trig]; nothing is assumed of them. *)

From Stdlib Require Import QArith Lia.
From S2P Require Import Prelude JsNumber JsString JsStringFacts JsCollection Json.
From S2P Require Import SharedTypes Nostr CryptoModel Platform CircleLocation EventsSlice CirclesSlice SmallSlices.
From S2P Require Import ChatRules Web Api CircleSocket.
Close Scope Q_scope.
Local Open Scope num_scope.

Class Trig : Type := {
  math_sin : num → num; math_asin : num → num; math_atan2 : num → num → num;
  math_sqrt : num → num; math_hypot : num → num → num; math_pow : num → num → num
}.

(** ** [utils/geo.ts] *)

Module Geo.
Import MapApi.

Section geo.
Context `{MathLib, Trig}.

Definition DEG_TO_RAD : num := math_PI / int 180.
Definition RAD_TO_DEG : num := int 180 / math_PI.
Definition EARTH_RADIUS_KM : num := int 6371.

Definition bearingBetween (from to : LatLng) : num :=
  let lat1 := lat from * DEG_TO_RAD in
  let lat2 := lat to * DEG_TO_RAD in
  let dLng := (lng to - lng from) * DEG_TO_RAD in
  let y := math_sin dLng * math_cos lat2 in
  let x := math_cos lat1 * math_sin lat2 - math_sin lat1 * math_cos lat2 * math_cos dLng in
  num_rem (math_atan2 y x * RAD_TO_DEG + int 360) (int 360).

Definition destinationPoint (origin : LatLng) (distanceKm bearingDeg : num) : LatLng :=
  let d := distanceKm / EARTH_RADIUS_KM in
  let bearing := bearingDeg * DEG_TO_RAD in
  let lat1 := lat origin * DEG_TO_RAD in
  let lng1 := lng origin * DEG_TO_RAD in
  let lat2 := math_asin (math_sin lat1 * math_cos d + math_cos lat1 * math_sin d * math_cos bearing) in
  let lng2 := lng1 + math_atan2 (math_sin bearing * math_sin d * math_cos lat1)
                       (math_cos d - math_sin lat1 * math_sin lat2) in
  mkLatLng (lat2 * RAD_TO_DEG) (lng2 * RAD_TO_DEG).

Definition haversineKm (a b : LatLng) : num :=
  let dLat := (lat b - lat a) * DEG_TO_RAD in
  let dLng := (lng b - lng a) * DEG_TO_RAD in
  let sinDLat := math_sin (dLat / int 2) in
  let sinDLng := math_sin (dLng / int 2) in
  let h := sinDLat * sinDLat
           + math_cos (lat a * DEG_TO_RAD) * math_cos (lat b * DEG_TO_RAD) * sinDLng * sinDLng in
  int 2 * EARTH_RADIUS_KM * math_asin (math_sqrt h).

Definition pointToSegmentDistance (p a b : LatLng) : num :=
  let ab := haversineKm a b in
  if num_eqb ab (int 0) then haversineKm p a
  else
    let t := num_max (int 0) (num_min (int 1)
      (((lat p - lat a) * (lat b - lat a) + (lng p - lng a) * (lng b - lng a))
       / (math_pow (lat b - lat a) (int 2) + math_pow (lng b - lng a) (int 2)))) in
    haversineKm p (mkLatLng (lat a + t * (lat b - lat a)) (lng a + t * (lng b - lng a))).

(** A pair of coordinates, longitude first. *)
Definition vertex (c : num * num) : LatLng := mkLatLng c.2 c.1.

(** The loop over the segments of the line. *)
Fixpoint segments_distance (point : LatLng) (line : list (num * num)) (minDist : num) : num :=
  match line with
  | a :: ((b :: _) as line) =>
      segments_distance point line
        (num_min minDist (pointToSegmentDistance point (vertex a) (vertex b)))
  | _ => minDist
  end.

Definition pointToLineDistance (point : LatLng) (lineCoords : list (num * num)) : num :=
  match lineCoords with
  | [c] => haversineKm point (vertex c)
  | _ => segments_distance point lineCoords (Inf false)
  end.

End geo.
End Geo.

(** ** [hooks/useNearestThreat.ts] *)

Module NearestThreat.
Section nearest.
Context `{MathLib, Trig}.

(** The position that the hook keeps, at most one per second: [lastUpdate] is the
    [Date.now()] of the last one. *)
Record Watch : Type := mkWatch { pos : option MapApi.LatLng; geoError : option string; lastUpdate : Z }.
Definition initial : Watch := mkWatch None None 0.

Definition on_position (now : Z) (p : MapApi.LatLng) (w : Watch) : Watch :=
  if (now - lastUpdate w <? 1000)%Z then w else mkWatch (Some p) (geoError w) now.

Definition on_error (msg : string) (w : Watch) : Watch := mkWatch (pos w) (Some msg) (lastUpdate w).

Definition selectHighRiskEvents (s : Root.RootState) : list SafetyEvent :=
  List.filter ev_is_active (Events.items (Root.events s)).

Definition flat_distance (p : MapApi.LatLng) (e : SafetyEvent) : num :=
  let dLat := (ev_lat e - MapApi.lat p) * int 111 in
  let dLng := (ev_lng e - MapApi.lng p) * int 111 * math_cos (MapApi.lat p * math_PI / int 180) in
  math_hypot dLat dLng.

(** The nearest event so far and its distance. *)
Definition closer (p : MapApi.LatLng) (best : option SafetyEvent * num) (e : SafetyEvent)
    : option SafetyEvent * num :=
  let d := flat_distance p e in if num_lt d best.2 then (Some e, d) else best.

Definition nearestThreat (w : Watch) (events : list SafetyEvent) : option (SafetyEvent * num) :=
  match pos w, events with
  | None, _ | _, [] => None
  | Some p, _ =>
      let '(nearest, minDist) := fold_left (closer p) events (None, Inf false) in
      e ← nearest; Some (e, minDist)
  end.

(** [e] is the first of the events at the least distance, [d]. *)
Definition nearest_of (p : MapApi.LatLng) (events : list SafetyEvent) (e : SafetyEvent) (d : num) : Prop :=
  d = flat_distance p e ∧
  (∃ before after, events = before ++ e :: after ∧
     ∀ e', e' ∈ before → num_le (flat_distance p e') d = false) ∧
  ∀ e', e' ∈ events → num_lt (flat_distance p e') d = false.

Lemma closer_fold p events : ∀ b m,
  (fold_left (closer p) events (b, m) = (b, m) ∧ ∀ e, e ∈ events → num_lt (flat_distance p e) m = false) ∨
  (∃ e d, fold_left (closer p) events (b, m) = (Some e, d) ∧ num_lt d m = true ∧ nearest_of p events e d).
Proof.
  induction events as [|e events IH]; intros b m; [left; by split; [|intros e He%elem_of_nil]|].
  cbn [fold_left]. unfold closer at 2 4. cbn [snd]. destruct (num_lt (flat_distance p e) m) eqn:Hd.
  - right. destruct (IH (Some e) (flat_distance p e)) as [[Hf Hall]|(e2 & d & Hf & Hlt & -> & (bf & af & -> & Hbf) & Hall)].
    + exists e, (flat_distance p e). split_and!; [done|done|]. split_and!; [done| |].
      * exists [], events. split; [done|]. intros e' He%elem_of_nil. done.
      * intros e' [->|He]%elem_of_cons; [apply num_lt_irrefl|by apply Hall].
    + exists e2, (flat_distance p e2). split_and!; [done|by eapply num_lt_trans|]. split_and!; [done| |].
      * exists (e :: bf), af. split; [done|]. intros e' [->|He]%elem_of_cons; [by apply num_lt_not_le|by apply Hbf].
      * intros e' [->|He]%elem_of_cons; [|by apply Hall]. apply num_lt_not_le in Hlt.
        unfold num_le in Hlt. by apply orb_false_iff in Hlt as [-> _].
  - destruct (IH b m) as [[Hf Hall]|(e2 & d & Hf & Hlt & -> & (bf & af & -> & Hbf) & Hall)].
    + left. split; [done|]. intros e' [->|He]%elem_of_cons; [done|by apply Hall].
    + right. exists e2, (flat_distance p e2). split_and!; [done|done|].
      assert (num_le (flat_distance p e) (flat_distance p e2) = false) as Hle.
      { apply not_true_iff_false. intros Hle. by rewrite (num_le_lt_trans _ _ _ Hle Hlt) in Hd. }
      split_and!; [done| |].
      * exists (e :: bf), af. split; [done|]. intros e' [->|He]%elem_of_cons; [done|by apply Hbf].
      * intros e' [->|He]%elem_of_cons; [|by apply Hall]. unfold num_le in Hle. by apply orb_false_iff in Hle as [-> _].
Qed.

(** The threat that is shown is the nearest: it is the first of the active events at
    the least distance, and that distance is the one shown; none is shown only when the
    device's position is unknown or no distance is below infinity. *)
Theorem nearest_threat_is_nearest w events :
  match nearestThreat w events, pos w with
  | Some (e, d), Some p => nearest_of p events e d
  | Some _, None => False
  | None, Some p => ∀ e, e ∈ events → num_lt (flat_distance p e) (Inf false) = false
  | None, None => True
  end.
Proof.
  unfold nearestThreat. destruct (pos w) as [p|]; [|done].
  destruct events as [|e0 events]; [by intros e He%elem_of_nil|].
  destruct (closer_fold p (e0 :: events) None (Inf false)) as [[-> Hall]|(e & d & -> & _ & Hn)]; done.
Qed.

End nearest.
End NearestThreat.

(** ** [hooks/useProximityAlerts.ts] *)

Module Proximity.
Import Circles.

(** [SEVERITY_RANK[s]]: [undefined] compares as [NaN]. *)
Definition severity_rank (s : string) : num :=
  if String.eqb s "LOW" then int 0 else if String.eqb s "MEDIUM" then int 1
  else if String.eqb s "HIGH" then int 2 else if String.eqb s "CRITICAL" then int 3 else NaN.

Section alerts.
Context `{MathLib, Trig}.

(** The alert of a member and an event, if there is to be one. *)
Definition alert_of (now_iso : string) (member : CircleMember) (pubkey : string) (loc : DecryptedLocation)
    (event : SafetyEvent) : option (string → ProximityAlert) :=
  if negb (ev_is_active event) then None
  else if num_lt (severity_rank (ev_severity event)) (severity_rank (cm_alert_severity member)) then None
  else
    let distKm := Geo.haversineKm (MapApi.mkLatLng (Circles.lat loc) (Circles.lng loc))
                    (MapApi.mkLatLng (ev_lat event) (ev_lng event)) in
    if num_le distKm (cm_alert_radius_km member)
    then Some (λ id, mkProximityAlert id pubkey (ev_title event) (Some (ev_id event)) (ev_severity event) now_iso)
    else None.

(** An alert lacks its id until it is dispatched. *)
Definition member_alerts (now_iso : string) (locations : gmap string DecryptedLocation)
    (events : list SafetyEvent) (member : CircleMember) : list (string → ProximityAlert) :=
  match cm_pubkey member with
  | Some pubkey =>
      if truthy pubkey then
        match locations !! pubkey with
        | Some loc => omap (alert_of now_iso member pubkey loc) events
        | None => []
        end
      else []
  | None => []
  end.

Definition computeProximityAlerts (now_iso : string) (members : list CircleMember)
    (locations : gmap string DecryptedLocation) (events : list SafetyEvent)
    : list (string → ProximityAlert) :=
  members ≫= member_alerts now_iso locations events.

(** [`${alert.member_pubkey}:${alert.event_id}`] *)
Definition alert_key (a : ProximityAlert) : string :=
  pa_member_pubkey a +:+ ":" +:+ default "undefined" (pa_event_id a).

Context `{Random}.

(** Dispatch an alert, unless the store had one of the same key. *)
Definition raise (existing : list string) (alert : string → ProximityAlert) : prog App unit :=
  if includes existing (alert_key (alert "")) then mret tt
  else id ← service randomUUID; Web.dispatch (Root.CirclesAction (ProximityAlertAdded (alert id))).

(** The members of the active circle. *)
Definition watched_members (st : CirclesState) : list CircleMember :=
  match activeCircleId st with
  | Some id => if truthy id then default [] (Circles.members st !! id) else []
  | None => []
  end.

(** One run of the effect: [prev] is the value of [prevLocationsRef], compared by
    reference, that is, by the version of the locations it was taken from. *)
Definition effect (unchanged : bool) : prog App unit :=
  if unchanged then mret tt
  else
    st ← select Root.circles;
    events ← select (λ s, Events.items (Root.events s));
    now ← service date_now;
    now_iso ← lift_outcome (iso_string (int now));
    let members := watched_members st in
    let existing := map alert_key (proximityAlerts st) in
    for_each (computeProximityAlerts now_iso members (decryptedLocations st) events) (raise existing).

(** The effect ignores new events and members while the locations are the same. *)
Lemma no_alert_without_move a : effect true a = (Ok tt, a).
Proof. done. Qed.

(** *** Facts *)

(** The alert tells of an active event, grave enough for a member of the circle, within the
    member's radius of where it was last seen. *)
Definition justified (members : list CircleMember) (locations : gmap string DecryptedLocation)
    (events : list SafetyEvent) (a : ProximityAlert) : Prop :=
  ∃ m pk loc e, m ∈ members ∧ cm_pubkey m = Some pk ∧ locations !! pk = Some loc ∧ e ∈ events ∧
    ev_is_active e = true ∧ num_lt (severity_rank (ev_severity e)) (severity_rank (cm_alert_severity m)) = false ∧
    num_le (Geo.haversineKm (MapApi.mkLatLng (Circles.lat loc) (Circles.lng loc))
              (MapApi.mkLatLng (ev_lat e) (ev_lng e))) (cm_alert_radius_km m) = true ∧
    pa_member_pubkey a = pk ∧ pa_event_id a = Some (ev_id e) ∧ pa_severity a = ev_severity e ∧
    pa_zone_name a = ev_title e.

Definition pair_key (pk event_id : string) : string := pk +:+ ":" +:+ event_id.

Lemma alert_of_inv t m pk loc e f :
  alert_of t m pk loc e = Some f →
  ev_is_active e = true ∧ num_lt (severity_rank (ev_severity e)) (severity_rank (cm_alert_severity m)) = false ∧
  num_le (Geo.haversineKm (MapApi.mkLatLng (Circles.lat loc) (Circles.lng loc))
            (MapApi.mkLatLng (ev_lat e) (ev_lng e))) (cm_alert_radius_km m) = true ∧
  f = λ id, mkProximityAlert id pk (ev_title e) (Some (ev_id e)) (ev_severity e) t.
Proof.
  unfold alert_of. destruct (ev_is_active e); [|done]. cbn [negb]. destruct (num_lt _ _); [done|].
  destruct (num_le _ _); [|done]. by intros [= <-].
Qed.

Lemma elem_of_alerts t members locations events f :
  f ∈ computeProximityAlerts t members locations events →
  ∃ m pk loc e, m ∈ members ∧ cm_pubkey m = Some pk ∧ locations !! pk = Some loc ∧ e ∈ events ∧
    alert_of t m pk loc e = Some f.
Proof.
  unfold computeProximityAlerts. intros (m & Hf & Hm)%list_elem_of_bind. unfold member_alerts in Hf.
  destruct (cm_pubkey m) as [pk|] eqn:Hpk; [|by apply elem_of_nil in Hf].
  destruct (truthy pk); [|by apply elem_of_nil in Hf].
  destruct (locations !! pk) as [loc|] eqn:Hloc; [|by apply elem_of_nil in Hf].
  apply list_elem_of_omap in Hf as (e & He & Hf). by exists m, pk, loc, e.
Qed.

Definition draft_key (f : string → ProximityAlert) : string := alert_key (f "").

Lemma draft_keys_of_member t m pk loc events :
  NoDup (map ev_id events) → NoDup (map draft_key (omap (alert_of t m pk loc) events)).
Proof.
  induction events as [|e events IH]; [constructor|]. cbn [map]. intros [Hn Hnd]%NoDup_cons.
  cbn [omap list_omap]. destruct (alert_of t m pk loc e) as [f|] eqn:Hf; [|by apply IH].
  apply alert_of_inv in Hf as (_ & _ & _ & ->). cbn [map]. apply NoDup_cons. split; [|by apply IH].
  intros (g & Hg & (e' & He' & Hf)%list_elem_of_omap)%list_elem_of_fmap.
  apply alert_of_inv in Hf as (_ & _ & _ & ->). unfold draft_key, alert_key in Hg. cbn in Hg.
  apply (inj (String.append pk)), (inj (String.append ":")) in Hg. apply Hn. rewrite Hg. by apply list_elem_of_fmap_2.
Qed.

Definition known_pubkeys (members : list CircleMember) : Prop :=
  NoDup (omap cm_pubkey members) ∧ Forall (λ pk, is_lower_hex64 pk = true) (omap cm_pubkey members).

Lemma pubkey_listed (m : CircleMember) pk (members : list CircleMember) :
  m ∈ members → cm_pubkey m = Some pk → pk ∈ omap cm_pubkey members.
Proof. intros Hm Hpk. apply list_elem_of_omap. by exists m. Qed.

Lemma draft_keys_distinct t members locations events :
  known_pubkeys members → NoDup (map ev_id events) →
  NoDup (map draft_key (computeProximityAlerts t members locations events)).
Proof.
  intros [Hnd Hhex] Hev. induction members as [|m members IH]; [constructor|].
  change (computeProximityAlerts t (m :: members) locations events)
    with (member_alerts t locations events m ++ computeProximityAlerts t members locations events).
  cbn [omap list_omap] in Hnd, Hhex. rewrite map_app. apply NoDup_app. split_and!.
  - unfold member_alerts. destruct (cm_pubkey m) as [pk|]; [|constructor].
    destruct (truthy pk); [|constructor]. destruct (locations !! pk) as [loc|]; [|constructor].
    by apply draft_keys_of_member.
  - intros k (f & -> & Hf)%list_elem_of_fmap (g & Hk & Hg)%list_elem_of_fmap.
    assert (f ∈ computeProximityAlerts t [m] locations events) as Hf'
      by (unfold computeProximityAlerts; cbn; by rewrite app_nil_r).
    apply elem_of_alerts in Hf' as (m1 & pk1 & loc1 & e1 & ->%list_elem_of_singleton & Hp1 & _ & _ & Hf').
    apply elem_of_alerts in Hg as (m2 & pk2 & loc2 & e2 & Hm2 & Hp2 & _ & _ & Hg).
    rewrite Hp1 in Hnd, Hhex. apply NoDup_cons in Hnd as [Hn _]. apply Forall_cons in Hhex as [H1h H2h].
    apply alert_of_inv in Hf' as (_ & _ & _ & ->). apply alert_of_inv in Hg as (_ & _ & _ & ->).
    pose proof (pubkey_listed _ _ _ Hm2 Hp2) as Hl. rewrite Forall_forall in H2h. specialize (H2h _ Hl).
    unfold draft_key, alert_key in Hk. cbn in Hk. apply ChatRules.str_app_eq_len in Hk as [-> _]; [done|].
    by rewrite !lower_hex64_length.
  - destruct (cm_pubkey m); [|by apply IH]. apply NoDup_cons in Hnd as [_ Hnd]. apply Forall_cons in Hhex as [_ ?].
    by apply IH.
Qed.

Definition alerts (a : App) : list ProximityAlert := proximityAlerts (Root.circles (store a)).

Lemma raise_run existing f a :
  ∃ a', raise existing f a = (Ok tt, a') ∧
    (alerts a' = alerts a ∨ (∃ id, (draft_key f ∉ existing) ∧ alerts a' = f id :: alerts a)).
Proof.
  unfold raise. destruct (includes existing (alert_key (f ""))) eqn:Hi; [exists a; by split; [|left]|].
  eexists. split; [reflexivity|]. unfold alerts. cbn. unfold proximityAlertAdded.
  destruct (existsb _ _); [by left|right]. eexists. split; [|done].
  intros Hin. apply (includes_spec existing) in Hin. unfold draft_key in Hin. congruence.
Qed.

Lemma raise_all (J : ProximityAlert → Prop) old fs : ∀ new a,
  alerts a = new ++ old → NoDup (map draft_key fs) →
  (∀ f, f ∈ fs → ∀ id, J (f id) ∧ alert_key (f id) = draft_key f) →
  (∀ f, f ∈ fs → draft_key f ∉ map alert_key new) →
  Forall J new → NoDup (map alert_key (new ++ old)) →
  ∃ new' a', for_each fs (raise (map alert_key old)) a = (Ok tt, a') ∧
    alerts a' = new' ++ old ∧ Forall J new' ∧ NoDup (map alert_key (new' ++ old)).
Proof.
  induction fs as [|f fs IH]; intros new a Ha Hnd HJ Hfresh Hnew Hkeys; [by exists new, a|].
  cbn [map] in Hnd. apply NoDup_cons in Hnd as [Hf Hnd]. cbn [for_each].
  destruct (raise_run (map alert_key old) f a) as (a1 & Hr & Hcase). rewrite (bind_ok _ _ _ _ _ Hr).
  assert (∀ g, g ∈ fs → draft_key g ∉ map alert_key new) as Hfresh' by (intros g Hg; apply Hfresh; by right).
  destruct Hcase as [Heq|(id & Hold & Heq)].
  - apply (IH new); try done; [congruence|]. intros g Hg. apply HJ. by right.
  - destruct (HJ f ltac:(by left) id) as [HJf Hkf].
    apply (IH (f id :: new)); try done.
    + by rewrite Heq, Ha.
    + intros g Hg. apply HJ. by right.
    + intros g Hg. cbn [map]. rewrite not_elem_of_cons, Hkf. split; [|by apply Hfresh'].
      intros He. apply Hf. rewrite <-He. by apply list_elem_of_fmap_2.
    + by constructor.
    + cbn. rewrite Hkf. apply NoDup_cons. split; [|done]. rewrite map_app, elem_of_app. intros [Hin|Hin]; [|done].
      by apply (Hfresh f ltac:(by left)).
Qed.

(** C26: Every alert is justified and raised once.  Whatever locations and events arrive, a
    run of the effect only adds alerts, each about an active event, grave enough for a
    member of the active circle, within that member's radius of the position last shown;
    and no two alerts in the store are about the same member and event. *)
Theorem alerts_justified_once unchanged a o a' :
  let st := Root.circles (store a) in
  let events := Events.items (Root.events (store a)) in
  effect unchanged a = (o, a') →
  known_pubkeys (watched_members st) → NoDup (map ev_id events) → NoDup (map alert_key (alerts a)) →
  ∃ new, alerts a' = new ++ alerts a ∧
    Forall (justified (watched_members st) (decryptedLocations st) events) new ∧
    NoDup (map alert_key (alerts a')).
Proof.
  intros st events Hrun Hpks Hids Hkeys. unfold effect in Hrun.
  destruct unchanged; [injection Hrun as _ <-; by exists []|].
  rewrite (bind_ok _ _ a st a) in Hrun by done. rewrite (bind_ok _ _ a events a) in Hrun by done.
  rewrite (bind_ok _ _ a (now_ms (device a)) a) in Hrun by by destruct a.
  destruct (iso_string (int (now_ms (device a)))) as [t|m];
    [rewrite (bind_ok _ _ a t a) in Hrun by done|injection Hrun as _ <-; by exists []].
  cbv zeta in Hrun.
  destruct (raise_all (justified (watched_members st) (decryptedLocations st) events) (alerts a)
    (computeProximityAlerts t (watched_members st) (decryptedLocations st) events) [] a)
    as (new & a1 & Hr & Ha & HJ & Hn); [done|by apply draft_keys_distinct| | |constructor|done|].
  - intros f (m & pk & loc & e & Hm & Hpk & Hloc & He & Hf)%elem_of_alerts id.
    apply alert_of_inv in Hf as (H1' & H2' & H3' & ->). split; [|done].
    by exists m, pk, loc, e.
  - intros f _. apply not_elem_of_nil.
  - assert (a' = a1) as -> by (assert ((o, a') = (Ok tt, a1)) as [=] by (rewrite <-Hrun, <-Hr; done); done).
    exists new. split_and!; [done..|]. by rewrite Ha.
Qed.

End alerts.

(** *** A concrete circle near an event, on an earth where every two points touch *)

#[local] Existing Instance CircleLocation.flat_earth.
#[local] Instance no_trig : Trig :=
  {| math_sin _ := int 0; math_asin _ := int 0; math_atan2 _ _ := int 0; math_sqrt _ := int 0;
     math_hypot _ _ := int 0; math_pow _ _ := int 0 |}.

Definition ana : string := to_hex (to_bytes 32 21).
Definition ana_member : CircleMember :=
  mkCircleMember "c1" None (int 5) "MEDIUM" "2026-01-01T00:00:00.000Z" None (Some ACTIVE) None None (Some ana) None.
Definition family : Circle :=
  mkCircle "c1" None None None None None None None None "2026-01-01T00:00:00.000Z" None.
Definition fire : SafetyEvent :=
  mkSafetyEvent "e1" "FIRE" "HIGH" "Fire in the market" None (lit (-129) 100) (lit 3682 100) None None true
    "ACTIVE" "2026-01-01T00:00:00.000Z" "2026-01-01T00:00:00.000Z" None None None None None None None None.
Definition family_page : App := mkApp fresh_world
  (fold_left Root.dispatch
    [Root.CirclesAction (CircleLoaded family [ana_member]);
     Root.CirclesAction (LocationReceived ana (mkLocation (lit (-129) 100) (lit 3682 100) "now" None None None None));
     Root.EventsAction (Events.EventReceived fire)] Root.initialState).
Definition alerted : App := (effect false family_page).2.

Lemma alerts_justified_once_witness :
  length (alerts alerted) = 1 ∧ ∃ new, alerts alerted = new ++ alerts family_page ∧
    Forall (justified [ana_member] (decryptedLocations (Root.circles (store family_page))) [fire]) new ∧
    NoDup (map alert_key (alerts alerted)).
Proof.
  split; [vm_compute; reflexivity|].
  apply (alerts_justified_once false family_page (effect false family_page).1 alerted).
  - apply surjective_pairing.
  - split; [apply NoDup_singleton|]. apply Forall_singleton. vm_compute. reflexivity.
  - apply NoDup_singleton.
  - constructor.
Defined.

End Proximity.

(** ** [services/routingService.ts] *)

Module Routing.
Import MapApi.

Definition ESCAPE_DISTANCE_KM : num := int 2.
Definition SAFETY_BUFFER_KM : num := lit 2 10.

Record DangerZone : Type := mkZone { dz_lat : num; dz_lng : num; dz_radiusKm : num }.

Record SafeRoute : Type := mkSafe {
  sf_coordinates : list (num * num); sf_distanceKm : num; sf_durationMin : num; sf_label : string
}.

Definition ROUTE_LABELS : list string := ["Best route"; "Route B"; "Route C"].

(** [Math.round(m / 100) / 10] and [Math.round(s / 60)] *)
Definition to_km (m : num) : num := num_round (m / int 100) / int 10.
Definition to_min (s : num) : num := num_round (s / int 60).

Section routing.
Context `{MathLib, Trig, Fetch}.

Definition intersects (coords : list (num * num)) (zone : DangerZone) : bool :=
  num_le (Geo.pointToLineDistance (mkLatLng (dz_lat zone) (dz_lng zone)) coords) (dz_radiusKm zone).

Definition home_route (dangerZones : list DangerZone) (mode : Ui.TravelMode) (i : nat) (result : RouteResult)
    : Ui.HomeRoute :=
  let coords := rt_coordinates result in
  let alertIntersections := length (List.filter (intersects coords) dangerZones) in
  Ui.mkHomeRoute (rt_id result) coords (to_km (rt_distance result)) (to_min (rt_duration result))
    (if Nat.eqb alertIntersections 0 then [] else ["Route intersects an alert area"])
    (default ("Route " +:+ string_of_Z (Z.of_nat (S i))) (ROUTE_LABELS !! i)) mode
    (int (Z.of_nat alertIntersections)).

Definition fetchRouteToHome (from to : LatLng) (dangerZones : list DangerZone) (mode : Ui.TravelMode)
    : prog World (list Ui.HomeRoute) :=
  results ← getRoute from to mode;
  mret (imap (home_route dangerZones mode) (take 3 results)).

(** [pointToLineDistance] to a line whose two ends are the event. *)
Definition near_event (eventLocation : LatLng) (exclusionRadiusKm : num) (c : num * num) : bool :=
  num_lt (Geo.pointToLineDistance (Geo.vertex c)
            [(lng eventLocation, lat eventLocation); (lng eventLocation, lat eventLocation)])
    exclusionRadiusKm.

Definition waypoints (userLocation eventLocation : LatLng) : list LatLng :=
  let safeBearing := Geo.bearingBetween eventLocation userLocation in
  map (Geo.destinationPoint userLocation ESCAPE_DISTANCE_KM)
    [safeBearing; num_rem (safeBearing + int 45) (int 360); num_rem (safeBearing - int 45 + int 360) (int 360)].

Definition safe_route (n : nat) (result : RouteResult) : SafeRoute :=
  let km := to_km (rt_distance result) in
  mkSafe (rt_coordinates result) km (to_min (rt_duration result))
    ("Route " +:+ string_of_Z (Z.of_nat (S n)) +:+ " — " +:+ num_to_string km +:+ " km").

(** One turn of the loop over the waypoints; an error leaves the waypoint out. *)
Definition try_waypoint (userLocation eventLocation : LatLng) (exclusionRadiusKm : num)
    (safeRoutes : list SafeRoute) (wp : LatLng) : prog World (list SafeRoute) :=
  try_catch
    (results ← getRoute userLocation wp Ui.walking;
     match results with
     | [] => mret safeRoutes
     | result :: _ =>
         if existsb (near_event eventLocation exclusionRadiusKm) (rt_coordinates result) then mret safeRoutes
         else mret (safeRoutes ++ [safe_route (length safeRoutes) result])
     end)
    (λ _, mret safeRoutes).

Definition fetchSafeRoutes (userLocation eventLocation : LatLng) (eventRadiusKm : num)
    : prog World (list SafeRoute) :=
  let exclusionRadiusKm := eventRadiusKm + SAFETY_BUFFER_KM in
  safeRoutes ← for_fold (waypoints userLocation eventLocation) []
    (try_waypoint userLocation eventLocation exclusionRadiusKm);
  mret (take 3 safeRoutes).

(** *** Facts *)

(** No vertex of the route lies within the radius of the event. *)
Definition clear_of (eventLocation : LatLng) (exclusionRadiusKm : num) (r : SafeRoute) : Prop :=
  Forall (λ c, near_event eventLocation exclusionRadiusKm c = false) (sf_coordinates r).

Lemma try_waypoint_run user event radius rs wp w :
  ∃ rs' w', try_waypoint user event radius rs wp w = (Ok rs', w') ∧
    (rs' = rs ∨ ∃ result, rs' = rs ++ [safe_route (length rs) result] ∧
       clear_of event radius (safe_route (length rs) result)).
Proof.
  unfold try_waypoint, try_catch, mbind, prog_bind.
  destruct (getRoute user wp Ui.walking w) as [[[|result results]|m] w']; [by eexists _, w'; split; [|left]| |by eexists _, w'; split; [|left]].
  destruct (existsb _ _) eqn:He; [by eexists _, w'; split; [|left]|].
  eexists _, w'. split; [done|]. right. exists result. split; [done|].
  apply Forall_forall. intros c Hc. apply not_true_iff_false. intros Hn.
  rewrite <-not_true_iff_false in He. apply He, existsb_exists. exists c. split; [|done]. by apply list_elem_of_In.
Qed.

Lemma loop_run user event radius wps : ∀ rs w,
  Forall (clear_of event radius) rs →
  ∃ rs' w', for_fold wps rs (try_waypoint user event radius) w = (Ok rs', w') ∧
    Forall (clear_of event radius) rs' ∧ length rs' <= length rs + length wps.
Proof.
  induction wps as [|wp wps IH]; intros rs w Hrs; [exists rs, w; split_and!; [done|done|cbn; lia]|].
  cbn [for_fold]. destruct (try_waypoint_run user event radius rs wp w) as (rs1 & w1 & Hr & Hcase).
  rewrite (bind_ok _ _ _ _ _ Hr).
  assert (Forall (clear_of event radius) rs1 ∧ length rs1 <= S (length rs)) as [Hrs1 Hl].
  { destruct Hcase as [->|(result & -> & Hc)]; [by split; [|lia]|].
    rewrite Forall_app, Forall_singleton, length_app. cbn. by split_and!; [| |lia]. }
  destruct (IH rs1 w1 Hrs1) as (rs' & w' & Hrun & Hall & Hlen). exists rs', w'. split_and!; [done..|cbn; lia].
Qed.

(** A route that is proposed as safe keeps its vertices away from the event: whatever
    the route service answers, errors included, the call resolves with at most three
    routes, and no vertex of any of them is closer to the event than its radius and the
    buffer. *)
Theorem safe_routes_clear user event radius w :
  ∃ rs w', fetchSafeRoutes user event radius w = (Ok rs, w') ∧ length rs <= 3 ∧
    Forall (clear_of event (radius + SAFETY_BUFFER_KM)) rs.
Proof.
  destruct (loop_run user event (radius + SAFETY_BUFFER_KM) (waypoints user event) [] w)
    as (rs & w' & Hrun & Hall & _); [constructor|].
  exists (take 3 rs), w'. unfold fetchSafeRoutes. rewrite (bind_ok _ _ _ _ _ Hrun).
  split_and!; [done|rewrite length_take; lia|by apply Forall_take].
Qed.

End routing.
End Routing.
