(* ===== verification/Settings.v ===== *)
(** * The settings page: [pages/SettingsPage.tsx]

    The handlers with which a user replaces, exports and restores the identity of the
    device and chooses a remote signer.  [Screen] joins the device with the state of the
    page and the files it downloaded.  A dialog of the browser ([window.confirm], the file
    picker) is an argument of the handler that opens it. *)

From Stdlib Require Import Lia.
From S2P Require Import Prelude JsNumber JsString JsStringFacts JsCollection Json.
From S2P Require Import Nostr CryptoModel Platform IdentityStore LocalLists NostrIdentity.
From S2P Require Import CircleKeys Backup BunkerStore Signer.
Import (hints) Vault.

Module Settings.

(** [{ text: string; ok: boolean }] *)
Record Notice : Type := mkNotice { text : string; ok : bool }.

Inductive StaleBadge : Type := BadgeNone | NoBackup | Stale.

Record Page : Type := mkPage {
  keypair : option NostrKeypair;
  nsecInput : string;
  importMsg : option Notice;
  staleBadge : StaleBadge;
  exportPass : string;
  exportPass2 : string;
  shownVaultId : option string;
  backupMsg : option Notice;
  pendingPayload : option (Vault.VaultPayload * string);
  bunkerInput : string;
  signerMsg : option Notice
}.

Definition initial : Page := mkPage None "" None BadgeNone "" "" None None None "" None.

Definition setKeypair v p := mkPage v (nsecInput p) (importMsg p) (staleBadge p) (exportPass p)
  (exportPass2 p) (shownVaultId p) (backupMsg p) (pendingPayload p) (bunkerInput p) (signerMsg p).
Definition setNsecInput v p := mkPage (keypair p) v (importMsg p) (staleBadge p) (exportPass p)
  (exportPass2 p) (shownVaultId p) (backupMsg p) (pendingPayload p) (bunkerInput p) (signerMsg p).
Definition setImportMsg v p := mkPage (keypair p) (nsecInput p) v (staleBadge p) (exportPass p)
  (exportPass2 p) (shownVaultId p) (backupMsg p) (pendingPayload p) (bunkerInput p) (signerMsg p).
Definition setStaleBadge v p := mkPage (keypair p) (nsecInput p) (importMsg p) v (exportPass p)
  (exportPass2 p) (shownVaultId p) (backupMsg p) (pendingPayload p) (bunkerInput p) (signerMsg p).
Definition setExportPasses v v2 p := mkPage (keypair p) (nsecInput p) (importMsg p) (staleBadge p) v
  v2 (shownVaultId p) (backupMsg p) (pendingPayload p) (bunkerInput p) (signerMsg p).
Definition setShownVaultId v p := mkPage (keypair p) (nsecInput p) (importMsg p) (staleBadge p)
  (exportPass p) (exportPass2 p) v (backupMsg p) (pendingPayload p) (bunkerInput p) (signerMsg p).
Definition setBackupMsg v p := mkPage (keypair p) (nsecInput p) (importMsg p) (staleBadge p)
  (exportPass p) (exportPass2 p) (shownVaultId p) v (pendingPayload p) (bunkerInput p) (signerMsg p).
Definition setPendingPayload v p := mkPage (keypair p) (nsecInput p) (importMsg p) (staleBadge p)
  (exportPass p) (exportPass2 p) (shownVaultId p) (backupMsg p) v (bunkerInput p) (signerMsg p).
Definition setBunkerInput v p := mkPage (keypair p) (nsecInput p) (importMsg p) (staleBadge p)
  (exportPass p) (exportPass2 p) (shownVaultId p) (backupMsg p) (pendingPayload p) v (signerMsg p).
Definition setSignerMsg v p := mkPage (keypair p) (nsecInput p) (importMsg p) (staleBadge p)
  (exportPass p) (exportPass2 p) (shownVaultId p) (backupMsg p) (pendingPayload p) (bunkerInput p) v.

(** The device, the page, and what [a.click()] downloaded, the latest last. *)
Record Screen : Type := mkScreen { phone : World; page : Page; downloads : list string }.

Definition call {A} (m : prog World A) : prog Screen A := λ s,
  let '(o, w) := m (phone s) in (o, mkScreen w (page s) (downloads s)).
Definition set (f : Page → Page) : prog Screen unit :=
  modify (λ s, mkScreen (phone s) (f (page s)) (downloads s)).
Definition download (file : string) : prog Screen unit :=
  modify (λ s, mkScreen (phone s) (page s) (downloads s ++ [file])).

(** [void promise]: a rejection is dropped. *)
Definition void {W A} (m : prog W A) : prog W unit := try_catch (_ ← m; mret tt) (λ _, mret tt).

Definition good (s : string) : Page → Page := setBackupMsg (Some (mkNotice s true)).
Definition bad (s : string) : Page → Page := setBackupMsg (Some (mkNotice s false)).
Definition RESTORE_FAILED : string := "Restore failed — your current identity is unchanged.".
Definition INVALID_NSEC : string := "Invalid nsec — make sure you paste a valid nsec1… key.".

(** [`${n}`] of a count *)
Definition count (n : nat) : string := string_of_Z (Z.of_nat n).

Section handlers.
Context `{Aes, Sha256, Random, NostrTools, Nip19, Pbkdf2, UrlParser, Extension, Bunkers}.

(** The effect that runs once *)
Definition mount : prog Screen unit :=
  kp ← call NostrIdentity.loadIdentity; set (setKeypair (Some kp)).

Definition refreshStaleness : prog Screen unit :=
  meta ← call Vault.loadVaultMeta;
  match meta with
  | Some m =>
      if truthy (lastExportedFingerprint m) then
        current ← call Vault.vaultFingerprint;
        set (setStaleBadge (if String.eqb current (lastExportedFingerprint m) then BadgeNone else Stale))
      else set (setStaleBadge NoBackup)
  | None => set (setStaleBadge NoBackup)
  end.

(** The effect that runs when the keypair has changed *)
Definition keypair_effect : prog Screen unit :=
  kp ← gets (λ s, keypair (page s));
  match kp with Some _ => void refreshStaleness | None => mret tt end.

Definition handleImport : prog Screen unit :=
  input ← gets (λ s, nsecInput (page s));
  let trimmed := trim input in
  if negb (truthy trimmed) then mret tt
  else
    imported ← call (NostrIdentity.importFromNsec trimmed);
    match imported with
    | Some kp =>
        _ ← set (setKeypair (Some kp));
        _ ← call Signer.refreshLocalIdentity;
        _ ← set (setNsecInput "");
        set (setImportMsg (Some (mkNotice "Key imported and saved on this device." true)))
    | None => set (setImportMsg (Some (mkNotice INVALID_NSEC false)))
    end.

(** [setTimeout(() => setImportMsg(null), ...)] *)
Definition import_msg_timeout : prog Screen unit := set (setImportMsg None).

Definition handleGenerate (confirmed : bool) : prog Screen unit :=
  if negb confirmed then mret tt
  else
    fresh ← call NostrIdentity.generateNewIdentity;
    _ ← set (setKeypair (Some fresh));
    _ ← call Signer.refreshLocalIdentity;
    set (setImportMsg (Some (mkNotice "New key generated and saved." true))).

Definition handleExport : prog Screen unit :=
  p ← gets page;
  if (str_length (exportPass p) <? 12)%Z then set (bad "Passphrase must be at least 12 characters.")
  else if negb (String.eqb (exportPass p) (exportPass2 p)) then set (bad "Passphrases do not match.")
  else
    try_catch
      (blob ← call (Backup.exportBackup (exportPass p));
       _ ← download blob;
       vid ← call Backup.currentVaultId;
       _ ← set (setShownVaultId (Some vid));
       _ ← set (setExportPasses "" "");
       _ ← set (good "Backup downloaded. Note your Vault ID to verify it later.");
       void refreshStaleness)
      (λ _, set (bad "Export failed on this device.")).

(** [file] is what [file.text()] settles with. *)
Definition handleFilePicked (file : outcome string) (passphrase : string) : prog Screen unit :=
  try_catch
    (text ← lift_outcome file;
     decoded ← lift_outcome (Backup.decryptBackup text passphrase);
     _ ← set (setPendingPayload (Some decoded));
     set (setBackupMsg None))
    (λ e, set (bad e)).

(** The button [Cancel] of the confirmation *)
Definition cancelRestore : prog Screen unit := set (setPendingPayload None).

Definition restored_text (r : Backup.RestoreResult) : string :=
  let failed := length (Backup.circlesFailed r) in
  "Restored your identity and " +:+ count (Backup.circlesRestored r) +:+ " circle(s)" +:+
  (if (0 <? failed)%nat then "; " +:+ count failed +:+ " could not be restored." else ".").

Definition handleConfirmRestore (confirmed : bool) : prog Screen unit :=
  pending ← gets (λ s, pendingPayload (page s));
  match pending with
  | None => mret tt
  | Some (payload, _) =>
      if negb confirmed then mret tt
      else
        try_catch
          (result ← call (Backup.applyRestore payload);
           _ ← set (setPendingPayload None);
           kp ← call NostrIdentity.loadIdentity;
           _ ← set (setKeypair (Some kp));
           _ ← call Signer.refreshLocalIdentity;
           _ ← set (setBackupMsg (Some (mkNotice (restored_text result)
                 (length (Backup.circlesFailed result) =? 0)%nat)));
           void refreshStaleness)
          (λ _, set (bad RESTORE_FAILED))
  end.

Definition signer_notice (s : string) (b : bool) : prog Screen unit :=
  set (setSignerMsg (Some (mkNotice s b))).

Definition handleConnectBunker : prog Screen unit :=
  input ← gets (λ s, bunkerInput (page s));
  if negb (truthy (trim input)) then mret tt
  else
    _ ← set (setSignerMsg None);
    try_catch
      (_ ← call (Signer.connectBunker input);
       _ ← set (setBunkerInput "");
       signer_notice "Remote signer connected. Signing now uses the remote identity." true)
      (λ e, signer_notice e false).

Definition handleReconnectBunker : prog Screen unit :=
  _ ← set (setSignerMsg None);
  try_catch
    (_ ← call Signer.reconnectBunker; signer_notice "Remote signer reconnected." true)
    (λ e, signer_notice e false).

Definition handleDisconnectBunker (confirmed : bool) : prog Screen unit :=
  if negb confirmed then mret tt
  else
    _ ← call Signer.disconnectBunker;
    signer_notice "Remote signer removed. Signing now uses the local identity." true.

(** ** Running the handlers *)

Lemma wp_device_call {A} (m : prog World A) Q E s :
  wp (call m) Q E s ↔
  wp m (λ x w, Q x (mkScreen w (page s) (downloads s)))
       (λ e w, E e (mkScreen w (page s) (downloads s))) (phone s).
Proof. unfold wp, call. by destruct (m (phone s)) as [[] ?]. Qed.

Lemma wp_set f Q E s : wp (set f) Q E s ↔ Q tt (mkScreen (phone s) (f (page s)) (downloads s)).
Proof. done. Qed.

Lemma wp_void {A} (m : prog Screen A) (Q : unit → Screen → Prop) E s :
  wp m (λ _, Q tt) (λ _, Q tt) s → wp (void m) Q E s.
Proof.
  unfold void. rewrite wp_try_catch, wp_bind. intros Hm. eapply wp_mono; [exact Hm|done|done].
Qed.

#[local] Hint Rewrite @wp_device_call @wp_set : wp.

(** What [refreshStaleness] leaves alone: everything but the badge. *)
Definition rebadged (s s' : Screen) : Prop :=
  (∃ fs, phone s' = set_faults fs (phone s)) ∧ downloads s' = downloads s ∧
  ∃ b, page s' = setStaleBadge b (page s).

Lemma wp_refreshStaleness s :
  wp refreshStaleness (λ _, rebadged s) (λ _ s', ∃ fs, s' = mkScreen (set_faults fs (phone s)) (page s) (downloads s)) s.
Proof.
  assert (∀ w fs fs', set_faults fs (set_faults fs' w) = set_faults fs w) as Hset by done.
  unfold refreshStaleness, Vault.loadVaultMeta. wp_run. apply Vault.wp_idbGet; [|intros fs _; by exists fs].
  intros fs _. wp_run.
  assert (∀ b, rebadged s (mkScreen (set_faults fs (phone s)) (setStaleBadge b (page s)) (downloads s)))
    as Hb by (intros b; split_and!; [by eexists|done|by eexists]).
  destruct (identity_db (phone s) !! Vault.META_ID) as [[| |m]|]; try apply Hb. simpl.
  destruct (truthy _); [|apply Hb]. unfold Vault.vaultFingerprint. wp_run.
  apply Vault.wp_loadVault. intros fs' v _ _. simpl. rewrite Hset.
  destruct v as [v|]; wp_run; [destruct (Vault.fingerprintPayload v)|];
    try (split_and!; [by eexists|done|by eexists]). by eexists.
Qed.

Lemma wp_void_refresh s Q E :
  (∀ s', rebadged s s' → Q tt s') → wp (void refreshStaleness) Q E s.
Proof.
  intros HQ. apply wp_void. eapply wp_mono; [apply wp_refreshStaleness|intros ? s2; apply HQ|].
  intros e s' [fs ->]. apply HQ. split_and!; [by eexists|done|]. exists (staleBadge (page s)).
  by destruct (page s).
Qed.

Lemma wp_loadIdentity_cached kp Q E w :
  Platform.keypair w = Some kp → Q kp w → wp NostrIdentity.loadIdentity Q E w.
Proof. intros Hk HQ. unfold NostrIdentity.loadIdentity. wp_run. by rewrite Hk. Qed.

(** The published identity is not part of the vault. *)
Lemma wp_refreshLocal kp Q E w :
  Platform.keypair w = Some kp → (∀ i, Q tt (set_identity i w)) → wp Signer.refreshLocalIdentity Q E w.
Proof.
  intros Hk HQ. unfold Signer.refreshLocalIdentity, Signer.getActiveIdentity. wp_run.
  case_match; [|rewrite wp_ret; specialize (HQ (identity w)); by destruct w].
  unfold Signer.publish_local, NostrIdentity.getCachedKeypair. wp_run. rewrite Hk. wp_run. apply HQ.
Qed.

(** ** The restore tells the truth *)

(** The circles of the payload [p] of which the page says that they were restored are on the
    device, the others have failed, each because a request was rejected or its key is not
    one of AES; and the notice gives the number of the ones and of the others. *)
Definition reports_restore (p : Vault.VaultPayload) (s s' : Screen) : Prop :=
  ∃ dn fl, Backup.accounted (Vault.circles p) (faults (phone s) ≠ []) dn fl (phone s') ∧
    backupMsg (page s') = Some (mkNotice
      ("Restored your identity and " +:+ count (length dn) +:+ " circle(s)" +:+
        match fl with [] => "." | _ => "; " +:+ count (length fl) +:+ " could not be restored." end)
      (match fl with [] => true | _ => false end)).

(** C5: Whatever storage requests are rejected during a restore, the page says what happened.
    Either the identity of the backup is the one in the vault, of the session and on the
    page, and the notice counts the circles of the backup that are on the device, with
    their keys, and those that failed; or the notice says that the identity is unchanged,
    and the vault, the session and the rest of the page are. *)
Theorem restore_tells_the_truth s p vid o s' :
  NostrIdentity.device_ok (phone s) → pendingPayload (page s) = Some (p, vid) →
  is_Some (getPublicKey (Vault.identitySk p)) → Vault.payload_ok p = true →
  handleConfirmRestore true s = (o, s') →
  o = Ok tt ∧
  ((∃ kp, NostrIdentity.keypair_of (Vault.identitySk p) = Ok kp ∧
      Backup.holding (Vault.identitySk p) kp (phone s') ∧
      keypair (page s') = Some kp ∧ pendingPayload (page s') = None ∧ reports_restore p s s') ∨
   (faults (phone s) ≠ [] ∧ NostrIdentity.same_identity (phone s) (phone s') ∧
      page s' = bad RESTORE_FAILED (page s))).
Proof.
  intros Hd Hp Hsk Hok Hrun.
  enough (wp (handleConfirmRestore true) (λ _ s', (∃ kp, NostrIdentity.keypair_of (Vault.identitySk p) = Ok kp ∧
      Backup.holding (Vault.identitySk p) kp (phone s') ∧
      keypair (page s') = Some kp ∧ pendingPayload (page s') = None ∧ reports_restore p s s') ∨
   (faults (phone s) ≠ [] ∧ NostrIdentity.same_identity (phone s) (phone s') ∧
      page s' = bad RESTORE_FAILED (page s))) (λ _ _, False) s) as Hw.
  { unfold wp in Hw. rewrite Hrun in Hw. by destruct o as [[]|]. }
  unfold handleConfirmRestore. wp_run. rewrite Hp. wp_run.
  eapply wp_mono; [by apply Backup.wp_applyRestore| |].
  2: { intros e w (Hf & _ & Hs). wp_run. right. by split_and!. }
  intros r w (kp & dn & fl & Hkp & Hh & -> & Hacc). wp_run.
  apply (wp_loadIdentity_cached kp); [apply Hh|]. wp_run.
  apply (wp_refreshLocal kp); [apply Hh|]. intros i. wp_run.
  apply wp_void_refresh. intros s2 ([fs Hph] & _ & [b Hpg]). left. exists kp.
  unfold reports_restore. rewrite Hph, Hpg. split_and!; [done| |done|done|].
  - by apply (Backup.holding_frame _ _ w).
  - exists dn, fl. split; [exact Hacc|]. cbn -[count]. unfold restored_text. cbn -[count].
    rewrite !length_map. by destruct fl.
Qed.

(** ** What the user is asked to confirm *)

(** The payload that waits for confirmation has a usable identity, and the vault id shown
    for it is the fingerprint of that payload. *)
Definition pending_ok (s : Screen) : Prop :=
  ∀ p vid, pendingPayload (page s) = Some (p, vid) →
    is_Some (getPublicKey (Vault.identitySk p)) ∧
    ∃ fp, Vault.fingerprintPayload p = Ok fp ∧ vid = Vault.formatVaultId fp.

(** A handler, an effect, an edit of an input, or anything another page does to the device *)
Inductive step (s : Screen) : Screen → Prop :=
| step_mount : step s (mount s).2
| step_effect : step s (keypair_effect s).2
| step_import : step s (handleImport s).2
| step_import_timeout : step s (import_msg_timeout s).2
| step_generate b : step s (handleGenerate b s).2
| step_export : step s (handleExport s).2
| step_file file pass : step s (handleFilePicked file pass s).2
| step_cancel : step s (cancelRestore s).2
| step_restore b : step s (handleConfirmRestore b s).2
| step_connect : step s (handleConnectBunker s).2
| step_reconnect : step s (handleReconnectBunker s).2
| step_disconnect b : step s (handleDisconnectBunker b s).2
| step_nsec v : step s (mkScreen (phone s) (setNsecInput v (page s)) (downloads s))
| step_passes v v2 : step s (mkScreen (phone s) (setExportPasses v v2 (page s)) (downloads s))
| step_bunker v : step s (mkScreen (phone s) (setBunkerInput v (page s)) (downloads s))
| step_elsewhere w : step s (mkScreen w (page s) (downloads s)).

Inductive reachable : Screen → Prop :=
| reach_initial w : reachable (mkScreen w initial [])
| reach_step s s' : reachable s → step s s' → reachable s'.

Lemma preserves_call {A} (m : prog World A) : preserves pending_ok (call m).
Proof. intros s Hs. unfold call. by destruct (m (phone s)). Qed.

Lemma preserves_set f : (∀ p, pendingPayload (f p) = pendingPayload p) → preserves pending_ok (set f).
Proof. intros Hf. apply preserves_modify. intros s Hs p vid. simpl. rewrite Hf. apply Hs. Qed.

Lemma preserves_clear : preserves pending_ok (set (setPendingPayload None)).
Proof. by apply preserves_modify. Qed.

Lemma preserves_download file : preserves pending_ok (download file).
Proof. by apply preserves_modify. Qed.

#[local] Hint Resolve preserves_call preserves_clear preserves_download : preserves.
#[local] Hint Extern 1 (preserves pending_ok (set _)) => (apply preserves_set; reflexivity) : preserves.

Lemma preserves_refresh : preserves pending_ok refreshStaleness.
Proof. unfold refreshStaleness. preserves_tac. Qed.

Lemma preserves_void {A} (m : prog Screen A) : preserves pending_ok m → preserves pending_ok (void m).
Proof. intros Hm. unfold void. by preserves_tac. Qed.
#[local] Hint Resolve preserves_refresh preserves_void : preserves.

Lemma preserves_file file pass : preserves pending_ok (handleFilePicked file pass).
Proof.
  intros s Hs. unfold handleFilePicked, try_catch, mbind, prog_bind, lift_outcome.
  destruct file as [text|e]; [|done].
  destruct (Backup.decryptBackup text pass) as [[p vid]|e] eqn:Hopen; [|done].
  intros p' vid' [= <- <-]. by eapply Backup.opened_backup_is_usable.
Qed.

Lemma pending_step s s' : pending_ok s → step s s' → pending_ok s'.
Proof.
  assert (∀ m : prog Screen unit, preserves pending_ok m → pending_ok s → pending_ok (m s).2) as Hm by auto.
  intros Hs Hstep. destruct Hstep; try done; apply Hm; try done;
    unfold mount, keypair_effect, handleImport, import_msg_timeout, handleGenerate, handleExport,
      cancelRestore, handleConfirmRestore, handleConnectBunker, handleReconnectBunker,
      handleDisconnectBunker, signer_notice, bad, good; try solve [preserves_tac].
  apply preserves_file.
Qed.

(** Whatever the user did on the page and whatever happened to the device meanwhile, the
    backup that waits for confirmation can be installed, and the vault id that the user
    compares is the one the device will show once it is. *)
Theorem confirmation_shows_the_vault s p vid :
  reachable s → pendingPayload (page s) = Some (p, vid) →
  is_Some (getPublicKey (Vault.identitySk p)) ∧
  ∃ fp, Vault.fingerprintPayload p = Ok fp ∧ vid = Vault.formatVaultId fp.
Proof.
  intros Hr. enough (pending_ok s) as Hs by apply Hs.
  induction Hr as [w|s s' _ IH Hstep]; [by intros ??|]. by eapply pending_step.
Qed.

(** ** Imports *)

(** Booting a device whose vault holds an unusable key *)
Lemma loadIdentity_unusable sk cs w :
  faults w = [] → Vault.read_vault (identity_db w) = Some (Vault.mkPayload sk cs) →
  getPublicKey sk = None →
  ∃ w', NostrIdentity.loadIdentity (NostrIdentity.reload w)
    = (NostrIdentity.keypair_of (generateSecretKey (draws w)), w').
Proof.
  intros Hf Hv Hpk. set (w2 := NostrIdentity.reload w). unfold NostrIdentity.loadIdentity.
  rewrite (bind_ok _ _ w2 None w2) by done. rewrite (bind_ok _ _ w2 None w2) by done.
  unfold NostrIdentity.init_identity, try_catch.
  assert ((k ← Vault.loadOrCreateSecretKey new_secret_key; NostrIdentity.cache_keypair k) w2
    = (Throw "invalid secret key", w2)) as Hload.
  { rewrite (bind_ok _ _ w2 sk w2) by by apply (Vault.loadOrCreate_stored (Vault.mkPayload sk cs)).
    unfold NostrIdentity.cache_keypair, NostrIdentity.keypair_of. by rewrite Hpk. }
  unfold mbind at 1, prog_bind at 1. rewrite Hload.
  destruct (generated_valid (draws w)) as [pk Hg].
  rewrite (bind_ok _ _ w2 (generateSecretKey (draws w)) (set_draws (S (draws w)) w2)) by done.
  unfold NostrIdentity.cache_keypair, NostrIdentity.keypair_of. rewrite Hg. by eexists.
Qed.

(** An import that is reported as invalid may have replaced the identity: the key is stored
    before its public key is derived, so a well-formed [nsec] that holds no valid key is
    rejected with a notice while the session goes on with the former key; but the vault now
    holds the invalid one, and every later start of the page falls back to a new key. *)
Theorem rejected_import_replaces_identity s sk :
  NostrIdentity.device_ok (phone s) → faults (phone s) = [] →
  truthy (trim (nsecInput (page s))) = true →
  nip19_decode (trim (trim (nsecInput (page s)))) = Some (Nsec sk) → getPublicKey sk = None →
  ∃ s', handleImport s = (Ok tt, s') ∧
    page s' = setImportMsg (Some (mkNotice INVALID_NSEC false)) (page s) ∧
    Platform.keypair (phone s') = Platform.keypair (phone s) ∧
    NostrIdentity.stored_identity (phone s') = Some sk ∧
    ∃ w, NostrIdentity.loadIdentity (NostrIdentity.reload (phone s'))
      = (NostrIdentity.keypair_of (generateSecretKey (draws (phone s'))), w).
Proof.
  intros Hd Hf Ht Hdec Hpk.
  destruct (NostrIdentity.saveSecretKey_device sk (phone s) Hd Hf) as (w1 & cs & Hrun & Hf1 & _ & Hv).
  assert (NostrIdentity.importFromNsec (trim (nsecInput (page s))) (phone s) = (Ok None, w1)) as Himp.
  { unfold NostrIdentity.importFromNsec, try_catch. rewrite Hdec. unfold NostrIdentity.adopt_secret_key.
    unfold mbind at 1, prog_bind at 1. rewrite (bind_ok _ _ _ _ _ Hrun).
    unfold NostrIdentity.cache_keypair, NostrIdentity.keypair_of. by rewrite Hpk. }
  exists (mkScreen w1 (setImportMsg (Some (mkNotice INVALID_NSEC false)) (page s)) (downloads s)).
  split_and!; [|done| | |].
  - unfold handleImport. rewrite (bind_ok _ _ s (nsecInput (page s)) s) by done. rewrite Ht. cbn [negb].
    rewrite (bind_ok _ _ s None (mkScreen w1 (page s) (downloads s))); [done|].
    unfold call. by rewrite Himp.
  - cbn [phone]. apply (preserves_run (λ w, Platform.keypair w = Platform.keypair (phone s)) _ _ _ _
      (Vault.beside_saveSecretKey (λ w, Platform.keypair w = Platform.keypair (phone s))
        (λ w _ _ _ Hw, conj Hw (conj Hw Hw)) _) Hrun eq_refl).
  - cbn [phone]. unfold NostrIdentity.stored_identity. by rewrite Hv.
  - cbn [phone]. by apply (loadIdentity_unusable sk cs).
Qed.

(** ** Exports *)

Lemma refresh_current fp v s :
  faults (phone s) = [] → truthy fp = true → Vault.read_vault (identity_db (phone s)) = Some v →
  Vault.fingerprintPayload v = Ok fp → identity_db (phone s) !! Vault.META_ID = Some (IdMeta (mkVaultMeta fp)) →
  void refreshStaleness s = (Ok tt, mkScreen (phone s) (setStaleBadge BadgeNone (page s)) (downloads s)).
Proof.
  intros Hf Ht Hv Hfp Hm. unfold void, try_catch.
  rewrite (bind_ok _ _ s tt (mkScreen (phone s) (setStaleBadge BadgeNone (page s)) (downloads s))); [done|].
  unfold refreshStaleness.
  rewrite (bind_ok _ _ s (Some (mkVaultMeta fp)) s).
  2: { destruct s as [w p d]. unfold call, Vault.loadVaultMeta, Vault.idbGet, mbind, prog_bind. cbn in *.
       rewrite request_no_fault by done. cbn. by rewrite Hm. }
  cbn [lastExportedFingerprint]. rewrite Ht.
  rewrite (bind_ok _ _ s fp s); [by rewrite String.eqb_refl|].
  destruct s as [w p d]. unfold call, Vault.vaultFingerprint. cbn in *.
  rewrite (bind_ok _ _ w (Some v) w) by (by rewrite Vault.loadVault_ok, Hv).
  unfold lift_outcome. by rewrite Hfp.
Qed.

Lemma fingerprint_truthy p fp : Vault.fingerprintPayload p = Ok fp → truthy fp = true.
Proof.
  unfold Vault.fingerprintPayload. destruct (getPublicKey _); [|done]. intros [= <-].
  unfold Vault.sha256Hex. match goal with |- context [sha256 ?b] => pose proof (sha256_length b) end.
  by destruct (sha256 _).
Qed.

(** What an announced export leaves on the page: the vault id, the badge, and no passphrase *)
Definition announced (vid : string) (badge : StaleBadge) (p : Page) : Page :=
  setStaleBadge badge (good "Backup downloaded. Note your Vault ID to verify it later."
    (setExportPasses "" "" (setShownVaultId (Some vid) p))).

(** With storage that answers *)
Lemma export_answered s v fp :
  let pass := exportPass (page s) in
  NostrIdentity.device_ok (phone s) → faults (phone s) = [] →
  Vault.read_vault (identity_db (phone s)) = Some v → Vault.fingerprintPayload v = Ok fp →
  (12 <= str_length pass)%Z → exportPass2 (page s) = pass →
  ∃ file s', handleExport s = (Ok tt, s') ∧ downloads s' = downloads s ++ [file] ∧
    Backup.decryptBackup file pass = Ok (Vault.normalize v, Vault.formatVaultId fp) ∧
    NostrIdentity.same_identity (phone s) (phone s') ∧
    page s' = announced (Vault.formatVaultId fp) BadgeNone (page s).
Proof.
  intros pass Hd Hf Hv Hfp Hlen Hsame.
  destruct (Backup.exportBackup_ok pass v fp (phone s) Hf Hv Hfp) as (file & w & Hrun & Hf1 & Hk1 & Hdb).
  assert (Vault.read_vault (identity_db w) = Some v) as Hv1 by (by rewrite Hdb, Backup.read_vault_meta).
  assert (Backup.currentVaultId w = (Ok (Vault.formatVaultId fp), w)) as Hid.
  { unfold Backup.currentVaultId, Vault.vaultFingerprint. rewrite (bind_ok _ _ w fp w); [done|].
    rewrite (bind_ok _ _ w (Some v) w) by (by rewrite Vault.loadVault_ok, Hv1).
    unfold lift_outcome. by rewrite Hfp. }
  set (s1 := mkScreen w (good "Backup downloaded. Note your Vault ID to verify it later."
    (setExportPasses "" "" (setShownVaultId (Some (Vault.formatVaultId fp)) (page s)))) (downloads s ++ [file])).
  exists file, (mkScreen w (setStaleBadge BadgeNone (page s1)) (downloads s1)). split_and!.
  - unfold handleExport. rewrite (bind_ok _ _ s (page s) s) by done. fold pass.
    rewrite (proj2 (Z.ltb_ge _ _) Hlen), Hsame, String.eqb_refl. cbn [negb]. unfold try_catch.
    rewrite (bind_ok _ _ s file (mkScreen w (page s) (downloads s))) by (unfold call; by rewrite Hrun).
    rewrite (bind_ok _ _ _ tt (mkScreen w (page s) (downloads s ++ [file]))) by done.
    rewrite (bind_ok _ _ _ (Vault.formatVaultId fp) (mkScreen w (page s) (downloads s ++ [file])))
      by (unfold call; cbn [phone]; by rewrite Hid).
    do 3 (erewrite bind_ok by reflexivity).
    assert (void refreshStaleness s1 = (Ok tt, mkScreen w (setStaleBadge BadgeNone (page s1)) (downloads s1))) as Href.
    { apply (refresh_current fp v); cbn [s1 phone]; [done|by eapply fingerprint_truthy|done|done|].
      by rewrite Hdb, lookup_insert_eq. }
    subst s1. cbn [page downloads phone] in Href |- *. by rewrite Href.
  - done.
  - apply (Backup.backup_roundtrip pass (phone s) file w v fp); [done|done|by apply Hd|done|].
    by rewrite Backup.fingerprint_normalize.
  - split; [|done]. cbn [phone]. by rewrite Hv1, Hv.
  - done.
Qed.

Lemma wp_currentVaultId v fp Q E w :
  Vault.read_vault (identity_db w) = Some v → Vault.fingerprintPayload v = Ok fp →
  (∀ fs x, x = fp ∨ x = "" → Q (Vault.formatVaultId x) (set_faults fs w)) →
  wp Backup.currentVaultId Q E w.
Proof.
  intros Hv Hfp HQ. unfold Backup.currentVaultId. rewrite wp_bind.
  eapply Backup.wp_vaultFingerprint; [exact Hv|exact Hfp|]. intros fs x Hx. rewrite wp_ret. by apply HQ.
Qed.

(** C6: Whatever storage requests are rejected, an export that the page announces is one that
    can be restored: with a passphrase of at least twelve characters typed twice alike,
    either a file is downloaded that opens with that passphrase to the vault of the device,
    and the passphrases are forgotten; or a request was rejected, nothing is downloaded and
    the page says that the export failed.  The vault and the session are unchanged.  The
    vault id shown is the one that a restore will show for the file, unless a request was
    rejected: then it may be ["--"].  With no rejected request the badge says that the
    backup is current. *)
Theorem export_is_recoverable s v fp o s' :
  let pass := exportPass (page s) in
  NostrIdentity.device_ok (phone s) →
  Vault.read_vault (identity_db (phone s)) = Some v → Vault.fingerprintPayload v = Ok fp →
  (12 <= str_length pass)%Z → exportPass2 (page s) = pass →
  handleExport s = (o, s') →
  o = Ok tt ∧ NostrIdentity.same_identity (phone s) (phone s') ∧
  ((∃ file vid badge, downloads s' = downloads s ++ [file] ∧
      Backup.decryptBackup file pass = Ok (Vault.normalize v, Vault.formatVaultId fp) ∧
      page s' = announced vid badge (page s) ∧
      (vid = Vault.formatVaultId fp ∨ vid = "--") ∧
      (faults (phone s) = [] → vid = Vault.formatVaultId fp ∧ badge = BadgeNone)) ∨
   (faults (phone s) ≠ [] ∧ downloads s' = downloads s ∧
      page s' = bad "Export failed on this device." (page s))).
Proof.
  intros pass Hd Hv Hfp Hlen Hsame Hrun. destruct (decide (faults (phone s) = [])) as [Hf|Hf].
  { destruct (export_answered s v fp) as (file & s2 & Hrun2 & Hdl & Hopen & Hid & Hpg); [done..|].
    rewrite Hrun in Hrun2. injection Hrun2 as -> ->. split_and!; [done|done|]. left.
    exists file, (Vault.formatVaultId fp), BadgeNone. split_and!; auto. }
  enough (wp handleExport (λ _ s', NostrIdentity.same_identity (phone s) (phone s') ∧
    ((∃ file vid badge, downloads s' = downloads s ++ [file] ∧
      Backup.decryptBackup file pass = Ok (Vault.normalize v, Vault.formatVaultId fp) ∧
      page s' = announced vid badge (page s) ∧ (vid = Vault.formatVaultId fp ∨ vid = "--")) ∨
     (downloads s' = downloads s ∧ page s' = bad "Export failed on this device." (page s))))
    (λ _ _, False) s) as Hw.
  { unfold wp in Hw. rewrite Hrun in Hw. destruct o as [[]|]; [|done]. split; [done|].
    destruct Hw as [Hid [(file & vid & badge & Hw)|[Hdl Hpg]]]; (split; [done|]); [left|right; done].
    exists file, vid, badge. naive_solver. }
  unfold handleExport. wp_run. fold pass. rewrite (proj2 (Z.ltb_ge _ _) Hlen), Hsame, String.eqb_refl. cbn [negb].
  wp_run. eapply Backup.wp_exportBackup; [exact Hv|by apply Hd|exact Hfp| |].
  2: { intros e w Hk Hr. wp_run. split; [split; [by rewrite Hr|done]|by right]. }
  intros file w Hopen Hk Hr. unfold download. wp_run.
  eapply wp_currentVaultId; [exact Hr|exact Hfp|]. intros fs x Hx. wp_run.
  apply wp_void_refresh. intros s2 ([fs' Hph] & Hdl & [badge Hpg]). rewrite Hph, Hpg. cbn in Hdl |- *.
  split; [split; [by cbn; rewrite Hr|done]|]. left. exists file, (Vault.formatVaultId x), badge.
  split_and!; [done|done|done|]. destruct Hx as [->| ->]; [by left|by right].
Qed.

End handlers.

(** ** A concrete page *)

#[local] Existing Instance Backup.toy_pbkdf2.
#[local] Existing Instance Signer.sample_urls.
#[local] Existing Instance Signer.no_extension.
#[local] Existing Instance Signer.sample_bunker.

Definition PASS : string := "correct horse".
Definition owner_page : Screen :=
  mkScreen Vault.stored_world (setExportPasses PASS PASS (setNsecInput " nsec100 " initial)) [].

Lemma stored_device_ok : NostrIdentity.device_ok Vault.stored_world.
Proof.
  split; [vm_compute; reflexivity|]. intros v.
  assert (Vault.read_vault (identity_db Vault.stored_world) = Some (Vault.normalize Vault.sample_payload))
    as -> by (vm_compute; reflexivity).
  by intros [= <-].
Qed.

(** The page of the owner while the requests of the schedule [fs] are rejected *)
Definition troubled_page (fs : list bool) : Screen :=
  mkScreen (set_faults fs Vault.stored_world) (page owner_page) [].

Lemma export_is_recoverable_witness :
  (∃ file, downloads (handleExport owner_page).2 = [file] ∧
    Backup.decryptBackup file PASS =
      Ok (Vault.normalize (Vault.normalize Vault.sample_payload), Vault.formatVaultId Backup.sample_fp)) ∧
  downloads (handleExport (troubled_page [true])).2 = [].
Proof.
  split.
  - destruct (export_is_recoverable owner_page (Vault.normalize Vault.sample_payload) Backup.sample_fp
      (handleExport owner_page).1 (handleExport owner_page).2)
      as (_ & _ & [(file & vid & badge & Hd & Hopen & _)|[[] _]]); [apply stored_device_ok| | | | | | |].
    + vm_compute. reflexivity.
    + vm_compute. reflexivity.
    + vm_compute. discriminate.
    + reflexivity.
    + by destruct (handleExport owner_page).
    + exists file. exact (conj Hd Hopen).
    + reflexivity.
  - destruct (export_is_recoverable (troubled_page [true]) (Vault.normalize Vault.sample_payload) Backup.sample_fp
      (handleExport (troubled_page [true])).1 (handleExport (troubled_page [true])).2)
      as (_ & _ & [(file & vid & badge & _ & _ & Hpg & _)|(_ & Hd & _)]); [apply stored_device_ok| | | | | | |].
    + vm_compute. reflexivity.
    + vm_compute. reflexivity.
    + vm_compute. discriminate.
    + reflexivity.
    + by destruct (handleExport (troubled_page [true])).
    + exfalso. apply (f_equal exportPass) in Hpg. vm_compute in Hpg. discriminate.
    + exact Hd.
Defined.

(** When only the read of the vault for its id is rejected, a good backup is announced with
    the id ["--"]; when only the one that fingerprints what was exported is, the badge says
    that there is no backup. *)
Example export_shows_no_id :
  let s := (handleExport (troubled_page [false; false; false; false; false; true])).2 in
  shownVaultId (page s) = Some "--" ∧ backupMsg (page s) =
    Some (mkNotice "Backup downloaded. Note your Vault ID to verify it later." true).
Proof. by vm_compute. Qed.

Example export_badge_no_backup :
  let s := (handleExport (troubled_page [false; false; true])).2 in
  staleBadge (page s) = NoBackup ∧ length (downloads s) = 1.
Proof. by vm_compute. Qed.

Lemma rejected_import_replaces_identity_witness :
  ∃ s', handleImport owner_page = (Ok tt, s') ∧
    NostrIdentity.stored_identity (phone s') = Some (bytes_of_str (String (chr 0) "")).
Proof.
  destruct (rejected_import_replaces_identity owner_page (bytes_of_str (String (chr 0) "")))
    as (s' & Hrun & _ & _ & Hs & _); [apply stored_device_ok|reflexivity..|].
  exists s'. exact (conj Hrun Hs).
Defined.

(** The vault of another device, about to replace this one's identity while the requests of
    the schedule [fs] are rejected *)
Definition restoring_page (fs : list bool) : Screen :=
  mkScreen (set_faults fs Vault.stored_world)
    (setPendingPayload (Some (Vault.sample_payload, "ID")) initial) [].

Lemma restore_tells_the_truth_witness :
  backupMsg (page (handleConfirmRestore true (restoring_page [true; true; true])).2) =
    Some (mkNotice RESTORE_FAILED false) ∧
  reports_restore Vault.sample_payload (restoring_page (repeat false 8 ++ [true]))
    (handleConfirmRestore true (restoring_page (repeat false 8 ++ [true]))).2.
Proof.
  split.
  - destruct (restore_tells_the_truth (restoring_page [true; true; true]) Vault.sample_payload "ID" (Ok tt)
      (handleConfirmRestore true (restoring_page [true; true; true])).2)
      as [_ [(kp & _ & _ & _ & _ & dn & fl & _ & Hmsg)|(_ & _ & ->)]].
    + apply stored_device_ok.
    + reflexivity.
    + vm_compute. by eexists.
    + reflexivity.
    + vm_compute. reflexivity.
    + exfalso. revert Hmsg. vm_compute. destruct fl; discriminate.
    + reflexivity.
  - destruct (restore_tells_the_truth (restoring_page (repeat false 8 ++ [true]))
      Vault.sample_payload "ID" (Ok tt)
      (handleConfirmRestore true (restoring_page (repeat false 8 ++ [true]))).2)
      as [_ [(kp & _ & _ & _ & _ & Hr)|(_ & _ & Hpg)]].
    + apply stored_device_ok.
    + reflexivity.
    + vm_compute. by eexists.
    + reflexivity.
    + vm_compute. reflexivity.
    + exact Hr.
    + exfalso. apply (f_equal pendingPayload) in Hpg. vm_compute in Hpg. discriminate.
Defined.

(** A circle can be counted as restored and not be in the vault: a read of the vault that is
    rejected on the way makes the addition to it do nothing. *)
Example restored_beside_the_vault :
  let fresh := mkScreen (set_faults (repeat false 6 ++ [true]) fresh_world)
    (setPendingPayload (Some (Vault.sample_payload, "ID")) initial) [] in
  let s := (handleConfirmRestore true fresh).2 in
  backupMsg (page s) = Some (mkNotice "Restored your identity and 2 circle(s)." true) ∧
  length ∘ Vault.circles <$> Vault.read_vault (identity_db (phone s)) = Some 1.
Proof. by vm_compute. Qed.

Definition picked_page : Screen := (handleFilePicked (Ok Backup.exported) PASS owner_page).2.

Lemma confirmation_shows_the_vault_witness :
  ∃ p vid, pendingPayload (page picked_page) = Some (p, vid) ∧
    ∃ fp, Vault.fingerprintPayload p = Ok fp ∧ vid = Vault.formatVaultId fp.
Proof.
  destruct (pendingPayload (page picked_page)) as [[p vid]|] eqn:Hp; [|vm_compute in Hp; discriminate].
  exists p, vid. split; [done|]. apply (confirmation_shows_the_vault picked_page p vid); [|exact Hp].
  eapply reach_step; [|apply (step_file owner_page)].
  eapply reach_step; [|apply (step_passes (mkScreen Vault.stored_world (setNsecInput " nsec100 " initial) []))].
  eapply reach_step; [apply (reach_initial Vault.stored_world)|apply step_nsec].
Defined.

End Settings.
