(* ===== verification/HomeRoute.v ===== *)
(** * The home panel: [components/HomeRoutePanel.tsx]

    The search for a home address (debounced, abortable, and answered in any order), the
    saving and clearing of the home location, and the route previews.  [Screen] joins the
    page with the state of the panel; what a request of the panel settles with is an
    argument of the step that settles it, since other steps may come first. *)

From Stdlib Require Import QArith Lia.
From S2P Require Import Prelude JsNumber JsString JsStringFacts JsCollection Json.
From S2P Require Import JsonFacts SharedTypes Nostr CryptoModel Platform IdentityStore HomeLocation EventsSlice.
From S2P Require Import CircleLocation SmallSlices Web Api Geo.
Close Scope Q_scope.
Import MapApi.

Module HomeRoute.

(** [GeocodeSuggestion] of [services/mapApiService.ts] *)
Record Suggestion : Type := mkSuggestion { sg_id : string; sg_label : string; sg_lat : num; sg_lng : num }.

Inductive Activity : Type := Idle | Searching | Saving | RoutingNow.

(** A search whose request is under way: its sequence number, its text, and whether its
    controller was aborted. *)
Record Search : Type := mkSearch { sq_seq : nat; sq_value : string; sq_aborted : bool }.

(** The search box.  [debounce] is the pending timer with the sequence number and the text
    of the effect that set it; [searchAbort] names the search of the controller in the ref;
    [effectSequence] is the [sequence] of the effect that is mounted. *)
Record Finder : Type := mkFinder {
  query : string; suggestions : list Suggestion; debounce : option (nat * string);
  searchAbort : option nat; searchSequence : nat; effectSequence : nat; searches : list Search
}.

(** A route request that is under way, with what it was asked for. *)
Record Ask : Type := mkAsk {
  ra_location : LatLng; ra_home : LatLng; ra_zones : list Routing.DangerZone; ra_mode : Ui.TravelMode
}.

Record Panel : Type := mkPanel {
  finder : Finder; pendingHome : option Suggestion; mode : Ui.TravelMode; selectedIndex : nat;
  activity : Activity; message : option string; asks : list Ask;
  (* what [onRoutePreview] was called with, the latest last *)
  previews : list (list Ui.HomeRoute * nat)
}.

Definition setFinder v p := mkPanel v (pendingHome p) (mode p) (selectedIndex p) (activity p) (message p) (asks p) (previews p).
Definition setPendingHome v p := mkPanel (finder p) v (mode p) (selectedIndex p) (activity p) (message p) (asks p) (previews p).
Definition setMode v p := mkPanel (finder p) (pendingHome p) v (selectedIndex p) (activity p) (message p) (asks p) (previews p).
Definition setSelectedIndex v p := mkPanel (finder p) (pendingHome p) (mode p) v (activity p) (message p) (asks p) (previews p).
Definition setActivity v p := mkPanel (finder p) (pendingHome p) (mode p) (selectedIndex p) v (message p) (asks p) (previews p).
Definition setMessage v p := mkPanel (finder p) (pendingHome p) (mode p) (selectedIndex p) (activity p) v (asks p) (previews p).
Definition setAsks v p := mkPanel (finder p) (pendingHome p) (mode p) (selectedIndex p) (activity p) (message p) v (previews p).
Definition addPreview v p := mkPanel (finder p) (pendingHome p) (mode p) (selectedIndex p) (activity p) (message p) (asks p) (previews p ++ [v]).

(** ** The search box *)

(** [searchAbort.current?.abort()] *)
Definition abort_current (f : Finder) : list Search :=
  map (λ q, if bool_decide (searchAbort f = Some (sq_seq q)) then mkSearch (sq_seq q) (sq_value q) true else q)
    (searches f).

(** The cleanup of the search effect, which a run for a short text does not return *)
Definition cleanup (f : Finder) : Finder :=
  if (str_length (trim (query f)) <? 2)%Z then f
  else mkFinder (query f) (suggestions f) None (searchAbort f)
    (if searchSequence f =? effectSequence f then S (searchSequence f) else searchSequence f)%nat
    (effectSequence f) (abort_current f).

(** The search effect *)
Definition search_effect (p : Panel) : Panel :=
  let f := finder p in
  let sequence := S (searchSequence f) in
  let value := trim (query f) in
  if (str_length value <? 2)%Z then
    setActivity Idle (setFinder (mkFinder (query f) [] None (searchAbort f) sequence sequence (abort_current f)) p)
  else
    setActivity Searching (setFinder
      (mkFinder (query f) (suggestions f) (Some (sequence, value)) (searchAbort f) sequence sequence (abort_current f)) p).

Definition with_query (q : string) (f : Finder) : Finder :=
  mkFinder q (suggestions f) (debounce f) (searchAbort f) (searchSequence f) (effectSequence f) (searches f).

Definition initial : Panel :=
  search_effect (mkPanel (mkFinder "" [] None None 0 0 []) None Ui.walking 0 Idle None [] []).

(** [setQuery(q)]: the effect runs again when the text has changed. *)
Definition setQuery (q : string) (p : Panel) : Panel :=
  if String.eqb q (query (finder p)) then p else search_effect (setFinder (with_query q (cleanup (finder p))) p).

(** The other dependency of the effect *)
Definition proximity_changed (p : Panel) : Panel := search_effect (setFinder (cleanup (finder p)) p).

(** The debounce timer fires: the request is sent. *)
Definition fire (p : Panel) : Panel :=
  let f := finder p in
  match debounce f with
  | Some (sequence, value) =>
      setFinder (mkFinder (query f) (suggestions f) None (Some sequence) (searchSequence f) (effectSequence f)
        (searches f ++ [mkSearch sequence value false])) p
  | None => p
  end.

Definition SEARCH_UNAVAILABLE : string := "Home search is unavailable. Try again.".

Definition set_suggestions (l : list Suggestion) (p : Panel) : Panel :=
  let f := finder p in
  setFinder (mkFinder (query f) l (debounce f) (searchAbort f) (searchSequence f) (effectSequence f) (searches f)) p.

(** The answer to the search [q] *)
Definition answer (q : Search) (o : outcome (list Suggestion)) (p : Panel) : Panel :=
  let current := (sq_seq q =? searchSequence (finder p))%nat in
  let body :=
    match o with
    | Ok results => if negb current then p else setMessage None (set_suggestions results p)
    | Throw e =>
        if sq_aborted q || isAbortError e then p
        else if negb current then p
        else setMessage (Some SEARCH_UNAVAILABLE) (set_suggestions [] p)
    end in
  if current then setActivity Idle body else body.

(** The [k]-th search under way settles. *)
Definition settle (k : nat) (o : outcome (list Suggestion)) (p : Panel) : Panel :=
  let f := finder p in
  match searches f !! k with
  | Some q =>
      answer q o (setFinder (mkFinder (query f) (suggestions f) (debounce f) (searchAbort f) (searchSequence f)
        (effectSequence f) (delete k (searches f))) p)
  | None => p
  end.

(** The results of [geocodeAddress], of the declared shape *)
Definition suggestion_of (v : json) : option Suggestion :=
  id ← str_field v "id"; label ← str_field v "label"; lat ← num_field v "lat"; lng ← num_field v "lng";
  Some (mkSuggestion id label lat lng).
Definition suggestions_of (v : option json) : option (list Suggestion) := (v ≫= as_arr) ≫= mapM suggestion_of.

Definition chooseSuggestion (s : Suggestion) (p : Panel) : Panel :=
  setMessage None (setQuery "" (set_suggestions [] (setPendingHome (Some s) p))).

(** ** Home and routes *)

Abbreviation Screen := (Web.Screen Panel).

Definition ui_dispatch (a : Ui.action) : prog Screen unit := send (Root.UiAction a).
Definition say (m : string) : prog Screen unit := update (setMessage (Some m)).

Definition HOME_SAVED : string := "Home saved, encrypted and stored only on this device.".
Definition HOME_NOT_SAVED : string :=
  "Home could not be saved on this device. Check private browsing or storage settings.".
Definition HOME_CLEARED : string := "Saved home cleared from this device.".
Definition HOME_NOT_CLEARED : string := "Saved home could not be cleared. Try again.".
Definition NO_ROUTE : string := "No route preview is available for this trip.".
Definition ROUTE_UNAVAILABLE : string :=
  "Route preview provider could not be reached. Check your connection and try again.".

Definition home_of (s : Suggestion) : HomeLocation.HomeLocation :=
  HomeLocation.mkHome (sg_lat s) (sg_lng s) (sg_label s).

(** [(Number(event.radius_meters) || 400) / 1000] *)
Definition danger_radius (e : SafetyEvent) : num :=
  let r := match ev_radius_meters e with Some (Some r) => r | Some None => int 0 | None => NaN end in
  num_div (if num_zero r || bool_decide (r = NaN) then int 400 else r) (int 1000).
Definition danger_zones (events : list SafetyEvent) : list Routing.DangerZone :=
  map (λ e, Routing.mkZone (ev_lat e) (ev_lng e) (danger_radius e)) (List.filter ev_is_active events).

Section handlers.
Context `{Aes, Sha256, Random, NostrTools}.

Definition confirmHome : prog Screen unit :=
  pending ← gets (λ s, pendingHome (page s));
  match pending with
  | None => mret tt
  | Some sg =>
      _ ← update (setActivity Saving);
      try_finally
        (try_catch
          (_ ← call (HomeLocation.saveHomeLocation (home_of sg));
           _ ← ui_dispatch (Ui.SetHomeLocation (home_of sg));
           _ ← ui_dispatch Ui.HomeRoutesCleared;
           _ ← update (setPendingHome None);
           say HOME_SAVED)
          (λ _, say HOME_NOT_SAVED))
        (update (setActivity Idle))
  end.

Definition clearSavedHome : prog Screen unit :=
  try_catch
    (_ ← call HomeLocation.clearHomeLocation;
     _ ← ui_dispatch Ui.ClearHomeLocation;
     _ ← ui_dispatch Ui.HomeRoutesCleared;
     _ ← update (setPendingHome None);
     say HOME_CLEARED)
    (λ _, say HOME_NOT_CLEARED).

(** The panel loads the home of the device once ([pages/LiveMapPage.tsx]); [active] is
    false when the page was left meanwhile. *)
Definition load_home (active : bool) : prog Screen unit :=
  home ← call HomeLocation.loadHomeLocation;
  match home with
  | Some h => if active then ui_dispatch (Ui.SetHomeLocation h) else mret tt
  | None => mret tt
  end.

(** Up to the request; [location] is the position of the device. *)
Definition requestRoute (location : option LatLng) : prog Screen unit :=
  home ← gets (λ s, Ui.homeLocation (Root.ui (store (app s))));
  events ← gets (λ s, Events.items (Root.events (store (app s))));
  m ← gets (λ s, mode (page s));
  match home, location with
  | Some home, Some location =>
      _ ← update (setActivity RoutingNow);
      _ ← update (setMessage None);
      _ ← ui_dispatch Ui.HomeRoutesCleared;
      _ ← update (setSelectedIndex 0);
      update (λ p, setAsks (asks p ++ [mkAsk location (mkLatLng (HomeLocation.lat home) (HomeLocation.lng home))
        (danger_zones events) m]) p)
  | _, _ => mret tt
  end.

(** The request that [ask] makes *)
Definition route_request `{CircleLocation.MathLib, Trig, Fetch} (ask : Ask) : prog World (list Ui.HomeRoute) :=
  Routing.fetchRouteToHome (ra_location ask) (ra_home ask) (ra_zones ask) (ra_mode ask).

(** The [k]-th route request settles. *)
Definition route_settled (k : nat) (o : outcome (list Ui.HomeRoute)) : prog Screen unit :=
  pending ← gets (λ s, asks (page s) !! k);
  match pending with
  | None => mret tt
  | Some _ =>
      _ ← update (λ p, setAsks (delete k (asks p)) p);
      _ ← match o with
          | Ok [] => say NO_ROUTE
          | Ok next =>
              _ ← ui_dispatch (Ui.HomeRoutesSet next);
              _ ← update (addPreview (next, 0));
              say (string_of_Z (Z.of_nat (length next)) +:+ " route preview" +:+
                   (if (length next =? 1)%nat then "" else "s") +:+ " loaded.")
          | Throw _ => say ROUTE_UNAVAILABLE
          end;
      update (setActivity Idle)
  end.

Definition selectRoute (index : nat) : prog Screen unit :=
  routes ← gets (λ s, Ui.homeRoutes (Root.ui (store (app s))));
  _ ← update (setSelectedIndex index);
  _ ← ui_dispatch (Ui.HomeRouteSelect (int (Z.of_nat index)));
  _ ← update (addPreview (routes, index));
  say ("Route preview " +:+ string_of_Z (Z.of_nat (S index)) +:+ " selected.").

(** A button of the travel modes *)
Definition chooseMode (m : Ui.TravelMode) : prog Screen unit :=
  _ ← update (setMode m); ui_dispatch Ui.HomeRoutesCleared.

(** ** Answers in any order *)

(** The searches under way and the pending timer belong to the text of the box, or to a
    text it no longer holds. *)
Definition ordered (p : Panel) : Prop :=
  let f := finder p in
  effectSequence f = searchSequence f ∧
  (∀ n v, debounce f = Some (n, v) → n = searchSequence f ∧ v = trim (query f)) ∧
  ∀ q, q ∈ searches f → sq_seq q <= searchSequence f ∧
    (sq_seq q = searchSequence f → sq_value q = trim (query f)).

Inductive step (s : Screen) : Screen → Prop :=
| step_query q : step s (mkScreen (app s) (setQuery q (page s)))
| step_proximity : step s (mkScreen (app s) (proximity_changed (page s)))
| step_fire : step s (mkScreen (app s) (fire (page s)))
| step_settle k o : step s (mkScreen (app s) (settle k o (page s)))
| step_choose sg : step s (mkScreen (app s) (chooseSuggestion sg (page s)))
| step_cancel : step s (mkScreen (app s) (setPendingHome None (page s)))
| step_confirm : step s (confirmHome s).2
| step_clear : step s (clearSavedHome s).2
| step_load b : step s (load_home b s).2
| step_request l : step s (requestRoute l s).2
| step_routed k o : step s (route_settled k o s).2
| step_select i : step s (selectRoute i s).2
| step_mode m : step s (chooseMode m s).2
| step_elsewhere a : step s (mkScreen a (page s)).

Inductive reachable : Screen → Prop :=
| reach_initial a : reachable (mkScreen a initial)
| reach_step s s' : reachable s → step s s' → reachable s'.

Lemma ordered_finder p p' : finder p' = finder p → ordered p → ordered p'.
Proof. unfold ordered. by intros ->. Qed.

(** An effect starts a new sequence, so that every search before it is an earlier one. *)
Lemma ordered_effect p :
  (∀ q, q ∈ searches (finder p) → sq_seq q <= searchSequence (finder p)) → ordered (search_effect p).
Proof.
  intros Hs.
  assert (∀ q, q ∈ abort_current (finder p) → sq_seq q <= S (searchSequence (finder p)) ∧
    (sq_seq q = S (searchSequence (finder p)) → sq_value q = trim (query (finder p)))) as Ha.
  { intros q. unfold abort_current. intros (q0 & -> & Hq)%list_elem_of_fmap. specialize (Hs q0 Hq).
    destruct (bool_decide _); cbn; split; lia. }
  unfold search_effect. destruct (_ <? 2)%Z; unfold ordered; cbn; split_and!; try done.
  intros n v [= <- <-]. done.
Qed.

Lemma cleanup_earlier p : ordered p →
  ∀ q, q ∈ searches (cleanup (finder p)) → sq_seq q <= searchSequence (cleanup (finder p)).
Proof.
  intros (_ & _ & Hs) q. unfold cleanup. destruct (_ <? 2)%Z; [by intros Hq; apply Hs|].
  cbn. unfold abort_current. intros (q0 & -> & Hq)%list_elem_of_fmap.
  destruct (Hs q0 Hq) as [Hle _]. destruct (bool_decide _), (_ =? _)%nat; cbn; lia.
Qed.

Lemma ordered_setQuery q p : ordered p → ordered (setQuery q p).
Proof.
  intros Hp. unfold setQuery. destruct (String.eqb _ _); [done|]. apply ordered_effect. by apply cleanup_earlier.
Qed.

Lemma ordered_fire p : ordered p → ordered (fire p).
Proof.
  intros Hp. unfold fire. destruct (debounce (finder p)) as [[n v]|] eqn:Hd; [|done].
  destruct Hp as (He & Hdeb & Hs). destruct (Hdeb n v Hd) as [-> ->]. unfold ordered. cbn. split_and!; try done.
  intros q [Hq|Hq]%elem_of_app; [by apply Hs|]. apply list_elem_of_singleton in Hq as ->. cbn. split; [lia|done].
Qed.

(** What an answer can change of the search box: the suggestions. *)
Lemma answer_finder q o p :
  finder (answer q o p) = finder p ∨ ∃ l, finder (answer q o p) = finder (set_suggestions l p).
Proof.
  unfold answer. destruct (_ =? _)%nat; destruct o as [l|e]; cbn; try destruct (_ || _); cbn; eauto.
Qed.

Lemma ordered_settle k o p : ordered p → ordered (settle k o p).
Proof.
  intros Hp. unfold settle. destruct (searches (finder p) !! k) as [q|]; [|done].
  match goal with |- ordered (answer q o ?p') => set (p1 := p') end.
  assert (ordered p1) as Hp1.
  { destruct Hp as (He & Hd & Hs). unfold ordered. cbn. split_and!; try done.
    intros q0 Hq. apply Hs. eapply elem_of_submseteq; [exact Hq|]. apply sublist_submseteq, sublist_delete. }
  destruct (answer_finder q o p1) as [Hf|[l Hf]];
    [by apply (ordered_finder p1)|].
  by apply (ordered_finder (set_suggestions l p1)).
Qed.

(** A handler that leaves the search box alone *)
Lemma keeps_set f : (∀ p, finder (f p) = finder p) → preserves (λ s, ordered (page s)) (update f).
Proof. intros Hf. apply preserves_update. intros p Hp. eapply ordered_finder; [apply Hf|exact Hp]. Qed.

Lemma keeps_finally {A} (m : prog Screen A) f :
  preserves (λ s, ordered (page s)) m → preserves (λ s, ordered (page s)) f →
  preserves (λ s, ordered (page s)) (try_finally m f).
Proof.
  intros Hm Hf s Hs. unfold try_finally. specialize (Hm s Hs). destruct (m s) as [o s1].
  specialize (Hf s1 Hm). by destruct (f s1) as [[] ?].
Qed.

#[local] Hint Resolve keeps_finally : preserves.
#[local] Hint Extern 1 (preserves (λ s, ordered (page s)) (on_app _)) => apply preserves_on_app : preserves.
#[local] Hint Extern 1 (preserves (λ s, ordered (page s)) (update _)) => (apply keeps_set; reflexivity) : preserves.

Lemma ordered_step s s' : ordered (page s) → step s s' → ordered (page s').
Proof.
  assert (∀ m : prog Screen unit, preserves (λ s, ordered (page s)) m → ordered (page s) →
    ordered (page (m s).2)) as Hm by auto.
  intros Hs Hstep. destruct Hstep; cbn; try done.
  - by apply ordered_setQuery.
  - apply ordered_effect. by apply cleanup_earlier.
  - by apply ordered_fire.
  - by apply ordered_settle.
  - unfold chooseSuggestion.
    apply (ordered_finder (setQuery "" (set_suggestions [] (setPendingHome (Some sg) (page s))))); [done|].
    apply ordered_setQuery. exact Hs.
  - apply Hm; [|done]. unfold confirmHome, call, ui_dispatch, say. preserves_tac. apply keeps_finally; preserves_tac.
  - apply Hm; [|done]. unfold clearSavedHome, call, ui_dispatch, say. preserves_tac.
  - apply Hm; [|done]. unfold load_home, call, ui_dispatch. preserves_tac.
  - apply Hm; [|done]. unfold requestRoute, ui_dispatch. preserves_tac.
  - apply Hm; [|done]. unfold route_settled, ui_dispatch, say. preserves_tac.
Qed.

Lemma reachable_ordered s : reachable s → ordered (page s).
Proof.
  induction 1 as [a|s s' _ IH Hs]; [|by eapply ordered_step]. apply ordered_effect. cbn. by intros q ?%elem_of_nil.
Qed.

(** C27: Suggestions are for the text in the box.  However the user types and in whatever order
    the searches are answered, an answer changes what is suggested, or the notice, only
    when it is the answer to the text that the box holds; then the suggestions are exactly
    that answer.  Answers to earlier texts are dropped. *)
Theorem suggestions_are_for_the_query s k q o :
  reachable s → searches (finder (page s)) !! k = Some q →
  let p' := settle k o (page s) in
  query (finder p') = query (finder (page s)) ∧
  ((suggestions (finder p') = suggestions (finder (page s)) ∧ message p' = message (page s)) ∨
   (sq_value q = trim (query (finder p')) ∧
    suggestions (finder p') = match o with Ok results => results | Throw _ => [] end)).
Proof.
  intros Hr Hk p'. subst p'. pose proof (reachable_ordered s Hr) as (_ & _ & Hs).
  destruct (Hs q) as [_ Hv]; [by eapply list_elem_of_lookup_2|].
  unfold settle. rewrite Hk. unfold answer. cbn.
  destruct (Nat.eqb_spec (sq_seq q) (searchSequence (finder (page s)))) as [E|E]; cbn.
  - specialize (Hv E). destruct o as [l|e]; cbn; [split; [done|by right]|].
    destruct (_ || _); cbn; (split; [done|]); [by left|by right].
  - split; [by destruct o; [|destruct (_ || _)]|]. left. by destruct o; [|destruct (_ || _)].
Qed.

(** ** The notices about the home *)

Definition home_on_device (s : Screen) : option HomeLocation.HomeLocation :=
  HomeLocation.home_in (identity_db (device (app s))).
Definition home_shown (s : Screen) : option HomeLocation.HomeLocation :=
  Ui.homeLocation (Root.ui (store (app s))).
Definition routes_shown (s : Screen) : list Ui.HomeRoute := Ui.homeRoutes (Root.ui (store (app s))).

Lemma wp_ui a Q E s :
  wp (ui_dispatch a) Q E s ↔
  Q tt (mkScreen (mkApp (device (app s)) (Root.dispatch (store (app s)) (Root.UiAction a))) (page s)).
Proof. done. Qed.

#[local] Hint Rewrite @wp_ui : wp.

(** The notice after a home was confirmed is true, whatever storage requests are rejected:
    either it says that the home is saved, the device will load that home on every later
    visit, and it is the home on the page; or it says that it could not be saved, and what
    the device and the page hold is what they held before. *)
Theorem confirmed_home_notice_true s sg o s' :
  Vault.keyed (identity_db (device (app s))) → pendingHome (page s) = Some sg →
  num_ok (sg_lat sg) = true → num_ok (sg_lng sg) = true →
  confirmHome s = (o, s') →
  o = Ok tt ∧ activity (page s') = Idle ∧
  ((message (page s') = Some HOME_SAVED ∧ HomeLocation.valid (home_of sg) = true ∧
      home_on_device s' = Some (home_of sg) ∧ home_shown s' = Some (home_of sg) ∧
      routes_shown s' = [] ∧ pendingHome (page s') = None) ∨
   (message (page s') = Some HOME_NOT_SAVED ∧
      (faults (device (app s)) ≠ [] ∨ HomeLocation.valid (home_of sg) = false) ∧
      home_on_device s' = home_on_device s ∧ store (app s') = store (app s) ∧
      pendingHome (page s') = Some sg)).
Proof.
  intros Hk Hp Hla Hln Hrun.
  match goal with |- _ ∧ ?P => assert (wp confirmHome (λ _ s', activity (page s') = Idle ∧
    ((message (page s') = Some HOME_SAVED ∧ HomeLocation.valid (home_of sg) = true ∧
      home_on_device s' = Some (home_of sg) ∧ home_shown s' = Some (home_of sg) ∧
      routes_shown s' = [] ∧ pendingHome (page s') = None) ∨
   (message (page s') = Some HOME_NOT_SAVED ∧
      (faults (device (app s)) ≠ [] ∨ HomeLocation.valid (home_of sg) = false) ∧
      home_on_device s' = home_on_device s ∧ store (app s') = store (app s) ∧
      pendingHome (page s') = Some sg))) (λ _ _, False) s) as Hw end.
  2: { unfold wp in Hw. rewrite Hrun in Hw. by destruct o as [[]|]. }
  unfold confirmHome, say. wp_run. rewrite Hp. wp_run.
  eapply wp_mono; [by apply HomeLocation.wp_saveHomeLocation| |].
  - intros [] w (_ & Hv & Hh). wp_run. split; [done|]. left. by split_and!.
  - intros e w (_ & Hh & Hf). wp_run. split; [done|]. right. by split_and!.
Qed.

(** And so is the notice after the home was cleared. *)
Theorem cleared_home_notice_true s o s' :
  Vault.keyed (identity_db (device (app s))) → clearSavedHome s = (o, s') →
  o = Ok tt ∧
  ((message (page s') = Some HOME_CLEARED ∧ home_on_device s' = None ∧ home_shown s' = None ∧
      routes_shown s' = []) ∨
   (message (page s') = Some HOME_NOT_CLEARED ∧ faults (device (app s)) ≠ [] ∧
      home_on_device s' = home_on_device s ∧ store (app s') = store (app s))).
Proof.
  intros Hk Hrun.
  assert (wp clearSavedHome (λ _ s',
    ((message (page s') = Some HOME_CLEARED ∧ home_on_device s' = None ∧ home_shown s' = None ∧
      routes_shown s' = []) ∨
   (message (page s') = Some HOME_NOT_CLEARED ∧ faults (device (app s)) ≠ [] ∧
      home_on_device s' = home_on_device s ∧ store (app s') = store (app s)))) (λ _ _, False) s) as Hw.
  2: { unfold wp in Hw. rewrite Hrun in Hw. by destruct o as [[]|]. }
  unfold clearSavedHome, say. wp_run.
  eapply wp_mono; [by apply HomeLocation.wp_clearHomeLocation| |].
  - intros [] w (_ & Hh). wp_run. left. by split_and!.
  - intros e w (Hf & Hdb). wp_run. right. split_and!; try done. unfold home_on_device. cbn. by rewrite Hdb.
Qed.

End handlers.

(** ** A concrete panel *)

Definition plaza : Suggestion := mkSuggestion "s1" "Plaza" (lit (-12921) 10000) (lit 368219 10000).
Definition open_page : Screen := mkScreen (mkApp Vault.stored_world Root.initialState) initial.

(** The text "pla" is typed and its search sent, then "plaz", whose search is sent too:
    two searches are under way. *)
Definition typed_twice : Panel := fire (setQuery "plaz" (fire (setQuery "pla" initial))).
Definition searching : Screen := mkScreen (app open_page) typed_twice.

Lemma typed_reachable a : reachable (mkScreen a typed_twice).
Proof.
  set (p1 := setQuery "pla" initial). set (p2 := fire p1). set (p3 := setQuery "plaz" p2).
  assert (reachable (mkScreen a p1)) as H1.
  { eapply reach_step; [apply (reach_initial a)|apply (step_query (mkScreen a initial))]. }
  assert (reachable (mkScreen a p2)) as H2.
  { eapply reach_step; [exact H1|apply (step_fire (mkScreen a p1))]. }
  assert (reachable (mkScreen a p3)) as H3.
  { eapply reach_step; [exact H2|apply (step_query (mkScreen a p2))]. }
  eapply reach_step; [exact H3|apply (step_fire (mkScreen a p3))].
Qed.

Lemma suggestions_are_for_the_query_witness :
  (∀ o, suggestions (finder (settle 0 o (page searching))) = []) ∧
  suggestions (finder (settle 1 (Ok [plaza]) (page searching))) = [plaza].
Proof.
  split.
  - intros o. destruct (suggestions_are_for_the_query searching 0 (mkSearch 2 "pla" true) o (typed_reachable (app open_page)))
      as [Hq [[H _]|[H _]]]; [reflexivity|exact H|]. exfalso. rewrite Hq in H. revert H. vm_compute. discriminate.
  - destruct (suggestions_are_for_the_query searching 1 (mkSearch 4 "plaz" false) (Ok [plaza]) (typed_reachable (app open_page)))
      as [_ [[H _]|[_ H]]]; [reflexivity| |exact H]. exfalso. revert H. vm_compute. discriminate.
Defined.

Definition confirming : Screen := mkScreen (app open_page) (setPendingHome (Some plaza) initial).

Lemma confirmed_home_notice_true_witness :
  home_on_device (confirmHome confirming).2 = Some (home_of plaza) ∧
  home_shown (confirmHome confirming).2 = Some (home_of plaza).
Proof.
  destruct (confirmed_home_notice_true confirming plaza (Ok tt) (confirmHome confirming).2)
    as (_ & _ & [(_ & _ & Hd & Hs & _)|(H & _)]).
  - vm_compute. reflexivity.
  - reflexivity.
  - vm_compute. reflexivity.
  - vm_compute. reflexivity.
  - vm_compute. reflexivity.
  - by split.
  - exfalso. revert H. vm_compute. discriminate.
Defined.

Lemma cleared_home_notice_true_witness :
  home_on_device (clearSavedHome (confirmHome confirming).2).2 = None.
Proof.
  destruct (cleared_home_notice_true (confirmHome confirming).2 (Ok tt)
    (clearSavedHome (confirmHome confirming).2).2) as (_ & [(_ & Hd & _)|(H & _)]).
  - vm_compute. reflexivity.
  - vm_compute. reflexivity.
  - exact Hd.
  - exfalso. revert H. vm_compute. discriminate.
Defined.

(** A route request is not tied to the travel mode or the home it was made for: when the
    user picks another mode while it is under way, its routes are shown under that mode. *)
Definition asked : Screen := (requestRoute (Some (mkLatLng (int 0) (int 0))) (confirmHome confirming).2).2.
Definition walk : Ui.HomeRoute := Ui.mkHomeRoute "r1" [] (int 1) (int 12) [] "Best route" Ui.walking (int 0).
Lemma late_route_shown :
  let s := (route_settled 0 (Ok [walk]) (chooseMode Ui.driving asked).2).2 in
  ra_mode <$> asks (page asked) !! 0 = Some Ui.walking ∧ mode (page s) = Ui.driving ∧ routes_shown s = [walk].
Proof. vm_compute. done. Qed.


End HomeRoute.
