(* ===== verification/DeviceHooks.v ===== *)
(** * Hooks over the device: [hooks/useCurrentLocation.ts] and [hooks/useInitialViewport.ts]

    The position of the device as a state machine over the watches that the page has
    registered with [navigator.geolocation], and the viewport of the last visit in
    [localStorage]. *)

From Stdlib Require Import QArith Lia.
From S2P Require Import Prelude JsNumber JsString JsStringFacts JsCollection Json.
From S2P Require Import JsonFacts Nostr CryptoModel Platform.
Close Scope Q_scope.

Module CurrentLocation.

Record Position : Type := mkPosition { lat : num; lng : num; accuracy : num }.

Inductive LocationStatus : Type := Idle | Requesting | Following | LocatedNotFollowing | Denied | Unavailable.

#[export] Instance LocationStatus_eq_dec : EqDecision LocationStatus.
Proof. solve_decision. Defined.

(** The state of the hook with its refs; [watches] are the watches that the browser runs,
    and [nextId] is the id of the next one. *)
Record Hook : Type := mkHook {
  location : option Position; status : LocationStatus; error : option string;
  watchId : option nat; following : bool; watches : gset nat; nextId : nat
}.

Definition initial : Hook := mkHook None Idle None None false ∅ 0.

(** [clearWatch(watchId.current)] when there is one *)
Definition clear_watch (h : Hook) : gset nat :=
  match watchId h with Some k => watches h ∖ {[k]} | None => watches h end.

Definition disable (h : Hook) : Hook := mkHook None Idle None None false (clear_watch h) (nextId h).

(** [supported] is whether there is a [navigator.geolocation]. *)
Definition startFollowing (supported : bool) (h : Hook) : Hook :=
  if negb supported then
    mkHook (location h) Unavailable (Some "Geolocation not supported by this browser") (watchId h) false
      (watches h) (nextId h)
  else match watchId h with
  | Some _ =>
      mkHook (location h) (if location h is Some _ then Following else Requesting) None (watchId h) true
        (watches h) (nextId h)
  | None =>
      mkHook (location h) Requesting None (Some (nextId h)) true (watches h ∪ {[nextId h]}) (S (nextId h))
  end.

Definition stopFollowing (h : Hook) : Hook :=
  mkHook (location h) (if bool_decide (status h = Following) then LocatedNotFollowing else status h) (error h)
    (watchId h) false (watches h) (nextId h).

(** The success callback of a watch *)
Definition on_fix (pos : Position) (h : Hook) : Hook :=
  mkHook (Some pos) (if following h then Following else LocatedNotFollowing) None (watchId h) (following h)
    (watches h) (nextId h).

(** The error callback; [denied] is [err.code === err.PERMISSION_DENIED]. *)
Definition on_failure (message : string) (denied : bool) (h : Hook) : Hook :=
  mkHook (location h) (if denied then Denied else Unavailable) (Some message) None false (clear_watch h) (nextId h).

(** The cleanup when the page is left *)
Definition unmount (h : Hook) : gset nat := clear_watch h.

Section hook.
Variable supported : bool.

(** A call of a client, or a callback of a watch that the browser runs *)
Inductive step (h : Hook) : Hook → Prop :=
| step_disable : step h (disable h)
| step_start : step h (startFollowing supported h)
| step_stop : step h (stopFollowing h)
| step_fix k pos : k ∈ watches h → step h (on_fix pos h)
| step_failure k m d : k ∈ watches h → step h (on_failure m d h).

Inductive reachable : Hook → Prop :=
| reach_initial : reachable initial
| reach_step h h' : reachable h → step h h' → reachable h'.

(** Whether the device is being located, as the status shown to the user has it. *)
Definition locating (s : LocationStatus) : bool :=
  match s with Requesting | Following | LocatedNotFollowing => true | _ => false end.

Definition consistent (h : Hook) : Prop :=
  watches h = (if watchId h is Some k then {[k]} else ∅) ∧
  (locating (status h) = true ↔ is_Some (watchId h)) ∧
  (∀ k, watchId h = Some k → k < nextId h) ∧
  (status h = Following → following h = true ∧ is_Some (location h)) ∧
  (status h = LocatedNotFollowing → is_Some (location h)) ∧
  (status h = Idle → location h = None) ∧
  (supported = false → watchId h = None).

Lemma consistent_clear h : consistent h → clear_watch h = ∅.
Proof. intros (Hw & _). unfold clear_watch. rewrite Hw. destruct (watchId h); set_solver. Qed.

Lemma consistent_step h h' : consistent h → step h h' → consistent h'.
Proof.
  intros Hc Hs. pose proof (consistent_clear h Hc) as Hcl.
  assert (∀ A (o : option A), is_Some o ↔ bool_decide (is_Some o) = true) as Hd by (intros; by rewrite bool_decide_eq_true).
  destruct Hc as (Hw & Hl & Hn & Hf & Hlf & Hi & Hsup).
  destruct Hs as [| | |k pos Hk|k m d Hk]; unfold consistent, disable, startFollowing, stopFollowing, on_fix, on_failure; cbn.
  - rewrite Hcl. split_and!; try done; by intros [].
  - destruct supported eqn:Es; cbn.
    + destruct (watchId h) as [k|] eqn:Ew; cbn.
      * split_and!; try done; by destruct (location h).
      * split_and!; try done; [rewrite Hw; set_solver|intros k [= <-]; lia].
    + specialize (Hsup eq_refl). rewrite Hsup in *. split_and!; try done; by intros [].
  - split_and!; try done; case_bool_decide; try done.
    + cbn. rewrite <-Hl. by rewrite H.
    + intros _. by apply Hf.
  - rewrite Hw in Hk. destruct (watchId h) as [k'|] eqn:Ew; [|set_solver].
    split_and!; try done; by destruct (following h).
  - rewrite Hcl. split_and!; try done; destruct d; try done; by intros [].
Qed.

Lemma reachable_consistent h : reachable h → consistent h.
Proof.
  induction 1 as [|h h' _ IH Hs]; [|by eapply consistent_step].
  split_and!; try done; cbn; set_solver.
Qed.

(** C28: The device is located exactly while the status says so.  In every state that the hook
    can reach, the page has one watch registered when the status is requesting, following
    or paused, and none otherwise; a position is shown as followed only when there is one;
    and once location is turned off there is no watch left and the position is forgotten. *)
Theorem gps_runs_iff_shown h :
  reachable h →
  (locating (status h) = true → ∃ k, watches h = {[k]}) ∧
  (locating (status h) = false → watches h = ∅) ∧
  (status h = Following → is_Some (location h)) ∧
  watches (disable h) = ∅ ∧ location (disable h) = None ∧ unmount h = ∅.
Proof.
  intros Hr. pose proof (reachable_consistent h Hr) as Hc. pose proof (consistent_clear h Hc) as Hcl.
  destruct Hc as (Hw & Hl & _ & Hf & _). split_and!; try done.
  - intros Hs. apply Hl in Hs as [k Hk]. exists k. by rewrite Hw, Hk.
  - intros Hs. rewrite Hw. destruct (watchId h); [|done]. by rewrite (proj2 Hl) in Hs by by eexists.
  - intros Hs. by apply Hf.
Qed.
End hook.

Definition here : Position := mkPosition (lit (-12921) 10000) (lit 368219 10000) (int 12).
Definition followed : Hook := on_fix here (startFollowing true initial).

Lemma gps_runs_iff_shown_witness :
  (∃ k, watches followed = {[k]}) ∧ watches (disable followed) = ∅.
Proof.
  assert (reachable true followed) as Hr.
  { eapply reach_step; [eapply reach_step; [apply reach_initial|apply step_start]|].
    apply (step_fix true _ 0). cbn. set_solver. }
  destruct (gps_runs_iff_shown true followed Hr) as (Hon & _ & _ & Hoff & _). split; [by apply Hon|done].
Defined.

End CurrentLocation.

(** ** The viewport of the last visit *)

Module Viewport.

Definition STORAGE_KEY : string := "sentinel_last_viewport".
Definition MIN_VIEWPORT_ZOOM : num := int 0.
Definition MAX_VIEWPORT_ZOOM : num := int 24.

Record ViewState : Type := mkView { longitude : num; latitude : num; zoom : num }.

(** [config/mapConfig.ts] *)
Definition WORLD_CENTER : ViewState := mkView (int 0) (int 20) (int 2).

Definition within (lo hi x : num) : bool := is_finite x && num_le lo x && num_le x hi.

Definition in_bounds (v : ViewState) : bool :=
  within (int (-180)) (int 180) (longitude v) && within (int (-90)) (int 90) (latitude v)
  && within MIN_VIEWPORT_ZOOM MAX_VIEWPORT_ZOOM (zoom v).

(** A value that passes the test, read as a view *)
Definition isViewState (value : json) : option ViewState :=
  longitude ← num_field value "longitude"; latitude ← num_field value "latitude"; zoom ← num_field value "zoom";
  let v := mkView longitude latitude zoom in if in_bounds v then Some v else None.

(** Storage that is unavailable reads as empty. *)
Definition useInitialViewport (w : World) : ViewState :=
  match local_getItem STORAGE_KEY w with
  | Some saved =>
      if truthy saved then
        match parse saved with Some parsed => default WORLD_CENTER (isViewState parsed) | None => WORLD_CENTER end
      else WORLD_CENTER
  | None => WORLD_CENTER
  end.

Definition view_to_json (v : ViewState) : json :=
  JObj [("longitude", JNum (longitude v)); ("latitude", JNum (latitude v)); ("zoom", JNum (zoom v))].

Definition persistViewport (vs : ViewState) : prog World unit :=
  if negb (in_bounds vs) then mret tt
  else try_catch (local_setItem STORAGE_KEY (stringify (view_to_json vs))) (λ _, mret tt).

Lemma isViewState_to_json v : isViewState (view_to_json v) = if in_bounds v then Some v else None.
Proof. by destruct v. Qed.

(** The map opens inside the world, whatever the storage holds. *)
Lemma initial_in_bounds w : in_bounds (useInitialViewport w) = true.
Proof.
  unfold useInitialViewport. destruct (local_getItem STORAGE_KEY w) as [s|]; [|done].
  destruct (truthy s); [|done]. destruct (parse s) as [v|]; [|done].
  assert (∀ u, isViewState v = Some u → in_bounds u = true) as Hu.
  { unfold isViewState. intros u (x & _ & Hy)%bind_Some. apply bind_Some in Hy as (y & _ & Hz).
    apply bind_Some in Hz as (z & _ & Hb). cbv zeta in Hb.
    destruct (in_bounds (mkView x y z)) eqn:E; [|done]. by injection Hb as <-. }
  destruct (isViewState v) as [u|]; [by apply Hu|done].
Qed.

(** The map opens where it was left: a view that was persisted is the one the next visit
    opens with; a view that is outside the world is not persisted at all, and neither is
    anything when the storage refuses.  In every case the map opens inside the world. *)
Theorem viewport_roundtrip v w :
  num_ok (longitude v) = true → num_ok (latitude v) = true → num_ok (zoom v) = true →
  ∃ w', persistViewport v w = (Ok tt, w') ∧ in_bounds (useInitialViewport w') = true ∧
    (in_bounds v = true → has_local_storage w = true → faults w = [] → useInitialViewport w' = v) ∧
    (in_bounds v = false → w' = w).
Proof.
  intros Hx Hy Hz. destruct (persistViewport v w) as [o w'] eqn:Hrun.
  assert (o = Ok tt) as ->.
  { revert Hrun. unfold persistViewport, try_catch. destruct (negb _); [by intros [= <- _]|].
    destruct (local_setItem _ _ w) as [[[]|] ?]; by intros [= <- _]. }
  exists w'. split_and!; [done|apply initial_in_bounds| |].
  - intros Hb Hls Hf. revert Hrun. unfold persistViewport. rewrite Hb. cbn [negb].
    unfold try_catch, local_setItem. rewrite request_no_fault by done. intros [= <-].
    unfold useInitialViewport, local_getItem. cbn -[stringify parse isViewState].
    apply bool_decide_eq_true in Hls as [ls Hls]. rewrite Hls. cbn -[stringify parse isViewState].
    rewrite lookup_insert_eq. rewrite json_roundtrip.
    + rewrite isViewState_to_json, Hb. by destruct v.
    + unfold view_to_json. cbn [json_ok forallb snd]. by rewrite Hx, Hy, Hz.
  - intros Hb. revert Hrun. unfold persistViewport. rewrite Hb. cbn. by intros [= <-].
Qed.

Definition nairobi_view : ViewState := mkView (lit 3682 100) (lit (-129) 100) (int 12).

Lemma viewport_roundtrip_witness : useInitialViewport (persistViewport nairobi_view fresh_world).2 = nairobi_view.
Proof.
  destruct (viewport_roundtrip nairobi_view fresh_world) as (w' & Hrun & _ & Heq & _);
    [vm_compute; reflexivity..|]. rewrite Hrun. apply Heq; vm_compute; reflexivity.
Defined.

End Viewport.
