(* ===== verification/ChatPages.v ===== *)
(** * The chat pages: [pages/ChatPage.tsx], [pages/DirectConversationPage.tsx],
    [pages/PublicChannelPage.tsx], [pages/CircleChatPage.tsx] and
    [components/chat/MessageComposer.tsx]

    How a conversation is opened, which conversation a message that is sent from a page
    lands in, and which gift wraps are published for it.  The relay is chosen by the build
    ([config/chat.ts]); its pool is a parameter. *)

From Stdlib Require Import QArith Lia.
From S2P Require Import Prelude JsNumber JsString JsStringFacts JsCollection Json.
From S2P Require Import SharedTypes Nostr CryptoModel Platform IdentityStore LocalLists NostrIdentity Signer.
From S2P Require Import CirclesSlice ChatSlices SmallSlices ChatRules GiftWrap ChatStore Web Relay ChatSync InboxSync Invite.
Close Scope Q_scope.

(** ** The composer *)

Module Composer.

Record State : Type := mkState { text : string; sending : bool }.

Definition setText v p := mkState v (sending p).
Definition setSending v p := mkState (text p) v.

(** [disabled] and [onSend] are properties of the component. *)
Definition submit (disabled : bool) (onSend : string → prog App unit) : prog (Web.Screen State) unit :=
  draft ← gets (λ s, text (page s));
  let trimmed := trim draft in
  if negb (truthy trimmed) || disabled then mret tt
  else
    _ ← update (setSending true);
    try_finally
      (_ ← on_app (onSend trimmed); update (setText ""))
      (update (setSending false)).

(** A message that was not sent stays in the box: the draft is cleared when [onSend]
    resolves, and is what it was when [onSend] is rejected, with the error passed on.
    Either way the box can be used again, and nothing blank is ever sent. *)
Theorem draft_kept_on_failure disabled onSend s o s' :
  submit disabled onSend s = (o, s') →
  let t := trim (text (page s)) in
  (t = "" ∨ disabled = true → o = Ok tt ∧ s' = s) ∧
  (t ≠ "" → disabled = false → sending (page s') = false ∧
    (o, app s') = onSend t (app s) ∧
    text (page s') = match o with Ok _ => "" | Throw _ => text (page s) end).
Proof.
  intros Hrun t. unfold submit in Hrun.
  rewrite (bind_ok _ _ s (text (page s)) s) in Hrun by done. fold t in Hrun. cbv zeta in Hrun. split.
  - intros Hoff. assert (negb (truthy t) || disabled = true) as Ht.
    { destruct Hoff as [->| ->]; [done|apply orb_true_r]. }
    rewrite Ht in Hrun. by injection Hrun as <- <-.
  - intros Ht ->. assert (truthy t = true) as Htr by (unfold truthy; by rewrite (proj2 (String.eqb_neq _ _) Ht)).
    rewrite Htr in Hrun. cbn [negb orb] in Hrun. revert Hrun.
    rewrite (bind_ok _ _ s tt (mkScreen (app s) (setSending true (page s)))) by done.
    unfold try_finally, mbind, prog_bind, on_app. cbn [app page].
    destruct (onSend t (app s)) as [[[]|e] a]; cbn; intros [= <- <-]; by split_and!.
Qed.

Definition sample_draft : Web.Screen State := mkScreen (mkApp fresh_world Root.initialState) (mkState " hello " false).

Lemma draft_kept_on_failure_witness :
  text (page (submit false (λ _, throw "offline") sample_draft).2) = " hello ".
Proof.
  destruct (draft_kept_on_failure false (λ _, throw "offline") sample_draft (Throw "offline")
    (submit false (λ _, throw "offline") sample_draft).2) as [_ H]; [reflexivity|].
  apply H; [vm_compute; discriminate|reflexivity].
Defined.

End Composer.

Section pages.
Context `{Aes, Sha256, Random, NostrTools, Nip19, UrlParser, Extension, Bunkers, MathRandom, Web.Page, Pool}.

(** The relay of a flag that is set. *)
Definition relay_of (flag : option string) : option string :=
  match flag with Some url => if truthy url then Some url else None | None => None end.

(** [`pending-${Date.now()}`] *)
Definition echo (conversationId sender text : string) : prog App Dm.DmMessage :=
  ms ← service date_now; s ← service now_seconds;
  mret (Dm.mkDmMessage ("pending-" +:+ string_of_Z ms) conversationId sender (int s) text).

(** The optimistic copy of a message that was sealed for [sent] *)
Definition show_echo (sent : GiftWrap.SentMessage) (sender text : string) : prog App unit :=
  m ← echo (GiftWrap.sm_conversationId sent) sender text;
  dispatch (Root.DmAction (Dm.MessageReceived (GiftWrap.sm_conversationId sent) m)).

(** [activeConversationChanged] on entering and on leaving a page *)
Definition enter_conversation (conversationId : option string) : prog App unit :=
  dispatch (Root.DmAction (Dm.ActiveConversationChanged conversationId)).
Definition leave_conversation : prog App unit := dispatch (Root.DmAction (Dm.ActiveConversationChanged None)).

(** *** Facts *)

(** What the device of a participant [p] of [ps] makes of a wrap from its inbox relay: a
    wrap not seen before puts [text] of [author] into the conversation of [ps], which the
    page lists. *)
Definition delivered (ps : list string) (author text p : string) (wrap : Event) : Prop :=
  ∀ sk s b, GiftWrap.is_local sk p s → faults (device b) = [] → InboxSync.unseen wrap (device b) →
    let c := ChatRules.conversationIdFor ps in
    ∃ rid at_ b', InboxSync.receive_wrap s false wrap b = (Ok tt, b') ∧
      is_Some (Dm.conversations (Root.dm (store b')) !! c) ∧
      InboxSync.dm_log (store b') c =
        MessageList.insertSorted Dm.id Dm.created_at (InboxSync.dm_log (store b) c)
          (Dm.mkDmMessage rid c author at_ text).

Lemma received_delivered ps author text p wrap :
  GiftWrap.received ps author text p wrap → delivered ps author text p wrap.
Proof.
  intros Hr sk s b Hl Hf Hu c.
  destruct (InboxSync.wrap_shown_once s sk p ps author text wrap b Hl Hr Hf Hu)
    as (rid & at_ & _ & b' & Hrun & _ & _ & Hc & Hlog & _).
  by exists rid, at_, b'.
Qed.

(** The user signs on the device with this key. *)
Definition signs (sk : bytes) (pa : string) (s : NostrSigner World) (a : App) : Prop :=
  GiftWrap.is_local sk pa s ∧
  ∃ w, Signer.getNostrSigner (device a) = (Ok s, w) ∧ GiftWrap.clock_ok w.

(** The echo of [text] in the log of a conversation; a message of the same millisecond
    keeps its place. *)
Definition echoed (c sender text : string) (before after : Root.RootState) : Prop :=
  ∃ ms at_, InboxSync.dm_log after c =
    MessageList.insertSorted Dm.id Dm.created_at (InboxSync.dm_log before c)
      (Dm.mkDmMessage ("pending-" +:+ string_of_Z ms) c sender at_ text).

Lemma show_echo_inv sent sender text a u a' :
  show_echo sent sender text a = (Ok u, a') →
  device a' = device a ∧ echoed (GiftWrap.sm_conversationId sent) sender text (store a) (store a').
Proof.
  unfold show_echo, echo, service, date_now, now_seconds, dispatch, gets, modify, mbind, prog_bind, mret, prog_ret.
  cbn. intros [= <- <-]. split; [done|]. eexists _, _. unfold InboxSync.dm_log. cbn.
  unfold Dm.messageReceived, Dm.on_log. cbn [Dm.log]. by rewrite MessageLog.log_of_receive, decide_True by done.
Qed.

Lemma publish_store relays wrap a : store ((_ ← service (Relay.publish relays wrap); mret tt) a).2 = store a.
Proof.
  pose proof (service_store (Relay.publish relays wrap) a) as Hs. unfold mbind, prog_bind.
  by destruct (service (Relay.publish relays wrap) a) as [[] ?].
Qed.
End pages.

(** ** [DirectConversationPage.tsx] *)

Module DirectPage.
Section direct.
Context `{Aes, Sha256, Random, NostrTools, UrlParser, Extension, Bunkers, MathRandom, Web.Page, Pool}.

Definition is_for (recipient : string) (w : Event) : bool :=
  existsb (λ t, bool_decide (t !! 0 = Some "p") && bool_decide (t !! 1 = Some recipient)) (tags w).

(** [sent.wraps.find(...) ?? sent.wraps[0]] *)
Definition wrap_for (recipient : string) (wraps : list Event) : option Event :=
  match List.find (is_for recipient) wraps with Some w => Some w | None => head wraps end.

(** [participants.find(p => p !== myPubkey.toLowerCase())] *)
Definition recipient_of (c : Dm.DmConversation) (myPubkey : string) : option string :=
  relay_of (List.find (λ p, negb (String.eqb p (toLowerCase myPubkey))) (Dm.participants c)).

Definition handleSend (conversationId text : string) : prog App unit :=
  conversation ← select (λ s, Dm.conversations (Root.dm s) !! conversationId);
  match relay_of (cr_inbox chatRelays), conversation with
  | Some inbox, Some c =>
      signer ← service Signer.getNostrSigner;
      myPubkey ← service (s_pubkey signer);
      match recipient_of c myPubkey with
      | None => mret tt
      | Some recipient =>
          sent ← service (GiftWrap.sendDirectMessage signer recipient text);
          _ ← show_echo sent myPubkey text;
          wrap ← lift_outcome (match wrap_for recipient (GiftWrap.sm_wraps sent) with
                               | Some w => Ok w | None => Throw "TypeError" end);
          _ ← service (Relay.publish [inbox] wrap);
          mret tt
      end
  | _, _ => mret tt
  end.

(** *** Facts *)

Lemma single_tag_spec name v ts found :
  ChatRules.single_tag_loop name found ts = Some v →
  match found with
  | Some x => x = v ∧ ∀ t, t ∈ ts → t !! 0 ≠ Some name
  | None => (∃ t, t ∈ ts ∧ t !! 0 = Some name ∧ t !! 1 = Some v) ∧
      ∀ t x, t ∈ ts → t !! 0 = Some name → t !! 1 = Some x → x = v
  end.
Proof.
  revert found. induction ts as [|t ts IH]; intros found; simpl.
  - intros ->. split; [done|]. intros t Ht. by apply not_elem_of_nil in Ht.
  - case_bool_decide as Ht; [|intros Hf%IH; destruct found as [x|]].
    + destruct found as [x|]; [done|]. intros Hf%IH. destruct (t !! 1) as [x|] eqn:Hx.
      * destruct Hf as [-> Hno]. split; [exists t; split; [by left|done]|].
        intros t' y [->|Hin]%elem_of_cons Hn Hy; [congruence|]. by destruct (Hno t' Hin).
      * destruct Hf as [(t' & Hin & ?) Hall]. split; [exists t'; split; [by right|done]|].
        intros t'' y [->|Hin']%elem_of_cons Hn Hy; [congruence|by eapply Hall].
    + destruct Hf as [-> Hno]. split; [done|]. intros t' [->|Hin]%elem_of_cons; [done|by apply Hno].
    + destruct Hf as [(t' & Hin & ?) Hall]. split; [exists t'; split; [by right|done]|].
      intros t'' y [->|Hin']%elem_of_cons Hn Hy; [done|by eapply Hall].
Qed.

(** A wrap that a participant can open is for that participant, and for no other. *)
Lemma received_is_for ps author text p wrap r sk s :
  GiftWrap.received ps author text p wrap → GiftWrap.is_local sk p s → is_for r wrap = String.eqb r p.
Proof.
  intros (at_ & rid & Hr) Hl.
  pose proof (Hr sk s (λ _ w, (Ok false, w)) (λ _ w, (Ok tt, w)) fresh_world fresh_world Hl
    ltac:(reflexivity) ltac:(reflexivity)) as Hrun. clear Hr.
  assert (ChatRules.singleTag wrap "p" = Some p) as Htag.
  { unfold GiftWrap.processGiftWrap in Hrun. destruct (negb _); [done|].
    run_inv Hrun. injection Hrun0 as <- <-. run_inv Hrun. destruct a as [u|]; [|done].
    unfold GiftWrap.unwrapMessage in Hrun0. run_inv Hrun0. destruct a as [r0|]; [|discriminate Hrun0].
    by destruct (GiftWrap.unwrap_local_inv _ _ _ _ _ _ _ Hl Hrun1) as (_ & _ & ? & _). }
  apply single_tag_spec in Htag as [(t & Hin & Hn & Hv) Hall]. apply eq_true_iff_eq.
  unfold is_for. rewrite existsb_exists, String.eqb_eq. split.
  - intros (t' & Hin' & Ht'). reflect_bools. eapply Hall; [by apply list_elem_of_In|done|done].
  - intros ->. exists t. split; [by apply list_elem_of_In|]. by rewrite Hn, Hv, !bool_decide_eq_true_2.
Qed.

(** What the page of a conversation sends: a message to the first participant who is
    not the user, in the conversation of these two. *)
Lemma send_direct_inv cid text a a' sk pa s inbox c pb skb sb :
  relay_of (cr_inbox chatRelays) = Some inbox → signs sk pa s a →
  Dm.conversations (Root.dm (store a)) !! cid = Some c → recipient_of c pa = Some pb →
  GiftWrap.is_local skb pb sb →
  handleSend cid text a = (Ok tt, a') →
  let ps := ChatRules.normalizeParticipants [pa; pb] in
  echoed (ChatRules.conversationIdFor ps) pa text (store a) (store a') ∧
  ∃ wrap a1, delivered ps pa text pb wrap ∧
    (_ ← service (Relay.publish [inbox] wrap); mret tt) a1 = (Ok tt, a').
Proof.
  intros Hin (Hl & w & Hs & Hw) Hc Hpb Hlb Hrun ps. unfold handleSend in Hrun.
  run_inv Hrun. injection Hrun0 as <- <-. rewrite Hin, Hc in Hrun.
  run_inv Hrun. apply service_inv in Hrun0 as (w1 & Hr & ->). rewrite Hs in Hr. injection Hr as <- <-.
  run_inv Hrun. apply service_inv in Hrun0 as (w1 & Hr & ->). simpl in Hr.
  rewrite (GiftWrap.signer_pubkey _ _ _ _ Hl) in Hr. injection Hr as <- <-. rewrite Hpb in Hrun.
  run_inv Hrun. apply service_inv in Hrun0 as (w1 & Hr & ->). simpl in Hr.
  destruct (GiftWrap.direct_message_received _ _ _ _ _ _ _ _ Hl Hw Hr) as (Hne & _ & Hid & Hf).
  fold ps in Hid, Hf. run_inv Hrun. apply show_echo_inv in Hrun0 as [_ He]. rewrite Hid in He. simpl in He.
  apply Forall2_cons_inv_l in Hf as (wa & rest & Hra & Hf & Hwraps).
  apply Forall2_cons_inv_l in Hf as (wb & rest' & Hrb & Hf & ->). apply Forall2_nil_inv_l in Hf as ->.
  run_inv Hrun. assert (a2 = wb ∧ w2 = w0) as [-> ->].
  { rewrite Hwraps in Hrun0. unfold wrap_for in Hrun0. simpl in Hrun0.
    rewrite (received_is_for _ _ _ _ _ pb _ _ Hra Hl), (received_is_for _ _ _ _ _ pb _ _ Hrb Hlb) in Hrun0.
    rewrite (proj2 (String.eqb_neq pb pa)), String.eqb_refl in Hrun0 by done. by injection Hrun0 as <- <-. }
  pose proof (publish_store [inbox] wb w0) as Hst. rewrite Hrun in Hst. simpl in Hst. rewrite Hst.
  split; [done|]. exists wb, w0. split; [by apply received_delivered|done].
Qed.
End direct.
End DirectPage.

(** ** [CircleChatPage.tsx] *)

Module CirclePage.
Section circle.
Context `{Aes, Sha256, Random, NostrTools, UrlParser, Extension, Bunkers, MathRandom, Web.Page, Pool}.

(** [members.map(m => ({ pubkey: m.pubkey ?? '', membership_state: m.membership_state }))] *)
Definition chat_member (m : CircleMember) : ChatRules.CircleChatMember :=
  ChatRules.mkChatMember (default "" (cm_pubkey m)) (bool_decide (cm_membership_state m = Some PENDING)).

Definition room_of (myPubkey : string) (members : list CircleMember) : list string :=
  ChatRules.circleChatParticipants myPubkey (map chat_member members).

Definition circle_members (circleId : string) (s : Root.RootState) : list CircleMember :=
  if truthy circleId then default [] (Circles.members (Root.circles s) !! circleId) else [].
Definition circle_title (circleId : string) (s : Root.RootState) : string :=
  default "Circle chat"
    (List.find (λ c, String.eqb (ci_circle_id c) circleId) (Circles.circles (Root.circles s)) ≫= λ c, default None (ci_name c)).

(** The effect that opens the room; it yields the conversation id of the page. *)
Definition open_room (circleId : string) : prog App (option string) :=
  members ← select (circle_members circleId);
  title ← select (circle_title circleId);
  signer ← service Signer.getNostrSigner;
  pubkey ← service (s_pubkey signer);
  let participants := room_of pubkey members in
  if negb (ChatRules.circleChatFeasible participants) then mret None
  else
    let id := ChatRules.roomConversationId participants in
    _ ← dispatch (Root.DmAction (Dm.ConversationAdded (Dm.mkConversation id Dm.circle title participants)));
    mret (Some id).

(** [participants.filter(p => p !== pubkey.toLowerCase())] *)
Definition peers_of (pubkey : string) (members : list CircleMember) : list string :=
  List.filter (λ p, negb (String.eqb p (toLowerCase pubkey))) (room_of pubkey members).

Definition handleSend (circleId : string) (conversationId : option string) (text : string) : prog App unit :=
  match relay_of (cr_inbox chatRelays), relay_of conversationId with
  | Some inbox, Some _ =>
      members ← select (circle_members circleId);
      signer ← service Signer.getNostrSigner;
      pubkey ← service (s_pubkey signer);
      sent ← service (GiftWrap.sendGroupMessage signer (peers_of pubkey members) text);
      _ ← show_echo sent pubkey text;
      for_each (GiftWrap.sm_wraps sent) (λ wrap, _ ← service (Relay.publish [inbox] wrap); mret tt)
  | _, _ => mret tt
  end.

(** *** Facts *)

Lemma room_of_normal pa members :
  is_lower_hex64 pa = true →
  let ps := room_of pa members in
  pa ∈ ps ∧ ChatRules.normalizeParticipants (pa :: peers_of pa members) = ps.
Proof.
  intros Hl ps. assert (pa ∈ ps) as Hpa.
  { unfold ps, room_of, ChatRules.circleChatParticipants. apply ChatRules.elem_of_normalize. split; [done|].
    exists (toLowerCase pa). rewrite !lower_hex64_fixed by done. split; [by left|done]. }
  split; [done|].
  assert (∀ x, x ∈ pa :: peers_of pa members ↔ x ∈ ps) as Heq.
  { intros x. unfold peers_of. rewrite elem_of_cons, elem_of_filter_b, (lower_hex64_fixed pa) by done.
    destruct (String.eqb_spec x pa) as [->|Hne]; [by intuition|]. split; [by intros [?|[? _]]|by intros ?; right]. }
  transitivity (ChatRules.normalizeParticipants ps).
  - apply ChatRules.normalize_set. intros x. rewrite !ChatRules.elem_of_normalize.
    split; intros (Hx & y & Hy%Heq & <-); (split; [done|]); exists y; split; done || by apply Heq.
  - apply ChatRules.normalize_idemp.
Qed.

(** Every member who is not pending and has a public key is in the room. *)
Lemma active_in_room pa members m pk :
  m ∈ members → cm_membership_state m ≠ Some PENDING → cm_pubkey m = Some pk →
  is_lower_hex64 (toLowerCase pk) = true → toLowerCase pk ∈ room_of pa members.
Proof.
  intros Hm Hp Hpk Hl. unfold room_of, ChatRules.circleChatParticipants. apply ChatRules.elem_of_normalize.
  split; [done|]. exists (toLowerCase pk). split; [|by apply lower_hex64_fixed].
  destruct (String.eqb_spec (toLowerCase pk) (toLowerCase pa)) as [->|Hne]; [by left|right].
  apply elem_of_filter_b. split; [|by apply negb_true_iff, String.eqb_neq].
  apply list_elem_of_In, in_map_iff. exists (chat_member m). split; [by simpl; rewrite Hpk|].
  apply filter_In. split; [apply in_map, list_elem_of_In, Hm|]. cbn. by rewrite bool_decide_eq_false_2.
Qed.

Lemma open_room_inv circleId a cid a' sk pa s :
  signs sk pa s a → open_room circleId a = (Ok (Some cid), a') →
  let ps := room_of pa (circle_members circleId (store a)) in
  cid = ChatRules.conversationIdFor ps ∧
  circle_members circleId (store a') = circle_members circleId (store a) ∧
  is_Some (Dm.conversations (Root.dm (store a')) !! cid).
Proof.
  intros (Hl & w & Hs & _) Hrun ps. unfold open_room in Hrun.
  run_inv Hrun. injection Hrun0 as <- <-. run_inv Hrun. injection Hrun0 as <- <-.
  run_inv Hrun. apply service_inv in Hrun0 as (w1 & Hr & ->). rewrite Hs in Hr. injection Hr as <- <-.
  run_inv Hrun. apply service_inv in Hrun0 as (w1 & Hr & ->). simpl in Hr.
  rewrite (GiftWrap.signer_pubkey _ _ _ _ Hl) in Hr. injection Hr as <- <-. cbv zeta in Hrun.
  destruct (negb _); [done|]. run_inv Hrun. injection Hrun0 as <- <-. injection Hrun as <- <-.
  split; [done|]. split; [done|]. apply (InboxSync.conversation_exists (Dm.mkConversation _ _ _ _)).
Qed.

Lemma publish_all_store inbox wraps a u a' :
  for_each wraps (λ wrap, _ ← service (Relay.publish [inbox] wrap); mret tt) a = (Ok u, a') →
  store a' = store a.
Proof.
  intros Hrun. eapply (preserves_run (λ x, store x = store a)); [|exact Hrun|done].
  apply preserves_for_each. intros wrap b Hb. by rewrite publish_store.
Qed.

Lemma send_room_inv circleId cid text a a' sk pa s inbox :
  relay_of (cr_inbox chatRelays) = Some inbox → truthy cid = true → signs sk pa s a →
  handleSend circleId (Some cid) text a = (Ok tt, a') →
  let ps := room_of pa (circle_members circleId (store a)) in
  echoed (ChatRules.conversationIdFor ps) pa text (store a) (store a') ∧
  ∃ wraps a1, Forall2 (delivered ps pa text) ps wraps ∧
    for_each wraps (λ wrap, _ ← service (Relay.publish [inbox] wrap); mret tt) a1 = (Ok tt, a').
Proof.
  intros Hin Hcid (Hl & w & Hs & Hw) Hrun ps. unfold handleSend in Hrun.
  rewrite Hin in Hrun. cbn [relay_of] in Hrun. rewrite Hcid in Hrun.
  run_inv Hrun. injection Hrun0 as <- <-.
  run_inv Hrun. apply service_inv in Hrun0 as (w1 & Hr & ->). rewrite Hs in Hr. injection Hr as <- <-.
  run_inv Hrun. apply service_inv in Hrun0 as (w1 & Hr & ->). simpl in Hr.
  rewrite (GiftWrap.signer_pubkey _ _ _ _ Hl) in Hr. injection Hr as <- <-.
  run_inv Hrun. apply service_inv in Hrun0 as (w1 & Hr & ->). simpl in Hr.
  destruct (GiftWrap.group_message_received _ _ _ _ _ _ _ _ Hl Hw Hr) as (_ & Hc & _ & Hf).
  rewrite (proj2 (room_of_normal pa _ (GiftWrap.local_lower _ _ _ Hl))) in Hc, Hf. fold ps in Hc, Hf.
  run_inv Hrun. apply show_echo_inv in Hrun0 as [_ He]. rewrite Hc in He. simpl in He.
  split; [by rewrite (publish_all_store _ _ _ _ _ Hrun)|].
  exists (GiftWrap.sm_wraps a0). eexists. split; [|exact Hrun].
  eapply Forall2_impl; [exact Hf|]. intros p wrap. apply received_delivered.
Qed.

(** C14: A message from the page of a circle reaches its room.  The page shows a conversation
    that is in the store, of the user and every active member.  When sending on it
    succeeds, one wrap per participant was published, which on the device of that
    participant puts the text into this conversation; and the page shows the text. *)
Theorem room_message_shown circleId cid text a a1 a2 sk pa s inbox :
  relay_of (cr_inbox chatRelays) = Some inbox → truthy cid = true →
  signs sk pa s a → open_room circleId a = (Ok (Some cid), a1) →
  signs sk pa s a1 → handleSend circleId (Some cid) text a1 = (Ok tt, a2) →
  let members := circle_members circleId (store a) in
  let ps := room_of pa members in
  cid = ChatRules.conversationIdFor ps ∧ is_Some (Dm.conversations (Root.dm (store a1)) !! cid) ∧
  (∀ m pk, m ∈ members → cm_membership_state m ≠ Some PENDING → cm_pubkey m = Some pk →
     is_lower_hex64 (toLowerCase pk) = true → toLowerCase pk ∈ ps) ∧
  echoed cid pa text (store a1) (store a2) ∧
  ∃ wraps b, Forall2 (delivered ps pa text) ps wraps ∧
    for_each wraps (λ wrap, _ ← service (Relay.publish [inbox] wrap); mret tt) b = (Ok tt, a2).
Proof.
  intros Hin Hcid Hs Hopen Hs1 Hrun members ps.
  destruct (open_room_inv _ _ _ _ _ _ _ Hs Hopen) as (-> & Hm & Hc).
  pose proof (send_room_inv _ _ _ _ _ _ _ _ _ Hin Hcid Hs1 Hrun) as Hsent. cbv zeta in Hsent.
  rewrite Hm in Hsent. fold members ps in Hsent. destruct Hsent as [He Hw].
  split_and!; [done..| |done|done]. intros m pk. apply active_in_room.
Qed.
End circle.
End CirclePage.

(** ** [PublicChannelPage.tsx] *)

Module ChannelPage.
Section channel.
Context `{Aes, Sha256, Random, NostrTools, UrlParser, Extension, Bunkers, Web.Page, Pool}.

Definition relayUrl : option string := relay_of (cr_community chatRelays).

Definition channelId (groupId : string) : string :=
  match relayUrl with Some url => ChatRules.channelConversationId url groupId | None => "" end.

Definition enter (groupId : string) : prog App unit :=
  dispatch (Root.ChatAction (Chat.ActiveChannelChanged (relay_of (Some (channelId groupId))))).
Definition leave : prog App unit := dispatch (Root.ChatAction (Chat.ActiveChannelChanged None)).

Definition handleSend (groupId text : string) : prog App unit :=
  match relayUrl with
  | None => mret tt
  | Some url =>
      signer ← service Signer.getNostrSigner;
      pubkey ← service (s_pubkey signer);
      message ← service (ChatRules.createChannelMessage pubkey groupId text);
      event ← service (ChatRules.signChannelMessage signer message);
      let channel_id := ChatRules.channelConversationId url groupId in
      _ ← ChatSync.ignored (service (ChatStore.putChannelMessage
            (ChatStore.mkPublicMessage (id event) channel_id pubkey (created_at event) text)));
      _ ← dispatch (Root.ChatAction (Chat.ChannelMessageReceived channel_id
            (Chat.mkChatMessage (id event) channel_id pubkey (created_at event) text)));
      _ ← service (ChatSync.publishChannelMessage url event);
      mret tt
  end.
End channel.
End ChannelPage.

(** ** [ChatPage.tsx] *)

Module ChatPage.

Record State : Type := mkState {
  joinInput : string; joinError : option string; dmInput : string; dmError : option string;
  createName : string; createError : option string; creating : bool;
  path : option string  (** the last [navigate(...)] *)
}.

Definition initial : State := mkState "" None "" None "" None false None.

Definition setJoinInput v p := mkState v (joinError p) (dmInput p) (dmError p) (createName p) (createError p) (creating p) (path p).
Definition setJoinError v p := mkState (joinInput p) v (dmInput p) (dmError p) (createName p) (createError p) (creating p) (path p).
Definition setDmInput v p := mkState (joinInput p) (joinError p) v (dmError p) (createName p) (createError p) (creating p) (path p).
Definition setDmError v p := mkState (joinInput p) (joinError p) (dmInput p) v (createName p) (createError p) (creating p) (path p).
Definition setCreateName v p := mkState (joinInput p) (joinError p) (dmInput p) (dmError p) v (createError p) (creating p) (path p).
Definition setCreateError v p := mkState (joinInput p) (joinError p) (dmInput p) (dmError p) (createName p) v (creating p) (path p).
Definition setCreating v p := mkState (joinInput p) (joinError p) (dmInput p) (dmError p) (createName p) (createError p) v (path p).
Definition navigate v p := mkState (joinInput p) (joinError p) (dmInput p) (dmError p) (createName p) (createError p) (creating p) (Some v).

Definition channel_path (groupId : string) : string := "/chat/community/" +:+ Invite.encodeURIComponent groupId.
Definition conversation_path (id : string) : string := "/chat/dm/" +:+ id.

(** [onChange] of the three inputs *)
Definition type_join v : State → State := setJoinError None ∘ setJoinInput v.
Definition type_dm v : State → State := setDmError None ∘ setDmInput v.
Definition type_name v : State → State := setCreateError None ∘ setCreateName v.

Section chat.
Context `{Aes, Sha256, Random, NostrTools, Nip19, UrlParser, Extension, Bunkers, MathRandom, Web.Page, Pool}.

(** A stored conversation that the roster shows *)
Definition restorable (c : StoredConversation) : option Dm.DmConversation :=
  match sc_kind c, sc_participants c with
  | KindDm, Some ((_ :: _) as ps) => Some (Dm.mkConversation (sc_id c) Dm.dm (sc_title c) ps)
  | KindCircle, Some ((_ :: _) as ps) => Some (Dm.mkConversation (sc_id c) Dm.circle (sc_title c) ps)
  | _, _ => None
  end.

(** The effect that restores the roster *)
Definition restore : prog App unit :=
  try_catch
    (stored ← service ChatStore.listConversations;
     for_each stored (λ c,
       match restorable c with
       | Some conversation => dispatch (Root.DmAction (Dm.ConversationAdded conversation))
       | None => mret tt
       end))
    (λ _, mret tt).

Definition handleJoin : prog (Web.Screen State) unit :=
  input ← gets (λ s, joinInput (page s));
  match ChatSync.parseChannelRef input with
  | None => update (setJoinError (Some "Enter a channel group id or naddr reference."))
  | Some parsed =>
      _ ← call (LocalLists.addJoinedChannel (ChatSync.pc_groupId parsed));
      _ ← update (setJoinError None);
      _ ← update (setJoinInput "");
      update (navigate (channel_path (ChatSync.pc_groupId parsed)))
  end.

(** The [try] block of [handleCreateChannel] *)
Definition create_channel (relayUrl name : string) : prog (Web.Screen State) unit :=
  signer ← call Signer.getNostrSigner;
  groupId ← call ChatRules.newGroupId;
  createTemplate ← call (ChatRules.createGroupTemplate groupId);
  createEvent ← call (s_signEvent signer createTemplate);
  metadataTemplate ← call (ChatRules.setMetadataTemplate groupId (JObj [("name", JStr name)]));
  metadataEvent ← call (s_signEvent signer metadataTemplate);
  _ ← call (Relay.publish [relayUrl] createEvent);
  _ ← call (Relay.publish [relayUrl] metadataEvent);
  _ ← call (LocalLists.addJoinedChannel groupId);
  _ ← update (setCreateName "");
  update (navigate (channel_path groupId)).

Definition handleCreateChannel : prog (Web.Screen State) unit :=
  name ← gets (λ s, trim (createName (page s)));
  if negb (truthy name) then update (setCreateError (Some "Enter a channel name."))
  else
    match relay_of (cr_community chatRelays) with
    | None => update (setCreateError (Some "No community relay configured."))
    | Some relayUrl =>
        _ ← update (setCreating true);
        _ ← update (setCreateError None);
        try_finally
          (try_catch (create_channel relayUrl name)
             (λ _, update (setCreateError (Some "Could not create the channel."))))
          (update (setCreating false))
    end.

Definition handleNewDm : prog (Web.Screen State) unit :=
  input ← gets (λ s, dmInput (page s));
  match NostrIdentity.hexFromNpubOrHex input with
  | None => update (setDmError (Some "Enter an npub or hex public key."))
  | Some hex =>
      if negb (truthy hex) then update (setDmError (Some "Enter an npub or hex public key."))
      else
        signer ← call Signer.getNostrSigner;
        myPubkey ← call (s_pubkey signer);
        let id := ChatRules.directConversationId myPubkey hex in
        let participants := sort_strings [myPubkey; hex] in
        let title := str_slice 0 12 hex in
        _ ← send (Root.DmAction (Dm.ConversationAdded (Dm.mkConversation id Dm.dm title participants)));
        now ← call date_now;
        _ ← ChatSync.ignored (call (ChatStore.putConversation
              (mkStoredConversation id KindDm title false (int now) (Some participants) None None)));
        _ ← update (setDmError None);
        _ ← update (setDmInput "");
        update (navigate (conversation_path id))
  end.

(** ** What the page lists *)

Record Known : Type := mkKnown { k_id : string; k_name : string; k_unread : num }.

Definition known (s : Root.RootState) (id : string) : Known :=
  mkKnown id
    (default (str_slice 0 12 id) (Chat.ch_name <$> Chat.channels (Root.chat s) !! id))
    (default (int 0) (MessageLog.unread (Chat.log (Root.chat s)) !! id)).

Definition known_channels (a : App) : list Known := map (known (store a)) (LocalLists.getJoinedChannels (device a)).

(** The conversations of a kind that are listed; their order is not modelled. *)
Definition listed (kind : Dm.DmConversationKind) (s : Root.RootState) : gmap string Dm.DmConversation :=
  filter (λ p, Dm.conv_kind p.2 = kind) (Dm.conversations (Root.dm s)).

(** *** Facts *)

Lemma ignored_call_store (m : prog World unit) (c c' : Web.Screen State) u :
  ChatSync.ignored (call m) c = (Ok u, c') → store (app c') = store (app c).
Proof.
  unfold ChatSync.ignored, try_catch, call, on_app, service.
  destruct (m (device (app c))) as [[[]|e] w]; by intros [= <- <-].
Qed.

Lemma handleNewDm_inv pb s sk pa c c' :
  NostrIdentity.hexFromNpubOrHex (dmInput (page c)) = Some pb → truthy pb = true →
  signs sk pa s (app c) → handleNewDm c = (Ok tt, c') →
  let id := ChatRules.directConversationId pa pb in
  path (page c') = Some (conversation_path id) ∧ dmInput (page c') = "" ∧ dmError (page c') = None ∧
  store (app c') = Root.dispatch (store (app c))
    (Root.DmAction (Dm.ConversationAdded (Dm.mkConversation id Dm.dm (str_slice 0 12 pb) (sort_strings [pa; pb])))).
Proof.
  intros Hpb Ht (Hl & w & Hs & _) Hrun id. unfold handleNewDm in Hrun.
  run_inv Hrun. injection Hrun0 as <- <-. rewrite Hpb, Ht in Hrun. cbn [negb] in Hrun.
  run_inv Hrun. rewrite (call_ok _ _ _ _ Hs) in Hrun0. injection Hrun0 as <- <-.
  run_inv Hrun. rewrite (call_ok _ pa w) in Hrun0 by (by apply GiftWrap.signer_pubkey with sk).
  injection Hrun0 as <- <-. cbv zeta in Hrun.
  run_inv Hrun. injection Hrun0 as <- <-. run_inv Hrun. injection Hrun0 as <- <-.
  run_inv Hrun. run_inv Hrun. injection Hrun1 as <- <-. run_inv Hrun. injection Hrun1 as <- <-.
  injection Hrun as <-. pose proof (ignored_call_store _ _ _ _ Hrun0) as Hst. split_and!; [done..|exact Hst].
Qed.

Lemma recipient_of_pair c pa pb :
  is_lower_hex64 pa = true → pa ≠ pb → truthy pb = true → Dm.participants c = sort_strings [pa; pb] →
  DirectPage.recipient_of c pa = Some pb.
Proof.
  intros Hl Hne Ht Hc. unfold DirectPage.recipient_of. rewrite Hc, (lower_hex64_fixed pa) by done.
  assert (String.eqb pa pb = false ∧ String.eqb pb pa = false) as [Hab Hba].
  { by split; apply String.eqb_neq. }
  unfold sort_strings. simpl. destruct (String.leb pa pb); simpl;
    repeat (rewrite ?String.eqb_refl, ?Hab, ?Hba; simpl); by rewrite Ht.
Qed.

(** C22: A direct message reaches the person it was opened for.  When a new message to a
    public key is started on the chat page, the page of their conversation opens; and
    when sending there succeeds, a wrap was published that, on the device of that
    person, puts the text into the conversation of the two, and the page that sent it
    shows the text. *)
Theorem direct_message_shown pb s sk pa skb sb c c' inbox :
  let id := ChatRules.directConversationId pa pb in
  NostrIdentity.hexFromNpubOrHex (dmInput (page c)) = Some pb →
  GiftWrap.is_local skb pb sb → pa ≠ pb →
  (∀ d, Dm.conversations (Root.dm (store (app c))) !! id = Some d → Dm.participants d = sort_strings [pa; pb]) →
  signs sk pa s (app c) → handleNewDm c = (Ok tt, c') →
  path (page c') = Some (conversation_path id) ∧
  ∀ text a, relay_of (cr_inbox chatRelays) = Some inbox → signs sk pa s (app c') →
    DirectPage.handleSend id text (app c') = (Ok tt, a) →
    echoed id pa text (store (app c')) (store a) ∧
    ∃ wrap b, delivered (ChatRules.normalizeParticipants [pa; pb]) pa text pb wrap ∧
      (_ ← service (Relay.publish [inbox] wrap); mret tt) b = (Ok tt, a).
Proof.
  intros id Hpb Hlb Hne Hold Hs Hrun. pose proof (GiftWrap.local_lower _ _ _ (proj1 Hs)) as Hpa.
  assert (truthy pb = true) as Ht by (pose proof (GiftWrap.local_lower _ _ _ Hlb); by destruct pb).
  destruct (handleNewDm_inv _ _ _ _ _ _ Hpb Ht Hs Hrun) as (Hpath & _ & _ & Hst). fold id in Hpath, Hst.
  split; [done|]. intros text a Hin Hs' Hsend.
  assert (∃ d, Dm.conversations (Root.dm (store (app c'))) !! id = Some d ∧
    Dm.participants d = sort_strings [pa; pb]) as (d & Hd & Hdp).
  { rewrite Hst. simpl. unfold Dm.conversationAdded. cbn [Dm.conv_id].
    destruct (Dm.conversations _ !! id) as [d|] eqn:Hd; [by exists d; split; [|apply Hold]|].
    eexists. split; [apply lookup_insert_eq|done]. }
  pose proof (recipient_of_pair d pa pb Hpa Hne Ht Hdp) as Hr.
  pose proof (DirectPage.send_direct_inv _ _ _ _ _ _ _ _ _ _ _ _ Hin Hs' Hd Hr Hlb Hsend) as Hres.
  cbv zeta in Hres. rewrite GiftWrap.conversation_id_normal in Hres. exact Hres.
Qed.
End chat.
End ChatPage.

(** ** Concrete pages: user 7 writes to user 8 *)

#[local] Existing Instances Signer.sample_urls Signer.no_extension Signer.sample_bunker GiftWrap.half.
#[local] Existing Instance ChatSync.sample_pool.
#[local] Instance chat_build : Page := {|
  window_origin := "https://sentinel.example"; window_protocol := "https:";
  window_host := "sentinel.example"; resolve_url r b := Some (b +:+ r);
  build_env name := if String.eqb name "VITE_CHAT_INBOX_RELAY_URL" then Some "wss://inbox.example" else None |}.

Definition device_7 : World :=
  set_keypair (Some (mkKeypair (GiftWrap.pub_of 7) (GiftWrap.key_of 7))) fresh_world.

Lemma user_7_signs a :
  keypair (device a) = keypair device_7 → identity (device a) = identity device_7 →
  now_ms (device a) = now_ms device_7 →
  signs (GiftWrap.key_of 7) (GiftWrap.pub_of 7) (GiftWrap.signer_of 7) a.
Proof.
  intros Hk Hi Hn. split; [apply GiftWrap.signer_of_local; eexists; vm_compute; reflexivity|].
  exists (device a). split; [|unfold GiftWrap.clock_ok; rewrite Hn; vm_compute; split; congruence].
  unfold Signer.getNostrSigner. rewrite (bind_ok _ _ (device a) (identity device_7) (device a))
    by (unfold Signer.getActiveIdentity, gets; by rewrite Hi).
  change (Signer.localNostrSigner (device a) = (Ok (GiftWrap.signer_of 7), device a)).
  unfold Signer.localNostrSigner, NostrIdentity.getCachedKeypair, mbind, prog_bind, gets.
  rewrite Hk. reflexivity.
Qed.

(** A call that resolved, with the state it left *)
Lemma resolved {W A} (r : outcome A * W) x : r.1 = Ok x → r = (Ok x, r.2).
Proof. destruct r as [o w]. simpl. by intros ->. Qed.

Definition circle : Circle :=
  mkCircle "c1" (Some (Some "Family")) None None (Some 1%Z) None None None (Some "t") "2026-01-01T00:00:00.000Z" (Some true).
Definition member (pk : string) (state : MembershipState) : CircleMember :=
  mkCircleMember "c1" None (int 1) "HIGH" "2026-01-01T00:00:00.000Z" None (Some state) None None (Some pk) None.
Definition family : App :=
  mkApp device_7 (Root.dispatch Root.initialState (Root.CirclesAction (Circles.CircleLoaded circle
    [member (GiftWrap.pub_of 7) ACTIVE; member (GiftWrap.pub_of 8) ACTIVE; member (GiftWrap.pub_of 9) PENDING]))).

Definition room_page : outcome (option string) * App := CirclePage.open_room "c1" family.
Definition room_id : string := match room_page.1 with Ok (Some id) => id | _ => "" end.
Definition room_sent : outcome unit * App := CirclePage.handleSend "c1" (Some room_id) "Dinner at 7" room_page.2.

Lemma room_message_shown_witness :
  let ps := CirclePage.room_of (GiftWrap.pub_of 7) (CirclePage.circle_members "c1" (store family)) in
  length ps = 2 ∧ echoed room_id (GiftWrap.pub_of 7) "Dinner at 7" (store room_page.2) (store room_sent.2) ∧
  ∃ wraps, Forall2 (delivered ps (GiftWrap.pub_of 7) "Dinner at 7") ps wraps.
Proof.
  intros ps. split; [vm_compute; reflexivity|].
  destruct (CirclePage.room_message_shown "c1" room_id "Dinner at 7" family room_page.2 room_sent.2
    (GiftWrap.key_of 7) (GiftWrap.pub_of 7) (GiftWrap.signer_of 7) "wss://inbox.example")
    as (_ & _ & _ & He & wraps & _ & Hf & _).
  - reflexivity.
  - vm_compute. reflexivity.
  - apply user_7_signs; reflexivity.
  - apply resolved. vm_compute. reflexivity.
  - apply user_7_signs; vm_compute; reflexivity.
  - apply resolved. vm_compute. reflexivity.
  - split; [exact He|]. exists wraps. exact Hf.
Defined.

Definition typed_dm : Web.Screen ChatPage.State :=
  mkScreen (mkApp device_7 Root.initialState) (ChatPage.setDmInput (toUpperCase (GiftWrap.pub_of 8)) ChatPage.initial).
Definition opened_dm : Web.Screen ChatPage.State := (ChatPage.handleNewDm typed_dm).2.
Definition dm_id : string := ChatRules.directConversationId (GiftWrap.pub_of 7) (GiftWrap.pub_of 8).
Definition dm_sent : outcome unit * App := DirectPage.handleSend dm_id "Hi" (app opened_dm).

Lemma direct_message_shown_witness :
  ChatPage.path (page opened_dm) = Some (ChatPage.conversation_path dm_id) ∧
  echoed dm_id (GiftWrap.pub_of 7) "Hi" (store (app opened_dm)) (store dm_sent.2).
Proof.
  destruct (ChatPage.direct_message_shown (GiftWrap.pub_of 8) (GiftWrap.signer_of 7) (GiftWrap.key_of 7)
    (GiftWrap.pub_of 7) (GiftWrap.key_of 8) (GiftWrap.signer_of 8) typed_dm opened_dm "wss://inbox.example")
    as [Hp Hs].
  - vm_compute. reflexivity.
  - apply GiftWrap.signer_of_local. eexists. vm_compute. reflexivity.
  - vm_compute. congruence.
  - intros d Hd. exfalso. exact (lookup_empty_Some _ d Hd).
  - apply user_7_signs; reflexivity.
  - apply resolved. vm_compute. reflexivity.
  - split; [exact Hp|]. apply (Hs "Hi" dm_sent.2).
    + reflexivity.
    + apply user_7_signs; vm_compute; reflexivity.
    + apply resolved. vm_compute. reflexivity.
Defined.

(** *** What the list of the chat page leads to *)

(** A circle's room that is listed on the chat page opens the page for two: what is
    written there goes to one member, in another conversation, and does not show. *)
Definition three : list string := ChatRules.normalizeParticipants (map GiftWrap.pub_of [7; 8; 9]%Z).
Definition three_id : string := ChatRules.roomConversationId three.
Definition listed_room : App :=
  mkApp device_7 (Root.dispatch Root.initialState
    (Root.DmAction (Dm.ConversationAdded (Dm.mkConversation three_id Dm.circle "Family" three)))).
Definition listed_sent : outcome unit * App := DirectPage.handleSend three_id "Dinner at 7" listed_room.

Lemma listed_room_sends_to_one :
  is_Some (ChatPage.listed Dm.circle (store listed_room) !! three_id) ∧ listed_sent.1 = Ok tt ∧
  InboxSync.dm_log (store listed_sent.2) three_id = [] ∧
  ∃ pk, map Dm.content (InboxSync.dm_log (store listed_sent.2)
    (ChatRules.directConversationId (GiftWrap.pub_of 7) pk)) = ["Dinner at 7"].
Proof.
  split; [eexists; vm_compute; reflexivity|]. split; [vm_compute; reflexivity|].
  split; [vm_compute; reflexivity|].
  exists (default "" (DirectPage.recipient_of (Dm.mkConversation three_id Dm.circle "" three) (GiftWrap.pub_of 7))).
  vm_compute. reflexivity.
Qed.

(** The message of a room comes back to its author under the id of its rumor, and shows
    a second time beside the echo. *)
Definition own_wrap : option Event :=
  match (GiftWrap.sendGroupMessage (GiftWrap.signer_of 7) [GiftWrap.pub_of 8] "Dinner at 7" (device room_page.2)).1 with
  | Ok sent => List.find (DirectPage.is_for (GiftWrap.pub_of 7)) (GiftWrap.sm_wraps sent)
  | Throw _ => None
  end.

Lemma own_message_shown_twice :
  match own_wrap with
  | Some wrap =>
      map Dm.content (InboxSync.dm_log
        (store (InboxSync.receive_wrap (GiftWrap.signer_of 7) false wrap room_sent.2).2) room_id)
      = ["Dinner at 7"; "Dinner at 7"]
  | None => False
  end.
Proof. vm_compute. reflexivity. Qed.

(** The list of channels looks them up by group id, and the store keeps them by
    conversation id: the name and the unread messages of a channel do not show. *)
Definition town_id : string := ChatRules.channelConversationId "wss://relay.example" "0123456789abcdef".
Definition town : Root.RootState :=
  fold_left Root.dispatch
    [Root.ChatAction (Chat.ChannelStateLoaded
       (Chat.mkChannel town_id "0123456789abcdef" "wss://relay.example" "Town" "" [] []));
     Root.ChatAction (Chat.ActiveChannelChanged None);
     Root.ChatAction (Chat.ChannelMessageReceived town_id (Chat.mkChatMessage "m1" town_id "pk" (int 1) "hi"))]
    Root.initialState.

Lemma channel_shown_without_name :
  Chat.ch_name <$> Chat.channels (Root.chat town) !! town_id = Some "Town" ∧
  MessageLog.unread_of (Chat.log (Root.chat town)) town_id = int 1 ∧
  ChatPage.known town "0123456789abcdef" = ChatPage.mkKnown "0123456789abcdef" "0123456789ab" (int 0).
Proof. vm_compute. split_and!; reflexivity. Qed.

(** A conversation with oneself: the message is dropped, and the box is cleared. *)
Lemma message_to_oneself_dropped text pk p a :
  Dm.conversations (Root.dm (store a)) !! pk = Some p → Dm.participants p = [GiftWrap.pub_of 7; GiftWrap.pub_of 7] →
  keypair (device a) = keypair device_7 → identity (device a) = identity device_7 → now_ms (device a) = now_ms device_7 →
  (DirectPage.handleSend pk text a).1 = Ok tt ∧ store (DirectPage.handleSend pk text a).2 = store a.
Proof.
  intros Hp Hps Hk Hi Hn. pose proof (user_7_signs a Hk Hi Hn) as (Hl & w & Hs & _).
  unfold DirectPage.handleSend. rewrite (bind_ok _ _ a (Some p) a) by (unfold select, gets; by rewrite <-Hp).
  change (relay_of (cr_inbox chatRelays)) with (Some "wss://inbox.example"). cbv beta iota.
  rewrite (bind_ok _ _ a (GiftWrap.signer_of 7) (mkApp w (store a))) by (unfold service; by rewrite Hs).
  rewrite (bind_ok _ _ (mkApp w (store a)) (GiftWrap.pub_of 7) (mkApp w (store a)))
    by (unfold service; cbn [device store]; by rewrite (GiftWrap.signer_pubkey _ _ _ _ Hl)).
  unfold DirectPage.recipient_of. rewrite Hps. by replace (List.find _ _) with (@None string) by (vm_compute; reflexivity).
Qed.
