(* ===== verification/Reports.v ===== *)
(** * Community reports: [components/ReportSubmit.tsx] and [components/ReportList.tsx]

    The form that submits a report, and the votes on the reports of the list.  The
    position is read from the browser ([position], which may fail); [photo] is the
    chosen file as [Photos] processes it, when photos are enabled and a file is chosen.
    What the gateway answers is arbitrary. *)

From Stdlib Require Import QArith Lia.
From S2P Require Import Prelude JsNumber JsString JsStringFacts JsCollection Json JsonFacts.
From S2P Require Import SharedTypes Nostr CryptoModel Platform IdentityStore NostrIdentity.
From S2P Require Import BunkerStore Signer CircleLocation NostrAuth EventsSlice SmallSlices Web Api.
Close Scope Q_scope.

Module ReportPage.

Definition REPORT_TYPES : list string :=
  ["ROAD_BLOCKED"; "FLOODING"; "SECURITY_INCIDENT"; "FIRE"; "PROTEST_MARCH"; "ACCIDENT";
   "INFRASTRUCTURE"; "ALL_CLEAR"; "OTHER"].

Inductive SubmitState : Type := idle | locating | submitting | error.

#[export] Instance SubmitState_eq_dec : EqDecision SubmitState.
Proof. solve_decision. Defined.

Record Form : Type := mkForm {
  reportType : string; description : string; submitState : SubmitState; errorMsg : option string
}.

Definition initial : Form := mkForm "FLOODING" "" idle None.

Definition setReportType v f := mkForm v (description f) (submitState f) (errorMsg f).
Definition setDescription v f := mkForm (reportType f) v (submitState f) (errorMsg f).
Definition setSubmitState v f := mkForm (reportType f) (description f) v (errorMsg f).
Definition setErrorMsg v f := mkForm (reportType f) (description f) (submitState f) v.

(** The submit button is disabled. *)
Definition disabled (f : Form) : bool := bool_decide (submitState f = locating ∨ submitState f = submitting).

Record Coords : Type := mkCoords { latitude : num; longitude : num }.

Definition or_null (s : option string) : json := match s with Some s => JStr s | None => JNull end.

(** [s || null] *)
Definition text_or_null (s : string) : option string := if truthy s then Some s else None.

Section reports.
Context `{Aes, Sha256, Random, NostrTools, UrlParser, Extension, Bunkers, Fetch, Page}.

(** The [error] of the form, with its message *)
Definition fail (msg : string) : prog (Screen Form) unit :=
  _ ← update (setSubmitState error); update (setErrorMsg (Some msg)).

(** The body that is posted: the fields of the report, its author and the signed event *)
Definition report_body (f : Form) (pos : Coords) (photoCid linkedEventId : option string) (e : Event) : json :=
  JObj [("report_type", JStr (reportType f)); ("description", or_null (text_or_null (description f)));
        ("lat", JNum (latitude pos)); ("lng", JNum (longitude pos)); ("photo_ipfs_cid", or_null photoCid);
        ("linked_event_id", or_null linkedEventId); ("nostr_pubkey", JStr (pubkey e));
        ("nostr_event", event_to_json e)].

Definition report_request (f : Form) (pos : Coords) (photoCid linkedEventId : option string) : prog World Request :=
  nostrEvent ← NostrAuth.signBoundEvent
    (NostrAuth.reportBindingContent (reportType f) (latitude pos) (longitude pos) (text_or_null (description f)));
  mret (mkRequest (API_BASE +:+ "/api/reports") "POST" [SignedRequest.json_type]
    (Some (stringify (report_body f pos photoCid linkedEventId nostrEvent)))).

(** The photo's CID, or none when there is no photo or anything fails *)
Definition photo_cid (photo : option (prog World string)) : prog World (option string) :=
  match photo with
  | Some processed =>
      if ft_photos experimentalFeatures then
        try_catch (blob ← processed; Submissions.uploadToIPFS blob) (λ _, mret None)
      else mret None
  | None => mret None
  end.

Definition handleSubmit (position : prog World Coords) (photo : option (prog World string))
    (linkedEventId : option string) (onClose : prog (Screen Form) unit) : prog (Screen Form) unit :=
  f ← gets page;
  _ ← update (setSubmitState locating);
  _ ← update (setErrorMsg None);
  located ← try_catch (pos ← call position; mret (Some pos)) (λ _, mret None);
  match located with
  | None => fail "Location unavailable — please enable GPS and try again"
  | Some pos =>
      _ ← update (setSubmitState submitting);
      cid ← call (photo_cid photo);
      try_catch
        (rq ← call (report_request f pos cid linkedEventId);
         res ← call (fetch rq);
         if negb (response_ok res) then
           fail ("Submit failed (" +:+ SafetyApi.status_text res +:+ ") — please try again")
         else
           value ← call (json_of res);
           _ ← match SafetyApi.parseReport value with
               | Some report => send (Root.ReportsAction (Reports.ReportReceived report))
               | None => mret tt
               end;
           onClose)
        (λ m, fail m)
  end.

(** ** [ReportList.tsx] *)

Definition vote_body (vote : string) (pos : option Coords) (e : Event) : json :=
  JObj [("voter_pubkey", JStr (pubkey e)); ("vote", JStr vote); ("voter_nostr_event", event_to_json e);
        ("voter_lat", match pos with Some p => JNum (latitude p) | None => JNull end);
        ("voter_lng", match pos with Some p => JNum (longitude p) | None => JNull end)].

Definition vote_request (position : prog World Coords) (reportId vote : string) : prog World Request :=
  voteEvent ← NostrAuth.signBoundEvent (NostrAuth.voteBindingContent vote reportId);
  pos ← try_catch (p ← position; mret (Some p)) (λ _, mret None);
  mret (mkRequest (API_BASE +:+ "/api/reports/" +:+ reportId +:+ "/vote") "POST" [SignedRequest.json_type]
    (Some (stringify (vote_body vote pos voteEvent)))).

(** Errors are logged to the console only. *)
Definition castVote (position : prog World Coords) (report : CommunityReport) (vote : string) : prog App unit :=
  try_catch
    (rq ← service (vote_request position (rp_id report) vote);
     res ← service (fetch rq);
     if negb (response_ok res) then mret tt
     else
       value ← service (json_of res);
       match SafetyApi.parseReport value with
       | Some updated => dispatch (Root.ReportsAction (Reports.ReportReceived updated))
       | None => mret tt
       end)
    (λ _, mret tt).

(** *** Facts *)

(** The event verifies, covers [content], and is of the active identity of the device. *)
Definition binds (w : World) (content : string) (e : Event) : Prop :=
  verifyEvent e = true ∧ Nostr.content e = content ∧
  match ai_mode (identity w) with
  | Local => ∃ kp, (∀ kp0, keypair w = Some kp0 → kp = kp0) ∧ getPublicKey (secretKey kp) = Some (pubkey e)
  | _ => pubkey e = ai_pubkey (identity w)
  end.

Lemma wp_bound content w :
  wp (NostrAuth.signBoundEvent content) (λ e _, binds w content e) (λ _ _, True) w.
Proof.
  unfold NostrAuth.signBoundEvent, now_seconds. rewrite wp_bind. unfold wp at 1. cbn.
  eapply wp_mono; [apply Signer.wp_sign_active; done| |done].
  intros e w1 [(Hv & _ & _ & Hc & _) Hid]. split_and!; [done|done|].
  destruct (ai_mode (identity w)); [|done..]. destruct Hid as (kp & _ & Hs & Hp). by exists kp.
Qed.

Lemma report_request_inv f pos cid linked w rq w' :
  report_request f pos cid linked w = (Ok rq, w') →
  ∃ e, binds w (NostrAuth.reportBindingContent (reportType f) (latitude pos) (longitude pos)
                 (text_or_null (description f))) e ∧
    rq_body rq = Some (stringify (report_body f pos cid linked e)).
Proof.
  intros Hrun. unfold report_request in Hrun. run_inv Hrun. injection Hrun as <- <-.
  exists a. split; [|done]. apply (wp_ok _ _ _ _ _ _ Hrun0 (wp_bound _ w)).
Qed.

(** The report came from an accepted answer to a request of this form. *)
Definition acknowledged (f : Form) (linked : option string) (report : CommunityReport) : Prop :=
  ∃ pos cid w e rq w1 res w2 value,
    binds w (NostrAuth.reportBindingContent (reportType f) (latitude pos) (longitude pos)
              (text_or_null (description f))) e ∧
    rq_body rq = Some (stringify (report_body f pos cid linked e)) ∧
    fetch rq w1 = (Ok res, w2) ∧ response_ok res = true ∧
    body_json res = Ok value ∧ SafetyApi.parseReport value = Some report.

(** What the form says after [handleSubmit] *)
Definition outcome_of (linked : option string) (s s' : Screen Form) : Prop :=
  reportType (page s') = reportType (page s) ∧ description (page s') = description (page s) ∧
  ((submitState (page s') = error ∧ is_Some (errorMsg (page s')) ∧ store (app s') = store (app s)) ∨
   (submitState (page s') = submitting ∧ errorMsg (page s') = None ∧
     (store (app s') = store (app s) ∨
      ∃ report, acknowledged (page s) linked report ∧
        store (app s') = Root.dispatch (store (app s)) (Root.ReportsAction (Reports.ReportReceived report))))).

Lemma wp_fail linked s f w msg : reportType f = reportType (page s) → description f = description (page s) →
  wp (fail msg) (λ _, outcome_of linked s) (λ _ _, False) (mkScreen (mkApp w (store (app s))) f).
Proof. intros Ht Hd. unfold fail. wp_run. split_and!; [done|done|]. left. split_and!; [done|by eexists|done]. Qed.

(** A photo that fails is left out. *)
Lemma photo_cid_total photo e w w' : ¬ photo_cid photo w = (Throw e, w').
Proof.
  unfold photo_cid. destruct photo as [processed|]; [|done]. destruct (ft_photos _); [|done].
  unfold try_catch. by destruct ((blob ← processed; Submissions.uploadToIPFS blob) w) as [[]].
Qed.

Lemma wp_handleSubmit position photo linked s :
  wp (handleSubmit position photo linked (mret tt)) (λ _, outcome_of linked s) (λ _ _, False) s.
Proof.
  unfold handleSubmit. wp_run. apply wp_cases; [|intros; by apply wp_fail].
  intros pos w1 _. wp_run. apply wp_cases; [|by intros e w' []%photo_cid_total].
  intros cid w2 _. rewrite wp_try_catch.
  assert (∀ w e, wp (fail e) (λ _, outcome_of linked s) (λ _ _, False)
    (mkScreen (mkApp w (store (app s))) (setSubmitState submitting (setErrorMsg None (setSubmitState locating (page s))))))
    as Hfail by by intros; apply wp_fail.
  wp_run. apply wp_cases; [|intros; apply Hfail].
  intros rq w3 (e & Hb & Hbody)%report_request_inv. wp_run. apply wp_cases; [|intros; apply Hfail].
  intros res w4 Hres. destruct (response_ok res) eqn:Hok; cbn [negb].
  2: { eapply wp_mono; [apply Hfail|done|done]. }
  unfold json_of. wp_run. destruct (body_json res) as [value|m] eqn:Hv; [|apply Hfail].
  destruct (SafetyApi.parseReport value) as [report|] eqn:Hp; wp_run.
  - split_and!; [done|done|]. right. split_and!; [done|done|]. right. exists report. split; [|done].
    by exists pos, cid, w2, e, rq, w3, res, w4, value.
  - split_and!; [done|done|]. right. split_and!; [done|done|]. by left.
Qed.

(** Submitting a report never throws, and tells what happened.  Either it fails: the form
    says why, keeps what was typed and can be submitted again, and the list is as it was.
    Or the gateway accepted a request whose signature, of the active identity, covers the
    type, the position and the description that it states: the list then shows the report
    of the answer, if it holds one. *)
Theorem submitted_report_bound position photo linked s o s' :
  handleSubmit position photo linked (mret tt) s = (o, s') → o = Ok tt ∧ outcome_of linked s s'.
Proof.
  intros Hrun. pose proof (wp_handleSubmit position photo linked s) as Hw. unfold wp in Hw. rewrite Hrun in Hw.
  destruct o as [[]|]; [done|by destruct Hw].
Qed.

(** The report came from an accepted answer to a signed vote. *)
Definition voted (report : CommunityReport) (vote : string) (updated : CommunityReport) : Prop :=
  ∃ w e pos rq w1 res w2 value,
    binds w (NostrAuth.voteBindingContent vote (rp_id report)) e ∧
    rq_body rq = Some (stringify (vote_body vote pos e)) ∧ fetch rq w1 = (Ok res, w2) ∧
    response_ok res = true ∧ body_json res = Ok value ∧ SafetyApi.parseReport value = Some updated.

(** A vote shows in the list only when the gateway accepted a request whose event is
    signed by the active identity and covers the vote and the report. *)
Theorem cast_vote_bound position report vote a o a' :
  castVote position report vote a = (o, a') →
  o = Ok tt ∧ (store a' = store a ∨ ∃ updated, voted report vote updated ∧
    store a' = Root.dispatch (store a) (Root.ReportsAction (Reports.ReportReceived updated))).
Proof.
  intros Hrun.
  assert (wp (castVote position report vote) (λ _ a', store a' = store a ∨ ∃ updated, voted report vote updated ∧
    store a' = Root.dispatch (store a) (Root.ReportsAction (Reports.ReportReceived updated))) (λ _ _, False) a) as Hw.
  { unfold castVote. wp_run. apply wp_cases; [|intros; by left].
    intros rq w1 Hrq. unfold vote_request in Hrq. run_inv Hrq. run_inv Hrq. injection Hrq as <- <-.
    wp_run. apply wp_cases; [|intros; by left]. intros res w2 Hres.
    destruct (response_ok res) eqn:Hok; cbn [negb]; [|wp_run; by left].
    unfold json_of. wp_run. destruct (body_json res) as [value|m] eqn:Hv; [|intros; by left].
    destruct (SafetyApi.parseReport value) as [updated|] eqn:Hp; wp_run; [|intros; by left]. right.
    pose proof (wp_ok _ _ _ _ _ _ Hrun0 (wp_bound _ _)) as Hb. exists updated. split; [|done].
    exists (device a), a0, a1. eexists _, _, res, _, value.
    split; [exact Hb|]. split; [|split; [exact Hres|done]]. done. }
  unfold wp in Hw. rewrite Hrun in Hw. destruct o as [[]|]; [done|by destruct Hw].
Qed.
End reports.

(** ** Concrete reports *)

#[local] Existing Instances Signer.sample_urls Signer.no_extension Signer.sample_bunker.
#[local] Instance report_build : Page := {|
  window_origin := "https://sentinel.example"; window_protocol := "https:";
  window_host := "sentinel.example"; resolve_url r b := Some (b +:+ r); build_env _ := None |}.

Definition stored_report : json :=
  JObj [("id", JStr "r1"); ("report_type", JStr "FLOODING"); ("status", JStr "PENDING");
        ("lat", JNum (lit (-129) 100)); ("lng", JNum (lit 3682 100)); ("reporter_tier", JStr "NEW");
        ("consensus_score", JNum (int 0)); ("confirmation_count", JNum (int 0)); ("denial_count", JNum (int 0));
        ("created_at", JStr "2026-01-01T00:00:00Z"); ("updated_at", JStr "2026-01-01T00:00:00Z")].

#[local] Program Instance gateway : Fetch := {| fetch r := mret (mkResponse 201 (Ok stored_report)) |}.
Next Obligation. done. Qed.

Definition typed : Screen Form :=
  mkScreen (mkApp fresh_world Root.initialState) (setDescription "Bridge under water" initial).
Definition here : prog World Coords := mret (mkCoords (lit (-129) 100) (lit 3682 100)).
Definition sent : outcome unit * Screen Form := handleSubmit here None None (mret tt) typed.

Lemma submitted_report_bound_witness :
  sent.1 = Ok tt ∧ map rp_id (Reports.items (Root.reports (store (app sent.2)))) = ["r1"] ∧
  outcome_of None typed sent.2.
Proof.
  destruct (submitted_report_bound here None None typed sent.1 sent.2) as [Ho Hs]; [apply surjective_pairing|].
  split; [exact Ho|]. split; [vm_compute; reflexivity|exact Hs].
Defined.

Definition on_list : App := app sent.2.
Definition listed : CommunityReport :=
  default (mkCommunityReport "" "" None NaN NaN None "" NaN "" NaN NaN None None "" "") (SafetyApi.parseReport stored_report).

Lemma cast_vote_bound_witness :
  (castVote here listed "CONFIRM" on_list).1 = Ok tt.
Proof.
  destruct (cast_vote_bound here listed "CONFIRM" on_list (castVote here listed "CONFIRM" on_list).1
    (castVote here listed "CONFIRM" on_list).2) as [Ho _]; [apply surjective_pairing|exact Ho].
Defined.

(** On the desktop layout of [ReportsPage.tsx], [onClose] does nothing and the form stays:
    after a report was accepted, its button says that it is being submitted, and is
    disabled, until the page is left. *)
Lemma accepted_form_stays_disabled : disabled (page sent.2) = true ∧ errorMsg (page sent.2) = None.
Proof. vm_compute. by split. Qed.

End ReportPage.
