(* ===== verification/MapPage.v ===== *)
(** * What the maps and lists show: [components/map/EventClusterLayer.tsx],
    [components/map/ClusterMarker.tsx], [pages/LiveMapPage.tsx], [pages/AlertsPage.tsx] and
    [pages/InsightsPage.tsx]

    Grouping of events into clusters and the switch between clusters and markers, the
    filters of the map and of the list of alerts, the commands to the map's camera, and
    the data of the chart.  The map library that executes a command is not modelled. *)

From Stdlib Require Import QArith Qabs Lqa Lia.
From S2P Require Import Prelude JsNumber JsString JsStringFacts JsCollection Json.
From S2P Require Import SharedTypes Nostr CryptoModel Platform HomeLocation EventsSlice SmallSlices.
From S2P Require Import Web Api Sockets Geo HomeRoute DeviceHooks.
Close Scope Q_scope.

(** ** [EventClusterLayer.tsx] *)

Module Clusters.
Local Open Scope num_scope.

Definition DISSOLVE_ZOOM : num := lit 132 10.
Definition FORM_ZOOM : num := lit 128 10.

Record Cluster : Type := mkCluster {
  cl_id : string; cl_lat : num; cl_lng : num; cl_events : list SafetyEvent;
  criticalCount : nat; highCount : nat; mediumCount : nat; lowCount : nat; totalCount : nat
}.

(** [evts.filter(e => e.severity === severity).length] *)
Definition count_severity (severity : string) (evts : list SafetyEvent) : nat :=
  length (List.filter (λ e, String.eqb (ev_severity e) severity) evts).

(** [evts.reduce((s, e) => s + f(e), 0) / evts.length] *)
Definition average (f : SafetyEvent → num) (evts : list SafetyEvent) : num :=
  fold_left (λ s e, s + f e) evts (int 0) / int (Z.of_nat (length evts)).

Definition to_cluster (cell : string * list SafetyEvent) : Cluster :=
  let evts := cell.2 in
  mkCluster cell.1 (average ev_lat evts) (average ev_lng evts) evts
    (count_severity "CRITICAL" evts) (count_severity "HIGH" evts) (count_severity "MEDIUM" evts)
    (count_severity "LOW" evts) (length evts).

Section clusters.
Context `{Trig}.

Definition cellSize (zoom : num) : num := int 180 / math_pow (int 2) (num_floor zoom).

(** [`${ci},${cj}`] *)
Definition cell_key (size : num) (e : SafetyEvent) : string :=
  num_to_string (num_floor (ev_lng e / size)) +:+ "," +:+ num_to_string (num_floor (ev_lat e / size)).

(** [if (!cells.has(key)) cells.set(key, [])] and [cells.get(key).push(e)] *)
Definition add_to_cell (key : SafetyEvent → string) (cells : list (string * list SafetyEvent)) (e : SafetyEvent)
    : list (string * list SafetyEvent) :=
  map_set cells (key e) (default [] (map_get cells (key e)) ++ [e]).

Definition buildClusters (events : list SafetyEvent) (zoom : num) : list Cluster :=
  map to_cluster (fold_left (add_to_cell (cell_key (cellSize zoom))) events []).

(** The mode of the layer for a zoom, from the mode of the last render. *)
Definition showClustered (clustered : bool) (zoom : num) : bool :=
  let shown := if num_le DISSOLVE_ZOOM zoom then false else clustered in
  if num_le zoom FORM_ZOOM then true else shown.

(** [useRef(zoom < DISSOLVE_ZOOM)], and the renders at each zoom after the first *)
Definition mode_after (first : num) (zooms : list num) : bool :=
  fold_left showClustered zooms (showClustered (num_lt first DISSOLVE_ZOOM) first).

Inductive Mark : Type := EventMark (e : SafetyEvent) | ClusterMark (c : Cluster).

(** What is drawn for a cluster *)
Definition mark_of (c : Cluster) : Mark :=
  match cl_events c with
  | e :: _ => if Nat.eqb (totalCount c) 1 then EventMark e else ClusterMark c
  | [] => ClusterMark c
  end.

(** The markers of the layer *)
Definition marks (clustered : bool) (zoom : num) (events : list SafetyEvent) : list Mark :=
  let active := List.filter ev_is_active events in
  if showClustered clustered zoom then map mark_of (buildClusters active zoom)
  else map EventMark active.

(** *** Facts *)

Definition mark_events (m : Mark) : list SafetyEvent :=
  match m with EventMark e => [e] | ClusterMark c => cl_events c end.

Definition grouped (key : SafetyEvent → string) (events : list SafetyEvent)
    (cells : list (string * list SafetyEvent)) : Prop :=
  cells.*1 = set_of (map key events) ∧
  Forall (λ cell, cell.2 = List.filter (λ e, String.eqb (key e) cell.1) events) cells.

Lemma set_of_snoc `{EqDecision A} (xs : list A) x : set_of (xs ++ [x]) = set_add (set_of xs) x.
Proof. unfold set_of. by rewrite fold_left_app. Qed.

Lemma map_set_fst {K V} `{EqDecision K} (m : list (K * V)) k v : (map_set m k v).*1 = set_add m.*1 k.
Proof.
  unfold set_add. destruct (includes m.*1 k) eqn:Hk.
  - apply includes_spec in Hk. induction m as [|[k' v'] m IH]; [by apply not_elem_of_nil in Hk|]. simpl.
    destruct (decide (k' = k)) as [->|Hne]; [done|]. simpl. f_equal. apply IH.
    apply elem_of_cons in Hk as [->|Hk]; [done|exact Hk].
  - rewrite map_set_fresh; [by rewrite fmap_app|]. intros Hin. apply includes_spec in Hin. congruence.
Qed.

Lemma map_get_none {K V} `{EqDecision K} (m : list (K * V)) k : map_get m k = None → k ∉ m.*1.
Proof.
  induction m as [|[k' v'] m IH]; simpl; [by intros _ ?%not_elem_of_nil|].
  destruct (decide (k' = k)) as [->|Hne]; [done|]. intros Hg [->|Hin]%elem_of_cons; [done|by apply IH].
Qed.

Lemma Forall_map_set_key {K V} `{EqDecision K} (P : K * V → Prop) (m : list (K * V)) k v :
  NoDup m.*1 → Forall (λ kv, kv.1 ≠ k → P kv) m → P (k, v) → Forall P (map_set m k v).
Proof.
  intros Hn Hm Hv. induction m as [|[k' v'] m IH]; simpl; [by constructor|].
  simpl in Hn. apply NoDup_cons in Hn as [Hk Hn]. inversion Hm as [|?? H1 H2]; subst.
  destruct (decide (k' = k)) as [->|Hne]; constructor; [done| |by apply H1|by apply IH].
  rewrite Forall_forall in H2 |- *. intros kv Hin. apply H2; [done|]. intros <-. apply Hk.
  apply list_elem_of_fmap. by exists kv.
Qed.

Lemma add_grouped key events cells e :
  grouped key events cells → grouped key (events ++ [e]) (add_to_cell key cells e).
Proof.
  intros [Hk Hc]. assert (NoDup cells.*1) as Hn by (rewrite Hk; apply NoDup_set_of). split.
  - unfold add_to_cell. rewrite map_set_fst, Hk, map_app. symmetry. apply set_of_snoc.
  - unfold add_to_cell. apply Forall_map_set_key; [done|..].
    + eapply Forall_impl; [exact Hc|]. intros [k evts] Hev Hne. cbn in *.
      rewrite List.filter_app, Hev. simpl. rewrite (proj2 (String.eqb_neq _ _)) by done. by rewrite app_nil_r.
    + cbn. rewrite List.filter_app. simpl. rewrite String.eqb_refl. f_equal.
      destruct (map_get cells (key e)) as [evts|] eqn:Hg; cbn.
      * rewrite Forall_forall in Hc. exact (Hc _ (map_get_elem _ _ _ Hg)).
      * apply map_get_none in Hg. rewrite Hk, elem_of_set_of in Hg. symmetry. apply filter_none.
        intros x Hx. apply String.eqb_neq. intros Heq. apply Hg. rewrite <-Heq. by apply list_elem_of_fmap_2.
Qed.

Lemma cells_grouped key events : grouped key events (fold_left (add_to_cell key) events []).
Proof.
  induction events as [|e events IH] using rev_ind; [by split|].
  rewrite fold_left_app. by apply add_grouped.
Qed.

(** The groups of all keys, one after the other, are the events. *)
Lemma groups_perm (key : SafetyEvent → string) events ks :
  NoDup ks → (∀ e, e ∈ events → key e ∈ ks) →
  mjoin (map (λ k, List.filter (λ e, String.eqb (key e) k) events) ks) ≡ₚ events.
Proof.
  revert events. induction ks as [|k ks IH]; intros events Hn Hk; simpl.
  - destruct events as [|e events]; [done|]. exfalso. apply (not_elem_of_nil (key e)), Hk. by left.
  - apply NoDup_cons in Hn as [Hk' Hn].
    rewrite <-(filter_split (λ e, String.eqb (key e) k) events) at 2. f_equiv.
    rewrite <-(IH (List.filter (λ e, negb (String.eqb (key e) k)) events) Hn) at 1.
    + apply reflexive_eq. f_equal. apply map_ext_in. intros k' Hin%list_elem_of_In. rewrite filter_filter.
      apply filter_ext. intros e. cbn. destruct (String.eqb_spec (key e) k') as [<-|Hne]; [|done].
      cbn. symmetry. apply negb_true_iff, String.eqb_neq. intros Heq. apply Hk'. by rewrite <-Heq.
    + intros e [He Hne]%elem_of_filter_b. apply negb_true_iff, String.eqb_neq in Hne.
      pose proof (Hk e He) as Hin. apply elem_of_cons in Hin as [?|?]; [done|done].
Qed.

Lemma mark_of_events c : totalCount c = length (cl_events c) → mark_events (mark_of c) = cl_events c.
Proof.
  intros Hc. unfold mark_of. destruct (cl_events c) as [|e [|e' es]] eqn:He; rewrite ?Hc; simpl; done.
Qed.

(** The events of one severity *)
Definition of_severity (severity : string) (evts : list SafetyEvent) : nat :=
  length (List.filter (λ e, String.eqb (ev_severity e) severity) evts).

(** C38: Every active event is drawn, once.  Whatever the zoom and the mode, the events of the
    markers and of the clusters are the active events; and when clusters are drawn, there
    is one per cell of the grid, with the events of this cell in their order; each of its
    four counts is the number of its events of that severity, and the total is that of all
    its events. *)
Theorem every_event_drawn_once clustered zoom events :
  let active := List.filter ev_is_active events in
  let key := cell_key (cellSize zoom) in
  mjoin (map mark_events (marks clustered zoom events)) ≡ₚ active ∧
  map cl_id (buildClusters active zoom) = set_of (map key active) ∧
  ∀ c, c ∈ buildClusters active zoom →
    cl_events c = List.filter (λ e, String.eqb (key e) (cl_id c)) active ∧
    cl_events c ≠ [] ∧ totalCount c = length (cl_events c) ∧
    criticalCount c = of_severity "CRITICAL" (cl_events c) ∧ highCount c = of_severity "HIGH" (cl_events c) ∧
    mediumCount c = of_severity "MEDIUM" (cl_events c) ∧ lowCount c = of_severity "LOW" (cl_events c).
Proof.
  intros active key. destruct (cells_grouped key active) as [Hids Hcells].
  assert (∀ c, c ∈ buildClusters active zoom → totalCount c = length (cl_events c)) as Htotal.
  { intros c (cell & -> & _)%list_elem_of_fmap. done. }
  assert (map cl_id (buildClusters active zoom) = set_of (map key active)) as Hmap.
  { unfold buildClusters. rewrite map_map, <-Hids. by apply map_ext. }
  assert (∀ c, c ∈ buildClusters active zoom →
    cl_events c = List.filter (λ e, String.eqb (key e) (cl_id c)) active) as Hev.
  { intros c (cell & -> & Hin)%list_elem_of_fmap. rewrite Forall_forall in Hcells. by apply Hcells. }
  split; [|split; [done|]].
  - unfold marks. fold active. destruct (showClustered clustered zoom).
    + rewrite map_map. rewrite <-(groups_perm key active (set_of (map key active))) at 2.
      2: apply NoDup_set_of.
      2: { intros e He. apply elem_of_set_of. by apply list_elem_of_fmap_2. }
      rewrite <-Hmap, map_map. apply reflexive_eq. f_equal. apply map_ext_in. intros c Hc%list_elem_of_In.
      rewrite mark_of_events by auto. by apply Hev.
    + rewrite map_map. apply reflexive_eq. clear.
      induction active as [|e l IH]; [done|]. apply (f_equal (cons e) IH).
  - intros c Hc. split; [by apply Hev|]. split; [|split; [by apply Htotal|]].
    + intros Hnil. rewrite (Hev c Hc) in Hnil.
      assert (cl_id c ∈ set_of (map key active)) as Hin by (rewrite <-Hmap; by apply list_elem_of_In, in_map, list_elem_of_In).
      apply elem_of_set_of, list_elem_of_fmap in Hin as (e & Hid & He).
      assert (e ∈ List.filter (λ e, String.eqb (key e) (cl_id c)) active) as Hin.
      { apply elem_of_filter_b. split; [done|]. rewrite Hid. apply String.eqb_refl. }
      rewrite Hnil in Hin. by apply not_elem_of_nil in Hin.
    + by apply list_elem_of_fmap in Hc as (cell & -> & _).
Qed.
End clusters.
End Clusters.

(** ** [LiveMapPage.tsx] *)

Module LiveMap.
Import MapApi ViewportSocket HomeRoute.
#[local] Existing Instance CurrentLocation.LocationStatus_eq_dec.
Local Open Scope num_scope.

Inductive FilterId : Type := security | unrest | traffic | environment | response | other.

#[export] Instance FilterId_eq_dec : EqDecision FilterId.
Proof. solve_decision. Defined.

Definition FILTERS : list (FilterId * list string) :=
  [(security, ["SECURITY_INCIDENT"]); (unrest, ["CIVIL_UNREST"]); (traffic, ["TRAFFIC_INCIDENT"]);
   (environment, ["FIRE"; "FLOOD"]); (response, ["MEDICAL_EMERGENCY"; "INFRASTRUCTURE_FAILURE"]);
   (other, ["FALSE_ALARM"])].

(** [FILTERS.find(filter => filter.id === id)?.types ?? []] *)
Definition types_of (id : FilterId) : list string := default [] (map_get FILTERS id).

Inductive Layout : Type := mobile | desktop.

Record Padding : Type := mkPadding { top : num; right : num; bottom : num; left : num }.

Inductive CameraCommand : Type :=
| Center (id : nat) (lng lat zoom : num) (padding : Padding)
| Bounds (id : nat) (west south east north : num) (padding : Padding).

Definition command_id (c : CameraCommand) : nat := match c with Center id _ _ _ _ | Bounds id _ _ _ _ _ => id end.

(** The suggestion of [services/mapApiService.ts] with its optional box *)
Record SearchResult : Type := mkResult {
  sr_suggestion : Suggestion; sr_kind : string; sr_bbox : option (num * num * num * num)
}.

(** [searchParams] as the page reads it: [q] and [event] *)
Record Params : Type := mkParams { pq : option string; pevent : option string }.

Record State : Type := mkState {
  viewport : option (ViewportBounds * num); filters : list FilterId; selectedId : option string;
  searchResult : option SearchResult; cameraCommand : option CameraCommand; showRadii : bool; showHome : bool;
  gpsAnnouncement : string; params : Params; searchSeed : nat * string;
  cameraSequence : nat; deepLinkFocused : option string
}.

Definition initial (ps : Params) : State :=
  mkState None [] None None None true false "Location is off." ps (0%nat, default "" (pq ps)) 0 None.

Definition setViewport v s := mkState v (filters s) (selectedId s) (searchResult s) (cameraCommand s) (showRadii s) (showHome s) (gpsAnnouncement s) (params s) (searchSeed s) (cameraSequence s) (deepLinkFocused s).
Definition setFilters v s := mkState (viewport s) v (selectedId s) (searchResult s) (cameraCommand s) (showRadii s) (showHome s) (gpsAnnouncement s) (params s) (searchSeed s) (cameraSequence s) (deepLinkFocused s).
Definition setSelectedId v s := mkState (viewport s) (filters s) v (searchResult s) (cameraCommand s) (showRadii s) (showHome s) (gpsAnnouncement s) (params s) (searchSeed s) (cameraSequence s) (deepLinkFocused s).
Definition setSearchResult v s := mkState (viewport s) (filters s) (selectedId s) v (cameraCommand s) (showRadii s) (showHome s) (gpsAnnouncement s) (params s) (searchSeed s) (cameraSequence s) (deepLinkFocused s).
Definition setShowRadii v s := mkState (viewport s) (filters s) (selectedId s) (searchResult s) (cameraCommand s) v (showHome s) (gpsAnnouncement s) (params s) (searchSeed s) (cameraSequence s) (deepLinkFocused s).
Definition setShowHome v s := mkState (viewport s) (filters s) (selectedId s) (searchResult s) (cameraCommand s) (showRadii s) v (gpsAnnouncement s) (params s) (searchSeed s) (cameraSequence s) (deepLinkFocused s).
Definition setGpsAnnouncement v s := mkState (viewport s) (filters s) (selectedId s) (searchResult s) (cameraCommand s) (showRadii s) (showHome s) v (params s) (searchSeed s) (cameraSequence s) (deepLinkFocused s).
Definition setSearchParams v s := mkState (viewport s) (filters s) (selectedId s) (searchResult s) (cameraCommand s) (showRadii s) (showHome s) (gpsAnnouncement s) v (searchSeed s) (cameraSequence s) (deepLinkFocused s).
Definition setSearchSeed v s := mkState (viewport s) (filters s) (selectedId s) (searchResult s) (cameraCommand s) (showRadii s) (showHome s) (gpsAnnouncement s) (params s) v (cameraSequence s) (deepLinkFocused s).
Definition setDeepLinkFocused v s := mkState (viewport s) (filters s) (selectedId s) (searchResult s) (cameraCommand s) (showRadii s) (showHome s) (gpsAnnouncement s) (params s) (searchSeed s) (cameraSequence s) v.

(** [setCameraCommand({ id: ++cameraSequence.current, ... })] *)
Definition command (c : nat → CameraCommand) (s : State) : State :=
  let n := S (cameraSequence s) in
  mkState (viewport s) (filters s) (selectedId s) (searchResult s) (Some (c n)) (showRadii s) (showHome s)
    (gpsAnnouncement s) (params s) (searchSeed s) n (deepLinkFocused s).

(** [layout === 'mobile' ? {...} : {...}] *)
Definition cameraPadding (layout : Layout) : Padding :=
  match layout with
  | mobile => mkPadding (int 180) (int 24) (int 140) (int 24)
  | desktop => mkPadding (int 150) (int 400) (int 60) (int 40)
  end.

(** *** What is shown *)

Definition events (st : Events.EventsState) : list SafetyEvent :=
  List.filter ev_is_active (Events.selectViewportEventItems st).

Definition activeTypes (s : State) : list string := set_of (mjoin (map types_of (filters s))).

Definition visible (s : State) (evs : list SafetyEvent) : list SafetyEvent :=
  match filters s with
  | [] => evs
  | _ => List.filter (λ e, includes (activeTypes s) (ev_event_type e)) evs
  end.

(** [visible.filter(event => event.trust_state === 'confirmed').length] *)
Definition confirmed (vis : list SafetyEvent) : nat :=
  length (List.filter (λ e, bool_decide (ev_trust_state e = Some SharedTypes.confirmed)) vis).

Definition selected (s : State) (allEvents : list SafetyEvent) : option SafetyEvent :=
  id ← selectedId s; if truthy id then List.find (λ e, String.eqb (ev_id e) id) allEvents else None.

(** [Number(((a + b) / 2).toFixed(2))] *)
Definition middle (a b : num) : num := fixed_number 2 ((a + b) / int 2).

Definition mapSearchProximity (s : State) : option LatLng :=
  '(b, _) ← viewport s; Some (mkLatLng (middle (north b) (south b)) (middle (east b) (west b))).

(** *** Handlers and effects *)

Section map_page.
Variable layout : Layout.

Definition onBoundsChange (b : ViewportBounds) (zoom : num) (s : State) : State := setViewport (Some (b, zoom)) s.

Definition center_on (lng lat : num) : nat → CameraCommand := λ n, Center n lng lat (int 15) (cameraPadding layout).

(** The effect that follows the position *)
Definition follow (h : CurrentLocation.Hook) (s : State) : State :=
  match CurrentLocation.location h with
  | Some pos =>
      if bool_decide (CurrentLocation.status h = CurrentLocation.Following)
      then command (center_on (CurrentLocation.lng pos) (CurrentLocation.lat pos)) s else s
  | None => s
  end.

(** The effect that announces the state of the position *)
Definition announcement (st : CurrentLocation.LocationStatus) : string :=
  match st with
  | CurrentLocation.Idle => "Location is off."
  | CurrentLocation.Requesting => "Requesting high accuracy location."
  | CurrentLocation.Following => "Location acquired. Map is following your position."
  | CurrentLocation.LocatedNotFollowing => "Map follow paused after map interaction."
  | CurrentLocation.Denied => "Location permission was denied."
  | CurrentLocation.Unavailable => "Location is unavailable."
  end.
Definition announce (h : CurrentLocation.Hook) : State → State :=
  setGpsAnnouncement (announcement (CurrentLocation.status h)).

(** The effect that starts a search from the address of the page *)
Definition search_from_address (s : State) : State :=
  match pq (params s) with
  | Some query =>
      if truthy query then
        setSearchParams (mkParams None (pevent (params s))) (setSearchSeed (S (searchSeed s).1, query) s)
      else s
  | None => s
  end.

(** [eventParam], when it is not empty *)
Definition event_param (s : State) : option string :=
  id ← pevent (params s); if truthy id then Some id else None.

(** The effect that opens the event of the address *)
Definition deep_link (allEvents : list SafetyEvent) (s : State) : State :=
  match event_param s with
  | None => s
  | Some id =>
      let s := setSelectedId (Some id) s in
      match List.find (λ e, String.eqb (ev_id e) id) allEvents with
      | Some e =>
          if bool_decide (deepLinkFocused s = Some id) then s
          else command (center_on (ev_lng e) (ev_lat e)) (setDeepLinkFocused (Some id) s)
      | None => s
      end
  end.

Definition selectEvent (event : option SafetyEvent) (s : State) : State :=
  let s := setSelectedId (ev_id <$> event) s in
  let s := match event_param s with
           | Some _ => setSearchParams (mkParams (pq (params s)) None) s
           | None => s
           end in
  match event with
  | Some e => command (center_on (ev_lng e) (ev_lat e)) s
  | None => s
  end.

(** [Math.min(...xs)] and [Math.max(...xs)] *)
Definition minimum (xs : list num) : num := fold_left num_min xs (Inf false).
Definition maximum (xs : list num) : num := fold_left num_max xs (Inf true).

(** The box around points, padded where it has no extent *)
Definition bounds_of (lngs lats : list num) (n : nat) : CameraCommand :=
  let west := minimum lngs in
  let east := maximum lngs in
  let south := minimum lats in
  let north := maximum lats in
  let longitudePadding := if num_eqb west east then lit 1 1000 else int 0 in
  let latitudePadding := if num_eqb south north then lit 1 1000 else int 0 in
  Bounds n (west - longitudePadding) (south - latitudePadding) (east + longitudePadding)
    (north + latitudePadding) (cameraPadding layout).

Definition focusCluster (clusterEvents : list SafetyEvent) : State → State :=
  command (bounds_of (map ev_lng clusterEvents) (map ev_lat clusterEvents)).

Definition selectSearchResult (result : SearchResult) (s : State) : State :=
  command (match sr_bbox result with
           | Some (w, s, e, n) => λ k, Bounds k w s e n (cameraPadding layout)
           | None => center_on (sg_lng (sr_suggestion result)) (sg_lat (sr_suggestion result))
           end) (setSearchResult (Some result) s).

Definition toggleFilter (id : FilterId) (s : State) : State :=
  setFilters (if includes (filters s) id then set_delete (filters s) id else set_add (filters s) id) s.

(** The button of the position *)
Definition activateLocation (supported : bool) (h : CurrentLocation.Hook) : CurrentLocation.Hook :=
  if bool_decide (CurrentLocation.status h = CurrentLocation.Following ∨
                  CurrentLocation.status h = CurrentLocation.Requesting)
  then CurrentLocation.disable h else CurrentLocation.startFollowing supported h.

Definition fitRoutePreview (location : option CurrentLocation.Position) (homeLocation : option HomeLocation.HomeLocation)
    (routes : list Ui.HomeRoute) (selectedIndex : nat) (s : State) : State :=
  match routes !! selectedIndex, location, homeLocation with
  | Some route, Some pos, Some home =>
      let points := Ui.hr_coordinates route ++
        [(CurrentLocation.lng pos, CurrentLocation.lat pos); (HomeLocation.lng home, HomeLocation.lat home)] in
      command (bounds_of (map fst points) (map snd points)) s
  | _, _, _ => s
  end.

(** *** Facts *)

(** The incidents on the map: active, in the area of the map, and of a type of one of the
    filters that are on; with none on, of any type. *)
Lemma visible_spec s st e :
  e ∈ visible s (events st) ↔ e ∈ Events.selectViewportEventItems st ∧ ev_is_active e = true ∧
    (filters s = [] ∨ ∃ id, id ∈ filters s ∧ ev_event_type e ∈ types_of id).
Proof.
  assert (e ∈ events st ↔ e ∈ Events.selectViewportEventItems st ∧ ev_is_active e = true) as He
    by apply elem_of_filter_b.
  unfold visible. destruct (filters s) as [|f fs] eqn:Hf; [rewrite He; naive_solver|].
  rewrite elem_of_filter_b, He, includes_spec. unfold activeTypes. rewrite elem_of_set_of, Hf.
  change (map types_of (f :: fs)) with (types_of <$> f :: fs). rewrite list_elem_of_join. split.
  - intros [[? ?] (ts & Hts & Hin)]. split_and!; [done..|]. right.
    apply list_elem_of_fmap in Hin as (id & -> & Hid). by exists id.
  - intros (? & ? & [|(id & Hid & Hts)]); [done|]. split; [done|]. exists (types_of id).
    split; [done|]. by apply list_elem_of_fmap_2.
Qed.

(** A coordinate that the page may hold: a number of JavaScript, in degrees *)
Definition coordinate (x : num) : Prop := ∃ q, x = Fin q ∧ rnd q = Fin q ∧ (Qabs q <= inject_Z 180)%Q.

Lemma coordinate_finite x : coordinate x → is_finite x = true.
Proof. by intros (q & -> & _). Qed.

Section extreme.
Variables (pick : num → num → num) (goes : num → num → bool).
Hypothesis pick_one : ∀ x y, is_finite x = true → is_finite y = true → pick x y = x ∨ pick x y = y.
Hypothesis pick_goes : ∀ x y, is_finite x = true → is_finite y = true →
  goes (pick x y) x = true ∧ goes (pick x y) y = true.
Hypothesis goes_trans : ∀ x y z, is_finite x = true → is_finite y = true → is_finite z = true →
  goes x y = true → goes y z = true → goes x z = true.
Hypothesis goes_refl : ∀ x, is_finite x = true → goes x x = true.

Lemma fold_pick xs a :
  Forall (λ x, is_finite x = true) (a :: xs) →
  let m := fold_left pick xs a in m ∈ a :: xs ∧ ∀ x, x ∈ a :: xs → goes m x = true.
Proof using All.
  revert a. induction xs as [|y xs IH]; intros a Hf; simpl.
  - split; [by left|]. intros x Hx%list_elem_of_singleton. subst. apply goes_refl.
    by inversion Hf.
  - inversion Hf as [|?? Ha Hf']; subst. inversion Hf' as [|?? Hy Hxs]; subst.
    assert (is_finite (pick a y) = true) as Hp by by destruct (pick_one a y) as [->| ->].
    destruct (IH (pick a y)) as [Hin Hall]; [by constructor|].
    set (m := fold_left pick xs (pick a y)) in *.
    assert (is_finite m = true) as Hm.
    { apply elem_of_cons in Hin as [->|Hin]; [done|]. rewrite Forall_forall in Hxs. by apply Hxs. }
    destruct (pick_goes a y Ha Hy) as [Hga Hgy]. pose proof (Hall _ (list_elem_of_here _ _)) as Hmp. split.
    + apply elem_of_cons in Hin as [->|Hin]; [|by right; right].
      destruct (pick_one a y) as [->| ->]; [done|done|by left|by right; left].
    + intros x [->|[->|Hx]%elem_of_cons]%elem_of_cons; [by apply (goes_trans m (pick a y))..|]. apply Hall. by right.
Qed.
End extreme.

Lemma num_min_fin x y : is_finite x = true → is_finite y = true →
  (num_min x y = x ∨ num_min x y = y) ∧ num_le (num_min x y) x = true ∧ num_le (num_min x y) y = true.
Proof.
  intros Hx Hy. destruct x as [| |p], y as [| |q]; try done. cbn -[num_lt num_le].
  destruct (num_lt (Fin q) (Fin p)) eqn:E; cbv iota.
  - split; [by right|]. split; [unfold num_le; by rewrite E|by apply num_le_refl].
  - split; [by left|]. split; [by apply num_le_refl|by apply num_not_lt].
Qed.

Lemma num_max_fin x y : is_finite x = true → is_finite y = true →
  (num_max x y = x ∨ num_max x y = y) ∧ num_le x (num_max x y) = true ∧ num_le y (num_max x y) = true.
Proof.
  intros Hx Hy. destruct x as [| |p], y as [| |q]; try done. cbn -[num_lt num_le].
  destruct (num_lt (Fin p) (Fin q)) eqn:E; cbv iota.
  - split; [by right|]. split; [unfold num_le; by rewrite E|by apply num_le_refl].
  - split; [by left|]. split; [by apply num_le_refl|by apply num_not_lt].
Qed.

Lemma minimum_spec xs : xs ≠ [] → Forall (λ x, is_finite x = true) xs →
  minimum xs ∈ xs ∧ ∀ x, x ∈ xs → num_le (minimum xs) x = true.
Proof.
  destruct xs as [|a xs]; [done|]. intros _ Hf. unfold minimum. cbn [fold_left].
  replace (num_min (Inf false) a) with a by (inversion Hf as [|?? Ha]; by destruct a).
  apply (fold_pick num_min num_le); [| | |by apply num_le_refl|done].
  - intros x y Hx Hy. by apply num_min_fin.
  - intros x y Hx Hy. by apply num_min_fin.
  - intros x y z. apply num_le_trans.
Qed.

Lemma maximum_spec xs : xs ≠ [] → Forall (λ x, is_finite x = true) xs →
  maximum xs ∈ xs ∧ ∀ x, x ∈ xs → num_le x (maximum xs) = true.
Proof.
  destruct xs as [|a xs]; [done|]. intros _ Hf. unfold maximum. cbn [fold_left].
  replace (num_max (Inf true) a) with a by (inversion Hf as [|?? Ha]; by destruct a).
  apply (fold_pick num_max (λ x y, num_le y x)); [| | |by apply num_le_refl|done].
  - intros x y Hx Hy. by apply num_max_fin.
  - intros x y Hx Hy. by apply num_max_fin.
  - intros x y z Hx Hy Hz Hyx Hzy. by apply (num_le_trans z y x).
Qed.

Lemma Qplus_0 q : (q + 0)%Q = q.
Proof. destruct q as [n d]. unfold Qplus. cbn. by rewrite Z.mul_1_r, Z.add_0_r, Pos.mul_1_r. Qed.

(** The value of [0.001] *)
Definition pad_q : Q := match lit 1 1000 with Fin q => q | _ => 0%Q end.

Lemma pad_bounds : ((1 # 1001) <= pad_q)%Q ∧ (pad_q <= (1 # 999))%Q.
Proof. by vm_compute. Qed.

(** A side of the box: it holds every coordinate, and has an extent. *)
Lemma extent xs : xs ≠ [] → Forall coordinate xs →
  let lo := minimum xs in
  let hi := maximum xs in
  let pad := if num_eqb lo hi then lit 1 1000 else int 0 in
  num_lt (lo - pad) (hi + pad) = true ∧
  ∀ x, x ∈ xs → num_le (lo - pad) x = true ∧ num_le x (hi + pad) = true.
Proof.
  intros Hne Hxs. assert (Forall (λ x, is_finite x = true) xs) as Hf.
  { eapply Forall_impl; [exact Hxs|]. apply coordinate_finite. }
  rewrite Forall_forall in Hxs.
  destruct (minimum_spec xs Hne Hf) as [Hlo Hmin]. destruct (maximum_spec xs Hne Hf) as [Hhi Hmax].
  destruct (Hxs _ Hlo) as (p & Hp & Hpr & Hpb). destruct (Hxs _ Hhi) as (q & Hq & Hqr & Hqb).
  rewrite Hp, Hq in *. intros lo hi pad. subst lo hi.
  destruct (num_eqb (Fin p) (Fin q)) eqn:Heq; subst pad.
  - apply num_eqb_fin in Heq. pose proof pad_bounds as [Hpad1 Hpad2]. destruct (rnd_near (p - pad_q)) as (r1 & Hr1 & _ & Hb1).
    { apply Qabs_Qle_condition in Hpb as [Hpl Hph]. change (inject_Z 180) with (180 # 1)%Q in *.
      apply Qabs_Qle_condition. change (inject_Z (2 ^ 10)) with (1024 # 1)%Q. split; lra. }
    destruct (rnd_near (q + pad_q)) as (r2 & Hr2 & Hb2 & _).
    { apply Qabs_Qle_condition in Hqb as [Hql Hqh]. change (inject_Z 180) with (180 # 1)%Q in *.
      apply Qabs_Qle_condition. change (inject_Z (2 ^ 10)) with (1024 # 1)%Q. split; lra. }
    change (num_sub (Fin p) (lit 1 1000)) with (rnd (p - pad_q)).
    change (num_add (Fin q) (lit 1 1000)) with (rnd (q + pad_q)). rewrite Hr1, Hr2.
    change (1 # 2 ^ 40)%Q with (1 # 1099511627776)%Q in *. split; [apply num_lt_fin; lra|].
    intros x Hx. destruct (Hxs x Hx) as (y & -> & _ & _). specialize (Hmin _ Hx). specialize (Hmax _ Hx).
    rewrite num_le_fin in Hmin, Hmax |- *. rewrite num_le_fin. split; lra.
  - change (num_sub (Fin p) (int 0)) with (rnd (p + 0)). change (num_add (Fin q) (int 0)) with (rnd (q + 0)).
    rewrite !Qplus_0, Hpr, Hqr. split; [|by intros x Hx; split; [apply Hmin|apply Hmax]].
    specialize (Hmin _ Hhi). unfold num_le in Hmin. rewrite Heq, orb_false_r in Hmin. exact Hmin.
Qed.

(** A box on the camera's map *)
Definition shows (c : CameraCommand) (lng lat : num) : Prop :=
  match c with
  | Bounds _ w s e n _ => num_le w lng = true ∧ num_le lng e = true ∧ num_le s lat = true ∧ num_le lat n = true
  | Center _ _ _ _ _ => False
  end.

Definition box_ok (c : CameraCommand) : Prop :=
  match c with Bounds _ w s e n _ => num_lt w e = true ∧ num_lt s n = true | Center _ _ _ _ _ => False end.

Lemma bounds_of_ok (points : list (num * num)) n :
  points ≠ [] → Forall (λ p, coordinate p.1 ∧ coordinate p.2) points →
  let c := bounds_of (map fst points) (map snd points) n in
  box_ok c ∧ ∀ p, p ∈ points → shows c p.1 p.2.
Proof.
  intros Hne Hp c. assert (map fst points ≠ [] ∧ map snd points ≠ []) as [H1 H2] by by destruct points.
  destruct (extent (map fst points) H1) as [Hw Hlng].
  { apply Forall_map. by eapply Forall_impl; [exact Hp|intros ? []]. }
  destruct (extent (map snd points) H2) as [Hs Hlat].
  { apply Forall_map. by eapply Forall_impl; [exact Hp|intros ? []]. }
  split; [done|]. intros p Hin. destruct (Hlng p.1) as [? ?]; [by apply list_elem_of_In, in_map, list_elem_of_In|].
  destruct (Hlat p.2) as [? ?]; [by apply list_elem_of_In, in_map, list_elem_of_In|]. done.
Qed.

(** C39: The camera shows what is focused.  Opening a cluster commands a new box, with an extent
    in both directions, that holds every event of the cluster; and a route preview
    commands one that holds every point of the route, the user and the home. *)
Theorem camera_shows_focus clusterEvents location home routes index route s :
  (clusterEvents ≠ [] → Forall (λ e, coordinate (ev_lng e) ∧ coordinate (ev_lat e)) clusterEvents →
   ∃ c, cameraCommand (focusCluster clusterEvents s) = Some c ∧ command_id c = S (cameraSequence s) ∧
     box_ok c ∧ ∀ e, e ∈ clusterEvents → shows c (ev_lng e) (ev_lat e)) ∧
  (routes !! index = Some route →
   let points := Ui.hr_coordinates route ++
     [(CurrentLocation.lng location, CurrentLocation.lat location); (HomeLocation.lng home, HomeLocation.lat home)] in
   Forall (λ p, coordinate p.1 ∧ coordinate p.2) points →
   ∃ c, cameraCommand (fitRoutePreview (Some location) (Some home) routes index s) = Some c ∧
     command_id c = S (cameraSequence s) ∧ box_ok c ∧ ∀ p, p ∈ points → shows c p.1 p.2).
Proof.
  split.
  - intros Hne Hc. eexists. split; [done|]. split; [done|].
    destruct (bounds_of_ok (map (λ e, (ev_lng e, ev_lat e)) clusterEvents) (S (cameraSequence s)))
      as [Hb Hs]; [by destruct clusterEvents|by apply Forall_map|].
    rewrite !map_map in Hb, Hs. split; [exact Hb|]. intros e He.
    apply (Hs (ev_lng e, ev_lat e)), list_elem_of_In, in_map_iff. exists e. by rewrite <-list_elem_of_In.
  - intros Hr points Hp. unfold fitRoutePreview. rewrite Hr. eexists. split; [done|]. split; [done|].
    apply bounds_of_ok; [by destruct (Ui.hr_coordinates route)|done].
Qed.
End map_page.
End LiveMap.

(** ** [AlertsPage.tsx] *)

Module AlertsPage.
Local Open Scope num_scope.

Definition ALL_EVENT_TYPES : list string :=
  ["SECURITY_INCIDENT"; "CIVIL_UNREST"; "TRAFFIC_INCIDENT"; "FLOOD"; "FIRE"; "MEDICAL_EMERGENCY";
   "INFRASTRUCTURE_FAILURE"; "FALSE_ALARM"].

Inductive StatusFilter : Type := ALL | CONFIRMED | UNVERIFIED.
Inductive TimeRange : Type := Hour | SixHours | Day | Always.

#[export] Instance StatusFilter_eq_dec : EqDecision StatusFilter.
Proof. solve_decision. Defined.
#[export] Instance TimeRange_eq_dec : EqDecision TimeRange.
Proof. solve_decision. Defined.

Definition TIME_RANGE_MS (r : TimeRange) : option num :=
  match r with
  | Hour => Some (int 3600000) | SixHours => Some (int 21600000) | Day => Some (int 86400000) | Always => None
  end.

Record State : Type := mkState {
  selectedTypes : list string; statusFilter : StatusFilter; timeRange : TimeRange
}.

Definition initial : State := mkState [] ALL Always.

Section alerts.
(** [new Date(s).getTime()]: what strings besides ISO dates mean is up to the browser. *)
Variable date_parse : string → num.

(** The test of an event at the time [now] *)
Definition shown (s : State) (now : num) (e : SafetyEvent) : bool :=
  let isConfirmed := bool_decide (Events.trustStateOf e = confirmed) in
  if negb (length (selectedTypes s) =? 0)%nat && negb (includes (selectedTypes s) (ev_event_type e)) then false
  else if bool_decide (statusFilter s = CONFIRMED) && negb isConfirmed then false
  else if bool_decide (statusFilter s = UNVERIFIED) && isConfirmed then false
  else match TIME_RANGE_MS (timeRange s) with
       | Some rangeMs => negb (num_lt rangeMs (now - date_parse (ev_created_at e)))
       | None => true
       end.

Definition filtered (s : State) (now : num) (items : list SafetyEvent) : list SafetyEvent :=
  List.filter (shown s now) items.

Definition toggleType (type : string) (s : State) : State :=
  mkState (if includes (selectedTypes s) type then set_delete (selectedTypes s) type
           else set_add (selectedTypes s) type) (statusFilter s) (timeRange s).

Definition setStatusFilter v s := mkState (selectedTypes s) v (timeRange s).
Definition setTimeRange v s := mkState (selectedTypes s) (statusFilter s) v.

Definition filtersActive (s : State) : bool :=
  negb (length (selectedTypes s) =? 0)%nat || negb (bool_decide (statusFilter s = ALL))
  || negb (bool_decide (timeRange s = Always)).

(** [safetyEventToCardProps] of [components/shared/AlertCard.tsx] *)
Record CardProps : Type := mkCard {
  cp_eventType : string; cp_title : string; cp_location : string; cp_timestamp : num;
  cp_confirmed : bool; cp_trustState : TrustState; cp_severity : string
}.

Definition safetyEventToCardProps (e : SafetyEvent) : CardProps :=
  let trustState := Events.trustStateOf e in
  mkCard (ev_event_type e) (ev_title e) (default "Unknown location" (default None (ev_place_name e)))
    (date_parse (ev_created_at e)) (bool_decide (trustState = confirmed)) trustState (ev_severity e).

(** [timeAgo] *)
Definition timeAgo (now ts : num) : string :=
  let s := num_floor ((now - ts) / int 1000) in
  if num_lt s (int 60) then num_to_string s +:+ "s ago"
  else
    let m := num_floor (s / int 60) in
    if num_lt m (int 60) then num_to_string m +:+ " min ago"
    else num_to_string (num_floor (m / int 60)) +:+ "h ago".

(** *** Facts *)

(** What is listed is what the filters say; a status other than all, or a shorter range,
    lists fewer alerts. *)
Lemma filtered_spec s now items e :
  e ∈ filtered s now items ↔ e ∈ items ∧
    (selectedTypes s = [] ∨ ev_event_type e ∈ selectedTypes s) ∧
    (statusFilter s = CONFIRMED → Events.trustStateOf e = confirmed) ∧
    (statusFilter s = UNVERIFIED → Events.trustStateOf e ≠ confirmed) ∧
    (∀ r, TIME_RANGE_MS (timeRange s) = Some r → num_lt r (now - date_parse (ev_created_at e)) = false).
Proof.
  unfold filtered. rewrite elem_of_filter_b. apply and_iff_compat_l. unfold shown.
  destruct (selectedTypes s) as [|t ts] eqn:Ht; cbn [length Nat.eqb negb andb].
  - repeat case_bool_decide; cbn; destruct (TIME_RANGE_MS _) as [r|]; rewrite ?negb_true_iff; naive_solver.
  - destruct (includes (t :: ts) (ev_event_type e)) eqn:Hi; cbn [negb].
    + apply includes_spec in Hi.
      repeat case_bool_decide; cbn; destruct (TIME_RANGE_MS _) as [r|]; rewrite ?negb_true_iff; naive_solver.
    + split; [done|]. intros ([|Hin] & _); [done|]. apply includes_spec in Hin. congruence.
Qed.
End alerts.
End AlertsPage.

(** ** [InsightsPage.tsx] *)

Module Insights.
Import Fetched.

Record Point : Type := mkPoint { time : string; count : num }.

(** One step of [reduce]: the first point of the bucket's time grows, or a new one is added. *)
Fixpoint add_bucket (acc : list Point) (b : BucketedEvent) : list Point :=
  match acc with
  | [] => [mkPoint (bk_bucket b) (bk_count b)]
  | p :: acc =>
      if String.eqb (time p) (bk_bucket b) then mkPoint (time p) (num_add (count p) (bk_count b)) :: acc
      else p :: add_bucket acc b
  end.

(** [xs.slice(-n)] *)
Definition slice_last {A} (n : nat) (xs : list A) : list A := drop (length xs - n) xs.

Definition chartData (buckets : list BucketedEvent) : list Point :=
  slice_last 24 (fold_left add_bucket buckets []).

(** The effect's request of a week, in buckets of an hour *)
Definition insights_query (now : num) : outcome (string * string) :=
  from ← iso_string (num_sub now (int 604800000));
  to_ ← iso_string now;
  Ok (from, to_).

(** *** Facts *)

(** The counts of a time, added up *)
Definition total (t : string) (buckets : list BucketedEvent) : Z :=
  foldr (λ b n, if String.eqb (bk_bucket b) t then (to_Z (bk_count b) + n)%Z else n) 0%Z buckets.

Definition whole (n : Z) (b : BucketedEvent) : Prop := ∃ z, bk_count b = int z ∧ (0 <= z <= n)%Z.

Lemma add_bucket_times acc b : map time (add_bucket acc b) = set_add (map time acc) (bk_bucket b).
Proof.
  unfold set_add. induction acc as [|p acc IH]; [done|]. cbn [map add_bucket].
  destruct (String.eqb_spec (time p) (bk_bucket b)) as [->|Hne].
  - cbn. by replace (includes _ _) with true by (symmetry; apply includes_spec; by left).
  - cbn [map]. rewrite IH. unfold includes. destruct (decide (bk_bucket b ∈ map time acc)) as [Hin|Hin].
    + rewrite !bool_decide_eq_true_2; [done|by right|done].
    + rewrite !bool_decide_eq_false_2; [done| |done]. rewrite elem_of_cons. by intros [?|?].
Qed.

Lemma chart_times buckets : map time (fold_left add_bucket buckets []) = set_of (map bk_bucket buckets).
Proof.
  induction buckets as [|b buckets IH] using rev_ind; [done|].
  rewrite fold_left_app, map_app. cbn [fold_left]. rewrite add_bucket_times, IH. symmetry. apply Clusters.set_of_snoc.
Qed.

Lemma total_app t l l' : total t (l ++ l') = (total t l + total t l')%Z.
Proof. unfold total. induction l as [|b l IH]; cbn; [done|]. rewrite IH. destruct (String.eqb _ t); lia. Qed.

Lemma total_absent t buckets : t ∉ map bk_bucket buckets → total t buckets = 0%Z.
Proof.
  induction buckets as [|b buckets IH]; [done|]. cbn. intros Ht.
  destruct (String.eqb_spec (bk_bucket b) t) as [<-|_]; [set_solver|]. apply IH. set_solver.
Qed.

Lemma total_bounds n t buckets : (0 <= n)%Z → Forall (whole n) buckets →
  (0 <= total t buckets <= n * Z.of_nat (length buckets))%Z.
Proof.
  intros Hn. induction 1 as [|b buckets (z & Hz & Hb) _ IH]; cbn [total foldr length]; [lia|].
  fold (total t buckets). rewrite Hz, int_to_Z. destruct (String.eqb _ t); nia.
Qed.

Lemma add_bucket_points acc b l n :
  Forall (λ p, count p = int (total (time p) l)) acc → NoDup (map time acc) →
  (bk_bucket b ∉ map time acc → total (bk_bucket b) l = 0%Z) →
  bk_count b = int n → safe_Z (total (bk_bucket b) l + n) = true →
  Forall (λ p, count p = int (total (time p) (l ++ [b]))) (add_bucket acc b).
Proof.
  intros Hacc Hn Hfresh Hc Hsafe. assert (∀ t, total t [b] = if String.eqb (bk_bucket b) t then n else 0%Z) as Hone.
  { intros t. cbn. rewrite Hc, int_to_Z. destruct (String.eqb _ t); lia. }
  induction acc as [|p acc IH]; cbn [add_bucket].
  - constructor; [|done]. cbn. rewrite total_app, Hone, String.eqb_refl, Hfresh by apply not_elem_of_nil. done.
  - inversion Hacc as [|?? Hp Hacc']; subst. cbn in Hn. apply NoDup_cons in Hn as [Hpn Hn].
    destruct (String.eqb_spec (time p) (bk_bucket b)) as [Heq|Hne].
    + constructor; cbn.
      * rewrite total_app, Hone, Heq, String.eqb_refl, Hp, Heq, Hc. by apply int_add.
      * rewrite Forall_forall in Hacc' |- *. intros p' Hin. rewrite total_app, Hone, (Hacc' p' Hin).
        rewrite (proj2 (String.eqb_neq _ _)), Z.add_0_r; [done|]. intros Ht. apply Hpn.
        rewrite Heq, Ht. by apply list_elem_of_In, in_map, list_elem_of_In.
    + constructor.
      * rewrite total_app, Hone, (proj2 (String.eqb_neq _ _)), Z.add_0_r by congruence. done.
      * apply IH; [done|done|]. intros Hb. apply Hfresh. cbn. rewrite elem_of_cons. by intros [?|?].
Qed.

(** The chart adds up what was loaded.  With whole, non-negative counts whose sum is
    exact, it has one point for each of the last 24 times that the buckets name, in the
    order in which they first appear, and the point counts every bucket of its time. *)
Theorem chart_counts n buckets :
  (0 <= n)%Z → Forall (whole n) buckets → (n * Z.of_nat (length buckets) <= max_safe)%Z →
  map time (chartData buckets) = slice_last 24 (set_of (map bk_bucket buckets)) ∧
  Forall (λ p, count p = int (total (time p) buckets)) (chartData buckets) ∧ length (chartData buckets) <= 24.
Proof.
  intros Hn Hw Hsafe. unfold chartData.
  assert (Forall (λ p, count p = int (total (time p) buckets)) (fold_left add_bucket buckets [])) as Hp.
  { induction buckets as [|b buckets IH] using rev_ind; [constructor|]. rewrite fold_left_app. cbn [fold_left].
    rewrite length_app in Hsafe. cbn [length] in Hsafe. apply Forall_app in Hw as [Hw Hb].
    inversion Hb as [|?? (z & Hz & Hzb)]; subst. pose proof (total_bounds n (bk_bucket b) buckets Hn Hw).
    eapply add_bucket_points; [apply IH; [done|nia]| | |exact Hz|].
    - rewrite chart_times. apply NoDup_set_of.
    - rewrite chart_times, elem_of_set_of. apply total_absent.
    - unfold safe_Z. apply Z.leb_le. nia. }
  split_and!.
  - unfold slice_last. rewrite <-chart_times, length_map. symmetry. apply skipn_map.
  - unfold slice_last. by apply Forall_drop.
  - unfold slice_last. rewrite length_drop. lia.
Qed.
End Insights.

(** ** Concrete maps *)

Definition at_point (i type severity : string) (la ln : Z) : SafetyEvent :=
  mkSafetyEvent i type severity "" None (int la) (int ln) None None true "ACTIVE" "" "" None None None None None None
    (Some confirmed) None.

Definition nairobi : list SafetyEvent :=
  [at_point "e1" "FIRE" "HIGH" (-1) 36; at_point "e2" "FLOOD" "LOW" 4 39; at_point "e3" "FIRE" "CRITICAL" (-2) 37].

Module MapWitnesses.
Import Clusters.

(** [Math.pow] on whole numbers; the other functions are not used here. *)
#[local] Instance powers : Trig :=
  {| math_sin x := x; math_asin x := x; math_atan2 x _ := x; math_sqrt x := x; math_hypot x _ := x;
     math_pow x y := int (to_Z x ^ to_Z y) |}.

Lemma every_event_drawn_once_witness :
  map (λ m, map ev_id (mark_events m)) (marks true (int 4) nairobi) = [["e1"; "e3"]; ["e2"]] ∧
  mjoin (map mark_events (marks true (int 4) nairobi)) ≡ₚ nairobi.
Proof.
  split; [vm_compute; reflexivity|]. exact (proj1 (every_event_drawn_once true (int 4) nairobi)).
Defined.

(** Between the two thresholds the mode stays; a zoom through both of them changes it once. *)
Example hysteresis :
  map (λ zs, mode_after (int 12) zs)
    [[]; [int 13]; [int 13; int 14]; [int 13; int 14; int 13]; [int 14; lit 128 10]] =
  [true; true; false; false; true].
Proof. reflexivity. Qed.

Lemma coordinate_int z : (Z.abs z <= 180)%Z → LiveMap.coordinate (int z).
Proof.
  intros Hz. exists (inject_Z z). split; [done|]. split.
  - change (rnd (inject_Z z) = int z). apply rnd_int. unfold safe_Z, max_safe. apply Z.leb_le. lia.
  - apply Qabs_Qle_condition. rewrite <-inject_Z_opp, <-!Zle_Qle. lia.
Qed.

Lemma camera_shows_focus_witness :
  ∃ c, LiveMap.cameraCommand (LiveMap.focusCluster LiveMap.mobile nairobi (LiveMap.initial (LiveMap.mkParams None None))) = Some c ∧
    LiveMap.box_ok c ∧ ∀ e, e ∈ nairobi → LiveMap.shows c (ev_lng e) (ev_lat e).
Proof.
  destruct (LiveMap.camera_shows_focus LiveMap.mobile nairobi (CurrentLocation.mkPosition (int 0) (int 0) (int 1))
    (HomeLocation.mkHome (int 0) (int 0) "") [] 0
    (Ui.mkHomeRoute "" [] NaN NaN [] "" Ui.walking NaN) (LiveMap.initial (LiveMap.mkParams None None))) as [Hc _].
  destruct Hc as (c & Hc & _ & Hb & Hs); [discriminate| |].
  - repeat constructor; apply coordinate_int; vm_compute; congruence.
  - exists c. exact (conj Hc (conj Hb Hs)).
Defined.

Definition bucket (t : string) (z : Z) : Fetched.BucketedEvent := Fetched.mkBucket t NaN NaN (int z) "FIRE".

Lemma chart_counts_witness :
  map (λ p, (Insights.time p, Insights.count p)) (Insights.chartData [bucket "09" 2; bucket "10" 1; bucket "09" 3]) =
    [("09", int 5); ("10", int 1)] ∧
  length (Insights.chartData [bucket "09" 2; bucket "10" 1; bucket "09" 3]) <= 24.
Proof.
  split; [vm_compute; reflexivity|].
  destruct (Insights.chart_counts 3 [bucket "09" 2; bucket "10" 1; bucket "09" 3]) as (_ & _ & Hl).
  - lia.
  - repeat constructor; eexists; (split; [reflexivity|lia]).
  - vm_compute. congruence.
  - exact Hl.
Defined.

End MapWitnesses.
