(* ===== verification/MapSearch.v ===== *)
(** * The search box of the map: [components/map/MapSearch.tsx]

    The box asks the gateway 275 ms after its text last changed and aborts the request of
    an earlier text; timers and answers come in any order.  The list below the box is
    driven by the keyboard and the mouse. *)

From Stdlib Require Import QArith Lia.
From stdpp Require Import relations.
From S2P Require Import Prelude JsNumber JsString JsStringFacts JsCollection Json.
From S2P Require Import SharedTypes Nostr CryptoModel Platform Web Api Geo HomeRoute MapPage.
Close Scope Q_scope.
Import MapApi.

Module MapSearch.
Import HomeRoute LiveMap.

(** A request under way: the number of the effect run that made it, what it asks, and
    whether the controller of that run was aborted. *)
Record Request : Type := mkRequest { rq_seq : nat; rq_text : string; rq_near : option LatLng; rq_aborted : bool }.

(** [near] is the property [proximity]; [timer] is the pending timer with the number, the
    text and the position of the effect run that set it. *)
Record Box : Type := mkBox {
  query : string; results : list SearchResult; loading : bool; failed : bool; active : Z; focused : bool;
  sequence : nat; near : option LatLng; timer : option (nat * string * option LatLng); requests : list Request
}.

Definition withQuery v b := mkBox v (results b) (loading b) (failed b) (active b) (focused b) (sequence b) (near b) (timer b) (requests b).
Definition setResults v b := mkBox (query b) v (loading b) (failed b) (active b) (focused b) (sequence b) (near b) (timer b) (requests b).
Definition setLoading v b := mkBox (query b) (results b) v (failed b) (active b) (focused b) (sequence b) (near b) (timer b) (requests b).
Definition setFailed v b := mkBox (query b) (results b) (loading b) v (active b) (focused b) (sequence b) (near b) (timer b) (requests b).
Definition setActive v b := mkBox (query b) (results b) (loading b) (failed b) v (focused b) (sequence b) (near b) (timer b) (requests b).
Definition setFocused v b := mkBox (query b) (results b) (loading b) (failed b) (active b) v (sequence b) (near b) (timer b) (requests b).
Definition withSequence v b := mkBox (query b) (results b) (loading b) (failed b) (active b) (focused b) v (near b) (timer b) (requests b).
Definition withNear v b := mkBox (query b) (results b) (loading b) (failed b) (active b) (focused b) (sequence b) v (timer b) (requests b).
Definition withTimer v b := mkBox (query b) (results b) (loading b) (failed b) (active b) (focused b) (sequence b) (near b) v (requests b).
Definition withRequests v b := mkBox (query b) (results b) (loading b) (failed b) (active b) (focused b) (sequence b) (near b) (timer b) v.

Definition trimmed (b : Box) : string := trim (query b).
Definition long_enough (b : Box) : bool := (2 <=? str_length (trimmed b))%Z.
Definition opened (b : Box) : bool := focused b && long_enough b.

(** ** The search effect *)

(** [window.clearTimeout(timer); controller.abort()] *)
Definition cleanup (b : Box) : Box :=
  withTimer None (withRequests
    (map (λ r, if (rq_seq r =? sequence b)%nat then mkRequest (rq_seq r) (rq_text r) (rq_near r) true else r)
       (requests b)) b).

Definition effect (b : Box) : Box :=
  let b := setFailed false (setActive (-1) (withSequence (S (sequence b)) b)) in
  if long_enough b then withTimer (Some (sequence b, trimmed b, near b)) b
  else setResults [] (setLoading false b).

(** [setQuery(v)]: the effect runs again when the trimmed text has changed. *)
Definition setQuery (v : string) (b : Box) : Box :=
  let b' := withQuery v b in
  if String.eqb (trimmed b') (trimmed b) then b' else effect (cleanup b').

(** The page passes another [proximity]. *)
Definition setNear (p : option LatLng) (b : Box) : Box :=
  if decide (p = near b) then b else effect (cleanup (withNear p b)).

Definition initial (initialQuery : string) (proximity : option LatLng) : Box :=
  effect (mkBox initialQuery [] false false (-1) (truthy (trim initialQuery)) 0 proximity None []).

(** The timer fires: the request is sent. *)
Definition fire (b : Box) : Box :=
  match timer b with
  | Some (request, v, p) =>
      setLoading true (withTimer None (withRequests (requests b ++ [mkRequest request v p false]) b))
  | None => b
  end.

(** What follows the answer to [r] *)
Definition answered (r : Request) (o : outcome (list SearchResult)) (b : Box) : Box :=
  let current := (rq_seq r =? sequence b)%nat in
  let b := match o with
           | Ok next => if negb current then b else setResults next b
           | Throw e =>
               if rq_aborted r || isAbortError e then b
               else if current then setFailed true (setResults [] b) else b
           end in
  if current && negb (rq_aborted r) then setLoading false b else b.

(** The [k]-th request under way settles. *)
Definition settle (k : nat) (o : outcome (list SearchResult)) (b : Box) : Box :=
  match requests b !! k with
  | Some r => answered r o (withRequests (delete k (requests b)) b)
  | None => b
  end.

(** ** The keyboard and the list *)

(** The second component is what [onSelect] is called with. *)
Definition choose (index : Z) (b : Box) : Box * option SearchResult :=
  match (if (index <? 0)%Z then None else results b !! Z.to_nat index) with
  | Some result => (setActive (-1) (setFocused false (setQuery (sg_label (sr_suggestion result)) b)), Some result)
  | None => (b, None)
  end.

Definition onFocus : Box → Box := setFocused true.
Definition onChange (v : string) (b : Box) : Box := setFocused true (setQuery v b).

Inductive Key : Type := ArrowDown | ArrowUp | Enter | Escape.

Definition onKeyDown (key : Key) (b : Box) : Box * option SearchResult :=
  match key with
  | ArrowDown => (setActive (Z.min (active b + 1) (Z.of_nat (length (results b)) - 1)) b, None)
  | ArrowUp => (setActive (Z.max (active b - 1) 0) b, None)
  | Enter => if (0 <=? active b)%Z then choose (active b) b else (b, None)
  | Escape => (setActive (-1) (setFocused false b), None)
  end.

(** The button that clears the box; the page forgets its result ([onClear]). *)
Definition clear (b : Box) : Box := setResults [] (setQuery "" b).

Definition status (b : Box) : string :=
  if loading b then "Searching places"
  else if failed b then "Search unavailable. Try again."
  else match results b with
       | _ :: _ => string_of_Z (Z.of_nat (length (results b))) +:+ " results available"
       | [] => if long_enough b then "No results found" else "Enter at least 2 characters"
       end.

(** ** Timers and answers stop *)

Section settling.
(** What the gateway answers to a text near a position *)
Variable search : string → option LatLng → outcome (list SearchResult).

(** What happens without the user: the timer fires, and requests settle in any order; one
    that was not aborted settles with the answer of the gateway, an aborted one with
    anything. *)
Inductive internal (b : Box) : Box → Prop :=
| int_fire : is_Some (timer b) → internal b (fire b)
| int_settle k r o : requests b !! k = Some r →
    (rq_aborted r = false → o = search (rq_text r) (rq_near r)) → internal b (settle k o b).

Inductive handler : Box → Box → Prop :=
| on_focus b : handler b (onFocus b)
| on_change v b : handler b (onChange v b)
| on_key key b : handler b (onKeyDown key b).1
| on_click i b : handler b (choose i b).1
| on_clear b : handler b (clear b)
| on_near p b : handler b (setNear p b).

Inductive reachable : Box → Prop :=
| reach_initial q p : reachable (initial q p)
| reach_internal b b' : reachable b → internal b b' → reachable b'
| reach_handler b b' : reachable b → handler b b' → reachable b'.

(** The box shows the answer to its text. *)
Definition shows_answer (b : Box) : Prop :=
  if long_enough b then
    match search (trimmed b) (near b) with
    | Ok l => results b = l ∧ failed b = false
    | Throw _ => results b = [] ∧ failed b = true
    end
  else results b = [] ∧ failed b = false.

Definition about_text (b : Box) (n : nat) (v : string) (p : option LatLng) : Prop :=
  n = sequence b → v = trimmed b ∧ p = near b ∧ long_enough b = true.

(** The request of the effect run that is mounted is the only one not aborted, and until it
    is answered it, or the timer that sends it, is there. *)
Definition consistent (b : Box) : Prop :=
  (∀ n v p, timer b = Some (n, v, p) → n = sequence b ∧ about_text b n v p ∧ failed b = false ∧
    Forall (λ r, rq_seq r ≠ sequence b) (requests b)) ∧
  Forall (λ r, rq_seq r <= sequence b ∧ rq_aborted r = negb (rq_seq r =? sequence b)%nat ∧
    about_text b (rq_seq r) (rq_text r) (rq_near r)) (requests b) ∧
  ((is_Some (timer b) ∨ Exists (λ r, rq_seq r = sequence b) (requests b)) ∧ failed b = false ∨
   loading b = false ∧ shows_answer b).

(** Steps that leave the search alone *)
Lemma box_consistent_view b b' :
  trimmed b' = trimmed b → results b' = results b → loading b' = loading b → failed b' = failed b →
  sequence b' = sequence b → near b' = near b → timer b' = timer b → requests b' = requests b →
  consistent b → consistent b'.
Proof.
  intros Hq Hr Hl Hf Hs Hn Ht Hrs. unfold consistent, shows_answer, about_text, long_enough.
  by rewrite Hq, Hr, Hl, Hf, Hs, Hn, Ht, Hrs.
Qed.

(** A new run of the effect makes every earlier request an aborted one. *)
Lemma box_consistent_effect b :
  Forall (λ r, rq_seq r <= sequence b ∧ rq_aborted r = negb (rq_seq r =? sequence b)%nat) (requests b) →
  consistent (effect (cleanup b)).
Proof.
  intros Hb.
  assert (Forall (λ r, rq_seq r <= sequence b ∧ rq_aborted r = true) (requests (cleanup b))) as Hc.
  { cbn. apply Forall_fmap. eapply Forall_impl; [exact Hb|]. intros r [Hle Ha]. cbn.
    destruct (rq_seq r =? sequence b)%nat; [done|]. split; [done|]. by rewrite Ha. }
  assert (∀ b', sequence b' = S (sequence b) → Forall (λ r, rq_seq r <= sequence b' ∧
    rq_aborted r = negb (rq_seq r =? sequence b')%nat ∧ about_text b' (rq_seq r) (rq_text r) (rq_near r))
    (requests (cleanup b))) as Hr.
  { intros b' Hb'. eapply Forall_impl; [exact Hc|]. intros r [Hle ->]. unfold about_text. rewrite Hb'.
    split_and!; [lia| |lia]. by replace (_ =? _)%nat with false by (symmetry; apply Nat.eqb_neq; lia). }
  unfold effect. destruct (long_enough _) eqn:Hl; (split; [|split; [by apply Hr|]]); cbn -[cleanup].
  - intros n v p [= <- <- <-]. split_and!; [done..|]. eapply Forall_impl; [exact Hc|]. cbn. intros; lia.
  - left. split; [left; by eexists|done].
  - done.
  - right. split; [done|]. unfold shows_answer. by replace (long_enough _) with false.
Qed.

Lemma box_consistent_earlier b : consistent b →
  Forall (λ r, rq_seq r <= sequence b ∧ rq_aborted r = negb (rq_seq r =? sequence b)%nat) (requests b).
Proof. intros (_ & Hr & _). eapply Forall_impl; [exact Hr|]. naive_solver. Qed.

Lemma box_consistent_setQuery v b : consistent b → consistent (setQuery v b).
Proof.
  intros Hb. unfold setQuery. destruct (String.eqb _ _) eqn:Hq.
  - apply String.eqb_eq in Hq. by apply (box_consistent_view b).
  - apply box_consistent_effect. by apply box_consistent_earlier in Hb.
Qed.

Lemma box_consistent_choose i b : consistent b → consistent (choose i b).1.
Proof.
  intros Hb. unfold choose. destruct (if (i <? 0)%Z then _ else _) as [r|]; [|done].
  apply (box_consistent_view (setQuery (sg_label (sr_suggestion r)) b)); [done..|]. by apply box_consistent_setQuery.
Qed.

(** The box is empty: whatever is under way is an aborted request. *)
Lemma box_consistent_clear b : consistent b → consistent (clear b).
Proof.
  intros Hb%(box_consistent_setQuery ""). unfold clear.
  assert (long_enough (setQuery "" b) = false) as Hl.
  { unfold setQuery. destruct (String.eqb _ _); reflexivity. }
  destruct Hb as (Ht & Hr & Hp). split; [exact Ht|]. split; [exact Hr|]. right.
  destruct Hp as [[[Hs|He] _]|[Hload Hs]].
  - destruct Hs as [[[n v] p] Hs]. destruct (Ht n v p Hs) as (Hn & Ha & _). destruct (Ha Hn) as (_ & _ & ?). congruence.
  - apply Exists_exists in He as (r & Hin & Hn). rewrite Forall_forall in Hr.
    destruct (Hr r Hin) as (_ & _ & Ha). destruct (Ha Hn) as (_ & _ & ?). congruence.
  - split; [exact Hload|]. revert Hs. unfold shows_answer. cbn. change (long_enough _) with (long_enough (setQuery "" b)).
    rewrite Hl. naive_solver.
Qed.

Lemma box_consistent_handler b b' : consistent b → handler b b' → consistent b'.
Proof.
  intros Hb. destruct 1 as [b|v b|key b|i b|b|p b].
  - by apply (box_consistent_view b).
  - apply (box_consistent_view (setQuery v b)); [done..|]. by apply box_consistent_setQuery.
  - destruct key; cbn; [by apply (box_consistent_view b)..| |by apply (box_consistent_view b)].
    destruct (0 <=? active b)%Z; [|done]. by apply box_consistent_choose.
  - by apply box_consistent_choose.
  - by apply box_consistent_clear.
  - unfold setNear. destruct (decide _); [done|]. apply box_consistent_effect. by apply box_consistent_earlier in Hb.
Qed.

Lemma box_consistent_fire b : is_Some (timer b) → consistent b → consistent (fire b).
Proof.
  intros [[[n v] p] Ht] (Htb & Hr & _). destruct (Htb n v p Ht) as (-> & Ha & Hf & _).
  unfold fire. rewrite Ht. split; [done|]. split; [|left; split; [right|done]]; cbn.
  - apply Forall_app. split; [exact Hr|]. constructor; [|done]. cbn. by rewrite Nat.eqb_refl.
  - apply Exists_app. right. by constructor.
Qed.

(** What an answer to an aborted request changes: nothing but the requests under way. *)
Lemma answered_other r o b : rq_seq r ≠ sequence b → answered r o b = b.
Proof.
  intros Hs%Nat.eqb_neq. unfold answered. rewrite Hs. destruct o; [done|]. by destruct (_ || _).
Qed.

Lemma delete_current (rs : list Request) k r n : rs !! k = Some r → rq_seq r ≠ n →
  Exists (λ r, rq_seq r = n) rs → Exists (λ r, rq_seq r = n) (delete k rs).
Proof.
  intros Hk Hr. rewrite !Exists_exists. intros (r' & Hin & Hn). exists r'. split; [|done].
  rewrite (delete_Permutation rs k r Hk) in Hin. apply elem_of_cons in Hin as [->|Hin]; [done|exact Hin].
Qed.

Hypothesis aborts_only : ∀ v p e, search v p = Throw e → isAbortError e = false.

Lemma Forall_delete_at {A} (P : A → Prop) (xs : list A) k : Forall P xs → Forall P (delete k xs).
Proof. rewrite !Forall_forall. intros HP x Hx%list_elem_of_delete_inv. by apply HP. Qed.

(** The answer to the request of the effect run that is mounted *)
Lemma answered_current r b : rq_seq r = sequence b → rq_aborted r = false → long_enough b = true →
  failed b = false ∨ shows_answer b →
  let b' := answered r (search (trimmed b) (near b)) b in
  loading b' = false ∧ shows_answer b' ∧ timer b' = timer b ∧ requests b' = requests b ∧
  sequence b' = sequence b ∧ query b' = query b ∧ near b' = near b.
Proof.
  intros Hs Hab Hl Hf. unfold answered. rewrite Hs, Nat.eqb_refl, Hab. revert Hf.
  unfold shows_answer, long_enough, trimmed in *. rewrite Hl.
  destruct (search (trim (query b)) (near b)) as [l|e] eqn:Ho;
    [|rewrite (aborts_only _ _ _ Ho)]; cbn -[trim str_length]; rewrite Hl, Ho; naive_solver.
Qed.

Lemma box_consistent_settle b k r o : requests b !! k = Some r →
  (rq_aborted r = false → o = search (rq_text r) (rq_near r)) → consistent b → consistent (settle k o b).
Proof.
  intros Hk Ho Hb. assert (r ∈ requests b) as Hin by by eapply list_elem_of_lookup_2.
  destruct Hb as (Ht & Hr & Hp). pose proof Hr as Hall. rewrite Forall_forall in Hall.
  destruct (Hall r Hin) as (_ & Hab & Ha). unfold settle. rewrite Hk.
  destruct (decide (rq_seq r = sequence b)) as [Hs|Hs].
  - destruct (Ha Hs) as (Hv & Hn & Hl). rewrite Hs, Nat.eqb_refl in Hab. rewrite (Ho Hab), Hv, Hn.
    set (b1 := withRequests (delete k (requests b)) b).
    destruct (answered_current r b1) as (Hload & Hsh & Htm & Hrs & Hsq & Hq & Hnr);
      [done..|cbn; change (shows_answer b1) with (shows_answer b); naive_solver|].
    revert Hload Hsh Htm Hrs Hsq Hq Hnr. change (trimmed b1) with (trimmed b). change (near b1) with (near b).
    generalize (answered r (search (trimmed b) (near b)) b1). intros b2 Hload Hsh Htm Hrs Hsq Hq Hnr.
    split; [|split; [|by right]].
    + rewrite Htm. cbn. intros n v p E. destruct (Ht _ _ _ E) as (_ & _ & _ & Hno).
      rewrite Forall_forall in Hno. by destruct (Hno r Hin).
    + rewrite Hrs, Hsq. unfold about_text, long_enough, trimmed in *. rewrite Hsq, Hq, Hnr. by apply Forall_delete_at.
  - rewrite answered_other by done. split; [|split].
    + intros n v p Htm. cbn. destruct (Ht n v p Htm) as (? & ? & ? & ?). split_and!; [done..|]. by apply Forall_delete_at.
    + by apply Forall_delete_at.
    + destruct Hp as [[[Hs'|He] Hf]|Hp]; [left; split; [by left|done]| |by right].
      left. split; [right|done]. by apply (delete_current _ k r).
Qed.

Lemma box_consistent_internal b b' : consistent b → internal b b' → consistent b'.
Proof. intros Hb []; [by apply box_consistent_fire|by eapply box_consistent_settle]. Qed.

Lemma reachable_box_consistent b : reachable b → consistent b.
Proof.
  induction 1 as [q p|b b' _ IH Hs|b b' _ IH Hs].
  - by apply (box_consistent_effect (mkBox q [] false false (-1) (truthy (trim q)) 0 p None [])).
  - by eapply box_consistent_internal.
  - by eapply box_consistent_handler.
Qed.

(** A timer becomes a request, a request an answer. *)
Definition pending (b : Box) : nat := (if timer b is Some _ then 2 else 0) + length (requests b).

Lemma answered_pending r o b : pending (answered r o b) = pending b ∧ query (answered r o b) = query b.
Proof.
  unfold answered, pending. destruct (_ =? _)%nat, o; cbn -[isAbortError]; try destruct (rq_aborted r);
    try destruct (isAbortError _); done.
Qed.

Lemma internal_pending b b' : internal b b' → pending b' < pending b ∧ query b' = query b.
Proof.
  intros [[[[n v] p] Ht]|k r o Hk _].
  - unfold fire, pending. rewrite Ht. cbn. rewrite length_app. cbn. split; [lia|done].
  - unfold settle. rewrite Hk. destruct (answered_pending r o (withRequests (delete k (requests b)) b)) as [-> ->].
    split; [|done]. unfold pending. cbn. apply lookup_lt_Some in Hk as Hlt. rewrite length_delete by done. lia.
Qed.

Lemma internal_stops b : sn internal b.
Proof.
  revert b. apply (wf_projected lt pending); [|apply lt_wf]. intros b1 b2 Hi. by apply internal_pending.
Qed.

Lemma stopped_pending b : nf internal b → pending b = 0%nat.
Proof.
  intros Hnf. unfold pending. destruct (timer b) as [tm|] eqn:Ht.
  - destruct Hnf. eexists. apply int_fire. by rewrite Ht.
  - destruct (requests b) as [|r rs] eqn:Hr; [done|]. destruct Hnf. eexists. eapply (int_settle b 0 r).
    + by rewrite Hr.
    + by intros _.
Qed.

Lemma internal_finishes b : ∃ b', rtc internal b b' ∧ nf internal b'.
Proof.
  induction (internal_stops b) as [b _ IH].
  assert (nf internal b ∨ ∃ b1, internal b b1) as [Hnf|[b1 Hb1]].
  { destruct (timer b) as [tm|] eqn:Ht; [right; eexists; apply int_fire; by rewrite Ht|].
    destruct (requests b) as [|r rs] eqn:Hr.
    - left. intros [b' [[]|k r o Hk _]]; [congruence|]. by rewrite Hr in Hk.
    - right. eexists. eapply (int_settle b 0 r); [by rewrite Hr|by intros _]. }
  - by exists b.
  - destruct (IH b1 Hb1) as (b' & Hr & Hnf). exists b'. split; [by eapply rtc_l|done].
Qed.

(** C33: Whatever was typed, chosen and cleared before: without further input the timers and
    the requests of the box come to an end, in any order of the answers, and where they end
    the text is the one typed, the box no longer says that it is searching, and it shows
    the gateway's answer to that text (or that the search failed), not one to an earlier
    text. *)
Theorem search_settles b : reachable b →
  sn internal b ∧ (∃ b', rtc internal b b' ∧ nf internal b') ∧
  ∀ b', rtc internal b b' → nf internal b' → query b' = query b ∧ loading b' = false ∧ shows_answer b'.
Proof.
  intros Hb%reachable_box_consistent. split; [apply internal_stops|]. split; [apply internal_finishes|].
  intros b' Hr. induction Hr as [b|b b1 b' Hs _ IH]; intros Hnf.
  - split; [done|]. apply stopped_pending in Hnf. unfold pending in Hnf.
    destruct Hb as (_ & _ & [[[[tm Ht]|He] _]|Hdone]); [by rewrite Ht in Hnf| |done].
    destruct (requests b); [by apply Exists_nil in He|]. cbn in Hnf. destruct (timer b); lia.
  - apply internal_pending in Hs as Hq. destruct (IH (box_consistent_internal _ _ Hb Hs) Hnf) as (-> & ? & ?).
    split; [apply Hq|done].
Qed.

End settling.

(** *** A search *)

Definition town (name : string) : SearchResult := mkResult (mkSuggestion name name (int 0) (int 37)) "place" None.
Definition gateway (text : string) (near : option LatLng) : outcome (list SearchResult) :=
  if String.eqb text "Nakuru" then Ok [town "Nakuru"] else if String.eqb text "Na" then Ok [town "Nairobi"; town "Nakuru"]
  else Throw "Map search failed (502)".

(** "Na" was sent when "Nakuru" was typed. *)
Abbreviation typed_over := (onChange "Nakuru" (fire (onChange "Na" (initial "" None)))).

Lemma first_timer : timer (onChange "Na" (initial "" None)) = Some (2%nat, "Na", None).
Proof. reflexivity. Qed.

Lemma first_typed : reachable gateway (onChange "Na" (initial "" None)).
Proof. eapply reach_handler; [apply reach_initial|apply on_change]. Qed.

Lemma first_sent : reachable gateway (fire (onChange "Na" (initial "" None))).
Proof. eapply reach_internal; [apply first_typed|apply int_fire]. eexists. apply first_timer. Qed.

Lemma typed_over_reachable : reachable gateway typed_over.
Proof. eapply reach_handler; [apply first_sent|apply on_change]. Qed.

Lemma search_settles_witness :
  map rq_aborted (requests typed_over) = [true] ∧
  results (settle 0 (gateway "Nakuru" None) (fire (settle 0 (Throw "AbortError") typed_over))) = [town "Nakuru"] ∧
  sn (internal gateway) typed_over.
Proof.
  split; [reflexivity|]. split; [reflexivity|].
  apply (search_settles gateway).
  - intros v p e. unfold gateway. destruct (String.eqb v "Nakuru"); [discriminate|].
    destruct (String.eqb v "Na"); [discriminate|]. by intros [= <-].
  - exact typed_over_reachable.
Defined.

(** While the timer of a first search runs, the box already says that nothing was found. *)
Example nothing_found_before_search :
  let b := onChange "Na" (initial "" None) in
  timer b = Some (2%nat, "Na", None) ∧ requests b = [] ∧ status b = "No results found".
Proof. split_and!; reflexivity. Qed.

(** Until the answer to a new text is there, the list and [Enter] offer those to the text before. *)
Example earlier_answers_on_offer :
  let found := settle 0 (gateway "Na" None) (fire (onChange "Na" (initial "" None))) in
  let b := (onKeyDown ArrowDown (onChange "Mombasa" found)).1 in
  status b = "2 results available" ∧ (onKeyDown Enter b).2 = Some (town "Nairobi").
Proof. split; reflexivity. Qed.

End MapSearch.
