(* ===== verification/Listening.v ===== *)
(** * Listening: [public/audio-processor.js], [services/audioCapture.ts],
    [services/acousticDetectionService.ts] and [hooks/useAcousticDetection.ts]

    The processor cuts the samples of the microphone into windows.  The hook starts the
    model and the capture when the overlay opens and stops the capture when it closes; what
    it awaits (the model, the permission, the module of the processor) settles between the
    events of the page, so the hook is a step relation.  The model itself is a library: a
    window is represented by the scores the model gives it. *)

From Stdlib Require Import QArith Lia.
From stdpp Require Import relations.
From S2P Require Import Prelude JsNumber JsString JsCollection Json CryptoModel Platform Acoustic.
From S2P Require Import Web Api.
Close Scope Q_scope.

(** ** [audio-processor.js] *)

Module Processor.

Section windows.
Context {A : Type}.

(** [WINDOW_SAMPLES]: 15360; the theorems hold for every length that is not zero. *)
Variable window : nat.

Record State : Type := mkState { buffer : list A; offset : nat }.

(** [new Float32Array(WINDOW_SAMPLES)] *)
Definition initial (zero : A) : State := mkState (replicate window zero) 0.

(** [buffer.set(xs, at)] *)
Definition set_at (xs : list A) (at_ : nat) (buffer : list A) : list A :=
  take at_ buffer ++ xs ++ drop (at_ + length xs) buffer.

(** One round of the loop: the state and the source offset after it, and the window posted *)
Definition round (channel : list A) (srcOffset : nat) (s : State) : State * nat * option (list A) :=
  let space := window - offset s in
  let toCopy := Nat.min space (length channel - srcOffset) in
  let filled := set_at (take toCopy (drop srcOffset channel)) (offset s) (buffer s) in
  let off := offset s + toCopy in
  if (off =? window)%nat then (mkState filled 0, srcOffset + toCopy, Some filled)
  else (mkState filled off, srcOffset + toCopy, None).

(** The loop; [fuel] bounds its rounds. *)
Fixpoint loop (fuel : nat) (channel : list A) (srcOffset : nat) (s : State) : option (State * list (list A)) :=
  if (srcOffset <? length channel)%nat then
    match fuel with
    | 0 => None
    | S fuel =>
        let '(s, src, posted) := round channel srcOffset s in
        '(s, ws) ← loop fuel channel src s; Some (s, option_list posted ++ ws)
    end
  else Some (s, []).

(** [process(inputs)] with the first channel of the first input, where there is one *)
Definition process (channel : option (list A)) (s : State) : option (State * list (list A)) :=
  match channel with
  | None => Some (s, [])
  | Some channel => loop (length channel) channel 0 s
  end.

(** The calls of [process] one after the other, and what they post *)
Fixpoint feed (channels : list (option (list A))) (s : State) : option (State * list (list A)) :=
  match channels with
  | [] => Some (s, [])
  | c :: cs => '(s, ws) ← process c s; '(s, ws') ← feed cs s; Some (s, ws ++ ws')
  end.

(** *** Facts *)

Definition fits (s : State) : Prop := length (buffer s) = window ∧ offset s < window.
Definition kept (s : State) : list A := take (offset s) (buffer s).

Lemma round_spec channel src s : fits s → src < length channel →
  let '(s', src', posted) := round channel src s in
  fits s' ∧ src < src' <= length channel ∧
  Forall (λ w, length w = window) (option_list posted) ∧
  mjoin (option_list posted) ++ kept s' = kept s ++ take (src' - src) (drop src channel).
Proof.
  intros [Hb Ho] Hsrc. unfold round. set (n := Nat.min _ _).
  assert (0 < n ∧ n <= window - offset s ∧ n <= length channel - src) as (Hn & Hn1 & Hn2) by (subst n; lia).
  assert (length (take n (drop src channel)) = n) as Hl by (rewrite length_take, length_drop; lia).
  assert (length (set_at (take n (drop src channel)) (offset s) (buffer s)) = window) as Hw.
  { unfold set_at. rewrite !length_app, Hl, length_take, length_drop. lia. }
  assert (take (offset s + n) (set_at (take n (drop src channel)) (offset s) (buffer s)) =
    kept s ++ take n (drop src channel)) as Hk.
  { unfold set_at, kept. rewrite app_assoc. apply take_app_length'. rewrite length_app, Hl, length_take. lia. }
  unfold kept in Hk. destruct (offset s + n =? window)%nat eqn:E; unfold fits, kept; cbn;
    replace (src + n - src) with n by lia.
  - apply Nat.eqb_eq in E. split_and!; [done|lia|lia|lia|by repeat constructor|].
    rewrite !app_nil_r. rewrite E, (take_ge (set_at _ _ _)) in Hk by lia. exact Hk.
  - apply Nat.eqb_neq in E. split_and!; [done|lia|lia|lia|constructor|by rewrite Hk].
Qed.

Lemma loop_spec fuel channel src s : fits s → length channel - src <= fuel → ∃ s' ws,
  loop fuel channel src s = Some (s', ws) ∧ fits s' ∧ Forall (λ w, length w = window) ws ∧
  mjoin ws ++ kept s' = kept s ++ drop src channel.
Proof.
  revert src s. induction fuel as [|fuel IH]; intros src s Hs Hf; cbn [loop]; destruct (src <? length channel)%nat eqn:E.
  - apply Nat.ltb_lt in E. lia.
  - apply Nat.ltb_ge in E. exists s, []. split_and!; [done|done|constructor|].
    by rewrite (drop_ge channel), app_nil_r by lia.
  - apply Nat.ltb_lt in E. pose proof (round_spec channel src s Hs E) as Hr.
    destruct (round channel src s) as [[s1 src1] posted]. destruct Hr as (Hs1 & Hsrc & Hp & Hk).
    destruct (IH src1 s1 Hs1) as (s' & ws & -> & Hs' & Hws & Hj); [lia|]. cbn.
    exists s', (option_list posted ++ ws). split_and!; [done|done|by apply Forall_app|].
    rewrite join_app, <-app_assoc, Hj, app_assoc, Hk, <-app_assoc. f_equal.
    rewrite <-(take_drop (src1 - src) (drop src channel)) at 2. rewrite drop_drop. do 2 f_equal. lia.
  - apply Nat.ltb_ge in E. exists s, []. split_and!; [done|done|constructor|].
    by rewrite (drop_ge channel), app_nil_r by lia.
Qed.

Lemma process_spec channel s : fits s → ∃ s' ws,
  process channel s = Some (s', ws) ∧ fits s' ∧ Forall (λ w, length w = window) ws ∧
  mjoin ws ++ kept s' = kept s ++ default [] channel.
Proof.
  intros Hs. destruct channel as [channel|]; [|exists s, []; split_and!; [done|done|constructor|by rewrite app_nil_r]].
  destruct (loop_spec (length channel) channel 0 s Hs) as (s' & ws & Hl & ?); [lia|]. by exists s', ws.
Qed.

Lemma feed_spec channels s : fits s → ∃ s' ws,
  feed channels s = Some (s', ws) ∧ fits s' ∧ Forall (λ w, length w = window) ws ∧
  mjoin ws ++ kept s' = kept s ++ mjoin (map (default []) channels).
Proof.
  revert s. induction channels as [|c cs IH]; intros s Hs; cbn.
  { exists s, []. split_and!; [done|done|constructor|by rewrite app_nil_r]. }
  destruct (process_spec c s Hs) as (s1 & ws1 & -> & Hs1 & Hw1 & Hj1). cbn.
  destruct (IH s1 Hs1) as (s2 & ws2 & -> & Hs2 & Hw2 & Hj2). cbn.
  exists s2, (ws1 ++ ws2). split_and!; [done|done|by apply Forall_app|].
  by rewrite join_app, <-app_assoc, Hj2, app_assoc, Hj1, <-app_assoc.
Qed.

(** The processor always returns, and it cuts the sound without loss: the windows it posts
    have the length of the model's input, and put one after the other, followed by the part
    of the buffer that is filled, they are the samples of the microphone in their order;
    less than a window waits in the buffer. *)
Theorem windows_are_the_sound zero channels : 0 < window → ∃ s' ws,
  feed channels (initial zero) = Some (s', ws) ∧ Forall (λ w, length w = window) ws ∧
  mjoin ws ++ kept s' = mjoin (map (default []) channels) ∧ length (kept s') < window.
Proof.
  intros Hw. destruct (feed_spec channels (initial zero)) as (s' & ws & Hf & [Hb Ho] & Hws & Hj).
  { split; [apply length_replicate|done]. }
  exists s', ws. split_and!; [done|done|exact Hj|]. unfold kept. rewrite length_take. lia.
Qed.

End windows.

(** The processor of the page, on windows of 0.96 s at 16 kHz *)
Definition WINDOW_SAMPLES : nat := Z.to_nat 15360.
Definition sentinel_process : option (list num) → State → option (State * list (list num)) := process WINDOW_SAMPLES.

Lemma windows_are_the_sound_witness :
  feed 3 [Some [1; 2]; None; Some [3; 4; 5; 6; 7]] (initial 3 0) = Some (mkState [7; 5; 6] 1, [[1; 2; 3]; [4; 5; 6]]) ∧
  ∃ s' ws, feed 3 [Some [1; 2]] (initial 3 0) = Some (s', ws) ∧ Forall (λ w, length w = 3) ws ∧
    mjoin ws ++ kept s' = [1; 2] ∧ length (kept s') < 3.
Proof. split; [reflexivity|]. apply (windows_are_the_sound 3 0 [Some [1; 2]]). lia. Defined.

End Processor.

(** ** The hook *)

Module Microphone.

(** [AudioCapture]: the stream by its number; whether the context and the node are there *)
Record AudioCapture : Type := mkCapture { stream : option nat; context : bool; node : bool }.
Definition new_capture : AudioCapture := mkCapture None false false.

(** What [start] of the hook awaits: the model, the permission, the module of the
    processor; [Running] and [Over] when it has returned, with and without success. *)
Inductive Phase : Type := Loading | Asking | AddingModule | Running | Over.
#[export] Instance phase_eq_dec : EqDecision Phase.
Proof. solve_decision. Defined.

(** [live] are the streams whose tracks record; [granted] counts the streams so far;
    [inferences] are the windows the model works on, by their scores; [located] are the
    detections for which a position was asked for. *)
Record State : Type := mkState {
  capture : option AudioCapture; detector : bool; phase : Phase; live : list nat; granted : nat;
  acoustic : Acoustic.AcousticState; inferences : list (list num); located : list Acoustic.ThreatDetection; mounted : bool
}.

Definition setCapture v s := mkState v (detector s) (phase s) (live s) (granted s) (acoustic s) (inferences s) (located s) (mounted s).
Definition setDetector v s := mkState (capture s) v (phase s) (live s) (granted s) (acoustic s) (inferences s) (located s) (mounted s).
Definition setPhase v s := mkState (capture s) (detector s) v (live s) (granted s) (acoustic s) (inferences s) (located s) (mounted s).
Definition setLive v s := mkState (capture s) (detector s) (phase s) v (granted s) (acoustic s) (inferences s) (located s) (mounted s).
Definition setGranted v s := mkState (capture s) (detector s) (phase s) (live s) v (acoustic s) (inferences s) (located s) (mounted s).
Definition setInferences v s := mkState (capture s) (detector s) (phase s) (live s) (granted s) (acoustic s) v (located s) (mounted s).
Definition addLocated v s := mkState (capture s) (detector s) (phase s) (live s) (granted s) (acoustic s) (inferences s) (located s ++ [v]) (mounted s).
Definition setMounted v s := mkState (capture s) (detector s) (phase s) (live s) (granted s) (acoustic s) (inferences s) (located s) v.
Definition dispatch a s := mkState (capture s) (detector s) (phase s) (live s) (granted s) (Acoustic.dispatch (acoustic s) a) (inferences s) (located s) (mounted s).

(** The effect runs: the detector is made and its model is asked for. *)
Definition initial (a : Acoustic.AcousticState) : State := mkState None true Loading [] 0 a [] [] true.

(** [capture?.stop()] *)
Definition stop (s : State) : State :=
  match capture s with
  | None => s
  | Some c =>
      setCapture (Some new_capture)
        (match stream c with Some id => setLive (filter (λ i, i ≠ id) (live s)) s | None => s end)
  end.

(** [detector.init()] settles; then [capture.start()] asks for the microphone. *)
Definition model_settles (ok : bool) (s : State) : State :=
  if ok then setPhase Asking (setCapture (Some new_capture) s) else setPhase Over s.

(** How the request for the microphone settles: refused, granted where no audio context can
    be made, or granted. *)
Inductive Permission : Type := Refused | NoContext | Granted.

Definition permission_settles (p : Permission) (s : State) : State :=
  match p with
  | Refused => setPhase Over (stop s)
  | NoContext =>
      setPhase Over (stop (setCapture (Some (mkCapture (Some (granted s)) false false))
        (setLive (live s ++ [granted s]) (setGranted (S (granted s)) s))))
  | Granted =>
      setPhase AddingModule (setCapture (Some (mkCapture (Some (granted s)) true false))
        (setLive (live s ++ [granted s]) (setGranted (S (granted s)) s)))
  end.

(** The module of the processor is there, or not; without a context left, making the source
    throws. *)
Definition module_settles (ok : bool) (s : State) : State :=
  match capture s with
  | Some c =>
      if ok && context c then
        dispatch Acoustic.DetectionStarted
          (setPhase Running (setCapture (Some (mkCapture (stream c) true true)) s))
      else setPhase Over (stop s)
  | None => s
  end.

(** A window is posted, which the model will score with [scores]. *)
Definition window_posted (scores : list num) (s : State) : State :=
  if detector s then setInferences (inferences s ++ [scores]) s else s.

Section inference.
Context `{Sha256}.

(** The detection of a window, with its fingerprint *)
Definition threat_of (scores : list num) : option Acoustic.ThreatDetection :=
  d ← Acoustic.getThreatFromScores scores;
  Some (Acoustic.mkDetection (Acoustic.classIndex d) (Acoustic.label d) (Acoustic.category d)
    (Acoustic.confidence d) (Some (Acoustic.acousticFingerprint scores))).

(** The [k]-th window is scored ([processWindow] after its [await], then [onThreat]). *)
Definition window_scored (k : nat) (now : Z) (s : State) : State :=
  match inferences s !! k with
  | None => s
  | Some scores =>
      let s := setInferences (delete k (inferences s)) s in
      match threat_of scores with
      | Some d => addLocated d (dispatch (Acoustic.DetectionReceived d now) s)
      | None => s
      end
  end.

(** The page is hidden, or about to be unloaded. *)
Definition hidden (s : State) : State :=
  if mounted s then dispatch Acoustic.DetectionStopped (stop s) else s.
Definition beforeunload (s : State) : State := if mounted s then stop s else s.

(** The cleanup of the effect *)
Definition leave (s : State) : State :=
  if mounted s then setMounted false (dispatch Acoustic.DetectionStopped (setDetector false (stop s))) else s.

(** A window may arrive after the capture was stopped: it was posted before. *)
Inductive step (s : State) : State → Prop :=
| step_model ok : phase s = Loading → step s (model_settles ok s)
| step_permission p : phase s = Asking → step s (permission_settles p s)
| step_module ok : phase s = AddingModule → step s (module_settles ok s)
| step_window scores : phase s = Running → step s (window_posted scores s)
| step_scored k now : step s (window_scored k now s)
| step_hidden : step s (hidden s)
| step_unload : step s (beforeunload s)
| step_leave : step s (leave s)
| step_dismissed : step s (dispatch Acoustic.AlertDismissed s).

Definition reachable (s : State) : Prop := ∃ a, rtc step (initial a) s.

(** *** Facts *)

(** The stream that [stop] would end *)
Definition held (s : State) : option nat := capture s ≫= stream.

(** Every stream that records is the one the capture holds, and none does before the
    permission is there. *)
Definition consistent (s : State) : Prop :=
  live s = option_list (held s) ∧
  match phase s with
  | Loading => capture s = None
  | Asking => is_Some (capture s) ∧ held s = None
  | AddingModule => is_Some (capture s)
  | Running | Over => True
  end.

Lemma live_stop s : live s = option_list (held s) → live (stop s) = [] ∧ held (stop s) = None.
Proof.
  unfold stop, held. destruct (capture s) as [c|] eqn:Hc; cbn; [|by rewrite Hc].
  destruct (stream c) as [id|]; cbn; intros ->; [|done]. split; [|done]. by rewrite filter_cons_False by naive_solver.
Qed.

Lemma phase_stop s : phase (stop s) = phase s ∧ (is_Some (capture s) → is_Some (capture (stop s))) ∧
  (capture s = None → capture (stop s) = None).
Proof. unfold stop. destruct (capture s) as [c|] eqn:Hc; [|by rewrite Hc]. by destruct (stream c). Qed.

Lemma mic_consistent_stop s : consistent s → consistent (stop s).
Proof.
  intros [Hl Hp]. destruct (live_stop s Hl) as [Hl' Hh]. destruct (phase_stop s) as (Hph & Hs & Hn).
  split; [by rewrite Hl', Hh|]. rewrite Hph, Hh. destruct (phase s); naive_solver.
Qed.

Lemma mic_consistent_view s s' :
  capture s' = capture s → phase s' = phase s → live s' = live s → consistent s → consistent s'.
Proof. unfold consistent, held. by intros -> -> ->. Qed.

(** What the scoring of a window leaves as it is *)
Lemma scored_view k now s : let s' := window_scored k now s in
  capture s' = capture s ∧ phase s' = phase s ∧ live s' = live s ∧ mounted s' = mounted s ∧
  detector s' = detector s ∧ Acoustic.isRunning (acoustic s') = Acoustic.isRunning (acoustic s).
Proof. unfold window_scored. destruct (inferences s !! k); [|done]. by destruct (threat_of _). Qed.

Lemma posted_view scores s : let s' := window_posted scores s in
  capture s' = capture s ∧ phase s' = phase s ∧ live s' = live s.
Proof. unfold window_posted. by destruct (detector s). Qed.

Lemma mic_consistent_over s : consistent s → consistent (setPhase Over s).
Proof. by intros [Hl _]. Qed.

Lemma mic_consistent_permission p s : phase s = Asking → consistent s → consistent (permission_settles p s).
Proof.
  intros Hph Hs. pose proof Hs as [Hl Hp]. rewrite Hph in Hp. destruct Hp as [_ Hn]. rewrite Hn in Hl. cbn in Hl.
  destruct p; cbn [permission_settles].
  - by apply mic_consistent_over, mic_consistent_stop.
  - split; [|done]. set (s1 := setCapture _ _). destruct (live_stop s1) as [H1 H2]; [cbn; by rewrite Hl|].
    change (live (stop s1) = option_list (held (stop s1))). by rewrite H1, H2.
  - split; [cbn; by rewrite Hl|by eexists].
Qed.

Lemma mic_consistent_module ok s : consistent s → consistent (module_settles ok s).
Proof.
  intros Hs. unfold module_settles. destruct (capture s) as [c|] eqn:Hc; [|done].
  destruct (ok && context c).
  - split; [|done]. destruct Hs as [Hl _]. cbn. rewrite Hl. unfold held. cbn. by rewrite Hc.
  - by apply mic_consistent_over, mic_consistent_stop.
Qed.

Lemma mic_consistent_step s s' : consistent s → step s s' → consistent s'.
Proof.
  intros Hs Hstep. pose proof (mic_consistent_stop s Hs) as Hst.
  destruct Hstep as [ok Hph|p Hph|ok Hph|scores Hph|k now| | | |].
  - destruct ok; cbn; [|by apply mic_consistent_over]. destruct Hs as [Hl Hp]. rewrite Hph in Hp.
    split; [|by split; [eexists|]]. cbn. rewrite Hl. unfold held. by rewrite Hp.
  - by apply mic_consistent_permission.
  - by apply mic_consistent_module.
  - apply (mic_consistent_view s); [apply posted_view..|done].
  - apply (mic_consistent_view s); [apply scored_view..|done].
  - unfold hidden. destruct (mounted s); [|done]. by apply (mic_consistent_view (stop s)).
  - unfold beforeunload. by destruct (mounted s).
  - unfold leave. destruct (mounted s); [|done]. by apply (mic_consistent_view (stop s)).
  - by apply (mic_consistent_view s).
Qed.

Lemma reachable_mic_consistent s : reachable s → consistent s.
Proof.
  intros [a Hr]. remember (initial a) as s0 eqn:H0. assert (consistent s0) as Hs0 by by subst s0.
  clear H0. induction Hr as [|s s1 s2 Hstep _ IH]; [done|]. by apply IH, (mic_consistent_step s).
Qed.

(** Nothing records and nothing will: the microphone is not asked for any more. *)
Definition silent (s : State) : Prop := live s = [] ∧ phase s ≠ Loading ∧ phase s ≠ Asking.

Lemma silent_stop s : silent s → silent (stop s).
Proof.
  unfold silent. destruct (phase_stop s) as [-> _]. intros (Hl & ? & ?). split_and!; [|done..].
  unfold stop. destruct (capture s) as [c|]; [|done]. destruct (stream c); cbn; [by rewrite Hl|done].
Qed.

Lemma silent_step s s' : silent s → step s s' → silent s'.
Proof.
  intros Hs Hstep. pose proof (silent_stop s Hs) as Hst. pose proof Hs as (Hl & Hn1 & Hn2).
  destruct Hstep as [ok Hph|p Hph|ok Hph|scores Hph|k now| | | |]; [done|done|..].
  - unfold module_settles. destruct (capture s); [|done]. destruct (ok && _); [done|]. by destruct Hst.
  - unfold silent. by destruct (posted_view scores s) as (_ & -> & ->).
  - unfold silent. by destruct (scored_view k now s) as (_ & -> & -> & _).
  - unfold hidden. by destruct (mounted s).
  - unfold beforeunload. by destruct (mounted s).
  - unfold leave. by destruct (mounted s).
  - done.
Qed.

(** The page has been left and the capture runs: no handler is there to stop it. *)
Definition abandoned (ids : list nat) (s : State) : Prop :=
  live s = ids ∧ phase s = Running ∧ mounted s = false ∧ Acoustic.isRunning (acoustic s) = true.

Lemma abandoned_step ids s s' : abandoned ids s → step s s' → abandoned ids s'.
Proof.
  intros (Hl & Hph & Hm & Hr). destruct 1 as [ok Hph'|p Hph'|ok Hph'|scores _|k now| | | |]; try congruence.
  - unfold window_posted. by destruct (detector s).
  - unfold abandoned. by destruct (scored_view k now s) as (_ & -> & -> & -> & _ & ->).
  - unfold hidden. by rewrite Hm.
  - unfold beforeunload. by rewrite Hm.
  - unfold leave. by rewrite Hm.
  - done.
Qed.

Lemma invariant_rtc (P : State → Prop) s s' : (∀ s s', P s → step s s' → P s') → P s → rtc step s s' → P s'.
Proof. intros HP Hs Hr. induction Hr as [|s s1 s2 Hstep _ IH]; [done|]. by apply IH, (HP s). Qed.

Lemma leave_silences s : consistent s → mounted s = true →
  live (leave s) = [] ∧ phase (leave s) = phase s ∧ mounted (leave s) = false.
Proof.
  intros [Hl _] Hm. unfold leave. rewrite Hm. cbn. destruct (live_stop s Hl) as [-> _].
  by destruct (phase_stop s) as [-> _].
Qed.

(** From a page that was left while the permission was asked for, or before *)
Lemma left_early_records s : phase s = Loading ∨ phase s = Asking → mounted s = false → live s = [] →
  ∃ s', rtc step s s' ∧ abandoned [granted s] s'.
Proof.
  intros Hph Hm Hl.
  assert (∀ s, phase s = Asking → mounted s = false → live s = [] → ∃ s', rtc step s s' ∧ abandoned [granted s] s') as Hask.
  { intros s1 Hp1 Hm1 Hl1. exists (module_settles true (permission_settles Granted s1)). split.
    - eapply rtc_l; [by apply (step_permission _ Granted)|]. apply rtc_once. by apply (step_module _ true).
    - unfold abandoned. cbn. by rewrite Hl1. }
  destruct Hph as [Hph|Hph]; [|by apply Hask].
  destruct (Hask (model_settles true s)) as (s' & Hr & Ha); [done..|].
  exists s'. split; [|exact Ha]. eapply rtc_l; [by apply (step_model s true)|exact Hr].
Qed.

(** C34: Closing the overlay releases the microphone for good exactly when the permission was
    already answered: the cleanup stops what the capture holds, and what starts later is
    nothing it holds. *)
Theorem microphone_released_iff s : reachable s → mounted s = true →
  (∀ s', rtc step (leave s) s' → live s' = []) ↔ phase s ≠ Loading ∧ phase s ≠ Asking.
Proof.
  intros Hs%reachable_mic_consistent Hm. destruct (leave_silences s Hs Hm) as (Hl & Hph & Hm'). split.
  - intros Hall. rewrite <-Hph.
    assert (¬ (phase (leave s) = Loading ∨ phase (leave s) = Asking)) as Hnot; [|naive_solver].
    intros He. destruct (left_early_records (leave s) He Hm' Hl) as (s' & Hr & Ha & _). by rewrite (Hall s' Hr) in Ha.
  - intros Hnot s' Hr. apply (invariant_rtc silent) in Hr as [? _]; [done|by apply silent_step|].
    unfold silent. by rewrite Hph.
Qed.

(** An overlay closed while the model loads, or while the browser asks for the microphone:
    start goes on, the microphone records, the page says that detection runs, and nothing
    the page does ends it. *)
Theorem early_close_keeps_recording s : reachable s → mounted s = true → phase s = Loading ∨ phase s = Asking →
  ∃ s', rtc step (leave s) s' ∧
    ∀ s'', rtc step s' s'' → live s'' ≠ [] ∧ Acoustic.isRunning (acoustic s'') = true ∧ mounted s'' = false.
Proof.
  intros Hs%reachable_mic_consistent Hm He. destruct (leave_silences s Hs Hm) as (Hl & Hph & Hm'). rewrite <-Hph in He.
  destruct (left_early_records (leave s) He Hm' Hl) as (s' & Hr & Ha). exists s'. split; [exact Hr|].
  intros s'' Hr''. apply (invariant_rtc (abandoned [granted (leave s)])) in Hr'' as (-> & _ & -> & ->);
    [done|by apply abandoned_step|done].
Qed.

End inference.

(** *** The overlay opened and closed *)

Definition opened : State := initial Acoustic.initialState.
Definition running : State := module_settles true (permission_settles Granted (model_settles true opened)).

Lemma running_reachable : reachable running.
Proof.
  exists Acoustic.initialState. eapply rtc_l; [by apply (step_model _ true)|].
  eapply rtc_l; [by apply (step_permission _ Granted)|]. apply rtc_once. by apply (step_module _ true).
Qed.

Lemma microphone_released_iff_witness : live running = [0%nat] ∧ ∀ s', rtc step (leave running) s' → live s' = [].
Proof. split; [reflexivity|]. by apply (microphone_released_iff running running_reachable). Defined.

Lemma opened_reachable : reachable opened.
Proof. exists Acoustic.initialState. done. Qed.

Lemma early_close_keeps_recording_witness : ∃ s', rtc step (leave opened) s' ∧
  ∀ s'', rtc step s' s'' → live s'' ≠ [] ∧ Acoustic.isRunning (acoustic s'') = true ∧ mounted s'' = false.
Proof. apply (early_close_keeps_recording opened opened_reachable); [reflexivity|by left]. Defined.

(** The page is hidden while the model loads: the capture starts in the background. *)
Example hidden_while_loading :
  let s := module_settles true (permission_settles Granted (model_settles true (hidden opened))) in
  live s = [0%nat] ∧ detector s = true ∧ Acoustic.isRunning (acoustic s) = true.
Proof. split_and!; reflexivity. Qed.

End Microphone.
