(* ===== verification/Push.v ===== *)
(** * Alerts pushed to the device: [hooks/usePushSubscription.ts] and
    [components/AlertPerimeter.tsx]

    The preferences of the perimeter as the page holds and stores them, the registration
    at the alert service, and the state of the page.  The browser's answers (permission,
    subscription, position) are arguments; the subscription it keeps is a field of the
    state, since it outlives the page. *)

From Stdlib Require Import Ascii QArith Qabs Qround Lqa Lia.
From S2P Require Import Prelude JsNumber JsString JsStringFacts JsCollection Json.
From S2P Require Import JsonFacts Nostr CryptoModel Platform LocalLists NostrIdentity Signer NostrAuth.
From S2P Require Import SmallSlices Web Api.
Close Scope Q_scope.

Module Push.

Definition PREFERENCES_KEY : string := "sentinelmesh-push-perimeter-v1".
Definition PUSH_SEVERITIES : list string := ["LOW"; "MEDIUM"; "HIGH"; "CRITICAL"].

Inductive PushState : Type := unsupported | idle | enabled | denied | working | error.
#[export] Instance push_state_eq_dec : EqDecision PushState.
Proof. solve_decision. Defined.

(** A subscription of the push manager: its [endpoint], and what [toJSON] gives *)
Record Subscription : Type := mkSubscription { endpoint : string; sub_json : json }.

(** The page: the hook's state and error, the browser's subscription, and the perimeter of
    [AlertPerimeter].  The preferences are an object of JavaScript, since a stored one is
    taken over as it was read. *)
Record Perimeter : Type := mkPerimeter {
  pstate : PushState; perror : option string; subscription : option Subscription;
  preferences : json; locationError : option string
}.

Definition setState v p := mkPerimeter v (perror p) (subscription p) (preferences p) (locationError p).
Definition setError v p := mkPerimeter (pstate p) v (subscription p) (preferences p) (locationError p).
Definition setSubscription v p := mkPerimeter (pstate p) (perror p) v (preferences p) (locationError p).
Definition setPreferences f p := mkPerimeter (pstate p) (perror p) (subscription p) (f (preferences p)) (locationError p).
Definition setLocationError v p := mkPerimeter (pstate p) (perror p) (subscription p) (preferences p) v.

(** [{ ...value, [key]: v }] *)
Definition with_field (key : string) (v : json) (value : json) : json :=
  match value with JObj fs => JObj (map_set fs key v) | _ => value end.

Definition latlng (lat lng : num) : json := JObj [("lat", JNum lat); ("lng", JNum lng)].

Section values.
(** The number that JavaScript makes of a string, an array or an object in a comparison *)
Variable number_of : json → num.

Definition to_number (v : option json) : num :=
  match v with
  | Some (JNum x) => x
  | Some JNull => int 0
  | Some (JBool b) => if b then int 1 else int 0
  | Some v => number_of v
  | None => NaN
  end.

Definition matchesSeverity (value : option json) : bool :=
  match value with Some (JStr s) => bool_decide (s ∈ PUSH_SEVERITIES) | _ => false end.

Definition in_range (lo hi : Z) (x : num) : bool := num_le (int lo) x && num_le x (int hi).

(** [value.center && Math.abs(value.center.lat) <= 90 && Math.abs(value.center.lng) <= 180] *)
Definition valid_center (center : option json) : bool :=
  match center with
  | Some c => json_truthy c && num_le (num_abs (to_number (field c "lat"))) (int 90)
              && num_le (num_abs (to_number (field c "lng"))) (int 180)
  | None => false
  end.

Definition settings_ok (value : json) : bool :=
  matchesSeverity (field value "minSeverity") && in_range 1 100 (to_number (field value "radiusKm")).

Definition DEFAULT_PREFERENCES : json :=
  JObj [("minSeverity", JStr "HIGH"); ("radiusKm", JNum (int 15)); ("center", JNull)].

Definition loadPushPreferences (w : World) : json :=
  match parse (default "null" (local_getItem PREFERENCES_KEY w)) with
  | Some value =>
      if json_truthy value && settings_ok value && valid_center (field value "center") then value
      else DEFAULT_PREFERENCES
  | None => DEFAULT_PREFERENCES
  end.

(** [x.toFixed(2)] throws where [x] is no number. *)
Definition coarse_number (v : option json) : outcome num :=
  match v with Some (JNum x) => Ok (fixed_number 2 x) | _ => Throw "TypeError" end.

Definition coarse_center (center : json) : outcome (num * num) :=
  match coarse_number (field center "lat") with
  | Ok lat => match coarse_number (field center "lng") with Ok lng => Ok (lat, lng) | Throw e => Throw e end
  | Throw e => Throw e
  end.

(** A property whose value is [undefined] is left out. *)
Definition member (key : string) (v : option json) : list (string * json) :=
  match v with Some v => [(key, v)] | None => [] end.

(** The body of a registration *)
Definition registration (sub : Subscription) (preferences : json) (lat lng : option json) : json :=
  JObj ([("subscription", sub_json sub)] ++ member "min_severity" (field preferences "minSeverity") ++
        member "center_lat" lat ++ member "center_lng" lng ++ member "radius_km" (field preferences "radiusKm")).

(** [preferences.center] where it is not [null] *)
Definition center_of (preferences : json) : option json :=
  c ← field preferences "center"; if json_truthy c then Some c else None.

(** [urlBase64ToUint8Array(value)] *)
Definition url_char (c : ascii) : ascii :=
  if Ascii.eqb c "-"%char then "+"%char else if Ascii.eqb c "_"%char then "/"%char else c.
Definition urlBase64ToUint8Array (value : string) : outcome bytes :=
  let padded := value +:+ String.concat "" (replicate ((4 - String.length value mod 4) mod 4) "=") in
  match atob (str_map url_char padded) with
  | Some raw => Ok (bytes_of_str raw)
  | None => Throw "InvalidCharacterError"
  end.

Section push.
Context `{Aes, Sha256, Random, NostrTools, UrlParser, Extension, Bunkers, Fetch, Page}.
(** Whether the browser has notifications, workers and a push manager, and the build a key *)
Variable supported : bool.
Variable vapidPublicKey : string.

Definition request (method body : string) : prog World unit :=
  url ← lift_outcome (match resolve_url "/api/push/subscribe" Nip05.api_origin with
                      | Some u => Ok u | None => Throw "Invalid URL" end);
  rq ← SignedRequest.signed url method (Some body);
  response ← fetch rq;
  check (response_ok response) ("Alert service rejected the request (" +:+ SafetyApi.status_text response +:+ ")").

Abbreviation Screen := (Web.Screen Perimeter).

(** [localStorage.setItem], which is not there in some browsers *)
Definition store_preferences (value : json) : prog World unit :=
  here ← gets has_local_storage;
  if (here : bool) then local_setItem PREFERENCES_KEY (stringify value) else throw "ReferenceError".

Definition forget_preferences : prog World unit :=
  here ← gets has_local_storage;
  if (here : bool) then local_removeItem PREFERENCES_KEY else throw "ReferenceError".

(** The subscription there is, or a new one; [subscribe] is what the push manager answers. *)
Definition subscribed (subscribe : bytes → outcome Subscription) : prog Screen Subscription :=
  existing ← gets (λ s, subscription (page s));
  match existing with
  | Some sub => mret sub
  | None =>
      key ← lift_outcome (urlBase64ToUint8Array vapidPublicKey);
      sub ← lift_outcome (subscribe key);
      _ ← update (setSubscription (Some sub));
      mret sub
  end.

Definition failed (m : string) : prog Screen unit := _ ← update (setError (Some m)); update (setState error).

(** [Notification.requestPermission()] resolves with [permission]. *)
Definition enable (permission : outcome string) (subscribe : bytes → outcome Subscription) (preferences : json)
    : prog Screen unit :=
  match center_of preferences with
  | None => mret tt
  | Some center =>
      if negb supported then mret tt
      else
        _ ← update (setState working);
        _ ← update (setError None);
        try_catch
          (answer ← lift_outcome permission;
           if negb (String.eqb answer "granted")
           then update (setState (if String.eqb answer "denied" then denied else idle))
           else
             sub ← subscribed subscribe;
             coarse ← lift_outcome (coarse_center center);
             _ ← call (request "POST" (stringify (registration sub preferences (Some (JNum coarse.1)) (Some (JNum coarse.2)))));
             _ ← call (store_preferences (with_field "center" (latlng coarse.1 coarse.2) preferences));
             update (setState enabled))
          failed
  end.

(** [unsubscribed] is how [subscription.unsubscribe()] settles. *)
Definition disable (unsubscribed : outcome unit) : prog Screen unit :=
  if negb supported then mret tt
  else
    _ ← update (setState working);
    _ ← update (setError None);
    try_catch
      (existing ← gets (λ s, subscription (page s));
       _ ← match existing with
           | Some sub =>
               _ ← call (request "DELETE" (stringify (JObj [("endpoint", JStr (endpoint sub))])));
               _ ← lift_outcome unsubscribed;
               update (setSubscription None)
           | None => mret tt
           end;
       _ ← call forget_preferences;
       update (setState idle))
      failed.

(** The effect of the hook; [permission] is [Notification.permission]. *)
Definition mounted (permission : string) : prog Screen unit :=
  if negb supported then mret tt
  else if String.eqb permission "denied" then update (setState denied)
  else
    saved ← gets (λ s, loadPushPreferences (device (app s)));
    stored ← gets (λ s, local_getItem PREFERENCES_KEY (device (app s)));
    match center_of saved with
    | Some center =>
        if present stored then
          existing ← gets (λ s, subscription (page s));
          match existing with
          | None => update (setState idle)
          | Some sub =>
              try_catch
                (_ ← call (request "POST" (stringify (registration sub saved (field center "lat") (field center "lng"))));
                 update (setState enabled))
                (λ _, update (setState error))
          end
        else mret tt
    | None => mret tt
    end.

(** ** [AlertPerimeter.tsx] *)

Definition initial (sub : option Subscription) (w : World) : Perimeter :=
  mkPerimeter (if supported then idle else unsupported) None sub (loadPushPreferences w) None.

Definition LOCATION_NEEDED : string := "Location access is needed to build a private alert perimeter.".

(** [position] is how [push.locate()] settles. *)
Definition locate (position : outcome (num * num)) (p : Perimeter) : Perimeter :=
  let p := setLocationError None p in
  match position with
  | Ok (lat, lng) => setPreferences (with_field "center" (latlng lat lng)) p
  | Throw _ => setLocationError (Some LOCATION_NEEDED) p
  end.

Definition select_severity (level : string) : Perimeter → Perimeter :=
  setPreferences (with_field "minSeverity" (JStr level)).
Definition slide_radius (km : num) : Perimeter → Perimeter :=
  setPreferences (with_field "radiusKm" (JNum km)).

Definition enable_disabled (p : Perimeter) : bool :=
  match pstate p with
  | enabled => negb (bool_decide (is_Some (center_of (preferences p))))
  | st => negb (bool_decide (is_Some (center_of (preferences p)))) || bool_decide (st = working ∨ st = unsupported)
  end.
(** *** Facts *)

(** *** Facts *)

Lemma field_with key key' v value : is_Some (field value key') ∨ is_Some (field value key) →
  field (with_field key v value) key' = if decide (key = key') then Some v else field value key'.
Proof.
  destruct value; cbn; try (by intros [[? ?]|[? ?]]). intros _. apply map_get_set.
Qed.

(** What the page holds is a perimeter: a known severity, a radius from 1 to 100 km, and
    no centre or one on the globe. *)
Definition center_ok (value : json) : Prop :=
  field value "center" = Some JNull ∨ valid_center (field value "center") = true.
Definition well_formed (value : json) : Prop := settings_ok value = true ∧ center_ok value.

Lemma well_formed_object value : well_formed value → ∃ fs, value = JObj fs.
Proof. intros [_ [Hc|Hc]]; destruct value; try done; by eexists. Qed.

Lemma loaded_well_formed w : well_formed (loadPushPreferences w).
Proof.
  unfold loadPushPreferences. destruct (parse _) as [v|]; [|by split; [vm_compute|left]].
  destruct (_ && _) eqn:Hv; [|by split; [vm_compute|left]]. reflect_bools. split; [done|by right].
Qed.

Lemma well_formed_center lat lng value : num_le (num_abs lat) (int 90) = true → num_le (num_abs lng) (int 180) = true →
  well_formed value → well_formed (with_field "center" (latlng lat lng) value).
Proof.
  intros Hlat Hlng Hw. destruct (well_formed_object _ Hw) as [fs ->]. destruct Hw as [Hs _]. split.
  - revert Hs. unfold settings_ok. cbn -[in_range]. by rewrite !map_get_set, !decide_False by done.
  - right. cbn -[num_le num_abs]. rewrite map_get_set, decide_True by done.
    cbn -[num_le num_abs]. decide_literals. cbn -[num_le num_abs]. by rewrite Hlat, Hlng.
Qed.

Lemma well_formed_severity level value : level ∈ PUSH_SEVERITIES →
  well_formed value → well_formed (with_field "minSeverity" (JStr level) value).
Proof.
  intros Hl Hw. destruct (well_formed_object _ Hw) as [fs ->]. destruct Hw as [Hs Hc]. split.
  - revert Hs. unfold settings_ok. cbn -[in_range]. rewrite !map_get_set, decide_True, decide_False by done.
    cbn -[in_range]. intros [_ ->]%andb_true_iff. by rewrite bool_decide_eq_true_2.
  - revert Hc. unfold center_ok. cbn -[valid_center]. by rewrite map_get_set, decide_False.
Qed.

Lemma well_formed_radius km value : in_range 1 100 km = true →
  well_formed value → well_formed (with_field "radiusKm" (JNum km) value).
Proof.
  intros Hkm Hw. destruct (well_formed_object _ Hw) as [fs ->]. destruct Hw as [Hs Hc]. split.
  - revert Hs. unfold settings_ok. cbn -[in_range]. rewrite !map_get_set, decide_False, decide_True by done.
    cbn -[in_range]. intros [-> _]%andb_true_iff. by rewrite Hkm.
  - revert Hc. unfold center_ok. cbn -[valid_center]. by rewrite map_get_set, decide_False.
Qed.

(** Nothing but the controls of the perimeter changes the preferences. *)
Definition keeps (I : json → Prop) {A} (m : prog Screen A) : Prop := preserves (λ s, I (preferences (page s))) m.

Lemma keeps_update I f : (∀ p, preferences (f p) = preferences p) → keeps I (update f).
Proof. intros Hf. apply (preserves_update (λ p, I (preferences p))). intros p. by rewrite Hf. Qed.

Lemma keeps_call I {A} (m : prog World A) : keeps I (call m).
Proof. apply (preserves_on_app (λ p, I (preferences p))). Qed.

Hint Extern 1 (preserves _ (update _)) => (apply keeps_update; done) : preserves.
Hint Extern 1 (preserves _ (call _)) => apply keeps_call : preserves.

Lemma keeps_failed I m : keeps I (failed m).
Proof. unfold keeps, failed. preserves_tac. Qed.

Lemma keeps_subscribed I f : keeps I (subscribed f).
Proof. unfold keeps, subscribed. preserves_tac. Qed.

Hint Extern 1 (preserves _ (failed _)) => apply keeps_failed : preserves.
Hint Extern 1 (preserves _ (subscribed _)) => apply keeps_subscribed : preserves.

Lemma keeps_enable I permission subscribe p : keeps I (enable permission subscribe p).
Proof. unfold keeps, enable. preserves_tac. Qed.
Lemma keeps_disable I unsubscribed : keeps I (disable unsubscribed).
Proof. unfold keeps, disable. preserves_tac. Qed.
Lemma keeps_mounted I permission : keeps I (mounted permission).
Proof. unfold keeps, mounted. preserves_tac. Qed.

(** The page between its mounting and its leaving.  A position is on the globe, the options
    and the slider are those of the page. *)
Inductive step (s : Screen) : Screen → Prop :=
| step_locate lat lng : num_le (num_abs lat) (int 90) = true → num_le (num_abs lng) (int 180) = true →
    step s (mkScreen (app s) (locate (Ok (lat, lng)) (page s)))
| step_no_position e : step s (mkScreen (app s) (locate (Throw e) (page s)))
| step_severity level : level ∈ ["MEDIUM"; "HIGH"; "CRITICAL"] →
    step s (mkScreen (app s) (select_severity level (page s)))
| step_radius km : (2 <= km <= 50)%Z → step s (mkScreen (app s) (slide_radius (int km) (page s)))
| step_enable permission subscribe : step s (enable permission subscribe (preferences (page s)) s).2
| step_disable unsubscribed : step s (disable unsubscribed s).2
| step_mounted permission : step s (mounted permission s).2
| step_elsewhere a : step s (mkScreen a (page s)).

Inductive reachable : Screen → Prop :=
| reach_initial sub a : reachable (mkScreen a (initial sub (device a)))
| reach_step s s' : reachable s → step s s' → reachable s'.

(** A perimeter as the service takes it: one of the four severities, a radius from 1 to
    100 km, and no centre or one on the globe, where JavaScript compares as it does (a
    [null] counts as zero). *)
Definition perimeter (value : json) : Prop :=
  (∃ level, field value "minSeverity" = Some (JStr level) ∧
     (level = "LOW" ∨ level = "MEDIUM" ∨ level = "HIGH" ∨ level = "CRITICAL")) ∧
  num_between 1 100 (to_number (field value "radiusKm")) ∧
  (field value "center" = Some JNull ∨
   ∃ c, field value "center" = Some c ∧ json_truthy c = true ∧
     num_between (- 90) 90 (to_number (field c "lat")) ∧ num_between (- 180) 180 (to_number (field c "lng"))).

(** The radius is a number, and so are the coordinates of a centre. *)
Definition numbers (value : json) : Prop :=
  (∃ r, field value "radiusKm" = Some (JNum r)) ∧
  (field value "center" = Some JNull ∨
   ∃ c lat lng, field value "center" = Some c ∧ field c "lat" = Some (JNum lat) ∧ field c "lng" = Some (JNum lng)).

Lemma between_range lo hi x : in_range lo hi x = true → num_between lo hi x.
Proof.
  unfold in_range. intros [Hlo Hhi]%andb_true_iff. destruct x as [|[]|q]; try done.
  exists q. split; [done|]. by split; apply num_le_fin.
Qed.

Lemma between_abs B x : num_le (num_abs x) (int B) = true → num_between (- B) B x.
Proof.
  destruct x as [| |q]; try done. cbn [num_abs]. intros Hq%num_le_fin. exists q. split; [done|].
  rewrite inject_Z_opp. by apply Qabs_Qle_condition.
Qed.

Lemma well_formed_perimeter value : well_formed value → perimeter value.
Proof.
  intros [Hs Hc]. unfold settings_ok in Hs. apply andb_true_iff in Hs as [Hsev Hrad]. split_and!.
  - unfold matchesSeverity in Hsev. destruct (field value "minSeverity") as [[]|]; try done.
    apply bool_decide_eq_true in Hsev. unfold PUSH_SEVERITIES in Hsev. eexists. split; [done|]. set_solver.
  - by apply between_range.
  - destruct Hc as [Hc|Hc]; [by left|right]. unfold valid_center in Hc.
    destruct (field value "center") as [c|]; [|done]. reflect_bools. exists c.
    split_and!; [done|done|by apply (between_abs 90)|by apply (between_abs 180)].
Qed.

Lemma numbers_object value : numbers value → ∃ fs, value = JObj fs.
Proof. intros [[r Hr] _]. destruct value; try done. by eexists. Qed.

Lemma numbers_center lat lng value : numbers value → numbers (with_field "center" (latlng lat lng) value).
Proof.
  intros Hn. destruct (numbers_object _ Hn) as [fs ->]. destruct Hn as [[r Hr] _]. split.
  - exists r. revert Hr. cbn. by rewrite map_get_set, decide_False.
  - right. exists (latlng lat lng), lat, lng. cbn. by rewrite map_get_set, decide_True.
Qed.

Lemma numbers_severity level value : numbers value → numbers (with_field "minSeverity" level value).
Proof.
  intros Hn. destruct (numbers_object _ Hn) as [fs ->]. destruct Hn as [[r Hr] Hc]. split.
  - exists r. revert Hr. cbn. by rewrite map_get_set, decide_False.
  - revert Hc. cbn. by rewrite map_get_set, decide_False.
Qed.

Lemma numbers_radius km value : numbers value → numbers (with_field "radiusKm" (JNum km) value).
Proof.
  intros Hn. destruct (numbers_object _ Hn) as [fs ->]. destruct Hn as [_ Hc]. split.
  - exists km. cbn. by rewrite map_get_set, decide_True.
  - revert Hc. cbn. by rewrite map_get_set, decide_False.
Qed.

(** With nothing stored, the page opens with numbers. *)
Lemma default_numbers : numbers DEFAULT_PREFERENCES.
Proof. split; [by eexists|by left]. Qed.

Lemma well_formed_reachable s : reachable s → well_formed (preferences (page s)).
Proof.
  induction 1 as [sub a|s s' _ IH Hstep]; [apply loaded_well_formed|].
  destruct Hstep as [lat lng Hlat Hlng|e|level Hl|km Hkm|pm sb|un|pm|a]; cbn -[int]; try done.
  - by apply well_formed_center.
  - apply well_formed_severity; [|done]. revert Hl. unfold PUSH_SEVERITIES. set_solver.
  - apply well_formed_radius; [|done]. unfold in_range. rewrite !int_le. apply andb_true_iff. split; apply Z.leb_le; lia.
  - by apply (keeps_enable well_formed).
  - by apply (keeps_disable well_formed).
  - by apply (keeps_mounted well_formed).
Qed.

(** C37: Whatever the storage held when the page opened, and whatever was located, chosen,
    enabled and disabled since, the page holds a perimeter: LOW, MEDIUM, HIGH or CRITICAL,
    a radius between 1 and 100 km, and no centre or one whose latitude and longitude are
    within 90 and 180 degrees as JavaScript compares them; and when it holds numbers, no
    step makes anything else of them. *)
Theorem perimeter_well_formed s : reachable s →
  perimeter (preferences (page s)) ∧
  ∀ s', step s s' → numbers (preferences (page s)) → numbers (preferences (page s')).
Proof.
  intros Hr. split; [by apply well_formed_perimeter, well_formed_reachable|].
  intros s' Hstep Hn. destruct Hstep as [lat lng Hlat Hlng|e|level Hl|km Hkm|pm sb|un|pm|a]; cbn -[int]; try done.
  - by apply numbers_center.
  - by apply numbers_severity.
  - by apply numbers_radius.
  - by apply (keeps_enable numbers).
  - by apply (keeps_disable numbers).
  - by apply (keeps_mounted numbers).
Qed.

Lemma center_of_with c value : json_truthy c = true → is_Some (field value "center") →
  center_of (with_field "center" c value) = Some c.
Proof.
  intros Hc Hf. unfold center_of. rewrite field_with by by left. rewrite decide_True by done. cbn. by rewrite Hc.
Qed.

Lemma registration_with sub c value lat lng :
  registration sub (with_field "center" c value) lat lng = registration sub value lat lng.
Proof. destruct value; try done. unfold registration. cbn. by rewrite !map_get_set, !decide_False by done. Qed.

Lemma with_field_twice key v v' value : with_field key v' (with_field key v value) = with_field key v' value.
Proof. destruct value; try done. cbn. by rewrite map_set_set. Qed.

(** C36: The exact position stays on the page: two positions with the same hundredths of a degree
    lead to the same requests, the same stored preferences and the same answers, whatever
    the permission, the push manager and the service say. *)
Theorem only_coarse_position_leaves permission subscribe value lat lng lat' lng' s :
  fixed_number 2 lat = fixed_number 2 lat' → fixed_number 2 lng = fixed_number 2 lng' →
  enable permission subscribe (with_field "center" (latlng lat lng) value) s =
  enable permission subscribe (with_field "center" (latlng lat' lng') value) s.
Proof.
  intros Hlat Hlng. destruct value as [| | | | |fs]; try done.
  assert (∀ a b, center_of (with_field "center" (latlng a b) (JObj fs)) = Some (latlng a b)) as Hc.
  { intros a b. unfold center_of. cbn. by rewrite map_get_set, decide_True. }
  assert (∀ a b, coarse_center (latlng a b) = Ok (fixed_number 2 a, fixed_number 2 b)) as Hf by done.
  unfold enable. rewrite !Hc, !Hf, Hlat, Hlng. destruct (negb supported); [done|].
  unfold try_catch, mbind, prog_bind. cbn [update modify lift_outcome].
  destruct permission as [answer|e]; [|done]. destruct (negb _); [done|].
  destruct (subscribed subscribe _) as [[sub|e] s1]; [|done].
  by rewrite !registration_with, !with_field_twice.
Qed.

Lemma abs_between B x : num_between (- B) B x → num_le (num_abs x) (int B) = true.
Proof.
  intros (q & -> & Hlo & Hhi). unfold num_abs. apply num_le_fin. rewrite inject_Z_opp in Hlo.
  apply Qabs_Qle_condition. by split.
Qed.

(** What was stored is what the next visit loads. *)
Lemma stored_is_loaded value w w' : well_formed value → valid_center (field value "center") = true →
  json_ok value = true → store_preferences value w = (Ok tt, w') →
  loadPushPreferences w' = value ∧ present (local_getItem PREFERENCES_KEY w') = true.
Proof.
  intros Hw Hc Hok Hrun. destruct (well_formed_object _ Hw) as [fs ->]. destruct Hw as [Hs _].
  unfold store_preferences in Hrun. run_inv Hrun. injection Hrun0 as <- <-.
  destruct (has_local_storage w) eqn:Hls; [|done].
  pose proof (LocalLists.local_get_set _ _ PREFERENCES_KEY _ _ Hls Hrun) as Hget. rewrite decide_True in Hget by done.
  unfold loadPushPreferences. rewrite Hget. cbn [from_option Datatypes.id present]. rewrite json_roundtrip by done.
  cbn [json_truthy andb]. rewrite Hs, Hc. split; [done|]. by apply LocalLists.print_nonempty.
Qed.

(** The service accepted the registration of the coarse position, and it was stored. *)
Definition registered (value : json) (lat lng : num) (s : Screen) : Prop :=
  ∃ sub w w1, subscription (page s) = Some sub ∧
    request "POST" (stringify (registration sub value (Some (JNum lat)) (Some (JNum lng)))) w = (Ok tt, w1) ∧
    store_preferences (with_field "center" (latlng lat lng) value) w1 = (Ok tt, device (app s)).

Lemma wp_subscribed subscribe Q E s :
  (∀ sub s', subscription (page s') = Some sub → Q sub s') → (∀ e s', E e s') → wp (subscribed subscribe) Q E s.
Proof.
  intros HQ HE. unfold subscribed. wp_run. destruct (subscription (page s)) as [sub|] eqn:Hs; [wp_run; by apply HQ|].
  wp_run. destruct (urlBase64ToUint8Array _); wp_run; [|apply HE]. destruct (subscribe _); wp_run; [by apply HQ|apply HE].
Qed.

Lemma enable_enabled permission subscribe value lat lng s :
  supported = true → center_of value = Some (latlng lat lng) →
  wp (enable permission subscribe value)
    (λ _ s', pstate (page s') = enabled → registered value (fixed_number 2 lat) (fixed_number 2 lng) s')
    (λ _ _, False) s.
Proof.
  intros Hsup Hc. unfold enable. rewrite Hc, Hsup. cbn [negb].
  change (coarse_center (latlng lat lng)) with (Ok (fixed_number 2 lat, fixed_number 2 lng)).
  set (Q := λ (_ : ()) (s' : Screen), pstate (page s') = enabled → _).
  assert (∀ e s, wp (failed e) Q (λ _ _, False) s) as Hfail by by intros; unfold failed; wp_run.
  wp_run. destruct permission as [answer|e]; [|apply Hfail].
  destruct (negb _); [subst Q; wp_run; by destruct (String.eqb _ _)|].
  rewrite wp_bind. apply wp_subscribed; [|intros; apply Hfail]. intros sub s1 Hsub. wp_run.
  apply wp_cases; [|intros; apply Hfail]. intros [] w1 Hreq. wp_run.
  apply wp_cases; [|intros; apply Hfail]. intros [] w2 Hst. wp_run. intros _.
  by exists sub, (device (app s1)), w1.
Qed.

(** The perimeter that was enabled is the one that is there at the next visit: the service
    accepted the position in hundredths of a degree, the page loads the preferences with
    exactly that position, at most 0.005 degrees (and the last bit) from the real one, and
    its first request repeats the registration byte for byte. *)
Theorem enabled_perimeter_restored permission subscribe value x y s s' :
  supported = true → well_formed value → center_of value = Some (latlng (Fin x) (Fin y)) →
  (Qabs x <= 90)%Q → (Qabs y <= 180)%Q →
  let lat := fixed_number 2 (Fin x) in
  let lng := fixed_number 2 (Fin y) in
  let saved := with_field "center" (latlng lat lng) value in
  json_ok saved = true →
  enable permission subscribe value s = (Ok tt, s') → pstate (page s') = enabled →
  loadPushPreferences (device (app s')) = saved ∧
  (∃ x' y', lat = Fin x' ∧ lng = Fin y' ∧ (Qabs (x' - x) <= (1 # 200) + (1 # 2 ^ 40))%Q ∧
     (Qabs (y' - y) <= (1 # 200) + (1 # 2 ^ 40))%Q) ∧
  ∃ sub body, subscription (page s') = Some sub ∧ (∃ w w', request "POST" body w = (Ok tt, w')) ∧
    ∀ answer s2, answer ≠ "denied" → device (app s2) = device (app s') → subscription (page s2) = Some sub →
      mounted answer s2 =
      try_catch (_ ← call (request "POST" body); update (setState enabled)) (λ _, update (setState error)) s2.
Proof.
  intros Hsup Hw Hc Hx Hy lat lng saved Hok Hrun Hen.
  apply Qabs_Qle_condition in Hx as [Hx1 Hx2], Hy as [Hy1 Hy2].
  assert (num_between (- 90) 90 lat) as Hlat by (apply (fixed_between 90); [lia|]; by exists x).
  assert (num_between (- 180) 180 lng) as Hlng by (apply (fixed_between 180); [lia|]; by exists y).
  destruct (wp_ok _ _ _ _ _ _ Hrun (enable_enabled permission subscribe value (Fin x) (Fin y) s Hsup Hc) Hen)
    as (sub & w & w1 & Hsub & Hreq & Hst).
  fold lat lng saved in Hst, Hreq.
  assert (well_formed saved) as Hws by (apply well_formed_center; [by apply abs_between..|done]).
  assert (is_Some (field value "center")) as Hf.
  { unfold center_of in Hc. destruct (field value "center"); [by eexists|done]. }
  assert (field saved "center" = Some (latlng lat lng)) as Hfs.
  { subst saved. rewrite field_with by by left. by rewrite decide_True. }
  assert (valid_center (field saved "center") = true) as Hvc.
  { destruct Hws as [_ [Hn|]]; [|done]. by rewrite Hfs in Hn. }
  destruct (stored_is_loaded saved w1 (device (app s')) Hws Hvc Hok Hst) as [Hload Hpres].
  split; [done|]. split.
  - destruct (fixed_near x) as (x' & Hx' & Hxx); [change (inject_Z 180) with 180%Q; apply Qabs_Qle_condition; split; lra|].
    destruct (fixed_near y) as (y' & Hy' & Hyy); [change (inject_Z 180) with 180%Q; apply Qabs_Qle_condition; split; lra|]. by exists x', y'.
  - exists sub, (stringify (registration sub value (Some (JNum lat)) (Some (JNum lng)))).
    split; [done|]. split; [by exists w, w1|]. intros answer s2 Ha Hdev Hs2.
    unfold mounted. rewrite Hsup. cbn [negb]. rewrite (proj2 (String.eqb_neq _ _) Ha).
    unfold mbind at 1, prog_bind at 1. cbn [gets]. rewrite Hdev, Hload.
    unfold mbind at 1, prog_bind at 1. cbn [gets]. rewrite Hdev.
    unfold center_of. rewrite Hfs. cbn [mbind option_bind latlng json_truthy]. rewrite Hpres.
    unfold mbind at 1, prog_bind at 1. cbn [gets]. rewrite Hs2. subst saved. by rewrite registration_with.
Qed.

End push.
End values.

(** *** A perimeter enabled in Nairobi *)

#[local] Existing Instances Signer.sample_urls Signer.no_extension Signer.sample_bunker.
#[local] Instance push_build : Page := {|
  window_origin := "https://sentinel.example"; window_protocol := "https:";
  window_host := "sentinel.example"; resolve_url r b := Some (b +:+ r); build_env _ := None |}.
#[local] Program Instance alert_service : Fetch := {| fetch r := mret (mkResponse 201 (Ok JNull)) |}.
Next Obligation. done. Qed.

Definition no_number (v : json) : num := NaN.
Definition manager (key : bytes) : outcome Subscription :=
  Ok (mkSubscription "https://push.example/1" (JObj [("endpoint", JStr "https://push.example/1")])).
Definition located (x y : Q) : json := with_field "center" (latlng (Fin x) (Fin y)) DEFAULT_PREFERENCES.
Definition opened : Web.Screen Perimeter :=
  mkScreen (mkApp fresh_world Root.initialState) (initial no_number true None fresh_world).
Definition enabled_here : outcome unit * Web.Screen Perimeter :=
  enable true "BA" (Ok "granted") manager (located (-12921 # 10000) (368219 # 10000)) opened.

Lemma only_coarse_position_leaves_witness :
  enabled_here = enable true "BA" (Ok "granted") manager (located (-12899 # 10000) (368241 # 10000)) opened.
Proof. apply only_coarse_position_leaves; vm_compute; reflexivity. Defined.

Definition widened : Web.Screen Perimeter := mkScreen (app opened) (slide_radius (int 20) (page opened)).

Lemma perimeter_well_formed_witness :
  num_field (preferences (page widened)) "radiusKm" = Some (int 20) ∧ perimeter no_number (preferences (page widened)).
Proof.
  split; [vm_compute; reflexivity|]. apply (perimeter_well_formed no_number true "BA").
  apply (reach_step no_number true "BA" opened); [exact (reach_initial no_number true "BA" None (app opened))|].
  apply (step_radius no_number true "BA" opened 20). lia.
Defined.

(** A stored centre without coordinates passes for a centre at 0, 0; enabling the perimeter
    then fails, as [null] has no [toFixed]. *)
Definition no_coordinates : json :=
  with_field "center" (JObj [("lat", JNull); ("lng", JNull)]) DEFAULT_PREFERENCES.
Definition storing_null : World := (store_preferences no_coordinates fresh_world).2.
Example null_center_accepted :
  loadPushPreferences no_number storing_null = no_coordinates ∧
  perror (page (enable true "BA" (Ok "granted") manager no_coordinates opened).2) = Some "TypeError".
Proof. by vm_compute. Qed.

Lemma enabled_perimeter_restored_witness :
  pstate (page enabled_here.2) = enabled ∧
  loadPushPreferences no_number (device (app enabled_here.2)) =
  with_field "center" (latlng (lit (-129) 100) (lit 3682 100)) DEFAULT_PREFERENCES.
Proof.
  assert (pstate (page enabled_here.2) = enabled) as Hen by (vm_compute; reflexivity).
  split; [exact Hen|].
  destruct (enabled_perimeter_restored no_number true "BA" (Ok "granted") manager
    (located (-12921 # 10000) (368219 # 10000)) (-12921 # 10000) (368219 # 10000) opened enabled_here.2) as [Hload _];
    [reflexivity|split; [vm_compute; reflexivity|right; vm_compute; reflexivity]|reflexivity
    |vm_compute; discriminate..|vm_compute; reflexivity| |exact Hen|exact Hload].
  assert (enabled_here.1 = Ok tt) as Hok by (vm_compute; reflexivity). unfold enabled_here in Hok.
  rewrite <-Hok at 1. apply surjective_pairing.
Defined.

End Push.
