(* ===== verification/Panels.v ===== *)
(** * Forms and panels: [components/Nip05IdentitySection.tsx], the empty state of
    [components/FamilyCircleDashboard.tsx], [components/CircleSidebar.tsx],
    [components/CircleMapLayer.tsx] and [components/chat/ModerationMenu.tsx]

    The states of the forms around the modelled services: what is shown for which key while
    requests settle in any order, what a form says after it was submitted, and which members
    of a circle are drawn. *)

From Stdlib Require Import Ascii QArith Lia.
From S2P Require Import Prelude JsNumber JsString JsStringFacts JsCollection Json.
From S2P Require Import SharedTypes Nostr CryptoModel Platform IdentityStore LocalLists NostrIdentity CircleKeys.
From S2P Require Import CirclesSlice SmallSlices ChatRules Web Api Invite CircleSync CircleDashboard.
Close Scope Q_scope.

(** ** [Nip05IdentitySection.tsx] *)

Module Nip05Section.
Import Nip05.

(** A message with [ok] *)
Record Message : Type := mkMessage { text : string; ok : bool }.

(** A request under way, with the key that signed it.  [Load]: [current] is the variable of
    the effect run that sent it. *)
Inductive Task : Type := Load (key : string) (current : bool) | Verify (key : string) | Remove (key : string).

(** [pubkey] is the property.  [identity] is the status with the key whose request it
    answered, which the component does not keep. *)
Record Section_ : Type := mkSection {
  pubkey : string; identity : option (string * Nip05Status); identifier : string; loading : bool;
  message : option Message; tasks : list Task
}.

Definition setIdentity v s := mkSection (pubkey s) v (identifier s) (loading s) (message s) (tasks s).
Definition setIdentifier v s := mkSection (pubkey s) (identity s) v (loading s) (message s) (tasks s).
Definition setLoading v s := mkSection (pubkey s) (identity s) (identifier s) v (message s) (tasks s).
Definition setMessage v s := mkSection (pubkey s) (identity s) (identifier s) (loading s) v (tasks s).
Definition setTasks f s := mkSection (pubkey s) (identity s) (identifier s) (loading s) (message s) (f (tasks s)).

(** The cleanup of the effect, and the effect for a key *)
Definition cleanup : Section_ → Section_ := setTasks (map (λ t, if t is Load k _ then Load k false else t)).
Definition effect (key : string) (s : Section_) : Section_ :=
  let s := mkSection key (identity s) (identifier s) (loading s) (message s) (tasks s) in
  setTasks (λ ts, ts ++ [Load key true]) (setMessage None (setLoading true s)).

Definition initial (key : string) : Section_ := effect key (mkSection key None "" true None []).

(** The page passes another key. *)
Definition key_changed (key : string) (s : Section_) : Section_ :=
  if String.eqb key (pubkey s) then s else effect key (cleanup s).

(** [/^[A-Za-z0-9_.-]+@[^\s/@]+\.[^\s/@]+$/]: a name, one [@], and a domain with a point
    that has something on both sides *)
Definition is_name_char (c : ascii) : bool :=
  is_digit c || between 65 90 c || between 97 122 c || existsb (Ascii.eqb c) ["_"%char; "."%char; "-"%char].
Definition is_domain_char (c : ascii) : bool := negb (is_space c || Ascii.eqb c "/"%char || Ascii.eqb c "@"%char).

Fixpoint split_at (c : ascii) (s : string) : option (string * string) :=
  match s with
  | "" => None
  | String d s => if Ascii.eqb d c then Some ("", s) else '(a, b) ← split_at c s; Some (String d a, b)
  end.

(** Somewhere after the first character, and before the last, there is a point. *)
Fixpoint inner_point (s : string) : bool :=
  match s with
  | String _ ((String d (String _ _)) as s') => Ascii.eqb d "."%char || inner_point s'
  | _ => false
  end.

Definition is_identifier (s : string) : bool :=
  match split_at "@"%char s with
  | Some (name, domain) =>
      truthy name && str_forallb is_name_char name && str_forallb is_domain_char domain && inner_point domain
  | None => false
  end.

Definition INVALID_IDENTIFIER : string := "Enter a valid name@domain identifier.".
Definition VERIFIED : string := "NIP-05 identity verified for the active key.".
Definition REMOVED : string := "NIP-05 identity removed. Your signing key is unchanged.".

Definition started (t : Task) (s : Section_) : Section_ :=
  setTasks (λ ts, ts ++ [t]) (setMessage None (setLoading true s)).

Definition verify (s : Section_) : Section_ :=
  if is_identifier (trim (identifier s)) then started (Verify (pubkey s)) s
  else setMessage (Some (mkMessage INVALID_IDENTIFIER false)) s.

Definition remove (confirmed : bool) (s : Section_) : Section_ :=
  if confirmed then started (Remove (pubkey s)) s else s.

(** How the three kinds of requests settle *)
Definition loaded (key : string) (current : bool) (o : outcome (option Nip05Status)) (s : Section_) : Section_ :=
  if negb current then s
  else
    setLoading false
      match o with
      | Ok result =>
          setIdentifier (match result with Some r => Nip05.identifier r | None => "" end)
            (setIdentity (pair key <$> result) s)
      | Throw m => setMessage (Some (mkMessage m false)) s
      end.

Definition verified (key : string) (o : outcome Nip05Status) (s : Section_) : Section_ :=
  setLoading false
    match o with
    | Ok result =>
        setMessage (Some (mkMessage VERIFIED true)) (setIdentifier (Nip05.identifier result) (setIdentity (Some (key, result)) s))
    | Throw m => setMessage (Some (mkMessage m false)) s
    end.

Definition removed (o : outcome unit) (s : Section_) : Section_ :=
  setLoading false
    match o with
    | Ok _ => setMessage (Some (mkMessage REMOVED true)) (setIdentifier "" (setIdentity None s))
    | Throw m => setMessage (Some (mkMessage m false)) s
    end.

(** The [k]-th request settles, with the answer of its kind. *)
Definition settle (k : nat) (get : outcome (option Nip05Status)) (put : outcome Nip05Status) (del : outcome unit)
    (s : Section_) : Section_ :=
  match tasks s !! k with
  | None => s
  | Some t =>
      let s := setTasks (delete k) s in
      match t with
      | Load key current => loaded key current get s
      | Verify key => verified key put s
      | Remove _ => removed del s
      end
  end.

(** What the status line shows of the identity; the date of an expired one is the browser's *)
Definition shown_identity (s : Section_) : option Nip05Status :=
  match message s with Some _ => None | None => snd <$> identity s end.

(** The buttons; [Enter] in the field verifies whenever the field is enabled. *)
Definition verify_enabled (s : Section_) : bool := negb (loading s) && truthy (trim (identifier s)).
Definition remove_enabled (s : Section_) : bool := negb (loading s) && bool_decide (is_Some (identity s)).

Inductive step (s : Section_) : Section_ → Prop :=
| step_type v : loading s = false → step s (setIdentifier v s)
| step_verify : loading s = false → step s (verify s)
| step_remove c : remove_enabled s = true → step s (remove c s)
| step_settle k get put del : step s (settle k get put del s)
| step_key key : step s (key_changed key s).

(** No request that changes the identity is under way. *)
Definition calm (s : Section_) : Prop := Forall (λ t, if t is Load _ _ then True else False) (tasks s).

(** The runs in which the key changes at calm moments only *)
Inductive reachable : Section_ → Prop :=
| reach_initial key : reachable (initial key)
| reach_step s s' : reachable s → step s s' → (pubkey s' = pubkey s ∨ calm s) → reachable s'.

(** *** Facts *)

Example identifiers : map is_identifier ["ann@news.example"; "_@a.b"; "ann@news"; "ann@.b"; "a b@c.d"; "a@b@c.d"; "@c.d"] =
  [true; true; false; false; false; false; false].
Proof. reflexivity. Qed.

(** A request that was not cut off is for the key of the page; while one is under way the
    section is loading; and a status that is shown is one of the key of the page. *)
Definition keyed (s : Section_) : Prop :=
  Forall (λ t, match t with Load k c => c = true → k = pubkey s | Verify k | Remove k => k = pubkey s end) (tasks s) ∧
  (loading s = false ∧ (message s = None ∨ ∃ m, message s = Some m ∧ ok m = true) →
    ∀ k st, identity s = Some (k, st) → k = pubkey s).

Lemma keyed_delete k s : keyed s → keyed (setTasks (delete k) s).
Proof.
  intros [Ht Hi]. split; [|exact Hi]. cbn. rewrite Forall_forall in Ht |- *. intros t Hin%list_elem_of_delete_inv. by apply Ht.
Qed.

Lemma keyed_settle k get put del s : keyed s → keyed (settle k get put del s).
Proof.
  intros Hs. unfold settle. destruct (tasks s !! k) as [t|] eqn:Hk; [|done].
  apply list_elem_of_lookup_2 in Hk. pose proof Hs as [Ht _]. rewrite Forall_forall in Ht. specialize (Ht t Hk).
  apply (keyed_delete k) in Hs as [Htk Hi]. destruct t as [key c|key|key].
  - unfold loaded. destruct c; cbn [negb]; [|by split]. split; [by destruct get|]. specialize (Ht eq_refl).
    destruct get as [[r|]|m]; cbn; intros [_ Hm] k' st; [by intros [= <- _]|done|].
    destruct Hm as [|(m' & [= <-] & ?)]; done.
  - split; [by destruct put|]. destruct put as [r|m]; cbn; intros [_ Hm] k' st; [by intros [= <- _]|].
    destruct Hm as [|(m' & [= <-] & ?)]; done.
  - split; [by destruct del|]. destruct del as [[]|m]; cbn; intros [_ Hm] k' st; [done|].
    destruct Hm as [|(m' & [= <-] & ?)]; done.
Qed.

Lemma keyed_started t s : match t with Load _ _ => False | Verify k | Remove k => k = pubkey s end →
  keyed s → keyed (started t s).
Proof.
  intros Hk [Ht Hi]. split; [|by intros [? _]]. cbn. apply Forall_app. split; [exact Ht|].
  constructor; [|done]. by destruct t.
Qed.

Lemma keyed_effect key s : calm s → keyed (effect key (cleanup s)).
Proof.
  intros Hc. split; [|by intros [? _]]. cbn. apply Forall_app. split; [|by repeat constructor].
  apply Forall_fmap. eapply Forall_impl; [exact Hc|]. by intros [].
Qed.

Lemma keyed_step s s' : keyed s → step s s' → pubkey s' = pubkey s ∨ calm s → keyed s'.
Proof.
  intros Hs Hstep Hk. destruct Hstep as [v Hl|Hl|c Hr|k get put del|key].
  - exact Hs.
  - unfold verify. destruct (is_identifier _); [by apply keyed_started|]. destruct Hs as [Ht Hi].
    split; [exact Ht|]. cbn. intros [_ [|(m & [= <-] & ?)]]; done.
  - unfold remove. destruct c; [by apply keyed_started|done].
  - by apply keyed_settle.
  - revert Hk. unfold key_changed. destruct (String.eqb_spec key (pubkey s)) as [Heq|Hne]; [done|]. intros Hk.
    apply keyed_effect. destruct Hk as [Hk|]; [|done]. by destruct Hne.
Qed.

Lemma reachable_keyed s : reachable s → keyed s.
Proof.
  induction 1 as [key|s s' _ IH Hstep Hk]; [|by eapply keyed_step].
  apply (keyed_effect key (mkSection key None "" true None [])). constructor.
Qed.

(** While the key only changes when no verification or removal is under way, in whatever
    order the requests settle: once the section is not loading and shows no error, the
    status it shows is the gateway's answer to a request of the key of the page. *)
Theorem shown_status_is_of_the_key s k st : reachable s → loading s = false →
  (message s = None ∨ ∃ m, message s = Some m ∧ ok m = true) → identity s = Some (k, st) → k = pubkey s.
Proof.
  intros Hr Hl Hm. destruct (reachable_keyed s Hr) as [_ Hi]. by apply Hi.
Qed.

Definition ann : Nip05Status := mkStatus "ann@news.example" true "2026-01-01T00:00:00Z" "2026-02-01T00:00:00Z".
Definition typed : Section_ :=
  setIdentifier "ann@news.example" (settle 0 (Ok None) (Throw "") (Throw "") (initial "old-key")).

Lemma shown_status_is_of_the_key_witness :
  shown_identity (setMessage None (settle 0 (Throw "") (Ok ann) (Throw "") (verify typed))) = Some ann ∧
  "old-key" = pubkey (settle 0 (Throw "") (Ok ann) (Throw "") (verify typed)).
Proof.
  split; [reflexivity|]. apply (shown_status_is_of_the_key _ _ ann); [|reflexivity| |reflexivity].
  - apply (reach_step (verify typed)); [|apply step_settle|by left].
    apply (reach_step typed); [|by apply step_verify|by left].
    eapply reach_step; [|by apply step_type|by left].
    apply (reach_step (initial "old-key")); [apply reach_initial|apply step_settle|by left].
  - right. by eexists.
Defined.

(** The key changes while a verification is under way: the answer for the old key is shown
    as the verified status of the new one. *)
Example verified_for_another_key :
  let s := settle 0 (Ok None) (Ok ann) (Throw "") (settle 1 (Ok None) (Ok ann) (Throw "") (key_changed "new-key" (verify typed))) in
  pubkey s = "new-key" ∧ loading s = false ∧ message s = Some (mkMessage VERIFIED true) ∧
  identity s = Some ("old-key", ann).
Proof. split_and!; reflexivity. Qed.

End Nip05Section.

(** ** The empty state of [FamilyCircleDashboard.tsx] *)

Module EmptyState.
Import Invite.

(** The names of the presets; their labels and pictures are layout. *)
Definition CIRCLE_PRESETS : list string :=
  ["Family"; "Friends"; "Neighborhood Watch"; "School Circle"; "Work Team"].

Inductive Tab : Type := create | join.

Record State : Type := mkState {
  tab : Tab; circleNameInput : string; selectedPreset : option nat; creating : bool; createError : option string;
  inviteInput : string; parsedInvite : option ParsedInvite; joinError : option string
}.

Definition initial : State := mkState create "" None false None "" None None.

Definition setTab v s := mkState v (circleNameInput s) (selectedPreset s) (creating s) (createError s) (inviteInput s) (parsedInvite s) (joinError s).
Definition setCircleNameInput v s := mkState (tab s) v (selectedPreset s) (creating s) (createError s) (inviteInput s) (parsedInvite s) (joinError s).
Definition setSelectedPreset v s := mkState (tab s) (circleNameInput s) v (creating s) (createError s) (inviteInput s) (parsedInvite s) (joinError s).
Definition setCreating v s := mkState (tab s) (circleNameInput s) (selectedPreset s) v (createError s) (inviteInput s) (parsedInvite s) (joinError s).
Definition setCreateError v s := mkState (tab s) (circleNameInput s) (selectedPreset s) (creating s) v (inviteInput s) (parsedInvite s) (joinError s).
Definition setJoinError v s := mkState (tab s) (circleNameInput s) (selectedPreset s) (creating s) (createError s) (inviteInput s) (parsedInvite s) v.

Definition handleInviteChange (value : string) (s : State) : State :=
  mkState (tab s) (circleNameInput s) (selectedPreset s) (creating s) (createError s) value (parseInviteString value) None.

(** A button of the presets, and typing a name *)
Definition choose_preset (i : nat) (s : State) : State :=
  setCircleNameInput "" (setSelectedPreset (if bool_decide (Some i = selectedPreset s) then None else Some i) s).
Definition type_name (value : string) (s : State) : State := setCircleNameInput value (setSelectedPreset None s).

(** The value of the field, and the name that is used *)
Definition shown_name (s : State) : option string :=
  match selectedPreset s with Some i => CIRCLE_PRESETS !! i | None => Some (circleNameInput s) end.
Definition effectiveCircleName (s : State) : option string :=
  match selectedPreset s with Some i => CIRCLE_PRESETS !! i | None => Some (trim (circleNameInput s)) end.

Definition create_disabled (s : State) : bool :=
  creating s || negb (truthy (default "" (effectiveCircleName s))).

Section create.
Context `{Aes, Sha256, Random, NostrTools, Nip19, Fetch, Page}.

Abbreviation Screen := (Web.Screen State).

(** [handleCreate] with its [finally] *)
Definition handleCreate : prog Screen unit :=
  name ← gets (λ s, default "" (effectiveCircleName (page s)));
  if negb (truthy name) then mret tt
  else
    _ ← update (setCreating true);
    _ ← update (setCreateError None);
    try_finally
      (err ← on_app (CircleDashboard.handleCreate name);
       match err with Some m => update (setCreateError (Some m)) | None => mret tt end)
      (update (setCreating false)).

(** "Track this circle" *)
Definition track : prog Screen unit :=
  invite ← gets (λ s, parsedInvite (page s));
  match invite with
  | Some i => _ ← call (trackInvite i); update (setJoinError None)
  | None => mret tt
  end.

(** *** Facts *)

Inductive step (s : Screen) : Screen → Prop :=
| step_tab t : step s (mkScreen (app s) (setTab t (page s)))
| step_invite v : step s (mkScreen (app s) (handleInviteChange v (page s)))
| step_preset i : i < length CIRCLE_PRESETS → step s (mkScreen (app s) (choose_preset i (page s)))
| step_name v : step s (mkScreen (app s) (type_name v (page s)))
| step_create : step s (handleCreate s).2
| step_track : step s (track s).2
| step_elsewhere a : step s (mkScreen a (page s)).

Inductive reachable : Screen → Prop :=
| reach_initial a : reachable (mkScreen a initial)
| reach_step s s' : reachable s → step s s' → reachable s'.

(** The invite that is offered is the one in the box, and a preset is one of the list. *)
Definition sound (p : State) : Prop :=
  parsedInvite p = parseInviteString (inviteInput p) ∧ is_Some (effectiveCircleName p).

Lemma preserves_handleCreate : preserves (λ s, sound (page s)) handleCreate.
Proof.
  unfold handleCreate. apply preserves_bind; [apply preserves_gets|]. intros name. destruct (negb _); [apply preserves_ret|].
  apply preserves_bind; [by apply preserves_update|]. intros _.
  apply preserves_bind; [by apply preserves_update|]. intros _.
  intros s Hs. unfold try_finally, mbind, prog_bind.
  destruct (on_app (CircleDashboard.handleCreate name) s) as [[[m|]|e] s1] eqn:Hrun;
    unfold on_app in Hrun; destruct (CircleDashboard.handleCreate name (app s)) as [o a]; injection Hrun as -> <-; exact Hs.
Qed.

Lemma preserves_track : preserves (λ s, sound (page s)) track.
Proof.
  unfold track. apply preserves_bind; [apply preserves_gets|]. intros [i|]; [|apply preserves_ret].
  apply preserves_bind; [apply (preserves_on_app sound)|]. intros _. by apply preserves_update.
Qed.

(** The empty state never offers to track an invite other than the one in the box, and the
    name that a circle is created with is always defined. *)
Theorem offered_invite_is_the_pasted_one s : reachable s → sound (page s).
Proof.
  induction 1 as [a|s s' _ IH Hstep]; [by split; [|eexists]|]. destruct IH as [Hp Hn].
  destruct Hstep as [t|v|i Hi|v| | |a]; try (by split).
  - split; [exact Hp|]. unfold choose_preset, effectiveCircleName. cbn.
    destruct (bool_decide _); [by eexists|]. by apply lookup_lt_is_Some.
  - by apply preserves_handleCreate.
  - by apply preserves_track.
Qed.

End create.
End EmptyState.

(** ** [CircleSidebar.tsx] *)

Module AddMember.

(** [successes] counts the timers that take the mark back. *)
Record Form : Type := mkForm {
  addInput : string; adding : bool; addError : option string; addSuccess : bool; successes : nat
}.
Definition initial : Form := mkForm "" false None false 0.

Definition setAddInput v f := mkForm v (adding f) (addError f) (addSuccess f) (successes f).
Definition setAdding v f := mkForm (addInput f) v (addError f) (addSuccess f) (successes f).
Definition setAddError v f := mkForm (addInput f) (adding f) v (addSuccess f) (successes f).
Definition added (f : Form) : Form := mkForm "" (adding f) (addError f) true (S (successes f)).

Definition type_key (value : string) (f : Form) : Form := setAddError None (setAddInput value f).

(** A timer of two seconds fires. *)
Definition fade (f : Form) : Form :=
  match successes f with
  | 0 => f
  | S n => mkForm (addInput f) (adding f) (addError f) false n
  end.

Definition add_disabled (f : Form) : bool := adding f || negb (truthy (trim (addInput f))).

Section add.
Context `{Aes, Sha256, Random, NostrTools, Nip19, Fetch, Page}.

(** The error of [onAddMember] is shown when it is not empty. *)
Definition handleAdd : prog (Web.Screen Form) unit :=
  input ← gets (λ s, trim (addInput (page s)));
  if negb (truthy input) then mret tt
  else
    _ ← update (setAdding true);
    _ ← update (setAddError None);
    err ← on_app (CircleDashboard.handleAddMember input);
    _ ← update (setAdding false);
    match err with
    | Some m => if truthy m then update (setAddError (Some m)) else update added
    | None => update added
    end.

(** A submission that [onAddMember] answers ends with the form enabled, and says either the
    error or that the member was added; one that it rejects leaves the form disabled. *)
Theorem add_form_outcome s : truthy (trim (addInput (page s))) = true →
  let '(answer, a) := CircleDashboard.handleAddMember (trim (addInput (page s))) (app s) in
  let '(o, s') := handleAdd s in
  app s' = a ∧
  match answer with
  | Ok err =>
      o = Ok tt ∧ adding (page s') = false ∧
      if truthy (default "" err) then addError (page s') = err ∧ addInput (page s') = addInput (page s)
      else addError (page s') = None ∧ addInput (page s') = "" ∧ addSuccess (page s') = true
  | Throw e => o = Throw e ∧ adding (page s') = true ∧ add_disabled (page s') = true
  end.
Proof.
  intros Hi. unfold handleAdd, mbind, prog_bind. cbn [gets]. rewrite Hi. cbn [negb update modify].
  unfold on_app. cbn [app page].
  destruct (CircleDashboard.handleAddMember _ (app s)) as [[err|e] a]; [|by split_and!].
  destruct err as [m|]; cbn; [|by split_and!]. destruct (truthy m) eqn:Hm; cbn; by split_and!.
Qed.

(** The key of the circle is read outside the [try] of [onAddMember]: a rejected read leaves
    the form disabled, without a message. *)
Lemma rejected_read_disables_form s hex id e w :
  truthy (trim (addInput (page s))) = true →
  NostrIdentity.hexFromNpubOrHex (trim (addInput (page s))) = Some hex → truthy hex = true →
  CircleDashboard.active_id (Root.circles (store (app s))) = Some id →
  CircleKeys.loadCircleKey id
    (int (CircleDashboard.current_epoch (CircleDashboard.active_circle (Root.circles (store (app s)))))) (device (app s))
    = (Throw e, w) →
  adding (page (handleAdd s).2) = true ∧ addError (page (handleAdd s).2) = None.
Proof.
  intros Hi Hhex Ht Hid Hload.
  assert ((CircleDashboard.handleAddMember (trim (addInput (page s))) (app s)).1 = Throw e) as Hadd.
  { unfold CircleDashboard.handleAddMember, mbind, prog_bind, CircleDashboard.circles_state, select. cbn [gets].
    unfold compose. rewrite Hhex, Hid, Ht. cbn [negb]. unfold service. by rewrite Hload. }
  unfold handleAdd, mbind, prog_bind. cbn [gets]. rewrite Hi. cbn [negb update modify]. unfold on_app. cbn [app page].
  destruct (CircleDashboard.handleAddMember _ (app s)) as [o a]. cbn in Hadd. by subst o.
Qed.
End add.

Section label.
(** The row of a member: the name that is shown for it *)
Definition display_name (m : CircleMember) : string :=
  match cm_label m with Some l => l | None => default "unknown member" (cm_pubkey m) end.

Definition status_of (statuses : gmap string MemberStatus) (m : CircleMember) : MemberStatus :=
  default OFFLINE (statuses !! default "" (cm_pubkey m)).
End label.
End AddMember.

(** ** [CircleMapLayer.tsx] *)

Module CircleLayer.
Local Open Scope num_scope.

Section layer.
(** [new Date(s).getTime()]: what strings besides ISO dates mean is up to the browser. *)
Variable date_parse : string → num.

(** The text, and whether the position counts as stale *)
Definition ageLabel (now : num) (ts : string) : string * bool :=
  let mins := num_floor ((now - date_parse ts) / int 60000) in
  if num_lt mins (int 1) then ("just now", false)
  else if num_lt mins (int 5) then (num_to_string mins +:+ "m ago", false)
  else (num_to_string mins +:+ "m ago", true).

Definition labelFor (members : list CircleMember) (myPubkey : string) (pubkey : string) : string :=
  let normalized := toLowerCase pubkey in
  if truthy myPubkey && String.eqb normalized (toLowerCase myPubkey) then "You"
  else
    match List.find (λ m, match cm_pubkey m with
                          | Some pk => truthy pk && String.eqb (toLowerCase pk) normalized
                          | None => false
                          end) members with
    | Some m => match cm_label m with Some l => if truthy l then l else "Member" | None => "Member" end
    | None => "Member"
    end.

Record Mark : Type := mkMark { mk_pubkey : string; mk_lat : num; mk_lng : num; mk_label : string; mk_age : string; mk_stale : bool }.

Definition is_approximate (p : option Circles.Precision) : bool :=
  match p with Some Circles.approximate => true | _ => false end.

(** The marker of an entry of [decryptedLocations], for a member that shares *)
Definition mark (s : Circles.CirclesState) (members : list CircleMember) (myPubkey : string) (now : num)
    (entry : string * Circles.DecryptedLocation) : option Mark :=
  let '(pubkey, loc) := entry in
  if bool_decide (Circles.memberStatuses s !! pubkey = Some ONLINE) then
    let label := labelFor members myPubkey pubkey in
    let '(age, stale) := ageLabel now (Circles.ts loc) in
    Some (mkMark pubkey (Circles.lat loc) (Circles.lng loc)
      (label +:+ (if is_approximate (Circles.precision loc) then " ≈" else "")) age stale)
  else None.

(** The entries come in some order of the keys. *)
Definition marks (s : Circles.CirclesState) (members : list CircleMember) (myPubkey : string) (now : num) : list Mark :=
  omap (mark s members myPubkey now) (map_to_list (Circles.decryptedLocations s)).

(** *** Facts *)

Lemma mark_some s members my now pk loc m : mark s members my now (pk, loc) = Some m →
  mk_pubkey m = pk ∧ Circles.memberStatuses s !! pk = Some ONLINE ∧ mk_lat m = Circles.lat loc ∧ mk_lng m = Circles.lng loc.
Proof.
  unfold mark. destruct (bool_decide _) eqn:Hb; [|done]. apply bool_decide_eq_true in Hb.
  destruct (ageLabel _ _). by intros [= <-].
Qed.

Lemma mark_online s members my now pk loc : Circles.memberStatuses s !! pk = Some ONLINE →
  is_Some (mark s members my now (pk, loc)).
Proof. intros Hs. unfold mark. rewrite bool_decide_eq_true_2 by done. destruct (ageLabel _ _). by eexists. Qed.

(** Marks named by the keys of the entries are as distinct as the keys. *)
Lemma NoDup_omap_keys {K V M} (f : K * V → option M) (key : M → K) es :
  (∀ e m, f e = Some m → key m = e.1) → NoDup es.*1 → NoDup (map key (omap f es)).
Proof.
  intros Hf. induction es as [|e es IH]; [constructor|]. cbn. intros [Hni Hn]%NoDup_cons.
  destruct (f e) as [m|] eqn:Hm; [|by apply IH]. cbn. apply NoDup_cons. split; [|by apply IH].
  intros (m' & Heq & (e' & Hin & Hm')%list_elem_of_omap)%list_elem_of_fmap. apply Hni.
  rewrite <-(Hf e m Hm), Heq, (Hf e' m' Hm'). by apply list_elem_of_fmap_2.
Qed.

(** Exactly the members that share are drawn, each once, where their latest position is. *)
Theorem sharing_members_drawn s members my now :
  NoDup (map mk_pubkey (marks s members my now)) ∧
  (∀ pubkey, pubkey ∈ map mk_pubkey (marks s members my now) ↔
    Circles.memberStatuses s !! pubkey = Some ONLINE ∧ is_Some (Circles.decryptedLocations s !! pubkey)) ∧
  ∀ m, m ∈ marks s members my now → ∃ loc, Circles.decryptedLocations s !! mk_pubkey m = Some loc ∧
    mk_lat m = Circles.lat loc ∧ mk_lng m = Circles.lng loc.
Proof.
  split; [|split].
  - apply NoDup_omap_keys; [|apply NoDup_fst_map_to_list]. intros [pk loc] m Hm. by apply mark_some in Hm as [-> _].
  - intros pubkey. split.
    + intros (m & -> & ([pk loc] & Hin & Hm)%list_elem_of_omap)%list_elem_of_fmap.
      apply elem_of_map_to_list in Hin. apply mark_some in Hm as (-> & Hs & _). split; [done|by eexists].
    + intros [Hs [loc Hl]]. destruct (mark_online s members my now pubkey loc Hs) as [m Hm].
      apply list_elem_of_fmap. exists m. split; [by apply mark_some in Hm as [-> _]|].
      apply list_elem_of_omap. exists (pubkey, loc). split; [by apply elem_of_map_to_list|done].
  - intros m ([pk loc] & Hin & Hm)%list_elem_of_omap. apply elem_of_map_to_list in Hin.
    apply mark_some in Hm as (-> & _ & ?). by exists loc.
Qed.

(** A member that stops sharing is not drawn any more. *)
Lemma not_sharing_not_drawn s members my now pubkey status : status ≠ ONLINE →
  pubkey ∉ map mk_pubkey (marks (Circles.memberStatusUpdated pubkey status s) members my now).
Proof.
  intros Hst Hin. apply sharing_members_drawn in Hin as [Hs _]. cbn in Hs. rewrite lookup_insert_eq in Hs. congruence.
Qed.

(** No key is drawn as a name, unless the roster has it for a name. *)
Lemma label_is_a_name members my pubkey :
  labelFor members my pubkey = "You" ∨ labelFor members my pubkey = "Member" ∨
  ∃ m, m ∈ members ∧ cm_label m = Some (labelFor members my pubkey).
Proof.
  unfold labelFor. destruct (_ && _); [by left|]. right.
  destruct (List.find _ members) as [m|] eqn:Hf; [|by left]. apply find_some in Hf as [Hin _].
  destruct (cm_label m) as [l|] eqn:Hl; [|by left]. destruct (truthy l); [|by left].
  right. exists m. split; [by apply list_elem_of_In|done].
Qed.
End layer.
End CircleLayer.

(** ** [ModerationMenu.tsx] *)

Module Moderation.

Record Menu : Type := mkMenu { removeInput : string; busy : bool }.
Definition initial : Menu := mkMenu "" false.
Definition setRemoveInput v m := mkMenu v (busy m).
Definition setBusy v m := mkMenu (removeInput m) v.

(** Whether the menu is there for the active key *)
Definition isAdmin (admins : list string) (myPubkey : string) : bool :=
  existsb (λ a, String.eqb (toLowerCase a) (toLowerCase myPubkey)) admins.

Definition handleRemoveUser (groupId : string) (onAction : EventTemplate → Z → prog World unit) : prog (Web.Screen Menu) unit :=
  pubkey ← gets (λ s, trim (removeInput (page s)));
  if negb (is_hex64 pubkey) then mret tt
  else
    _ ← update (setBusy true);
    try_finally
      (template ← call (ChatRules.removeUserTemplate groupId pubkey);
       _ ← call (onAction template 9001%Z);
       update (setRemoveInput ""))
      (update (setBusy false)).

(** The menu is enabled again whatever becomes of the action, and the key stays in the box
    unless it was removed. *)
Lemma remove_user_enabled groupId onAction s : busy (page s) = false →
  busy (page (handleRemoveUser groupId onAction s).2) = false ∧
  (removeInput (page (handleRemoveUser groupId onAction s).2) ≠ removeInput (page s) →
   (handleRemoveUser groupId onAction s).1 = Ok tt).
Proof.
  intros Hb. unfold handleRemoveUser, mbind, prog_bind. cbn [gets]. destruct (negb _); [done|].
  cbn [update modify]. unfold try_finally, call, on_app, service. cbn [app page device store].
  destruct (ChatRules.removeUserTemplate _ _ _) as [[t|e] w1]; [|done]. cbn [app page device store].
  destruct (onAction t _ w1) as [[[]|e] w2]; done.
Qed.

End Moderation.
