(* ===== verification/Boot.v ===== *)
(** * The start of the application: [main.tsx], [components/shell/AppShell.tsx],
    [services/serviceWorker.ts], [public/push-sw.js] and the caches of [vite.config.ts]

    [main.tsx] renders the shell and starts to load the identity; the effects of the shell
    run when React commits it, whether or not the identity is there by then.  The service
    worker of a production build answers some requests itself when the network does not. *)

From Stdlib Require Import Ascii QArith Lia.
From S2P Require Import Prelude JsNumber JsString JsStringFacts JsCollection Json JsonFacts.
From S2P Require Import SharedTypes Nostr CryptoModel Platform IdentityStore NostrIdentity BunkerStore Signer LocalLists.
From S2P Require Import CircleLocation NostrAuth EventsSlice CirclesSlice SmallSlices Web Relay Api InboxSync CircleSync Invite.
Close Scope Q_scope.

(** ** [main.tsx] and the effects of [AppShell] *)

Module Startup.

Section startup.
Context `{Aes, Sha256, Random, NostrTools, UrlParser, Extension, Bunkers, Fetch, Page}.

(** [VITE_DISABLE_SERVICE_WORKER] and [PROD]: whether the worker is registered *)
Definition registers_worker (prod : bool) : bool :=
  prod && negb (bool_decide (build_env "VITE_DISABLE_SERVICE_WORKER" = Some "true")).

(** The variables of the services when the page starts *)
Definition page_start (w : World) : Prop :=
  keypair w = None ∧ init_promise w = None ∧ identity w = mkIdentity Local "" Ready None None ∧ remote w = None.

(** What is left of [loadIdentity] after its first, synchronous test, and its [then]: it
    sets the cached key whatever is cached by then.  A failure is logged only. *)
Definition boot_identity : prog World unit :=
  try_catch
    (kp ← NostrIdentity.init_identity;
     _ ← modify (set_init_promise (Some kp));
     Signer.initializeActiveSigner)
    (λ _, mret tt).

(** The values that make the effect of [useCircles] run again when they change *)
Definition circles_deps (w : World) : SignerMode := ai_mode (identity w).

(** The URL of the first request of [useCircles] *)
Definition circles_url (w : World) : string :=
  API_BASE +:+ "/api/circles?ids=" +:+ str_join "," (LocalLists.getCircleIds w).

(** The effects of the shell: events and reports, circles, inbox.  [aborted] tells which
    of the circles were left before they were loaded. *)
Definition shell_effects (aborted : string → bool) : prog App (option (NostrSigner World * string * Filter)) :=
  _ ← SafetyApi.sync_events false;
  _ ← SafetyApi.sync_reports false;
  _ ← CircleSync.load aborted;
  InboxSync.run (chatEnabled && hasChatRelays).

(** The text for screen readers: the latest proximity alert *)
Definition announcement (before : string) (alerts : list ProximityAlert) : string :=
  match alerts with
  | [] => before
  | latest :: _ => pa_severity latest +:+ " alert: " +:+ pa_zone_name latest
  end.

(** *** Facts *)

Lemma getCachedKeypair_fresh w kp : keypair w = None →
  NostrIdentity.keypair_of (generateSecretKey (draws w)) = Ok kp →
  NostrIdentity.getCachedKeypair w = (Ok kp, set_keypair (Some kp) (set_draws (S (draws w)) w)).
Proof.
  intros Hk Hkp. unfold NostrIdentity.getCachedKeypair, new_secret_key, NostrIdentity.cache_keypair, draw.
  unfold mbind, prog_bind, gets. rewrite Hk. cbn. unfold lift_outcome. by rewrite Hkp.
Qed.

Lemma getCachedKeypair_present w kp : keypair w = Some kp → NostrIdentity.getCachedKeypair w = (Ok kp, w).
Proof. intros Hk. unfold NostrIdentity.getCachedKeypair, mbind, prog_bind, gets. by rewrite Hk. Qed.

(** The subscription of the inbox, with a key in the cache *)
Lemma inbox_of_cached kp inbox a : keypair (device a) = Some kp → ai_mode (identity (device a)) = Local →
  cr_inbox chatRelays = Some inbox → truthy inbox = true →
  ∃ signer, InboxSync.run true a =
    (Ok (Some (signer, inbox, InboxSync.inboxFilter (publicKey kp))), mkApp (set_inbox_seen (λ _, []) (device a)) (store a)) ∧
    Signer.createLocalNostrSigner (secretKey kp) (Some (publicKey kp)) = Ok signer.
Proof.
  intros Hk Hm Hi Ht. unfold InboxSync.run. rewrite Hi, Ht. cbn [negb orb].
  unfold Signer.getNostrSigner, Signer.getActiveIdentity, Signer.localNostrSigner.
  unfold try_catch, service, mbind, prog_bind, gets. rewrite Hm, (getCachedKeypair_present _ kp) by exact Hk.
  unfold lift_outcome, Signer.createLocalNostrSigner. cbn. by eexists.
Qed.

(** The identity is in the vault, no bunker is connected, and storage answers. *)
Definition stored_identity (kp : NostrKeypair) (w : World) : Prop :=
  faults w = [] ∧ BunkerStore.read_connection (bunker_db w) = None ∧
  ∃ v, Vault.read_vault (identity_db w) = Some v ∧ NostrIdentity.keypair_of (Vault.identitySk v) = Ok kp.

Lemma stored_same kp w w' : stored_identity kp w → faults w' = faults w → bunker_db w' = bunker_db w →
  identity_db w' = identity_db w → stored_identity kp w'.
Proof. unfold stored_identity. by intros ? -> -> ->. Qed.

(** Loading ends with the stored key, whatever key was in the cache. *)
Lemma boot_identity_stored kp w : stored_identity kp w →
  boot_identity w = (Ok tt, set_identity (mkIdentity Local (publicKey kp) Ready None None)
    (set_init_promise (Some kp) (set_keypair (Some kp) w))).
Proof.
  intros (Hf & Hb & v & Hv & Hkp). unfold boot_identity, NostrIdentity.init_identity, try_catch, mbind, prog_bind.
  rewrite (Vault.loadOrCreate_stored v) by done. unfold NostrIdentity.cache_keypair, lift_outcome, mbind, prog_bind.
  rewrite Hkp. cbn [modify mret prog_ret]. unfold Signer.initializeActiveSigner, mbind, prog_bind.
  rewrite BunkerStore.loadBunkerConnection_ok by exact Hf. cbn [bunker_db set_init_promise set_keypair]. rewrite Hb.
  unfold Signer.publish_local, mbind, prog_bind. by rewrite (getCachedKeypair_present _ kp).
Qed.

(** C7: The effects of the shell may run before the identity is loaded: [main.tsx] renders
    without waiting for it.  Then the first request of [useCircles] is signed, and the
    inbox is subscribed, with a key that was made up on the spot, not with the one in the
    vault; loading replaces the key afterwards, and nothing that the effects depend on
    changes: neither runs again. *)
Theorem early_effects_use_another_key w s kp transient url absolute inbox :
  page_start w → stored_identity kp w → absolute_url url = Ok absolute →
  cr_inbox chatRelays = Some inbox → truthy inbox = true →
  NostrIdentity.keypair_of (generateSecretKey (S (draws w))) = Ok transient →
  ∃ rq w1 signer w2 w3,
    CircleSync.local_request url "GET" None w = (Ok rq, w1) ∧ CircleSync.signed_as (publicKey transient) rq ∧
    InboxSync.run true (mkApp w1 s) =
      (Ok (Some (signer, inbox, InboxSync.inboxFilter (publicKey transient))), mkApp w2 s) ∧
    boot_identity w2 = (Ok tt, w3) ∧ keypair w3 = Some kp ∧ ai_pubkey (identity w3) = publicKey kp ∧
    circles_deps w3 = circles_deps w.
Proof.
  intros (Hk & _ & Hi & _) Hs Hu Hin Ht Htr.
  assert (NostrIdentity.keypair_of (secretKey transient) = Ok transient) as Hown.
  { revert Htr. unfold NostrIdentity.keypair_of. destruct (getPublicKey (generateSecretKey _)) as [pk|] eqn:Hpk; [|done].
    intros [= <-]. cbn. by rewrite Hpk. }
  pose proof (getCachedKeypair_fresh (set_draws (S (draws w)) w) transient Hk Htr) as Hc.
  destruct (CircleSync.local_request_signed url "GET" None absolute transient w _ Hu Hown Hc) as (rq & Hrq & Hsig & _).
  match type of Hrq with _ = (_, ?w1) => destruct (inbox_of_cached transient inbox (mkApp w1 s)) as (signer & Hrun & _) end;
    [done|cbn; by rewrite Hi|done..|].
  eexists _, _, _, _, _. split_and!; [exact Hrq|done|exact Hrun|by apply boot_identity_stored, (stored_same kp w)|done..|].
  unfold circles_deps. by rewrite Hi.
Qed.

(** Once the identity is loaded, the same effects act as the identity in the vault. *)
Lemma effects_after_loading w s kp url absolute inbox :
  page_start w → stored_identity kp w → absolute_url url = Ok absolute →
  cr_inbox chatRelays = Some inbox → truthy inbox = true →
  ∃ w1 rq w2 signer a, boot_identity w = (Ok tt, w1) ∧
    CircleSync.local_request url "GET" None w1 = (Ok rq, w2) ∧ CircleSync.signed_as (publicKey kp) rq ∧
    InboxSync.run true (mkApp w2 s) = (Ok (Some (signer, inbox, InboxSync.inboxFilter (publicKey kp))), a).
Proof.
  intros (_ & _ & Hi & _) Hs Hu Hin Ht. pose proof Hs as (_ & _ & v & _ & Hkp).
  assert (NostrIdentity.keypair_of (secretKey kp) = Ok kp) as Hown.
  { revert Hkp. unfold NostrIdentity.keypair_of. destruct (getPublicKey (Vault.identitySk v)) as [pk|] eqn:Hpk; [|done].
    intros [= <-]. cbn. by rewrite Hpk. }
  pose proof (boot_identity_stored kp w Hs) as Hboot.
  match type of Hboot with _ = (_, ?w1) =>
    destruct (CircleSync.local_request_signed url "GET" None absolute kp w1 _ Hu Hown (getCachedKeypair_present (set_draws (S (draws w1)) w1) kp eq_refl))
      as (rq & Hrq & Hsig & _) end.
  match type of Hrq with _ = (_, ?w2) => destruct (inbox_of_cached kp inbox (mkApp w2 s)) as (signer & Hrun & _) end; [done..|].
  by eexists _, _, _, _, _.
Qed.
(** *** Another identity *)

(** Adopting a key replaces the cached one and leaves the published identity. *)
Lemma adopt_replaces sk w kp w' : NostrIdentity.adopt_secret_key sk w = (Ok kp, w') →
  keypair w' = Some kp ∧ identity w' = identity w.
Proof.
  unfold NostrIdentity.adopt_secret_key. intros Hrun. run_inv Hrun.
  assert (identity w0 = identity w) as Hs.
  { apply (preserves_run (λ v, identity v = identity w) _ _ _ _
      (Vault.beside_saveSecretKey (λ v, identity v = identity w) (λ _ _ _ _ Hi, conj Hi (conj Hi Hi)) sk) Hrun0 eq_refl). }
  revert Hrun. unfold NostrIdentity.cache_keypair, lift_outcome, mbind, prog_bind.
  destruct (NostrIdentity.keypair_of sk) as [k|e]; cbn; [|done]. by intros [= -> <-].
Qed.

(** The identity is replaced while the application runs: a new one is generated, or a backup
    or an import is taken over.  The settings publish it, but the inbox stays subscribed for
    the former key with the signer that holds its secret, and nothing that the effects of the
    circles and of the inbox depend on changes. *)
Theorem replaced_identity_keeps_inbox sk kp kp' a w inbox :
  keypair (device a) = Some kp → ai_mode (identity (device a)) = Local →
  cr_inbox chatRelays = Some inbox → truthy inbox = true →
  NostrIdentity.adopt_secret_key sk (set_inbox_seen (λ _, []) (device a)) = (Ok kp', w) →
  ∃ signer w', InboxSync.run true a =
      (Ok (Some (signer, inbox, InboxSync.inboxFilter (publicKey kp))), mkApp (set_inbox_seen (λ _, []) (device a)) (store a)) ∧
    Signer.createLocalNostrSigner (secretKey kp) (Some (publicKey kp)) = Ok signer ∧
    Signer.refreshLocalIdentity w = (Ok tt, w') ∧ ai_pubkey (identity w') = publicKey kp' ∧
    circles_deps w' = circles_deps (device a).
Proof.
  intros Hk Hm Hi Ht Had. destruct (inbox_of_cached kp inbox a Hk Hm Hi Ht) as (signer & Hrun & Hs).
  destruct (adopt_replaces _ _ _ _ Had) as [Hk' Hid]. cbn in Hid. eexists signer, _. split; [exact Hrun|]. split; [done|].
  split.
  - unfold Signer.refreshLocalIdentity, Signer.getActiveIdentity, Signer.publish_local, mbind, prog_bind, gets.
    rewrite bool_decide_eq_true_2 by (by rewrite Hid). rewrite (getCachedKeypair_present _ kp') by done. reflexivity.
  - by split; [|unfold circles_deps; rewrite Hm].
Qed.
End startup.

(** *** A device with a vault is opened again *)

#[local] Existing Instances Signer.sample_urls Signer.no_extension Signer.sample_bunker.
#[local] Instance chat_build : Page := {|
  window_origin := "https://sentinel.example"; window_protocol := "https:";
  window_host := "sentinel.example"; resolve_url r b := Some (b +:+ r);
  build_env name := if String.eqb name "VITE_CHAT_INBOX_RELAY_URL" then Some "wss://inbox.example" else None |}.

Definition vault_key : NostrKeypair :=
  mkKeypair (default "" (getPublicKey Vault.sample_sk)) Vault.sample_sk.
Definition made_up_key : NostrKeypair :=
  let sk := generateSecretKey (S (draws Vault.stored_world)) in mkKeypair (default "" (getPublicKey sk)) sk.

Lemma early_effects_use_another_key_witness :
  publicKey made_up_key ≠ publicKey vault_key ∧
  ∃ rq w1 signer w2 w3,
    CircleSync.local_request "/api/circles?ids=c1" "GET" None Vault.stored_world = (Ok rq, w1) ∧
    CircleSync.signed_as (publicKey made_up_key) rq ∧
    InboxSync.run true (mkApp w1 Root.initialState) =
      (Ok (Some (signer, "wss://inbox.example", InboxSync.inboxFilter (publicKey made_up_key))), mkApp w2 Root.initialState) ∧
    boot_identity w2 = (Ok tt, w3) ∧ keypair w3 = Some vault_key ∧ ai_pubkey (identity w3) = publicKey vault_key ∧
    circles_deps w3 = circles_deps Vault.stored_world.
Proof.
  split; [vm_compute; congruence|].
  apply (early_effects_use_another_key _ _ _ _ _ "https://sentinel.example/api/circles?ids=c1");
    [split_and!; vm_compute; reflexivity| |vm_compute; reflexivity..].
  split_and!; [vm_compute; reflexivity|vm_compute; reflexivity|].
  exists (Vault.normalize Vault.sample_payload). split; vm_compute; reflexivity.
Defined.

(** The user of a running application takes another key over. *)
Definition running : App := mkApp (set_keypair (Some vault_key) fresh_world) Root.initialState.
Definition adopted : outcome NostrKeypair * World :=
  NostrIdentity.adopt_secret_key (secretKey made_up_key) (set_inbox_seen (λ _, []) (device running)).

Lemma replaced_identity_keeps_inbox_witness :
  adopted.1 = Ok made_up_key ∧ publicKey made_up_key ≠ publicKey vault_key ∧
  ∃ signer w', InboxSync.run true running =
      (Ok (Some (signer, "wss://inbox.example", InboxSync.inboxFilter (publicKey vault_key))),
       mkApp (set_inbox_seen (λ _, []) (device running)) (store running)) ∧
    Signer.createLocalNostrSigner (secretKey vault_key) (Some (publicKey vault_key)) = Ok signer ∧
    Signer.refreshLocalIdentity adopted.2 = (Ok tt, w') ∧ ai_pubkey (identity w') = publicKey made_up_key ∧
    circles_deps w' = circles_deps (device running).
Proof.
  assert (adopted.1 = Ok made_up_key) as Ha by (vm_compute; reflexivity). split; [exact Ha|]. split; [vm_compute; congruence|].
  apply (replaced_identity_keeps_inbox (secretKey made_up_key)); [reflexivity..|].
  rewrite <-Ha. fold adopted. by destruct adopted.
Defined.

End Startup.

(** ** The caches of the service worker: [runtimeCaching] of [vite.config.ts] *)

Module Caches.

(** [new URL(request.url)]; and the strategies of Workbox: an answer of the network or of
    the named cache, or a rejection.  They do not touch the databases of the page. *)
Class Workbox : Type := {
  pathname : string → string;
  href : string → string;
  networkFirst : string → Request → prog World Response;
  cacheFirst : string → Request → prog World Response;
  networkFirst_frame c r w : chat_db (networkFirst c r w).2 = chat_db w;
  cacheFirst_frame c r w : chat_db (cacheFirst c r w).2 = chat_db w
}.

(** A route: which requests it takes, and how it answers them.  The last argument of
    [NetworkFirst] is the answer that the plugin [handlerDidError] makes up. *)
Inductive Handler : Type :=
| CacheFirst (cacheName : string)
| NetworkFirst (cacheName : string) (handlerDidError : Response).

Fixpoint str_contains (p s : string) : bool :=
  starts_with p s || match s with "" => false | String _ s => str_contains p s end.

Definition ends_with (p s : string) : bool := starts_with (String.rev p) (String.rev s).

(** The text ['{"events":[]}'], and its like, parsed *)
Definition empty_list (key : string) : Response := mkResponse 200 (Ok (JObj [(key, JArr [])])).

Section caches.
Context `{Workbox}.

Definition runtimeCaching : list ((Request → bool) * Handler) :=
  [ (λ r, str_contains "/tiles/" (pathname (rq_url r)) || ends_with ".pmtiles" (href (rq_url r)), CacheFirst "sm-tiles");
    (λ r, String.eqb (rq_method r) "GET" && starts_with "/api/events" (pathname (rq_url r)), NetworkFirst "sm-api" (empty_list "events"));
    (λ r, String.eqb (rq_method r) "GET" && starts_with "/api/reports" (pathname (rq_url r)), NetworkFirst "sm-api" (empty_list "reports"));
    (λ r, ends_with ".woff" (pathname (rq_url r)) || ends_with ".woff2" (pathname (rq_url r)), CacheFirst "sm-assets") ].

(** The first route that takes the request; a route without a method takes [GET] only. *)
Definition handler_for (r : Request) : option Handler :=
  if String.eqb (rq_method r) "GET" then snd <$> List.find (λ route, route.1 r) runtimeCaching else None.

(** The network beneath the worker *)
Variable network : Fetch.

(** [fetch] of a page that the worker controls *)
Definition worker_fetch (r : Request) : prog World Response :=
  match handler_for r with
  | None => @fetch network r
  | Some (CacheFirst c) => cacheFirst c r
  | Some (NetworkFirst c fallback) => try_catch (networkFirst c r) (λ _, mret fallback)
  end.

Lemma worker_fetch_frame r w : chat_db (worker_fetch r w).2 = chat_db w.
Proof.
  unfold worker_fetch. destruct (handler_for r) as [[c|c fb]|]; [apply cacheFirst_frame| |apply fetch_frame].
  unfold try_catch. pose proof (networkFirst_frame c r w) as Hf. by destruct (networkFirst c r w) as [[] ?].
Qed.

Definition through_worker : Fetch := {| fetch := worker_fetch; fetch_frame := worker_fetch_frame |}.

(** *** Facts *)

(** Only reads are answered by the worker. *)
Lemma writes_reach_the_network r : rq_method r ≠ "GET" → worker_fetch r = @fetch network r.
Proof. intros Hm. unfold worker_fetch, handler_for. by destruct (String.eqb_spec (rq_method r) "GET"). Qed.

(** A URL of the gateway's events: neither a tile nor an archive of tiles *)
Definition events_url (url : string) : Prop :=
  str_contains "/tiles/" (pathname url) = false ∧ ends_with ".pmtiles" (href url) = false ∧
  starts_with "/api/events" (pathname url) = true.

Lemma events_handler r : rq_method r = "GET" → events_url (rq_url r) →
  handler_for r = Some (NetworkFirst "sm-api" (empty_list "events")).
Proof.
  intros Hm (Ht & Hp & He). unfold handler_for, runtimeCaching. rewrite Hm. cbn [List.find fst]. by rewrite Ht, Hp, Hm, He.
Qed.

(** A read of events that neither the network nor the cache answers is answered by the
    worker, with status 200. *)
Lemma failed_events_answered r m w w' : rq_method r = "GET" → events_url (rq_url r) →
  networkFirst "sm-api" r w = (Throw m, w') → @fetch through_worker r w = (Ok (empty_list "events"), w').
Proof.
  intros Hm Hu Hn. cbn [fetch through_worker]. unfold worker_fetch. rewrite (events_handler r Hm Hu).
  unfold try_catch. by rewrite Hn.
Qed.

Context `{Page}.

Definition initial_events : Request := mkRequest (API_BASE +:+ "/api/events?limit=200") "GET" [] None.

(** C40: With the worker, the first load of the events never reports that the gateway cannot be
    reached: the store takes an empty list and holds no error, where without the worker it
    holds the error. *)
Theorem worker_hides_failed_load a m w : events_url (rq_url initial_events) →
  networkFirst "sm-api" initial_events (device a) = (Throw m, w) →
  @fetch network initial_events (device a) = (Throw m, w) →
  Events.error (Root.events (store (@SafetyApi.sync_events through_worker _ false a).2)) = None ∧
  Events.items (Root.events (store (@SafetyApi.sync_events through_worker _ false a).2)) = Events.items (Root.events (store a)) ∧
  Events.error (Root.events (store (@SafetyApi.sync_events network _ false a).2)) = Some ("Error: " +:+ m).
Proof.
  intros Hu Hn Hf. pose proof (failed_events_answered initial_events m (device a) w eq_refl Hu Hn) as Hw.
  unfold SafetyApi.sync_events, SafetyApi.hydrate, SafetyApi.fetchInitialEvents, SafetyApi.fetch_list, SafetyApi.getJson.
  change (mkRequest (API_BASE +:+ "/api/events?limit=200") "GET" [] None) with initial_events.
  unfold try_catch, service, mbind, prog_bind. by rewrite Hw, Hf.
Qed.

(** ** The requests of the insights page *)

(** A value of [URLSearchParams]: [application/x-www-form-urlencoded] *)
Definition form_unreserved (c : ascii) : bool :=
  is_digit c || between 65 90 c || between 97 122 c || bool_decide (c ∈ String.list_ascii_of_string "*-._").

Fixpoint form_encode (s : string) : string :=
  match s with
  | "" => ""
  | String c s =>
      if form_unreserved c then String c (form_encode s)
      else if Ascii.eqb c " "%char then String "+"%char (form_encode s)
      else if (code c <? 128)%Z then Invite.percent (code c) (form_encode s)
      else Invite.percent (192 + code c / 64)%Z (Invite.percent (128 + code c mod 64)%Z (form_encode s))
  end.

Definition insights_url (from to_ bucket : string) : string :=
  "/api/events/history?from=" +:+ form_encode from +:+ "&to=" +:+ form_encode to_ +:+ "&bucket=" +:+ form_encode bucket
    +:+ "&page=1&limit=500".

(** The payload of [fetchInsightsEvents], which the store takes for its buckets as it is *)
Definition fetchInsightsEvents (F : Fetch) (from to_ bucket : string) : prog World json :=
  res ← @fetch F (mkRequest (insights_url from to_ bucket) "GET" [] None);
  _ ← check (response_ok res) "Failed to fetch event history";
  json_of res.

Definition fetchCommunityStats (F : Fetch) : prog World json :=
  res ← @fetch F (mkRequest "/api/insights/community?limit=20" "GET" [] None);
  _ ← check (response_ok res) "Failed to fetch community stats";
  json_of res.

(** Without the network the worker gives the chart an object where it expects an array:
    the thunk is fulfilled with a payload that has no [reduce]. *)
Theorem offline_history_is_no_array from to_ bucket m w w' : events_url (insights_url from to_ bucket) →
  networkFirst "sm-api" (mkRequest (insights_url from to_ bucket) "GET" [] None) w = (Throw m, w') →
  ∃ payload, fetchInsightsEvents through_worker from to_ bucket w = (Ok payload, w') ∧ as_arr payload = None.
Proof.
  intros Hu Hn. unfold fetchInsightsEvents, mbind, prog_bind. rewrite (failed_events_answered _ m w w') by done.
  by eexists.
Qed.
End caches.

(** *** A browser without a network *)

Definition before_query (s : string) : string :=
  match String.index 0 "?" s with Some i => str_take i s | None => s end.

#[local] Program Instance empty_caches : Workbox := {|
  pathname := before_query; href u := u;
  networkFirst c r := throw "no-response"; cacheFirst c r := throw "no-response" |}.
Solve Obligations with done.

#[local] Program Instance offline : Fetch := {| fetch r := throw "no-response" |}.
Solve Obligations with done.

#[local] Existing Instance Startup.chat_build.
Definition start_page : App := mkApp fresh_world Root.initialState.

Lemma worker_hides_failed_load_witness :
  Events.error (Root.events (store (@SafetyApi.sync_events (through_worker offline) _ false start_page).2)) = None ∧
  Events.items (Root.events (store (@SafetyApi.sync_events (through_worker offline) _ false start_page).2)) = [] ∧
  Events.error (Root.events (store (@SafetyApi.sync_events offline _ false start_page).2)) = Some "Error: no-response".
Proof.
  apply (worker_hides_failed_load offline start_page "no-response" fresh_world); [|reflexivity..].
  split_and!; vm_compute; reflexivity.
Defined.

Lemma offline_history_is_no_array_witness :
  ∃ payload, fetchInsightsEvents (through_worker offline) "2026-01-01T00:00:00.000Z" "2026-01-08T00:00:00.000Z" "1h" fresh_world
    = (Ok payload, fresh_world) ∧ as_arr payload = None.
Proof.
  apply (offline_history_is_no_array offline _ _ _ "no-response"); [|reflexivity].
  split_and!; vm_compute; reflexivity.
Defined.

End Caches.

(** ** [services/serviceWorker.ts] *)

Module Registration.

(** [supported]: ['serviceWorker' in navigator].  [hadController] is fixed when the page
    starts; [reloads] counts the calls of [window.location.reload]. *)
Record Page_ : Type := mkPage { listening : bool; hadController : bool; reloading : bool; reloads : nat }.

Definition registerServiceWorker (supported controller : bool) (p : Page_) : Page_ :=
  if supported then mkPage true controller false (reloads p) else p.

(** The listener of ['controllerchange'] *)
Definition controllerchange (p : Page_) : Page_ :=
  if negb (listening p) || negb (hadController p) || reloading p then p
  else mkPage (listening p) (hadController p) true (S (reloads p)).

Definition changes (n : nat) (p : Page_) : Page_ := Nat.iter n controllerchange p.

Lemma changes_fixed n p : controllerchange p = p → changes n p = p.
Proof. intros Hp. induction n as [|n IH]; [done|]. change (controllerchange (changes n p) = p). by rewrite IH. Qed.

Lemma changes_S n p : changes (S n) p = changes n (controllerchange p).
Proof. unfold changes. by rewrite Nat.iter_succ_r. Qed.

(** A page that was controlled when it started reloads once when another worker takes over,
    however often that happens; a first visit is never reloaded. *)
Theorem reloads_once supported controller n :
  reloads (changes n (registerServiceWorker supported controller (mkPage false false false 0))) =
    (if supported && controller && (0 <? n)%nat then 1 else 0)%nat.
Proof.
  destruct supported, controller; [|by rewrite changes_fixed..]. destruct n as [|n]; [done|].
  by rewrite changes_S, changes_fixed.
Qed.

End Registration.

(** ** [public/push-sw.js] *)

Module PushWorker.

(** The fields of a notification that come from the message; the icons are fixed. *)
Record Notification : Type := mkNotification {
  nt_title : string; nt_body : string; nt_requireInteraction : bool; nt_tag : string; nt_url : string
}.

(** A message without data, or with data whose [json()] may be rejected *)
Definition on_push (data : option (outcome json)) : outcome Notification :=
  v ← default (Ok (JObj [])) data;
  if is_null v then Throw "TypeError"
  else
    Ok (mkNotification (default "SentinelMesh Alert" (str_field v "title")) (default "" (str_field v "body"))
      (bool_decide (str_field v "severity" = Some "CRITICAL")) (default "sentinel-alert" (str_field v "event_id"))
      (default "/" (str_field v "url"))).

(** A window of the application: its URL, and whether it has a method [focus] *)
Definition Client : Type := string * bool.

Inductive Shown : Type := Focused (index : nat) | Opened (url : string).

Definition is_at (url : string) (c : Client) : bool := String.eqb c.1 url && c.2.

Section click.
Context `{Page}.

Definition notificationclick (n : Notification) (windows : list Client) : outcome Shown :=
  match resolve_url (nt_url n) window_origin with
  | None => Throw "Invalid URL"
  | Some url => Ok (match find_index (is_at url) windows with Some i => Focused i | None => Opened url end)
  end.

(** Whatever the alert says, a click leaves a window at the alert in front, and opens one
    only when no window is there yet. *)
Theorem click_shows_alert n windows shown url :
  resolve_url (nt_url n) window_origin = Some url → notificationclick n windows = Ok shown →
  match shown with
  | Focused i => ∃ c, windows !! i = Some c ∧ c.1 = url
  | Opened u => u = url ∧ ∀ c, c ∈ windows → c.2 = true → c.1 ≠ url
  end.
Proof.
  intros Hu. unfold notificationclick. rewrite Hu. intros [= <-].
  destruct (find_index (is_at url) windows) as [i|] eqn:Hf.
  - apply find_index_Some in Hf as (c & Hc & Hp & _). exists c. split; [done|].
    unfold is_at in Hp. apply andb_true_iff in Hp as [Hp _]. by apply String.eqb_eq.
  - split; [done|]. intros c Hin Hc Heq. pose proof (proj1 (find_index_None _ _) Hf c Hin) as Hp.
    unfold is_at in Hp. by rewrite Heq, String.eqb_refl, Hc in Hp.
Qed.
End click.
End PushWorker.
