(* ===== verification/MapMarks.v ===== *)
(** * What is drawn on the map: [components/map/ClusterMarker.tsx],
    [components/EventMarker.tsx], [components/map/RadiusZoneLayer.tsx],
    [components/map/HomeRouteLayer.tsx], [components/SafeRouteOverlay.tsx] and
    [components/map/MapCanvas.tsx]

    The values that these components hand to the map library and to the browser: the ring
    of a cluster and the events that a click on it opens, the sizes and warnings of single
    markers, the impact zones, the lines of the routes, the calls of the camera. *)

From Stdlib Require Import QArith Lia.
From S2P Require Import Prelude JsNumber JsString JsStringFacts JsCollection Json.
From S2P Require Import SharedTypes Nostr Platform EventsSlice CircleLocation SmallSlices Web DeviceHooks MapPage.
Close Scope Q_scope.

(** ** [ClusterMarker.tsx] *)

Module ClusterRing.
Import Clusters.
Local Open Scope num_scope.

Definition outerRadius (total : nat) : num :=
  if (total <=? 4)%nat then int 14 else if (total <=? 14)%nat then int 18 else if (total <=? 49)%nat then int 22
  else if (total <=? 199)%nat then int 26 else int 30.

Definition count (n : nat) : num := int (Z.of_nat n).

Section ring.
Context `{MathLib}.

Definition circumference (total : nat) : num := int 2 * math_PI * (outerRadius total - lit 15 10).

(** The length of the arc of [n] of [total] events *)
Definition arc (total n : nat) : num :=
  let circumference := circumference total in
  if (0 <? n)%nat then num_max (count n / count (Nat.max total 1) * circumference) (circumference * lit 8 100) else int 0.

(** An arc as it is painted: where it starts on the ring, clockwise from the top, and how
    long it is.  The offsets of the dashes are a quarter of the ring less the start. *)
Record Arc : Type := mkArc { colour : string; start : num; size : num }.

Definition dashoffset (total : nat) (a : Arc) : num := circumference total * lit 25 100 - start a.

(** The arcs, in the order of painting; an arc without events is left out. *)
Definition arcs (c : Cluster) : list Arc :=
  let arc := arc (totalCount c) in
  let critArc := arc (criticalCount c) in
  let highArc := arc (highCount c) in
  let medLow := (mediumCount c + lowCount c)%nat in
  (if (0 <? criticalCount c)%nat then [mkArc "CRITICAL" (int 0) critArc] else []) ++
  (if (0 <? highCount c)%nat then [mkArc "HIGH" critArc highArc] else []) ++
  (if (0 <? medLow)%nat then [mkArc "MEDIUM" (critArc + highArc) (arc medLow)] else []).

(** The number in the ring *)
Definition label (total : nat) : string := if (99 <? total)%nat then "99+" else string_of_Z (Z.of_nat total).

(** An arc is painted over by a later one that runs past the top of the ring and round to
    where the arc ends. *)
Definition painted_over (total : nat) (a later : Arc) : bool :=
  num_le (start a + size a) (start later + size later - circumference total).
End ring.

(** *** The memoised component *)

(** The properties, with the events that [onClick] was made for *)
Definition same_props (prev next : Cluster) : bool :=
  String.eqb (cl_id prev) (cl_id next) && Nat.eqb (criticalCount prev) (criticalCount next)
  && Nat.eqb (highCount prev) (highCount next) && Nat.eqb (mediumCount prev) (mediumCount next)
  && Nat.eqb (lowCount prev) (lowCount next) && Nat.eqb (totalCount prev) (totalCount next).

(** The properties that are on the screen after a render with [next] *)
Definition rerender (prev next : Cluster) : Cluster := if same_props prev next then prev else next.

(** The properties on the screen after renders in a row, the first of which mounts it *)
Definition on_screen (first : Cluster) (later : list Cluster) : Cluster := fold_left rerender later first.

(** What a click opens *)
Definition opened (c : Cluster) : list SafetyEvent := cl_events c.

(** *** Facts *)

Lemma rerender_counts prev next : same_props (rerender prev next) next = true.
Proof.
  unfold rerender. destruct (same_props prev next) eqn:E; [done|].
  unfold same_props. by rewrite String.eqb_refl, !Nat.eqb_refl.
Qed.

(** However often the marker is rendered, the ring and the number are those of the latest
    cluster. *)
Theorem ring_is_up_to_date first later next `{MathLib} :
  let c := on_screen first (later ++ [next]) in
  arcs c = arcs next ∧ label (totalCount c) = label (totalCount next) ∧ cl_id c = cl_id next.
Proof.
  cbv zeta. unfold on_screen. rewrite fold_left_app. cbn [fold_left].
  pose proof (rerender_counts (fold_left rerender later first) next) as Hs.
  unfold same_props in Hs. rewrite !andb_true_iff, String.eqb_eq, !Nat.eqb_eq in Hs.
  destruct Hs as [[[[[Hid Hc] Hh] Hm] Hl] Ht]. unfold arcs. by rewrite Hc, Hh, Hm, Hl, Ht, Hid.
Qed.

Section arc.
Context `{MathLib}.

(** A severity that occurs has an arc, and no other has one. *)
Lemma arcs_spec c colour : colour ∈ map ClusterRing.colour (arcs c) ↔
  (colour = "CRITICAL" ∧ 0 < criticalCount c) ∨ (colour = "HIGH" ∧ 0 < highCount c) ∨
  (colour = "MEDIUM" ∧ 0 < mediumCount c + lowCount c).
Proof.
  assert (∀ n (a : Arc), colour ∈ map ClusterRing.colour (if (0 <? n)%nat then [a] else []) ↔
    colour = ClusterRing.colour a ∧ 0 < n) as Hone.
  { intros [|n] a; cbn; [split; [by intros ?%not_elem_of_nil|lia]|]. rewrite list_elem_of_singleton. split; [|by intros []].
    intros ->. split; [done|lia]. }
  unfold arcs. rewrite !map_app, !elem_of_app, !Hone. done.
Qed.
End arc.

(** *** Two clusters *)

#[local] Instance circle_ratio : MathLib := {| math_cos _ := int 1; math_PI := lit 3141592653589793 1000000000000000 |}.

(** One critical, one high and ninety-eight lesser events: the minimum of eight percent for
    the first two makes the third arc run over the top, and it covers the critical one. *)
Example critical_arc_painted_over :
  match arcs (mkCluster "0,0" (int 0) (int 0) [] 1 1 98 0 100) with
  | [critical; high; lesser] => painted_over 100 critical lesser = true
  | _ => False
  end.
Proof. vm_compute. reflexivity. Qed.

(** Another event of the same severity takes the place of one of the cell: the marker is not
    rendered again, and a click opens the events of before. *)
Example click_opens_earlier_events e1 e2 e3 :
  let before := mkCluster "0,0" (int 0) (int 0) [e1; e2] 0 2 0 0 2 in
  let after := mkCluster "0,0" (int 0) (int 0) [e1; e3] 0 2 0 0 2 in
  opened (on_screen before [after]) = [e1; e2] ∧ same_props before after = true.
Proof. by split. Qed.
End ClusterRing.

(** ** [EventMarker.tsx] *)

Module EventMark.

Definition severity_size (severity : string) : num :=
  if String.eqb severity "CRITICAL" then int 24 else if String.eqb severity "HIGH" then int 20
  else if String.eqb severity "MEDIUM" then int 16 else int 12.

(** The width and the colour of the border *)
Definition border_ring (severity : string) : option (num * string) :=
  if String.eqb severity "CRITICAL" then Some (int 2, "rgba(255,255,255,0.25)")
  else if String.eqb severity "HIGH" then Some (lit 15 10, "rgba(255,255,255,0.20)")
  else if String.eqb severity "MEDIUM" then Some (lit 15 10, "rgba(255,255,255,0.18)") else None.

Definition severity_color (severity : string) : string :=
  if String.eqb severity "CRITICAL" then "#FF2D2D" else if String.eqb severity "HIGH" then "#FF9800"
  else if String.eqb severity "MEDIUM" then "#FFD500" else if String.eqb severity "LOW" then "#9C27B0" else "#4a5568".

Record Look : Type := mkLook {
  lk_fill : string; lk_size : num; lk_ring : option (num * string); lk_opacity : num;
  lk_pulses : bool; lk_exclamation : bool; lk_label : string; lk_title : string
}.

Definition look (event : SafetyEvent) : Look :=
  let severity := ev_severity event in
  let unverified := Events.isUnverified event in
  let style := Events.trustStyle event in
  mkLook (severity_color severity) (severity_size severity) (border_ring severity) (Events.opacity style)
    (String.eqb severity "CRITICAL" && negb unverified)
    ((String.eqb severity "CRITICAL" || String.eqb severity "HIGH") && negb unverified)
    ("Open " +:+ toLowerCase severity +:+ " alert: " +:+ ev_title event)
    (if truthy (Events.badge style) then ev_title event +:+ " · " +:+ Events.badge style else ev_title event).

Lemma longer_string s c t : s +:+ String c t ≠ s.
Proof. induction s as [|d s IH]; [done|]. intros [= Heq]. by apply IH. Qed.

(** What was detected automatically and not confirmed does not read as a confirmed threat:
    it never warns, it is fainter, and its title says what it is; a confirmed event of a high
    severity warns. *)
Theorem unconfirmed_is_muted event : Events.isUnverified event = true →
  lk_pulses (look event) = false ∧ lk_exclamation (look event) = false ∧
  num_lt (lk_opacity (look event)) (int 1) = true ∧ lk_title (look event) ≠ ev_title event.
Proof.
  unfold look, Events.isUnverified, Events.trustStyle. intros Hu. cbn [lk_pulses lk_exclamation lk_opacity lk_title].
  destruct (Events.trustStateOf event) eqn:Ht; try discriminate; rewrite ?andb_false_r; split_and!; try done;
    apply longer_string.
Qed.

Lemma confirmed_warns event : Events.isUnverified event = false →
  lk_opacity (look event) = int 1 ∧ lk_title (look event) = ev_title event ∧
  (lk_exclamation (look event) = true ↔ ev_severity event = "CRITICAL" ∨ ev_severity event = "HIGH").
Proof.
  unfold look, Events.isUnverified, Events.trustStyle. intros Hu. cbn [lk_exclamation lk_opacity lk_title].
  destruct (Events.trustStateOf event) eqn:Ht; try discriminate. cbn. split_and!; [done..|].
  by rewrite andb_true_r, orb_true_iff, !String.eqb_eq.
Qed.
End EventMark.

(** ** [RadiusZoneLayer.tsx], [HomeRouteLayer.tsx] and [SafeRouteOverlay.tsx] *)

Module Zones.

Record Feature : Type := mkFeature { ft_id : string; ft_lng : num; ft_lat : num; ft_severity : string; ft_radius : num }.

(** [event.radius_meters ?? 500] *)
Definition feature (e : SafetyEvent) : Feature :=
  mkFeature (ev_id e) (ev_lng e) (ev_lat e) (ev_severity e) (default (int 500) (default None (ev_radius_meters e))).

Definition has_zone (e : SafetyEvent) : bool := ev_is_active e && negb (String.eqb (ev_severity e) "LOW").

Definition features (events : list SafetyEvent) : list Feature := map feature (List.filter has_zone events).

(** The layer draws the zones of exactly the active events of the list that are not low. *)
Lemma features_spec events f : f ∈ features events ↔
  ∃ e, e ∈ events ∧ ev_is_active e = true ∧ ev_severity e ≠ "LOW" ∧ f = feature e.
Proof.
  unfold features, has_zone. rewrite list_elem_of_fmap. setoid_rewrite elem_of_filter_b.
  setoid_rewrite andb_true_iff. setoid_rewrite negb_true_iff. setoid_rewrite String.eqb_neq. naive_solver.
Qed.
End Zones.

Module RouteLines.
Import Ui.

(** The lines of the home routes: the faded alternatives, then the selected one *)
Definition selected (s : UiState) : option (list (num * num)) := hr_coordinates <$> homeRoute s.

(** [route.id !== homeRoute?.id] *)
Definition alternatives (s : UiState) : list HomeRoute :=
  List.filter (λ r, negb (bool_decide (Some (hr_id r) = (hr_id <$> homeRoute s)))) (homeRoutes s).

Definition ROUTE_COLOURS : list string := ["#00C853"; "#FFD600"; "#FF6D00"].

(** The escape routes, with their colours *)
Definition escape_lines (s : UiState) : list (string * list (num * num) * string) :=
  imap (λ i r, (sr_id r, sr_coordinates r, default "#00C853" (ROUTE_COLOURS !! i))) (safeRoutes s).

Lemma others_of (rs : list HomeRoute) i r : NoDup (map hr_id rs) → rs !! i = Some r →
  List.filter (λ x, negb (bool_decide (Some (hr_id x) = Some (hr_id r)))) rs = delete i rs.
Proof.
  revert i. induction rs as [|x rs IH]; intros i Hn Hi; [done|]. cbn in Hn. apply NoDup_cons in Hn as [Hx Hn].
  destruct i as [|i]; cbn in Hi |- *.
  - injection Hi as ->. rewrite bool_decide_eq_true_2 by done. cbn. clear IH Hn.
    induction rs as [|y rs IH]; [done|]. cbn in Hx |- *. rewrite not_elem_of_cons in Hx. destruct Hx as [Hne Hx].
    rewrite bool_decide_eq_false_2 by congruence. cbn. by rewrite IH.
  - rewrite bool_decide_eq_false_2; [cbn; by rewrite (IH i)|]. intros [= Heq]. apply Hx. rewrite Heq.
    apply list_elem_of_fmap. exists r. split; [done|]. by eapply list_elem_of_lookup_2.
Qed.

(** After a search for routes, and after one of them was selected, every route is drawn
    once: the selected one as such, and the others, in order, as alternatives. *)
Theorem every_route_drawn_once rs i s r : NoDup (map hr_id rs) → rs !! i = Some r → safe_Z (Z.of_nat i) = true →
  let s' := homeRouteSelect (int (Z.of_nat i)) (homeRoutesSet rs s) in
  selected s' = Some (hr_coordinates r) ∧ alternatives s' = delete i rs.
Proof.
  intros Hn Hi Hsafe. cbv zeta.
  assert (homeRoute (homeRouteSelect (int (Z.of_nat i)) (homeRoutesSet rs s)) = Some r) as Hr.
  { unfold homeRouteSelect. cbn [homeRoute homeRoutes homeRoutesSet].
    rewrite int_safe, int_le, int_to_Z, Nat2Z.id, Hsafe, (proj2 (Z.leb_le _ _)) by lia. cbn. by rewrite Hi. }
  unfold selected, alternatives. rewrite Hr. split; [done|]. by apply others_of.
Qed.
End RouteLines.

(** ** [MapCanvas.tsx] *)

Module Canvas.
Import LiveMap.

(** A call of the map library; [duration] is in milliseconds. *)
Inductive MapCall : Type :=
| FitBounds (west south east north : num) (padding : Padding) (duration : num)
| EaseTo (lng lat zoom : num) (padding : Padding) (duration : num).

(** [CameraController], for a map at this zoom and a user who may prefer less motion *)
Definition execute (reducedMotion : bool) (getZoom : num) (c : CameraCommand) : MapCall :=
  let duration := if reducedMotion then int 0 else int 700 in
  match c with
  | Bounds _ west south east north padding => FitBounds west south east north padding duration
  | Center _ lng lat zoom padding => EaseTo lng lat (num_max getZoom zoom) padding duration
  end.

(** The effect runs for a command and a map that it has not run for. *)
Record Controller : Type := mkController { done_for : option CameraCommand; calls : list MapCall }.

Definition render (reducedMotion : bool) (getZoom : num) (command : option CameraCommand) (k : Controller) : Controller :=
  match command with
  | None => mkController None (calls k)
  | Some c =>
      if bool_decide (command_id <$> done_for k = Some (command_id c)) then k
      else mkController (Some c) (calls k ++ [execute reducedMotion getZoom c])
  end.

(** [ViewportReporter]: what the map shows, reported when it loads and after each move *)
Record MapView : Type := mkMapView { north : num; south : num; east : num; west : num; map_zoom : num }.

Definition handleMoveEnd (v : Viewport.ViewState) : prog World unit := Viewport.persistViewport v.

(** The start of a drag or of a zoom; only the user's own has an [originalEvent]. *)
Definition gesture (originalEvent : bool) (h : CurrentLocation.Hook) : CurrentLocation.Hook :=
  if originalEvent then CurrentLocation.stopFollowing h else h.

(** *** Facts *)

(** Going to a point never zooms out, and goes at least as near as the command says. *)
Lemma centring_never_zooms_out reduced z id lng lat zoom p : is_finite z = true → is_finite zoom = true →
  ∃ z', execute reduced z (Center id lng lat zoom p) = EaseTo lng lat z' p (if reduced then int 0 else int 700) ∧
    num_le z z' = true ∧ num_le zoom z' = true.
Proof.
  intros Hz Hzoom. exists (num_max z zoom). split; [done|]. by destruct (num_max_fin z zoom Hz Hzoom) as (_ & ? & ?).
Qed.

(** What was executed last is a command of the page. *)
Definition in_step (k : Controller) (s : LiveMap.State) : Prop :=
  match done_for k with Some c => (command_id c <= cameraSequence s)%nat | None => True end.

(** A command of the page is executed by the next render, and by no later one, however often
    the page is rendered. *)
Theorem command_executed_once reduced z zs k c s : in_step k s → (∀ n, command_id (c n) = n) →
  let s' := command c s in
  let rendered := fold_left (λ k z, render reduced z (cameraCommand s') k) (z :: zs) k in
  calls rendered = calls k ++ [execute reduced z (c (S (cameraSequence s)))] ∧ in_step rendered s'.
Proof.
  intros Hk Hc. cbv zeta. cbn [command cameraCommand cameraSequence]. set (n := S (cameraSequence s)).
  assert (render reduced z (Some (c n)) k = mkController (Some (c n)) (calls k ++ [execute reduced z (c n)])) as Hfirst.
  { unfold render. rewrite bool_decide_eq_false_2; [done|]. unfold in_step in Hk. rewrite Hc.
    destruct (done_for k) as [d|]; cbn; [|done]. intros [= Heq]. unfold n in Heq. lia. }
  cbn [fold_left]. rewrite Hfirst. clear Hfirst Hk.
  assert (∀ k', done_for k' = Some (c n) → fold_left (λ k z, render reduced z (Some (c n)) k) zs k' = k') as Hrest.
  { intros k' Hk'. induction zs as [|y zs IH]; [done|]. cbn [fold_left]. unfold render at 2. rewrite Hk'.
    rewrite bool_decide_eq_true_2 by done. exact IH. }
  rewrite Hrest by done. split; [done|]. unfold in_step. cbn [done_for cameraSequence command]. by rewrite Hc.
Qed.
End Canvas.
