(* ===== verification/Shell.v ===== *)
(** * Around the pages: [router.tsx], [components/shell/*.tsx], [pages/CirclesPage.tsx],
    [pages/ReportsPage.tsx], [hooks/useBreakpoint.ts], [hooks/useActiveIdentity.ts] with the
    listeners of [services/signerService.ts], [components/map/FieldLedger.tsx],
    [components/map/MapOverlayHost.tsx], [components/AcousticAlert.tsx],
    [components/map/MapFeatureStrip.tsx], [components/InviteModal.tsx] and the labels of keys

    Which page an address shows and what leads to it, what the panels show of the stores,
    and the alert of the acoustic detection with its timer. *)

From Stdlib Require Import Ascii QArith Lia.
From S2P Require Import Prelude JsNumber JsString JsStringFacts JsCollection Json JsonFacts.
From S2P Require Import SharedTypes Nostr CryptoModel Platform NostrIdentity EventsSlice Acoustic SmallSlices Web Invite ChatPages.
Close Scope Q_scope.

(** ** [router.tsx] and what leads to its pages *)

Module Router.

Inductive Page_ : Type :=
| LiveMap | Alerts | Reports | Settings | Circles | Insights | Chat
| PublicChannel (groupId : string) | DirectConversation (conversationId : string) | CircleChat (circleId : string).

(** A segment of the path of a route: a word, or a parameter *)
Inductive Segment : Type := Word (s : string) | Param.

Record Route : Type := mkRoute { rt_path : list Segment; rt_page : list string → Page_ }.

Definition first (args : list string) : string := default "" (head args).

Section router.
Context `{Web.Page}.

Definition routes : list Route :=
  [ mkRoute [] (λ _, LiveMap); mkRoute [Word "map"] (λ _, LiveMap); mkRoute [Word "alerts"] (λ _, Alerts);
    mkRoute [Word "reports"] (λ _, Reports); mkRoute [Word "settings"] (λ _, Settings);
    mkRoute [Word "circles"] (λ _, Circles) ] ++
  (if ft_insights experimentalFeatures then [mkRoute [Word "insights"] (λ _, Insights)] else []) ++
  (if chatEnabled then
     [ mkRoute [Word "chat"] (λ _, Chat);
       mkRoute [Word "chat"; Word "community"; Param] (PublicChannel ∘ first);
       mkRoute [Word "chat"; Word "dm"; Param] (DirectConversation ∘ first);
       mkRoute [Word "circles"; Param; Word "chat"] (CircleChat ∘ first) ]
   else []).

(** What the pattern of a route means: the words are equal, and a parameter takes a segment;
    the segments that the parameters take. *)
Fixpoint fits (pattern : list Segment) (path : list string) : option (list string) :=
  match pattern, path with
  | [], [] => Some []
  | Word w :: pattern, s :: path => if String.eqb w s then fits pattern path else None
  | Param :: pattern, s :: path => (λ args, s :: args) <$> fits pattern path
  | _, _ => None
  end.

(** The segments of a path without its query *)
Definition segments (path : string) : list string := List.filter truthy (split_on "/"%char "" path).

Fixpoint page_of (rs : list Route) (path : list string) : option Page_ :=
  match rs with
  | [] => None
  | r :: rs => match fits (rt_path r) path with Some args => Some (rt_page r args) | None => page_of rs path end
  end.

(** The page of an address; any other one is replaced by the map. *)
Definition page_at (path : string) : option Page_ := page_of routes (segments path).
Definition shown_at (path : string) : Page_ := default LiveMap (page_at path).

(** *** The links *)

(** [Header]: the wordmark and the bell *)
Definition header_links : list string := ["/map"; "/alerts"].

(** The box of the header leads to the map with its text as the query. *)
Definition header_search (value : string) : option string :=
  if truthy (trim value) then Some ("/map?q=" +:+ Invite.encodeURIComponent (trim value)) else None.

Definition sidebar_items : list string :=
  ["/map"; "/alerts"; "/reports"; "/circles"] ++ (if chatEnabled then ["/chat"] else []) ++ ["/settings"].

Definition sidebar_links (mode : SignerMode) : list string :=
  List.filter (λ p, negb (String.eqb p "/circles") || bool_decide (mode = Local)) sidebar_items ++ ["/reports"].

Definition bottom_links : list string := ["/map"; "/alerts"; "/reports"; "/settings"].

(** The links that the shell offers in a layout *)
Definition shell_links (desktop : bool) (mode : SignerMode) : list string :=
  header_links ++ (if desktop then sidebar_links mode else bottom_links).

(** The link of [CircleSidebar] to the chat of its circle *)
Definition circle_chat_link (circleId : string) : option string :=
  if chatEnabled then Some ("/circles/" +:+ circleId +:+ "/chat") else None.

(** [CirclesPage]: with a remote signer it is a notice only. *)
Definition circles_available (mode : SignerMode) : bool := negb (bool_decide (mode = Bunker)).

(** *** Facts *)

(** Every link of the shell leads to a page of the build, not to the fallback. *)
Theorem shell_links_lead_to_pages desktop mode path :
  path ∈ shell_links desktop mode → ∃ page, page_at path = Some page.
Proof.
  intros Hin. assert (path ∈ ["/map"; "/alerts"; "/reports"; "/circles"; "/settings"] ∨ (chatEnabled = true ∧ path = "/chat")) as Hp.
  { unfold shell_links, header_links, sidebar_links, sidebar_items, bottom_links in Hin.
    rewrite elem_of_app in Hin. destruct Hin as [Hin|Hin]; [left; set_solver|]. destruct desktop; [|left; set_solver].
    rewrite elem_of_app, elem_of_filter_b, !elem_of_app in Hin.
    destruct chatEnabled; [|left; set_solver]. destruct (decide (path = "/chat")) as [->|]; [by right|left; set_solver]. }
  unfold page_at, routes. destruct Hp as [Hp|[-> ->]].
  - rewrite !elem_of_cons in Hp. destruct Hp as [->|[->|[->|[->|[->|Hp%not_elem_of_nil]]]]]; [by eexists..|done].
  - destruct (ft_insights _); by eexists.
Qed.
Definition no_slash (s : string) : bool := str_forallb (λ c, negb (Ascii.eqb c "/"%char)) s.

Lemma rev_cons c cur s : String.rev (String c cur) +:+ s = String.rev cur +:+ String c s.
Proof.
  unfold String.rev at 1. cbn [String.rev_app]. rewrite Invite.rev_app_tail. generalize (String.rev cur). intros r.
  induction r as [|d r IH]; [done|]. rewrite !str_app_cons. by rewrite IH.
Qed.

Lemma split_no_slash s cur : no_slash s = true → split_on "/"%char cur s = [String.rev cur +:+ s].
Proof.
  revert cur. induction s as [|c s IH]; intros cur; [by rewrite str_app_nil|].
  intros [Hc%negb_true_iff Hs]%andb_true_iff. cbn [split_on]. by rewrite Hc, IH, rev_cons.
Qed.

Lemma split_slash s t cur : no_slash s = true →
  split_on "/"%char cur (s +:+ String "/" t) = (String.rev cur +:+ s) :: split_on "/"%char "" t.
Proof.
  revert cur. induction s as [|c s IH]; intros cur; [by rewrite str_app_nil|].
  intros [Hc%negb_true_iff Hs]%andb_true_iff. rewrite str_app_cons. cbn [split_on]. by rewrite Hc, IH, rev_cons.
Qed.

Lemma encoded_no_slash s : no_slash (Invite.encodeURIComponent s) = true.
Proof.
  unfold no_slash. apply Invite.encoded_forallb; [|intros n Hn|done].
  - intros c Hc. by destruct (Ascii.eqb_spec c "/"%char) as [->|].
  - assert (n ∈ seqZ 0 16) as Hin by (apply elem_of_seqZ; lia).
    clear Hn. revert n Hin. apply Forall_forall. repeat constructor.
Qed.

(** An address of three segments *)
Lemma segments_three a b c : no_slash a = true → no_slash b = true → no_slash c = true →
  truthy a = true → truthy b = true → truthy c = true → segments ("/" +:+ a +:+ "/" +:+ b +:+ "/" +:+ c) = [a; b; c].
Proof.
  intros Ha Hb Hc Hta Htb Htc. unfold segments.
  change ("/" +:+ a +:+ "/" +:+ b +:+ "/" +:+ c) with ("" +:+ String "/" (a +:+ String "/" (b +:+ String "/" c))).
  rewrite !split_slash, split_no_slash by done. change (String.rev "" +:+ ?x) with x. cbn [List.filter].
  by rewrite Hta, Htb, Htc.
Qed.

(** With chat built in, the pages of the chat find what they are opened for: a channel its
    group, a conversation its id, and the chat of a circle its circle. *)
Theorem chat_links_lead_to_pages id : chatEnabled = true → truthy id = true →
  page_at (ChatPage.channel_path id) = Some (PublicChannel (Invite.encodeURIComponent id)) ∧
  (no_slash id = true →
   page_at (ChatPage.conversation_path id) = Some (DirectConversation id) ∧
   (circle_chat_link id ≫= page_at) = Some (CircleChat id)).
Proof.
  intros Hc Ht. assert (∀ s, s ≠ "" → truthy s = true) as Htr by (intros s Hs; unfold truthy; by destruct (String.eqb_spec s "")).
  assert (id ≠ "") as Hid by (intros ->; done).
  pose proof (Htr _ (Invite.encoded_nonempty id Hid)) as Hte.
  unfold page_at, ChatPage.channel_path, ChatPage.conversation_path, circle_chat_link. rewrite Hc. split; [|intros Hs; split].
  - change ("/chat/community/" +:+ Invite.encodeURIComponent id) with ("/" +:+ "chat" +:+ "/" +:+ "community" +:+ "/" +:+ Invite.encodeURIComponent id).
    rewrite segments_three by (done || apply encoded_no_slash). unfold routes. rewrite Hc. by destruct (ft_insights _).
  - change ("/chat/dm/" +:+ id) with ("/" +:+ "chat" +:+ "/" +:+ "dm" +:+ "/" +:+ id).
    rewrite segments_three by done. unfold routes. rewrite Hc. by destruct (ft_insights _).
  - cbn [mbind option_bind]. change ("/circles/" +:+ id +:+ "/chat") with ("/" +:+ "circles" +:+ "/" +:+ id +:+ "/" +:+ "chat").
    rewrite segments_three by done. unfold routes. rewrite Hc. by destruct (ft_insights _).
Qed.
End router.
End Router.

(** ** [hooks/useBreakpoint.ts] and [hooks/useMediaQuery.ts] *)

Module MediaQuery.

(** A mounted hook follows the query; a change before the effect ran is missed by
    [useBreakpoint] and seen by [useMediaQuery], which reads the query again. *)
Record Hook : Type := mkHook { matches : bool; listening : bool }.

Definition initial (now : bool) : Hook := mkHook now false.
Definition effect_breakpoint (h : Hook) : Hook := mkHook (matches h) true.
Definition effect_media (now : bool) (h : Hook) : Hook := mkHook now true.
Definition changed (now : bool) (h : Hook) : Hook := if listening h then mkHook now true else h.

(** [{ layout }]: whether it is the desktop's *)
Definition desktop (h : Hook) : bool := negb (matches h).

(** Once it listens, the hook has the latest answer. *)
Lemma follows h changes : listening h = true →
  matches (fold_left (λ h now, changed now h) changes h) = default (matches h) (last changes).
Proof.
  revert h. induction changes as [|now changes IH]; intros h Hl; [done|]. cbn [fold_left].
  assert (changed now h = mkHook now true) as -> by (unfold changed; by rewrite Hl). rewrite IH by done. rewrite last_cons. by destruct (last changes).
Qed.

End MediaQuery.

(** ** [hooks/useActiveIdentity.ts] and the listeners of [signerService.ts] *)

Module IdentityHook.

(** The service holds the identity and the set of its listeners.  A component reads the
    identity when it renders ([shown]), and subscribes when the render is committed. *)
Record State : Type := mkState {
  current : ActiveIdentity; listeners : gset nat; shown : gmap nat ActiveIdentity
}.

Definition module_loaded (now : ActiveIdentity) : State := mkState now ∅ ∅.

(** [useSyncExternalStore]: the listener reads the snapshot again. *)
Definition listener (c : nat) (s : State) : State :=
  mkState (current s) (listeners s) (<[c := current s]> (shown s)).

(** [listeners.forEach(listener => listener(identity))] *)
Definition publish (next : ActiveIdentity) (s : State) : State :=
  set_fold listener (mkState next (listeners s) (shown s)) (listeners s).

Definition render (c : nat) (s : State) : State := listener c s.

Definition subscribeActiveIdentity (c : nat) (s : State) : State :=
  listener c (mkState (current s) ({[c]} ∪ listeners s) (shown s)).

(** The component is unmounted; what it unsubscribes is the function it was given. *)
Definition unsubscribe (c : nat) (s : State) : State :=
  mkState (current s) (listeners s ∖ {[c]}) (delete c (shown s)).

Inductive step : State → State → Prop :=
| step_publish s next : step s (publish next s)
| step_render s c : step s (render c s)
| step_subscribe s c : step s (subscribeActiveIdentity c s)
| step_unsubscribe s c : step s (unsubscribe c s).

Inductive reachable (now : ActiveIdentity) : State → Prop :=
| reach_load : reachable now (module_loaded now)
| reach_step s s' : reachable now s → step s s' → reachable now s'.

(** After its listeners were told, the service has the new identity, the same listeners,
    and each of them shows it; the others show what they did. *)
Lemma publish_tells next s :
  current (publish next s) = next ∧ listeners (publish next s) = listeners s ∧
  (∀ c, c ∈ listeners s → shown (publish next s) !! c = Some next) ∧
  (∀ c, c ∉ listeners s → shown (publish next s) !! c = shown s !! c).
Proof.
  unfold publish. apply (set_fold_ind_L (λ r X, current r = next ∧ listeners r = listeners s ∧
    (∀ c, c ∈ X → shown r !! c = Some next) ∧ (∀ c, c ∉ X → shown r !! c = shown s !! c))).
  - split_and!; [done|done|set_solver|done].
  - intros c X r Hc (Hcur & Hl & Hin & Hout). unfold listener. cbn [current listeners shown]. split_and!; [done..| |].
    + intros d Hd. destruct (decide (d = c)) as [->|Hne]; [by rewrite lookup_insert_eq, Hcur|].
      rewrite lookup_insert_ne by done. apply Hin. set_solver.
    + intros d Hd. rewrite lookup_insert_ne by set_solver. apply Hout. set_solver.
Qed.

(** Every component that listens shows the active identity, also when the identity changed
    between its rendering and its subscription. *)
Theorem subscribers_show_identity now s : reachable now s →
  ∀ c, c ∈ listeners s → shown s !! c = Some (current s).
Proof.
  induction 1 as [|s s' _ IH Hstep]; intros c Hc; [set_solver|]. inversion Hstep; subst; clear Hstep.
  - destruct (publish_tells next s) as (-> & Hl & Hin & _). rewrite Hl in Hc. by apply Hin.
  - cbn in *. destruct (decide (c = c0)) as [->|Hd]; [by rewrite lookup_insert_eq|]. rewrite lookup_insert_ne by done. by apply IH.
  - cbn in *. destruct (decide (c = c0)) as [->|Hd]; [by rewrite lookup_insert_eq|]. rewrite lookup_insert_ne by done. apply IH. set_solver.
  - cbn in *. rewrite lookup_delete_ne by set_solver. apply IH. set_solver.
Qed.

(** A component that was rendered but does not listen yet may show a former identity. *)
Lemma rendered_may_lag now next : ∃ s, reachable now s ∧ shown s !! 0 = Some now ∧ current s = next.
Proof.
  exists (publish next (render 0 (module_loaded now))).
  destruct (publish_tells next (render 0 (module_loaded now))) as (Hc & _ & _ & Hs).
  split_and!; [|rewrite Hs by (cbn; set_solver); apply lookup_insert_eq|done].
  eapply reach_step; [eapply reach_step; [apply reach_load|apply step_render]|apply step_publish].
Qed.
End IdentityHook.

(** ** [FieldLedger.tsx] *)

Module Ledger.

Record State : Type := mkState { open : bool; collapsed : bool }.
Definition initial : State := mkState false false.

(** The handle of the sheet, the rail and the button of the column *)
Definition toggle_open (s : State) : State := mkState (negb (open s)) (collapsed s).
Definition setCollapsed (v : bool) (s : State) : State := mkState (open s) v.

Definition hidden (mobile : bool) (s : State) : bool := if mobile then negb (open s) else collapsed s.

(** What the body shows: nothing, one record, or the list with its counts *)
Inductive Body : Type :=
| Nothing
| Detail (e : SafetyEvent)
| Listed (events : list SafetyEvent) (critical confirmed : nat).

Definition count_of (p : SafetyEvent → bool) (events : list SafetyEvent) : nat := length (List.filter p events).

Definition body (mobile : bool) (events : list SafetyEvent) (selected : option SafetyEvent) (s : State) : Body :=
  if hidden mobile s then Nothing
  else match selected with
       | Some e => Detail e
       | None => Listed events (count_of (λ e, String.eqb (ev_severity e) "CRITICAL") events)
                   (count_of (λ e, bool_decide (ev_trust_state e = Some confirmed)) events)
       end.

(** [IncidentDetail]: the area, the evidence and the sources of a record *)
Definition detail_area (e : SafetyEvent) : string :=
  match default None (ev_place_name e), default None (ev_county e) with
  | Some p, _ => p
  | None, Some c => c
  | None, None => "Mapped location"
  end.

(** On a phone the ledger starts as a closed sheet: an incident that is selected is not
    shown until the sheet is opened, and then it is. *)
Lemma selection_behind_sheet events e : body true events (Some e) initial = Nothing ∧
  body true events (Some e) (toggle_open initial) = Detail e ∧ body false events (Some e) initial = Detail e.
Proof. done. Qed.

(** The counts of the summary never exceed the list. *)
Lemma summary_bounds events critical confirmed mobile s shown : body mobile events None s = Listed shown critical confirmed →
  shown = events ∧ critical <= length events ∧ confirmed <= length events.
Proof.
  unfold body. destruct (hidden mobile s); [done|]. intros [= <- <- <-].
  split; [done|]. split; unfold count_of; apply List.filter_length_le.
Qed.
End Ledger.

(** ** [AcousticAlert.tsx] *)

Module AcousticPanel.
Import Acoustic.

(** [timer] is when the timer of the effect fires.  [since] is when the alert, as the panel
    shows it, began. *)
Record Panel : Type := mkPanel {
  mounted : bool; acoustic : AcousticState; timer : option Z; clock : Z; since : Z
}.

(** The effect of [detection], with the cleanup of the run before *)
Definition effect (p : Panel) : Panel :=
  mkPanel (mounted p) (acoustic p)
    (match mounted p, currentAlert (acoustic p) with true, Some _ => Some (clock p + 30000)%Z | _, _ => None end)
    (clock p) (clock p).

(** [dismiss]: the alert goes, and the panel closes. *)
Definition dismiss (p : Panel) : Panel := mkPanel false (alertDismissed (acoustic p)) None (clock p) (since p).

Inductive step (p : Panel) : Panel → Prop :=
| step_open : mounted p = false → step p (effect (mkPanel true (acoustic p) (timer p) (clock p) (since p)))
| step_detection d : step p (effect (mkPanel (mounted p) (detectionReceived d (clock p) (acoustic p)) (timer p) (clock p) (since p)))
| step_running b : step p (mkPanel (mounted p) ((if b : bool then detectionStarted else detectionStopped) (acoustic p)) (timer p) (clock p) (since p))
| step_dismiss : mounted p = true → is_Some (currentAlert (acoustic p)) → step p (dismiss p)
| step_stop : mounted p = true → currentAlert (acoustic p) = None → step p (mkPanel false (acoustic p) None (clock p) (since p))
| step_wait n : (0 <= n)%Z → (∀ t, timer p = Some t → clock p + n <= t)%Z →
    step p (mkPanel (mounted p) (acoustic p) (timer p) (clock p + n)%Z (since p))
| step_fire : timer p = Some (clock p) → step p (dismiss p).

Definition start (now : Z) : Panel := mkPanel false initialState None now now.

Inductive reachable : Panel → Prop :=
| reach_start now : reachable (start now)
| reach_step p p' : reachable p → step p p' → reachable p'.

(** The timer is set exactly while an alert is shown. *)
Definition timed (p : Panel) : Prop :=
  (since p <= clock p)%Z ∧
  match mounted p, currentAlert (acoustic p) with
  | true, Some _ => timer p = Some (since p + 30000)%Z ∧ (clock p <= since p + 30000)%Z
  | _, _ => timer p = None
  end.

Lemma timed_effect p : timed (effect p).
Proof. split; cbn; [lia|]. destruct (mounted p), (currentAlert (acoustic p)); try done. split; [done|lia]. Qed.

Lemma timed_step p p' : timed p → step p p' → timed p'.
Proof.
  intros [Hs Ht] Hstep. destruct Hstep as [_|d|b| | |n Hn Hw|Hf]; try apply timed_effect.
  - split; [exact Hs|]. by destruct b.
  - by split.
  - by split.
  - split; cbn; [lia|]. destruct (mounted p), (currentAlert (acoustic p)); try done.
    destruct Ht as [Ht _]. split; [done|]. by apply Hw.
  - by split.
Qed.

(** An alert is shown for thirty seconds at most: while it is, its timer is running, and the
    panel can always be brought to dismiss it by waiting; no timer is left without one. *)
Theorem alert_goes_in_time p : reachable p →
  match mounted p, currentAlert (acoustic p) with
  | true, Some _ => (clock p <= since p + 30000)%Z ∧
      ∃ p1 p2, step p p1 ∧ step p1 p2 ∧ (clock p2 = since p + 30000)%Z ∧ mounted p2 = false ∧ currentAlert (acoustic p2) = None
  | _, _ => timer p = None
  end.
Proof.
  intros Hr. assert (timed p) as [Hs Ht]. { induction Hr; [by split; [cbn; lia|]|by eapply timed_step]. }
  destruct (mounted p) eqn:Hm; [|done]. destruct (currentAlert (acoustic p)) as [d|] eqn:Ha; [|done].
  destruct Ht as [Ht Hle]. split; [done|]. eexists _, _. split; [apply (step_wait p (since p + 30000 - clock p)%Z)|].
  - lia.
  - intros t Ht'. rewrite Ht in Ht'. injection Ht' as <-. lia.
  - split; [apply step_fire; cbn; rewrite Ht; f_equal; lia|]. split_and!; [cbn; lia|done..].
Qed.
End AcousticPanel.

(** ** [MapOverlayHost.tsx] *)

Module Overlay.
Import Ui.

(** The overlay of the host, and the slice that carries the intents *)
Record Host : Type := mkHost { overlay : option IntentName; ui : UiState }.

(** The effect: an intent is shown and consumed. *)
Definition effect (h : Host) : Host :=
  match name (uiIntent (ui h)) with
  | Some n => mkHost (Some n) (consumeOverlayIntent (ui h))
  | None => h
  end.

(** The close button of each overlay *)
Definition close (h : Host) : Host :=
  match overlay h with
  | Some IntentRoutes => mkHost None (safeRoutesCleared (ui h))
  | Some _ => mkHost None (ui h)
  | None => h
  end.

Definition dispatched (a : Ui.action) (h : Host) : Host := mkHost (overlay h) (Ui.dispatch (ui h) a).

(** Each intent is shown once: the overlay is that of the intent, the intent is gone, and the
    effect has nothing more to do, so that a closed overlay stays closed. *)
Theorem intent_shown_once n h :
  let h1 := effect (dispatched (SetOverlayIntent n) h) in
  overlay h1 = Some n ∧ name (uiIntent (ui h1)) = None ∧ effect h1 = h1 ∧ overlay (effect (close h1)) = None.
Proof. cbv zeta. split_and!; [done..|]. by destruct n. Qed.

(** Closing the escape routes clears their lines; another overlay in their place does not,
    and its button leaves them. *)
Lemma replaced_routes_stay rs n h : n ≠ IntentRoutes →
  safeRoutes (ui (close (effect (dispatched (SetOverlayIntent n)
    (effect (dispatched (SetOverlayIntent IntentRoutes) (dispatched (SafeRoutesSet rs) h))))))) = rs.
Proof. by destruct n. Qed.
End Overlay.

(** ** [MapFeatureStrip.tsx] *)

Module FeatureStrip.

Inductive Card : Type := OnReport | OnCircles | OnAcoustic | OnRoutes | OnHomeRoute.

#[export] Instance Card_eq_dec : EqDecision Card.
Proof. solve_decision. Defined.

Definition cards `{Web.Page} : list Card :=
  [OnReport; OnCircles] ++ (if ft_acoustic experimentalFeatures then [OnAcoustic] else []) ++
  (if ft_routing experimentalFeatures then [OnRoutes; OnHomeRoute] else []).

(** An experimental card is there in the builds that enable it only. *)
Lemma experimental_cards `{Web.Page} c : c ∈ cards → c ≠ OnReport → c ≠ OnCircles →
  if decide (c = OnAcoustic) then ft_acoustic experimentalFeatures = true else ft_routing experimentalFeatures = true.
Proof.
  unfold cards. destruct (ft_acoustic _), (ft_routing _); cbn; intros Hc H1 H2; destruct (decide _); try done; set_solver.
Qed.
End FeatureStrip.

(** ** Labels: [MemberChip.tsx], [AlertBanner.tsx], [ProximityAlertLog.tsx],
    [chat/MessageList.tsx], [VerificationBadges.tsx] and the bell of [shell/Header.tsx] *)

Module Labels.

Definition truncated (pubkey : string) : string :=
  if (10 <? str_length pubkey)%Z then str_slice 0 8 pubkey +:+ "…" else pubkey.

Section npub.
Context `{Nip19}.

Definition senderLabel (pubkey : string) : string := str_slice 0 16 (NostrIdentity.toNpub pubkey) +:+ "…".
End npub.

Definition badge_link (nostrEventId : option string) : option string :=
  match nostrEventId with Some i => if truthy i then Some ("https://njump.me/" +:+ i) else None | None => None end.

(** The number on the bell, if there is one *)
Definition bell (s : Events.EventsState) : option string :=
  let activeCount := length (List.filter ev_is_active (Events.items s)) in
  if (0 <? activeCount)%nat then Some (if (99 <? activeCount)%nat then "99+" else string_of_Z (Z.of_nat activeCount)) else None.

Definition network_state (s : Events.EventsState) : string := if Events.connected s then "Network live" else "Reconnecting".

(** A key is never shown in full. *)
Lemma key_is_cut pubkey : is_lower_hex64 pubkey = true → ∃ rest, truncated pubkey = str_take 8 pubkey +:+ "…" ∧
  pubkey = str_take 8 pubkey +:+ rest ∧ String.length rest = 56.
Proof.
  intros Hk. pose proof (lower_hex64_length pubkey Hk) as Hl. exists (str_drop 8 pubkey).
  unfold truncated, str_length. rewrite Hl. split; [done|].
  do 8 (destruct pubkey as [|? pubkey]; [done|]). cbn in Hl |- *. split; [by destruct pubkey|]. by injection Hl.
Qed.
End Labels.

(** ** [InviteModal.tsx] and the sheet of [ReportsPage.tsx] *)

Module InviteModal.

(** [timers] counts the timers that take the mark back. *)
Record Modal : Type := mkModal { copied : bool; timers : nat }.

Definition copy (written : bool) (m : Modal) : Modal := if written then mkModal true (S (timers m)) else m.
Definition fade (m : Modal) : Modal := match timers m with 0 => m | S n => mkModal false n end.

Inductive reachable : Modal → Prop :=
| reach_open : reachable (mkModal false 0)
| reach_copy w m : reachable m → reachable (copy w m)
| reach_fade m : reachable m → reachable (fade m).

(** The mark is not shown for good: while it is shown, a timer will take it back. *)
Lemma mark_fades m : reachable m → copied m = true → 0 < timers m.
Proof.
  induction 1 as [|w m _ IH|m _ IH]; [done|destruct w; cbn; [lia|exact IH]|].
  unfold fade. destruct (timers m) as [|n] eqn:E; [rewrite E; exact IH|done].
Qed.
End InviteModal.

Module ReportSheet.

(** [mobileFormOpen], and what [onClose] of the form does in a layout: on the desktop nothing *)
Definition form_shown (desktop mobileFormOpen : bool) : bool := desktop || mobileFormOpen.
Definition add_report (mobileFormOpen : bool) : bool := true.
Definition onClose (desktop mobileFormOpen : bool) : bool := if desktop then mobileFormOpen else false.
End ReportSheet.
