(* ===== verification/Photos.v ===== *)
(** * Photos of reports: [services/photoService.ts] and their use in
    [components/ReportSubmit.tsx]

    A photo is scaled down and encoded again, the faces found in it are pixelated, and
    what is left is uploaded.  A picture is the term of the drawing calls that make it;
    decoding, encoding and the detection of faces are browser and library operations
    ([Imaging], [Detector]).  [getContext] may return [null], and [load] may reject. *)

From Stdlib Require Import Ascii QArith Qround Qabs Lqa Lia.
From S2P Require Import Prelude JsNumber JsString JsStringFacts JsCollection Json.
From S2P Require Import SharedTypes Nostr CryptoModel Platform IdentityStore NostrIdentity.
From S2P Require Import BunkerStore Signer CircleLocation NostrAuth EventsSlice SmallSlices Web Api Reports.
Close Scope Q_scope.

Module Photos.

(** ** Pictures *)

Record Rect : Type := mkRect { left : num; top : num; rwidth : num; rheight : num }.

(** An empty canvas, a decoded bitmap, or a canvas with one more
    [drawImage(src, from, to)], smoothed or not *)
Inductive Picture (B : Type) : Type :=
| Blank (w h : Z)
| Pixels (b : B)
| Draw (onto src : Picture B) (from to : Rect) (smooth : bool).
Arguments Blank {B} _ _.
Arguments Pixels {B} _.
Arguments Draw {B} _ _ _ _ _.

Class Bitmaps (B : Type) := { bm_width : B → Z; bm_height : B → Z }.

Fixpoint size {B} `{Bitmaps B} (p : Picture B) : Z * Z :=
  match p with
  | Blank w h => (w, h)
  | Pixels b => (bm_width b, bm_height b)
  | Draw onto _ _ _ _ => size onto
  end.

(** The decoder and the JPEG encoder of the browser: a picture with an empty side is not
    encoded, and an encoded picture keeps its size. *)
Class Imaging (B : Type) `{Bitmaps B} := {
  createImageBitmap : string → outcome B;
  toBlob : Picture B → option string;
  bitmap_sides file b : createImageBitmap file = Ok b → (0 < bm_width b ∧ 0 < bm_height b)%Z;
  empty_not_encoded p : (size p).1 = 0%Z ∨ (size p).2 = 0%Z → toBlob p = None;
  encoded_size p blob b : toBlob p = Some blob → createImageBitmap blob = Ok b →
    (bm_width b, bm_height b) = size p
}.

(** A box around a face, as the detector returns it: its top left and bottom right corners *)
Record Face : Type := mkFace { x : num; y : num; x2 : num; y2 : num }.

(** [estimateFaces], which may reject *)
Definition Detector (B : Type) : Type := Picture B → outcome (list Face).

(** Whether [getContext('2d')] succeeds: for the canvas that scales, for the canvas of the
    report, and for the canvas of each face *)
Record Contexts : Type := mkContexts { scaling : bool; drawing : bool; face_ctx : nat → bool }.

Definition MAX_DIMENSION : num := int 800.
Definition BLUR_SCALE : num := lit 5 100.

Section photos.
Context {B : Type} `{Imaging B}.
Local Open Scope num_scope.

(** ** [compressAndStrip] *)

Definition scale (w h : Z) : num := num_min (int 1) (MAX_DIMENSION / num_max (int w) (int h)).

Definition scaled (w h : Z) : num * num :=
  (num_round (int w * scale w h), num_round (int h * scale w h)).

Definition whole (p : Picture B) : Rect := mkRect (int 0) (int 0) (int (size p).1) (int (size p).2).

(** [drawImage(src, 0, 0, w, h)] on an empty canvas of that size *)
Definition drawn (src : Picture B) (w h : num) : Picture B :=
  Draw (Blank (to_Z w) (to_Z h)) src (whole src) (mkRect (int 0) (int 0) w h) true.

Definition encode (msg : string) (p : Picture B) : outcome string :=
  match toBlob p with Some blob => Ok blob | None => Throw msg end.

Definition compressAndStrip (ctx : bool) (file : string) : outcome string :=
  bitmap ← createImageBitmap file;
  let '(w, h) := scaled (bm_width bitmap) (bm_height bitmap) in
  if ctx then encode "canvas.toBlob returned null" (drawn (Pixels bitmap) w h)
  else Throw "Could not get 2D context".

(** ** [blurFaces] *)

(** The model is loaded once, and kept. *)
Definition getFaceModel (load : outcome (Detector B)) : prog (option (Detector B)) (Detector B) :=
  faceModel ← gets (λ m, m);
  match faceModel with
  | Some model => mret model
  | None => model ← lift_outcome load; _ ← modify (λ _, Some model); mret model
  end.

Definition samples (side : num) : num := num_max (int 1) (num_round (side * BLUR_SCALE)).

Definition face_rect (f : Face) : Rect := mkRect (x f) (y f) (x2 f - x f) (y2 f - y f).

(** The region drawn to a canvas of a few pixels *)
Definition sampled (canvas : Picture B) (f : Face) : Picture B :=
  let tw := samples (rwidth (face_rect f)) in
  let th := samples (rheight (face_rect f)) in
  Draw (Blank (to_Z tw) (to_Z th)) canvas (face_rect f) (mkRect (int 0) (int 0) tw th) true.

(** [for (const pred of predictions)]: [i] faces were seen before. *)
Fixpoint pixelate (tmpCtx : nat → bool) (i : nat) (predictions : list Face) (canvas : Picture B) : Picture B :=
  match predictions with
  | [] => canvas
  | pred :: predictions =>
      pixelate tmpCtx (S i) predictions
        (if tmpCtx i then
           let tmp := sampled canvas pred in Draw canvas tmp (whole tmp) (face_rect pred) false
         else canvas)
  end.

Definition blurFaces (load : outcome (Detector B)) (ctx : bool) (tmpCtx : nat → bool)
    (canvas : Picture B) : prog (option (Detector B)) (Picture B) :=
  model ← getFaceModel load;
  predictions ← lift_outcome (model canvas);
  match predictions with
  | [] => mret canvas
  | _ => if ctx then mret (pixelate tmpCtx 0 predictions canvas) else mret canvas
  end.

(** ** The photo of a report *)

Definition report_canvas (ctx : bool) (img : B) : Picture B :=
  if ctx then drawn (Pixels img) (int (bm_width img)) (int (bm_height img))
  else Blank (bm_width img) (bm_height img).

Definition finalBlob (load : outcome (Detector B)) (c : Contexts) (file : string) :
    prog (option (Detector B)) string :=
  compressed ← lift_outcome (compressAndStrip (scaling c) file);
  img ← lift_outcome (createImageBitmap compressed);
  canvas ← blurFaces load (drawing c) (face_ctx c) (report_canvas (drawing c) img);
  lift_outcome (encode "toBlob null" canvas).

(** The form is given the photo as a program of the device. *)
Definition processed_photo (cached : option (Detector B)) (load : outcome (Detector B)) (c : Contexts)
    (file : string) : prog World string :=
  λ w, ((finalBlob load c file cached).1, w).

End photos.

(** ** Sizes *)

Section sizes.
Local Open Scope Z_scope.

Lemma num_max_int a b : num_max (int a) (int b) = int (Z.max a b).
Proof. unfold num_max. rewrite int_lt. cbn. destruct (Z.ltb_spec a b); f_equal; f_equal; lia. Qed.

Lemma div_int a b : 0 < b → num_div (int a) (int b) = rnd (inject_Z a / inject_Z b)%Q.
Proof.
  intros Hb. unfold num_div, int. destruct (Qeq_bool (inject_Z b) 0) eqn:E; [|done].
  apply Qeq_bool_iff in E. unfold Qeq, inject_Z in E. simpl in E. lia.
Qed.

(** A picture that fits is not scaled. *)
Lemma scale_fits m : 1 <= m <= 800 → num_min (int 1) (num_div MAX_DIMENSION (int m)) = int 1.
Proof.
  intros Hm. unfold MAX_DIMENSION. rewrite div_int by lia.
  destruct (rnd_between 1 800 (inject_Z 800 / inject_Z m)) as (r & -> & Hr & _).
  - done.
  - apply Qle_shift_div_l; [by rewrite <-(Zlt_Qlt 0); lia|]. rewrite <-inject_Z_mult, <-Zle_Qle. lia.
  - apply Qle_shift_div_r; [by rewrite <-(Zlt_Qlt 0); lia|]. rewrite <-inject_Z_mult, <-Zle_Qle. lia.
  - unfold num_min, int. destruct (num_lt (Fin r) _) eqn:E; [|done].
    apply num_lt_fin in E. exfalso. eapply Qlt_not_le; eassumption.
Qed.

(** A larger picture is scaled by [800 / m], but for less than [2^-40]. *)
Lemma scale_large m : 800 < m → ∃ r,
  num_min (int 1) (num_div MAX_DIMENSION (int m)) = Fin r ∧ (0 <= r <= 1)%Q ∧
  (inject_Z 800 / inject_Z m - (1 # 2 ^ 40) <= r <= inject_Z 800 / inject_Z m + (1 # 2 ^ 40))%Q.
Proof.
  intros Hm. unfold MAX_DIMENSION. rewrite div_int by lia. set (q := (inject_Z 800 / inject_Z m)%Q).
  assert (0 < inject_Z m)%Q as Hm0 by (rewrite <-(Zlt_Qlt 0); lia).
  assert (0 <= q)%Q as Hq0.
  { apply Qle_shift_div_l; [done|]. change (inject_Z 0) with 0%Q. rewrite Qmult_0_l. by rewrite <-(Zle_Qle 0). }
  assert (q <= 800 # 801)%Q as Hq1.
  { apply Qle_shift_div_r; [done|]. unfold Qle, Qmult, inject_Z. simpl. lia. }
  destruct (rnd_near q) as (r & Hr & Hlo & Hhi).
  { change (inject_Z (2 ^ 10)) with (1024 # 1)%Q. rewrite Qabs_pos by done. lra. }
  destruct (rnd_between 0 1 q) as (r' & Hr' & H0 & H1); [done|done|change (inject_Z 1) with 1%Q; lra|].
  rewrite Hr in Hr'. injection Hr' as <-. rewrite Hr. exists r.
  change (1 # 2 ^ 40)%Q with (1 # 1099511627776)%Q in *. change (inject_Z 0) with 0%Q in *.
  change (inject_Z 1) with 1%Q in *. split_and!; [|done..].
  unfold num_min, int. destruct (num_lt (Fin r) _) eqn:E; [done|]. exfalso.
  assert (r < 1)%Q as Hlt by lra. apply (num_lt_fin r (inject_Z 1)) in Hlt. congruence.
Qed.

(** The side [x] of a picture whose longer side is [m], scaled *)
Definition side_scaled_to (m x z : Z) : Prop :=
  num_round (num_mul (int x) (num_min (int 1) (num_div MAX_DIMENSION (int m)))) = int z ∧
  0 <= z <= x ∧ z <= 800 ∧ (x = m ∨ m <= 800 → z = Z.min 800 x).

Lemma side_fits m x : 1 <= x <= m → m <= 800 → side_scaled_to m x x.
Proof.
  intros Hx Hm. unfold side_scaled_to. rewrite scale_fits by lia.
  rewrite int_mul by (apply Z.leb_le; unfold max_safe; lia). rewrite Z.mul_1_r. split_and!; [|lia..].
  destruct (between_round x x (int x) (between_int x)) as (z & -> & Hz). f_equal. f_equal. lia.
Qed.

Lemma side_large m x : 1 <= x <= m → 800 < m <= 65535 → ∃ z, side_scaled_to m x z.
Proof.
  intros Hx [Hlarge Hm]. unfold side_scaled_to. destruct (scale_large m Hlarge) as (r & -> & [Hr0 Hr1] & Hlo & Hhi).
  assert (0 < inject_Z m)%Q as Hm0 by (rewrite <-(Zlt_Qlt 0); lia).
  assert (inject_Z m <= 65535 # 1)%Q as Hm1 by (unfold Qle, inject_Z; simpl; lia).
  assert (1 <= inject_Z x)%Q as Hx0 by (rewrite <-(Zle_Qle 1); lia).
  assert (inject_Z x <= inject_Z m)%Q as Hx1 by (rewrite <-Zle_Qle; lia).
  change (1 # 2 ^ 40)%Q with (1 # 1099511627776)%Q in *. set (k := (inject_Z 800 / inject_Z m)%Q) in *.
  assert (k * inject_Z m == 800 # 1)%Q as Hk.
  { unfold k, Qdiv. rewrite <-Qmult_assoc, (Qmult_comm (/ _)), Qmult_inv_r, Qmult_1_r; [done|].
    intros E. rewrite E in Hm0. by apply Qlt_irrefl in Hm0. }
  assert (inject_Z x * r <= (800 # 1) + (1 # 1024))%Q as Hup by nra.
  assert (0 <= inject_Z x * r)%Q as Hpos by nra.
  cbn [num_mul int]. destruct (rnd_near (inject_Z x * r)) as (y & Hy & Hya & Hyb).
  { rewrite Qabs_pos by done. change (inject_Z (2 ^ 10)) with (1024 # 1)%Q. lra. }
  destruct (between_round 0 x (rnd (inject_Z x * r))) as (z & Hz & Hzx).
  { apply rnd_between; [split_and!; lia|done|]. nra. }
  exists z. split; [done|]. split; [done|].
  rewrite Hy in Hz. cbn [num_round] in Hz. apply (f_equal to_Z) in Hz. rewrite !int_to_Z in Hz.
  change (1 # 2 ^ 40)%Q with (1 # 1099511627776)%Q in *.
  pose proof (Qlt_floor (y + (1 # 2))) as Hf1. pose proof (Qfloor_le (y + (1 # 2))) as Hf2.
  rewrite Hz in Hf1, Hf2. rewrite inject_Z_plus in Hf1. change (inject_Z 1) with 1%Q in Hf1.
  assert (z <= 800) as Hz800.
  { apply Z.lt_succ_r. rewrite Zlt_Qlt. change (inject_Z (Z.succ 800)) with (801 # 1)%Q. lra. }
  split; [done|]. intros [->|]; [|lia]. rewrite Z.min_l by lia. apply Z.le_antisymm; [done|].
  apply Z.lt_succ_r. rewrite Zlt_Qlt. unfold Z.succ. rewrite inject_Z_plus.
  change (inject_Z 800) with (800 # 1)%Q. change (inject_Z 1) with 1%Q.
  assert ((800 # 1) - (1 # 1024) <= inject_Z m * r)%Q by nra. lra.
Qed.

Lemma side_scaled m x : 1 <= x <= m → m <= 65535 → ∃ z, side_scaled_to m x z.
Proof.
  intros Hx Hm. destruct (Z.le_gt_cases m 800); [exists x; by apply side_fits|by apply side_large].
Qed.
End sizes.

(** ** What is uploaded *)

Section uploaded.
Context {B : Type} `{Imaging B}.

(** The box has an extent, and no more than a scaled photo has. *)
Definition in_photo (f : Face) : Prop :=
  num_between 0 800 (rwidth (face_rect f)) ∧ num_between 0 800 (rheight (face_rect f)).

Lemma few_samples side : num_between 0 800 side → ∃ z, samples side = int z ∧ (1 <= z <= 41)%Z.
Proof.
  intros (q & -> & Hq0 & Hq1). unfold samples, BLUR_SCALE, lit.
  destruct (rnd_near (5 # 100)) as (r & -> & Hlo & Hhi); [done|].
  change (1 # 2 ^ 40)%Q with (1 # 1099511627776)%Q in *.
  change (inject_Z 0) with 0%Q in *. change (inject_Z 800) with (800 # 1)%Q in *.
  destruct (between_round 0 41 (rnd (q * r))) as (z & Hz & Hb).
  { apply rnd_between; [done|..].
    - change (inject_Z 0) with 0%Q. nra.
    - change (inject_Z 41) with (41 # 1)%Q. nra. }
  cbn [num_mul]. rewrite Hz, num_max_int. exists (Z.max 1 z). split; [done|lia].
Qed.

Lemma size_drawn (src : Picture B) w h : size (drawn src (int w) (int h)) = (w, h).
Proof. unfold drawn. cbn [size]. by rewrite !int_to_Z. Qed.

Lemma size_pixelate tmpCtx i faces canvas : size (pixelate tmpCtx i faces canvas) = size canvas.
Proof. revert i canvas. induction faces as [|f faces IH]; intros i canvas; simpl; [done|]. rewrite IH. by case_match. Qed.

(** [result] is [canvas] with the boxes [boxes] drawn over, one after the other and nothing
    else: each is covered, without smoothing, by a small picture of what was in it, with
    between one and [n] samples each way for a box no larger than a scaled photo. *)
Inductive covered (n : Z) (canvas : Picture B) : list Face → Picture B → Prop :=
| covered_none : covered n canvas [] canvas
| covered_box boxes before box tw th :
    covered n canvas boxes before →
    (in_photo box → ∃ w h, tw = int w ∧ th = int h ∧ 1 <= w <= n ∧ 1 <= h <= n)%Z →
    covered n canvas (boxes ++ [box])
      (Draw before
        (Draw (Blank (to_Z tw) (to_Z th)) before (face_rect box) (mkRect (int 0) (int 0) tw th) true)
        (mkRect (int 0) (int 0) (int (to_Z tw)) (int (to_Z th))) (face_rect box) false).

(** The faces whose canvas could be had *)
Fixpoint drawn_over (tmpCtx : nat → bool) (i : nat) (faces : list Face) : list Face :=
  match faces with
  | [] => []
  | f :: faces => if tmpCtx i then f :: drawn_over tmpCtx (S i) faces else drawn_over tmpCtx (S i) faces
  end.

Lemma drawn_over_all tmpCtx i faces : (∀ i, tmpCtx i = true) → drawn_over tmpCtx i faces = faces.
Proof. intros Hctx. revert i. induction faces as [|f faces IH]; intros i; simpl; [done|]. by rewrite Hctx, IH. Qed.

Lemma pixelate_covers tmpCtx canvas boxes : ∀ faces i before,
  covered 41 canvas boxes before →
  covered 41 canvas (boxes ++ drawn_over tmpCtx i faces) (pixelate tmpCtx i faces before).
Proof.
  intros faces. revert boxes. induction faces as [|f faces IH]; intros boxes i before Hb; simpl; [by rewrite app_nil_r|].
  destruct (tmpCtx i); [|by apply IH].
  change (f :: drawn_over tmpCtx (S i) faces) with ([f] ++ drawn_over tmpCtx (S i) faces).
  rewrite (assoc_L (++)). apply IH. unfold sampled, whole. cbn [size fst snd]. apply covered_box; [done|].
  intros [(w & Hw & Hw1)%few_samples (h & Hh & Hh1)%few_samples]. by exists w, h.
Qed.

Lemma pixelate_none tmpCtx i faces canvas :
  (∀ i, tmpCtx i = false) → pixelate tmpCtx i faces canvas = canvas.
Proof. intros Hctx. revert i. induction faces as [|f faces IH]; intros i; simpl; [done|]. by rewrite Hctx, IH. Qed.

(** A photo leaves [compressAndStrip] no larger than it was and no side longer than 800;
    its longer side is 800 or what it was. *)
Definition fits (before after : Z * Z) : Prop :=
  (after.1 <= before.1 ∧ after.2 <= before.2)%Z ∧
  Z.max after.1 after.2 = Z.min 800 (Z.max before.1 before.2).

Lemma scaled_fits w h : (1 <= w <= 65535)%Z → (1 <= h <= 65535)%Z →
  ∃ w' h', scaled w h = (int w', int h') ∧ fits (w, h) (w', h').
Proof.
  intros Hw Hh. destruct (side_scaled (Z.max w h) w) as (w' & Hw' & ?); [lia..|].
  destruct (side_scaled (Z.max w h) h) as (h' & Hh' & ?); [lia..|].
  exists w', h'. unfold scaled, scale. rewrite !num_max_int, Hw', Hh'.
  split; [done|]. unfold fits. cbn [fst snd]. lia.
Qed.

Lemma encode_inv msg (p : Picture B) blob : encode msg p = Ok blob → toBlob p = Some blob.
Proof. unfold encode. destruct (toBlob p); [by intros [= ->]|done]. Qed.

(** [src] drawn over the whole of a canvas of [w] by [h] pixels *)
Definition filled (src : Picture B) (sw sh w h : Z) : Picture B :=
  Draw (Blank w h) src (mkRect (int 0) (int 0) (int sw) (int sh)) (mkRect (int 0) (int 0) (int w) (int h)) true.

(** No side of the chosen photo is longer than a JPEG's can be. *)
Definition within_limits (file : string) : Prop := ∀ photo : B,
  createImageBitmap file = Ok photo → (bm_width photo <= 65535 ∧ bm_height photo <= 65535)%Z.

Lemma compress_inv ctx file blob : within_limits file → compressAndStrip ctx file = Ok blob →
  ∃ (photo : B) w h, createImageBitmap file = Ok photo ∧ fits (bm_width photo, bm_height photo) (w, h) ∧
    toBlob (filled (Pixels photo) (bm_width photo) (bm_height photo) w h) = Some blob.
Proof.
  intros Hlim. unfold compressAndStrip. destruct (createImageBitmap file) as [photo|] eqn:Hphoto; [|done]. intros Hrun.
  pose proof (bitmap_sides _ _ Hphoto) as [Hw0 Hh0]. destruct (Hlim _ Hphoto) as [Hw Hh].
  destruct (scaled_fits (bm_width photo) (bm_height photo)) as (w' & h' & Hs & Hfit); [lia..|].
  unfold mbind, outcome_bind in Hrun. rewrite Hs in Hrun. destruct ctx; [|done]. apply encode_inv in Hrun.
  exists photo, w', h'. split; [done|]. split; [done|]. revert Hrun. unfold drawn, filled. by rewrite !int_to_Z.
Qed.

(** The model that is used is the one that was loaded first; it is kept. *)
Lemma getFaceModel_inv load cached (model : Detector B) cached' :
  getFaceModel load cached = (Ok model, cached') →
  (cached = Some model ∨ cached = None ∧ load = Ok model) ∧ cached' = Some model.
Proof.
  unfold getFaceModel, gets, modify, lift_outcome, mbind, prog_bind, mret, prog_ret.
  destruct cached as [m|]; [|destruct load as [m|e]]; intros Hrun; [injection Hrun as <- <-..|done].
  - by split; [left|].
  - by split; [right|].
Qed.

Lemma blur_inv load ctx tmpCtx (canvas : Picture B) cached result cached' :
  blurFaces load ctx tmpCtx canvas cached = (Ok result, cached') →
  ∃ model faces, (cached = Some model ∨ cached = None ∧ load = Ok model) ∧ cached' = Some model ∧
    model canvas = Ok faces ∧ result = if ctx then pixelate tmpCtx 0 faces canvas else canvas.
Proof.
  intros Hrun. unfold blurFaces in Hrun. run_inv Hrun. run_inv Hrun.
  apply getFaceModel_inv in Hrun0 as [Ha ->]. unfold lift_outcome in Hrun1. injection Hrun1 as Hm <-.
  exists a, a0. split; [done|]. destruct a0, ctx; injection Hrun as <- <-; done.
Qed.

(** What a photo becomes, when [cached] or [load] gives the detector *)
Lemma finalBlob_inv load c file cached blob cached' : within_limits file →
  finalBlob load c file cached = (Ok blob, cached') →
  ∃ (photo img : B) pw ph small model faces,
    createImageBitmap file = Ok photo ∧ fits (bm_width photo, bm_height photo) (pw, ph) ∧
    toBlob (filled (Pixels photo) (bm_width photo) (bm_height photo) pw ph) = Some small ∧
    createImageBitmap small = Ok img ∧
    (cached = Some model ∨ cached = None ∧ load = Ok model) ∧ cached' = Some model ∧
    let canvas := if drawing c then filled (Pixels img) pw ph pw ph else Blank pw ph in
    model canvas = Ok faces ∧
    toBlob (if drawing c then pixelate (face_ctx c) 0 faces canvas else canvas) = Some blob.
Proof.
  intros Hlim Hrun. unfold finalBlob in Hrun. run_inv Hrun. run_inv Hrun. run_inv Hrun.
  unfold lift_outcome in Hrun, Hrun0, Hrun1. injection Hrun as Hblob <-. injection Hrun0 as Ha <-.
  injection Hrun1 as Himg <-. apply encode_inv in Hblob.
  apply compress_inv in Ha as (photo & pw & ph & Hphoto & Hfit & Hsmall); [|done].
  apply blur_inv in Hrun2 as (model & faces & Hmodel & -> & Hfaces & Hresult). rewrite Hresult in Hblob.
  pose proof (encoded_size _ _ _ Hsmall Himg) as Hsize. cbn [filled size] in Hsize. injection Hsize as Hpw Hph.
  exists photo, a0, pw, ph, a, model, faces.
  assert (report_canvas (drawing c) a0 = if drawing c then filled (Pixels a0) pw ph pw ph else Blank pw ph) as Hcanvas.
  { unfold report_canvas, drawn, whole, filled. cbn [size fst snd]. by rewrite !int_to_Z, Hpw, Hph. }
  rewrite <-Hcanvas. split_and!; done.
Qed.
End uploaded.
(** ** The photo of a report that is submitted *)

Section report_photo.
Context {B : Type} `{Imaging B, Aes, Sha256, Random, NostrTools, UrlParser, Extension, Bunkers, Fetch, Page}.

(** Only the pixels of the file count: what else is in it (position, device, time) does not
    reach the gateway. *)
Lemma only_pixels_count cached load c file file' :
  createImageBitmap file = createImageBitmap file' →
  ReportPage.photo_cid (Some (processed_photo cached load c file)) =
  ReportPage.photo_cid (Some (processed_photo cached load c file')).
Proof.
  intros Hsame. assert (finalBlob load c file = finalBlob load c file') as Hb.
  { unfold finalBlob, compressAndStrip. by rewrite Hsame. }
  unfold processed_photo. by rewrite Hb.
Qed.

Lemma photo_cid_inv cached load c file w cid w' :
  ReportPage.photo_cid (Some (processed_photo cached load c file)) w = (Ok (Some cid), w') →
  ∃ blob, finalBlob load c file cached = (Ok blob, (finalBlob load c file cached).2) ∧
    Submissions.uploadToIPFS blob w = (Ok (Some cid), w').
Proof.
  unfold ReportPage.photo_cid. destruct (ft_photos _); [|done].
  unfold try_catch, mbind, prog_bind, processed_photo.
  destruct (finalBlob load c file cached) as [[blob|e] m]; cbn [fst snd]; [|done]. intros Hrun. exists blob.
  split; [done|]. destruct (Submissions.uploadToIPFS blob w) as [[r|e] w1]; [by injection Hrun as -> ->|done].
Qed.

(** C35: What is uploaded with a report is the JPEG of the scaled photo with the faces covered.
    The chosen photo, of at most 65535 pixels a side, is scaled (no larger than it was, its
    longer side 800 pixels or unchanged), encoded and decoded; the detector is asked about
    this picture; and the uploaded picture is this one with a box drawn over for each face
    that it found, in order and with nothing else: a copy of the box at one to 41 samples
    each way (for a box no larger than the photo), enlarged without smoothing.  A face is
    left out when its small canvas has no 2D context; with every context, none is.  With no
    context for the photo itself, the picture is blank. *)
Theorem uploaded_photo_hides_faces cached load c file w cid w' : within_limits file →
  ReportPage.photo_cid (Some (processed_photo cached load c file)) w = (Ok (Some cid), w') →
  ∃ blob (photo img : B) pw ph small model faces result,
    createImageBitmap file = Ok photo ∧ fits (bm_width photo, bm_height photo) (pw, ph) ∧
    toBlob (filled (Pixels photo) (bm_width photo) (bm_height photo) pw ph) = Some small ∧
    createImageBitmap small = Ok img ∧
    (cached = Some model ∨ cached = None ∧ load = Ok model) ∧
    (if drawing c then
       model (filled (Pixels img) pw ph pw ph) = Ok faces ∧
       covered 41 (filled (Pixels img) pw ph pw ph) (drawn_over (face_ctx c) 0 faces) result ∧
       ((∀ i, face_ctx c i = true) → drawn_over (face_ctx c) 0 faces = faces)
     else result = Blank pw ph) ∧
    toBlob result = Some blob ∧ Submissions.uploadToIPFS blob w = (Ok (Some cid), w').
Proof.
  intros Hlim (blob & Hblob & Hup)%photo_cid_inv.
  apply finalBlob_inv in Hblob as (photo & img & pw & ph & small & model & faces & Hphoto & Hfit & Hsmall & Himg & Hmodel & _ & Hf & Hb);
    [|done].
  eexists blob, photo, img, pw, ph, small, model, faces, _. split_and!; [done..| |exact Hb|done].
  destruct (drawing c); [|done]. split_and!; [done|by apply (pixelate_covers _ _ []), covered_none|by apply drawn_over_all].
Qed.

(** When a canvas for a face cannot be had, its face is skipped and the photo is uploaded
    all the same: with none, the photo is uploaded with every face visible. *)
Theorem missing_context_shows_faces cached load c file blob cached' : within_limits file →
  finalBlob load c file cached = (Ok blob, cached') → drawing c = true → (∀ i, face_ctx c i = false) →
  ∃ (img : B) pw ph, toBlob (filled (Pixels img) pw ph pw ph) = Some blob.
Proof.
  intros Hlim Hblob Hdraw Hctx.
  apply finalBlob_inv in Hblob as (photo & img & pw & ph & small & model & faces & _ & _ & _ & _ & _ & _ & _ & Hb); [|done].
  rewrite Hdraw, pixelate_none in Hb by done. by exists img, pw, ph.
Qed.

(** A photo whose shorter side rounds to nothing cannot be encoded, and is left out. *)
Lemma thin_photo_left_out ctx file (b : B) :
  createImageBitmap file = Ok b → bm_width b = 2000%Z → bm_height b = 1%Z →
  compressAndStrip ctx file =
  Throw (if ctx then "canvas.toBlob returned null" else "Could not get 2D context").
Proof.
  intros Hb Hw Hh. unfold compressAndStrip, mbind, outcome_bind. rewrite Hb, Hw, Hh.
  assert (scaled 2000 1 = (int 800, int 0)) as -> by (vm_compute; reflexivity).
  destruct ctx; [|done]. unfold encode. by rewrite empty_not_encoded by (right; by rewrite size_drawn).
Qed.
End report_photo.

(** ** A photo with a face *)

(** Bitmaps that know their size only.  A file has as many columns as it has letters [a]
    and as many rows as letters [b]; its other letters are metadata. *)
Module Sample.

Fixpoint count (c : ascii) (s : string) : nat :=
  match s with EmptyString => 0 | String d s => (if Ascii.eqb c d then 1 else 0) + count c s end.

Fixpoint repeat (n : nat) (c : ascii) (s : string) : string :=
  match n with 0 => s | S n => String c (repeat n c s) end.

Definition columns : ascii := "a"%char.
Definition rows : ascii := "b"%char.

Lemma count_repeat n c d s : count c (repeat n d s) = (if Ascii.eqb c d then n else 0) + count c s.
Proof. induction n as [|n IH]; simpl; [by destruct (Ascii.eqb c d)|]. rewrite IH. by destruct (Ascii.eqb c d). Qed.

#[local] Instance sized : Bitmaps (nat * nat) := {| bm_width b := Z.of_nat b.1; bm_height b := Z.of_nat b.2 |}.

Definition nonempty (s : Z * Z) : bool := (0 <? s.1)%Z && (0 <? s.2)%Z.

Definition decode (file : string) : outcome (nat * nat) :=
  let b := (count columns file, count rows file) in
  if nonempty (bm_width b, bm_height b) then Ok b else Throw "InvalidStateError".

Definition jpeg (p : Picture (nat * nat)) : option string :=
  if nonempty (size p) then
    Some (repeat (Z.to_nat (size p).1) columns (repeat (Z.to_nat (size p).2) rows ""))
  else None.

Lemma nonempty_true s : nonempty s = true → (0 < s.1 ∧ 0 < s.2)%Z.
Proof. intros [?%Z.ltb_lt ?%Z.ltb_lt]%andb_true_iff. done. Qed.

#[local] Program Instance decoder : Imaging (nat * nat) := {| createImageBitmap := decode; toBlob := jpeg |}.
Next Obligation.
  intros file b. unfold decode. destruct (nonempty _) eqn:E; [|done]. intros [= <-].
  by apply nonempty_true in E.
Qed.
Next Obligation.
  intros p Hs. unfold jpeg. destruct (nonempty _) eqn:E; [|done]. apply nonempty_true in E. lia.
Qed.
Next Obligation.
  intros p blob b. unfold jpeg, decode. destruct (nonempty (size p)) eqn:E; [|done]. intros [= <-].
  apply nonempty_true in E. destruct (nonempty _); [|done]. intros [= <-].
  cbn [bm_width bm_height sized fst snd]. rewrite !count_repeat. destruct (size p) as [w h]. simpl in *. f_equal; lia.
Qed.

Definition one_face : Detector (nat * nat) := λ _, Ok [mkFace (int 10) (int 10) (int 50) (int 50)].
Definition contexts : Contexts := mkContexts true true (λ _, true).
Definition file : string := repeat 60 columns (repeat 80 rows "exif").

#[local] Existing Instances Signer.sample_urls Signer.no_extension Signer.sample_bunker.
#[local] Instance photo_build : Page := {|
  window_origin := "https://sentinel.example"; window_protocol := "https:";
  window_host := "sentinel.example"; resolve_url r b := Some (b +:+ r);
  build_env name := if String.eqb name "VITE_ENABLE_EXPERIMENTAL_PHOTOS" then Some "true" else None |}.
#[local] Program Instance pinning : Fetch := {|
  fetch r := mret (mkResponse 200 (Ok (JObj [("cid", JStr "bafy")]))) |}.
Next Obligation. done. Qed.

Definition attached : outcome (option string) * World :=
  ReportPage.photo_cid (Some (processed_photo None (Ok one_face) contexts file)) fresh_world.

Lemma file_within_limits : within_limits file.
Proof.
  intros photo Hphoto. assert (createImageBitmap file = Ok (60, 80)) as Hf by (vm_compute; reflexivity).
  rewrite Hphoto in Hf. by injection Hf as ->.
Qed.

Lemma uploaded_photo_hides_faces_witness :
  attached.1 = Ok (Some "bafy") ∧
  ∃ (canvas result : Picture (nat * nat)) blob,
    covered 41 canvas [mkFace (int 10) (int 10) (int 50) (int 50)] result ∧ toBlob result = Some blob.
Proof.
  assert (attached.1 = Ok (Some "bafy")) as Ha by (vm_compute; reflexivity).
  split; [exact Ha|].
  destruct (uploaded_photo_hides_faces None (Ok one_face) contexts file fresh_world "bafy" attached.2)
    as (blob & photo & img & pw & ph & small & model & faces & result & _ & _ & _ & _ & Hmodel & (Hf & Hc & Hall) & Hb & _).
  - exact file_within_limits.
  - rewrite (surjective_pairing (ReportPage.photo_cid _ _)). exact (f_equal (λ o, (o, attached.2)) Ha).
  - destruct Hmodel as [|[_ Hmodel]]; [done|]. injection Hmodel as <-. injection Hf as <-.
    rewrite Hall in Hc by done. by eexists _, result, blob.
Defined.

End Sample.
End Photos.
