(* ===== verification/Subscriptions.v ===== *)
(** * Subscriptions to relays: [services/relay/relayPool.ts],
    [services/relay/relayClient.ts] and the subscriptions of
    [hooks/useChannelSync.ts] and [hooks/useInboxSync.ts]

    What a page receives of what a relay sends while the page is open.  [RelayPool] opens
    its subscriptions with [subscribeEose] of the relay library, which is a parameter. *)

From Stdlib Require Import QArith Lia.
From S2P Require Import Prelude JsNumber JsString JsStringFacts JsCollection Json.
From S2P Require Import Nostr CryptoModel Platform IdentityStore NostrIdentity BunkerStore Signer ChatRules.
From S2P Require Import CircleLocation GiftWrap ChatStore ChatSlices SmallSlices Web Relay ChatSync InboxSync.
Close Scope Q_scope.

Module Subscriptions.

(** What a relay sends on a subscription: an event that matches it, or the end of the
    stored events (which the pool also assumes when a relay takes too long) *)
Inductive Frame : Type := Sent (e : Event) | EndOfStored.

(** A call of a handler that [subscribe] was given *)
Inductive Call : Type := OnEvent (e : Event) | OnEose | OnClose.

(** [AbstractSimplePool.subscribeEose]: a query whose events are handed on as they come, and
    which the pool closes at the end of the stored events; it has no handler for that
    end itself. *)
Class EoseSubscription : Type := {
  subscribeEose : list string → Filter → list Frame → list Call;
  stored_handed_on relays f events : subscribeEose relays f (map Sent events) = map OnEvent events;
  closed_at_end relays f events later :
    subscribeEose relays f (map Sent events ++ EndOfStored :: later) = map OnEvent events ++ [OnClose]
}.

Section subscriptions.
Context `{Aes, Sha256, Random, NostrTools, UrlParser, Extension, Bunkers, Page, Pool, Fetch, EoseSubscription}.

(** [RelayPool.subscribe], and [RelayPoolAdapter.subscribe], which names two handlers *)
Definition pool_subscribe (relays : list string) (f : Filter) (frames : list Frame) : list Call :=
  subscribeEose relays f frames.

Definition subscribe {W S} (relays : list string) (f : Filter) (frames : list Frame)
    (onEvent : S → Event → prog W S) (onEose : S → prog W S) (s : S) : prog W S :=
  for_fold (pool_subscribe relays f frames) s (λ s call,
    match call with OnEvent e => onEvent s e | OnEose => onEose s | OnClose => mret s end).

(** The subscription of an open channel: the ids seen are carried along. *)
Definition channel_subscription (ref : ChatSync.ChannelRef) (l : ChatSync.Live) (frames : list Frame) : prog App ChatSync.Live :=
  subscribe [ChatSync.cf_relayUrl ref] (ChatSync.subscription_filter (ChatSync.cf_groupId ref) (ChatSync.lv_since l)) frames
    (ChatSync.live_event ref) (λ l, _ ← ChatSync.on_eose ref; mret l) l.

(** The subscription of the inbox; [disposed] is read for each wrap, and an error of the
    handling of one is nobody's. *)
Definition inbox_subscription (signer : NostrSigner World) (inbox : string) (f : Filter)
    (disposed : Event → bool) (frames : list Frame) : prog App unit :=
  subscribe [inbox] f frames
    (λ _ wrap, ChatSync.ignored (InboxSync.receive_wrap signer (disposed wrap) wrap)) (λ _, mret tt) tt.

(** ** What is received *)

Lemma for_fold_app {W A S} (xs ys : list A) (s : S) (step : S → A → prog W S) w :
  for_fold (xs ++ ys) s step w = (s' ← for_fold xs s step; for_fold ys s' step) w.
Proof.
  revert s w. induction xs as [|x xs IH]; intros s w; [done|]. cbn [for_fold List.app].
  unfold mbind, prog_bind. destruct (step s x w) as [[s1|e] w1]; [apply IH|done].
Qed.

(** Nothing that a relay sends after its stored events is received. *)
Lemma subscribe_stored_only {W S} relays f events later onEvent onEose (s : S) (w : W) :
  subscribe relays f (map Sent events ++ EndOfStored :: later) onEvent onEose s w =
  for_fold events s onEvent w.
Proof.
  unfold subscribe, pool_subscribe. rewrite closed_at_end, for_fold_app. unfold mbind, prog_bind.
  assert (∀ s w, for_fold (map OnEvent events) s (λ s call,
    match call with OnEvent e => onEvent s e | OnEose => onEose s | OnClose => mret s end) w =
    for_fold events s onEvent w) as ->.
  { induction events as [|e es IH]; intros s' w'; [done|]. cbn [for_fold map].
    unfold mbind, prog_bind. destruct (onEvent s' e w') as [[s1|m] w1]; [apply IH|done]. }
  by destruct (for_fold events s onEvent w) as [[s1|m] w1].
Qed.

(** An open channel takes in the events that the relay had stored, and none that is sent
    later; and it is never marked as synchronised. *)
Theorem channel_misses_later_messages ref l events later a :
  channel_subscription ref l (map Sent events ++ EndOfStored :: later) a =
    for_fold events l (ChatSync.live_event ref) a ∧
  Chat.synced (Root.chat (store (channel_subscription ref l (map Sent events ++ EndOfStored :: later) a).2)) =
    Chat.synced (Root.chat (store a)).
Proof.
  unfold channel_subscription. rewrite subscribe_stored_only. split; [done|].
  revert l a. induction events as [|e es IH]; intros l a; [done|].
  assert (∀ v, preserves (λ b, Chat.synced (Root.chat (store b)) = v) (ChatSync.live_event ref l e)) as Hkeep.
  { intros v. unfold ChatSync.live_event, ChatSync.channel_event. apply preserves_bind; [|intros ?; apply preserves_ret].
    apply preserves_bind; [by intros b <-; rewrite service_store|]. intros now.
    destruct (negb _); [apply preserves_ret|]. destruct (includes _ _); [apply preserves_ret|].
    apply preserves_bind; [|intros ?; apply preserves_ret]. apply preserves_bind.
    - unfold ChatSync.remember. apply preserves_try_catch; [by intros b <-; rewrite service_store|].
      intros m. apply preserves_ret.
    - intros []. apply preserves_modify. by intros b <-. }
  specialize (Hkeep _ a eq_refl). cbn [for_fold]. unfold mbind, prog_bind.
  destruct (ChatSync.live_event ref l e a) as [[l1|m] a1]; [|done]. cbn in Hkeep.
  rewrite IH. done.
Qed.

(** Nor does the inbox of an open page receive a private message that arrives later. *)
Theorem inbox_misses_later_messages signer inbox f disposed events later a :
  inbox_subscription signer inbox f disposed (map Sent events ++ EndOfStored :: later) a =
  for_fold events tt (λ _ wrap, ChatSync.ignored (InboxSync.receive_wrap signer (disposed wrap) wrap)) a.
Proof. apply subscribe_stored_only. Qed.
End subscriptions.

(** A pool that behaves so: the calls for the frames up to the end of the stored events *)
Fixpoint until_end (frames : list Frame) : list Call :=
  match frames with
  | [] => []
  | Sent e :: frames => OnEvent e :: until_end frames
  | EndOfStored :: _ => [OnClose]
  end.

Lemma until_end_sent events rest : until_end (map Sent events ++ rest) = map OnEvent events ++ until_end rest.
Proof. induction events as [|e events IH]; [done|]. cbn. by rewrite IH. Qed.

#[local] Program Instance library : EoseSubscription := {| subscribeEose _ _ frames := until_end frames |}.
Next Obligation. intros r f events. cbn beta. rewrite <-(app_nil_r (map Sent events)), until_end_sent. apply app_nil_r. Qed.
Next Obligation. intros r f events later. apply until_end_sent. Qed.

End Subscriptions.
